(* ===== verification/_CoqProject ===== *)
-Q . S2P
Prelude.v
Endian.v
ParseError.v
Checksum.v
Text.v
Double.v
Pcap.v
Ethernet.v
Vlan.v
Ip.v
Ipv4.v
Ipv6.v
Arp.v
Ipv6Ext.v
Icmp.v
Icmpv6.v
Tcp.v
Udp.v
Dns.v
Http.v
DnsTable.v
Packet.v
PacketDecoder.v
TcpReassembler.v
ReassemblerSafety.v
FlowKey.v
FlowTable.v
AppDecoder.v
Benchmark.v
Decoder.v
DecoderSafety.v
Reader.v
StatsEngine.v
Args.v
Cli.v
Safety.v
Mapping.v
Fuzz.v
Seeds.v
SeedTool.v
