(* ===== verification/Prelude.v ===== *)
(** * A verification of pcap-analyzer

    pcap-analyzer reads a capture file, decodes the frames in it layer by layer,
    tracks the flows they belong to, reassembles TCP streams, decodes DNS and
    HTTP messages from them, and reports what it found.  This library is a
    shallow embedding of the program under [src/] and [include/] and the theorems
    that make it correct.

    ** How the model corresponds to the code

    There is one file per component, and its definitions have the names of the
    functions, methods and constants they translate.

    - [Endian], [ParseError], [Checksum], [Text], [Double]: [net/util/];
      [Double] has the helpers that print floating-point numbers.
    - [Pcap]: the file and record headers of [net/capture/pcap].
    - [Ethernet], [Vlan], [Arp], [Ip], [Ipv4], [Ipv6], [Ipv6Ext], [Icmp],
      [Icmpv6], [Tcp], [Udp], [Dns], [Http]: the protocol of the same name in
      [net/protocols/]: the header structure, [parse], the accessors and the
      printers.
    - [Packet], [PacketDecoder]: [net/decode/packet], [packet_decoder].
    - [FlowKey], [FlowTable], [TcpReassembler]: [net/flow/].
    - [DnsTable], [Benchmark], [StatsEngine]: [net/analysis/].
    - [AppDecoder], [Decoder]: [net/decode/app_decoder], [decoder].
    - [Reader]: [net/capture/pcap_reader], over the bytes of a capture;
      [Mapping]: its constructor over a file, and its destructor.
    - [Args], [Cli]: [src/cli/cli.cpp], the parsing of the arguments and the rest.
    - [Fuzz]: the fuzz targets [fuzz/fuzz_*.cpp]; [Seeds], [SeedTool]:
      [fuzz/fuzz_seeds.cpp], the formats and the program.
    - [ReassemblerSafety], [DecoderSafety], [Safety] model no code of their own:
      they carry one invariant from the reassembler over the decoder to the
      reader and the whole program.

    The parts are composed as the program composes them: [Cli.cli] parses the
    arguments and runs a [Reader], which owns a [Decoder] and hands every
    record to [Decoder.decode]; that calls [PacketDecoder.decodePacket],
    [FlowTable.addPacket], both directions' [TcpReassembler] and
    [AppDecoder.pollFlow] or [pollDatagram], which fills the [DnsTable]; the
    reports of [StatsEngine] read the state this leaves.  The fuzz targets drive
    the same parsers and the same reader, and [SeedTool.generate] decodes a
    capture with them to choose its seeds.

    Conventions.  A routine that may meet undefined behaviour, or whose loop is
    not structural, returns an [outcome] (below).  Undefined behaviour here is a
    read outside a buffer, a view past its end, a dangling pointer, the broken
    precondition of a library function ([std::lower_bound] on a range that is not
    sorted, [std::isdigit] of a negative [char]).  A position in a buffer is an
    offset, and computing one is never undefined: that [parseName] of [dns.cpp]
    forms the address [cur + len], up to 63 bytes past the end, to compare it
    with the end, is undefined by the letter of the standard and not counted.  A reference or pointer
    parameter is threaded: [parse span header endian] returns the error code
    with the span and the header as the code leaves them, also on its error
    paths.  A pointer into a hash map is the key of its node.
    [std::span<const uint8_t>] and [std::string] are lists of bytes, a
    byte a [Z] between 0 and 255; [size_t], [uint32_t] and the others are [Z]
    with the wrap-around written out ([u64], [u32], [u16], [u8], [i32]) where
    the code computes, the implicit promotions to [int] included.  A [double] is
    a binary64 number of the Standard Library's [SpecFloat].  A structure
    filled by [memcpy] is a record read field by field from the bytes in the
    host's (little-endian) order, and an anonymous union is its raw bytes with
    one accessor per member.  [std::unordered_map] is a [gmap]; the order in
    which it is walked and the algorithm of [std::sort] are the standard
    library's and are parameters with their documented behaviour as hypothesis.
    [std::map] is a list sorted by its keys.  [std::vector] is a list; capacities
    are not observable and are left out.  The clock is any function of the number
    of readings.  The file system's answers are parameters of [Cli] and [SeedTool], and the
    calls [Mapping] makes are classes with the laws of their manuals.

    ** Fuel

    A [loop] gets one unit of fuel per round; each routine computes a fuel from
    its input: the length of the span for the checksum, the address and message
    parsers and the reading of records (every round takes at least a byte), the
    tag and header limits for the decoder, the bytes available in the stream
    for the polls of the application decoder and the loops of the fuzz targets,
    plus one.  The theorems show that
    it never runs out: their conclusions name the result, and [NoFuel] is none.

    ** What the theorems show

    - The checksum is RFC 1071's for every block ([Checksum]).
    - Decoding is memory safe on every input, dispatches by the protocol fields
      and inverts a reference encoder of TCP over IPv4 and UDP over IPv6 with
      VLAN tags ([PacketDecoder]); capture headers in either byte order are
      parsed back ([Pcap]); addresses, JSON strings and numbers round-trip
      ([Ipv4], [Ipv6], [Text]).
    - DNS names follow compression pointers exactly as a reference reading does,
      up to 256 octets, one more than RFC 1035 allows; every message is parsed without leaving the buffer, and a reference
      encoder is inverted ([Dns]).  HTTP messages are framed by exactly one of
      the rules of RFC 9112, an encoder is inverted, and a chunked body that
      arrives in instalments parses as one that arrives at once ([Http]).
    - The reassembler delivers a contiguous piece of the sent stream (of less than
      2 GiB) whatever the network does, and the whole stream when all of it arrived within the
      out-of-order budget, across sequence number wrap-around
      ([TcpReassembler]).
    - Packets of both directions fall in one flow, every packet that is not ARP is
      counted once, and expired flows are retired unchanged ([FlowKey],
      [FlowTable]).
    - Polling a stream is safe and terminates, with the exceptions below, and a
      stream of encoded messages within the decoder's limits is decoded to exactly
      those messages ([AppDecoder]).
    - The decoder's pointers from flows to application state never dangle, a
      packet with an error or excluded by the filter changes no state
      ([Decoder]).
    - Decoding any packet returns, TCP included ([DecoderSafety]); so does
      reading a capture to its end, and the whole program with an exit code
      ([Safety]).  A filter that excludes TCP needs nothing else; otherwise
      every TCP segment must be [quiet] when the decoder comes to it: three inputs
      break the program and are excluded ([AppDecoder.head_pipelining],
      [ReassemblerSafety.reopened_undefined], [Http.negative_digit]), the last of
      them, a text that is not [Http.plain], wherever HTTP is parsed.
      [calm_check], [quiet_check] and [Http.plain_check] decide sufficient
      conditions by running.
    - Reading a capture is decoding its records one by one, and every record up
      to the first that is cut short is accepted, skipped or filtered out as
      [decode] answers, and counted so ([Reader]).  However
      opening a file ends, no descriptor or mapping is left behind ([Mapping]).
    - Times of nested phases add up ([Benchmark]); the reports list each
      protocol once with all its bytes and cut off at their limits
      ([StatsEngine]).
    - Every command line is answered with a message or with valid options, and
      written arguments are read back as what they say ([Args]); the exit code
      tells whether something went wrong, the packets' section is the first
      packets up to the limit, and a run that succeeds leaves exactly the files
      asked for ([Cli]).
    - Four of the fuzz targets pass on every input, those for HTTP and for
      captures on every input that avoids the undefined behaviour above ([Fuzz]).  Base64 and the file of seeds
      round-trip ([Seeds]); the generator always answers, the file it leaves is
      read back as the seeds it collected, in order, and unpacking writes every
      seed's bytes to its file or answers with an error ([SeedTool]).
    - Some theorems record surprising behaviour: [head_pipelining],
      [head_pipelining_undefined], [negative_digit], [long_name_accepted],
      [fcs_linktype], [retired_listed_twice], [zero_address_ignored],
      [half_closed_unreadable], [reopened_undefined],
      [isExpired_out_of_order], [decode_ipv4_fragment].

    ** What is not modelled

    Changes of a file while it is mapped; allocation failures and the other
    exceptions of the standard library; the buffering of streams; the capacities
    of containers; the test suite and the build scripts.  Planned next: the
    escaping of every string in the JSON reports; the order of the DNS report;
    that the seeds [generate] writes for [fuzz_capture] are captures whose
    records are those of the input. *)
From Stdlib Require Export ZArith Lia ZifyBool.
From stdpp Require Export base numbers list option strings.
#[global] Open Scope Z_scope.

(** ** Outcomes

    A C++ routine either returns, or runs into behaviour the language leaves
    undefined (a read or a [subspan] outside its buffer, a violated
    precondition of a library algorithm, a dangling pointer).  Loops that are
    not structural carry fuel, and running out of it is an outcome of its own,
    so that termination is something to prove. *)

Inductive outcome (A : Type) : Type :=
| Ret (a : A)
| UB
| NoFuel.
Arguments Ret {A} a.
Arguments UB {A}.
Arguments NoFuel {A}.

#[export] Instance outcome_ret : MRet outcome := @Ret.
#[export] Instance outcome_bind : MBind outcome := λ A B f m,
  match m with Ret a => f a | UB => UB | NoFuel => NoFuel end.

(** [wp m Q]: [m] returns (no undefined behaviour, no missing fuel) and its
    result satisfies [Q]. *)
Definition wp {A} (m : outcome A) (Q : A → Prop) : Prop :=
  match m with Ret a => Q a | _ => False end.

Lemma wp_ret {A} (a : A) (Q : A → Prop) : Q a → wp (Ret a) Q.
Proof. done. Qed.

Lemma wp_bind {A B} (m : outcome A) (f : A → outcome B) (Q : B → Prop) :
  wp m (λ a, wp (f a) Q) → wp (m ≫= f) Q.
Proof. by destruct m. Qed.

Lemma wp_mono {A} (m : outcome A) (P Q : A → Prop) :
  wp m P → (∀ a, P a → Q a) → wp m Q.
Proof. destruct m; naive_solver. Qed.

Lemma wp_and {A} (m : outcome A) (P Q : A → Prop) :
  wp m P → wp m Q → wp m (λ a, P a ∧ Q a).
Proof. by destruct m. Qed.

Lemma wp_returns {A} (m : outcome A) (Q : A → Prop) :
  wp m Q → ∃ a, m = Ret a ∧ Q a.
Proof. destruct m; naive_solver. Qed.

(** Whether a computation returns, and what. *)
Definition returns {A} (m : outcome A) : bool := match m with Ret _ => true | _ => false end.
Definition returned {A} (d : A) (m : outcome A) : A := match m with Ret a => a | _ => d end.
Lemma returns_eq {A} (d : A) m : returns m = true → m = Ret (returned d m).
Proof. by destruct m. Qed.

(** [wp_if P m Q]: the same, where [P] holds; where it does not, [m] may also run
    into undefined behaviour. *)
Definition wp_if {A} (P : Prop) (m : outcome A) (Q : A → Prop) : Prop :=
  match m with Ret a => Q a | UB => ¬ P | NoFuel => False end.

Lemma wp_if_wp {A} (P : Prop) (m : outcome A) (Q : A → Prop) : P → wp_if P m Q → wp m Q.
Proof. by destruct m. Qed.
Lemma wp_if_of_wp {A} (P : Prop) (m : outcome A) (Q : A → Prop) : wp m Q → wp_if P m Q.
Proof. by destruct m. Qed.
Lemma wp_if_bind {A B} (P : Prop) (m : outcome A) (f : A → outcome B) (Q : B → Prop) :
  wp_if P m (λ a, wp_if P (f a) Q) → wp_if P (m ≫= f) Q.
Proof. by destruct m. Qed.
Lemma wp_if_mono {A} (P P' : Prop) (m : outcome A) (Q Q' : A → Prop) :
  wp_if P m Q → (P' → P) → (∀ a, Q a → Q' a) → wp_if P' m Q'.
Proof. destruct m; naive_solver. Qed.
Lemma wp_if_inv {A} (P : Prop) (m : outcome A) (a : A) (Q : A → Prop) : m = Ret a → wp_if P m Q → Q a.
Proof. by intros ->. Qed.

Lemma wp_of_eq {A} (m : outcome A) (a : A) (Q : A → Prop) :
  m = Ret a → Q a → wp m Q.
Proof. by intros ->. Qed.

Lemma wp_inv {A} (m : outcome A) (a : A) (Q : A → Prop) :
  m = Ret a → wp m Q → Q a.
Proof. by intros ->. Qed.

Lemma bind_ret {A B} (a : A) (f : A → outcome B) : (Ret a ≫= f) = f a.
Proof. done. Qed.

Lemma bind_Ret_inv {A B} (m : outcome A) (f : A → outcome B) b :
  (m ≫= f) = Ret b → ∃ a, m = Ret a ∧ f a = Ret b.
Proof. destruct m; naive_solver. Qed.

(** ** Loops

    [loop fuel body s] runs [body] until it stops.  A body either goes on with
    a new state or stops with a result ([break], [return]). *)

Inductive control (S R : Type) : Type :=
| Next (s : S)
| Stop (r : R).
Arguments Next {S R} s.
Arguments Stop {S R} r.

Fixpoint loop {S R} (fuel : nat) (body : S → outcome (control S R)) (s : S) : outcome R :=
  match fuel with
  | O => NoFuel
  | S fuel =>
      c ← body s;
      match c with
      | Next s' => loop fuel body s'
      | Stop r => Ret r
      end
  end.

(** The loop rule: an invariant, a measure every iteration decreases, and what
    holds of the result. *)
Lemma wp_loop {S R} (I : S → Prop) (Q : R → Prop) (mu : S → Z)
    (body : S → outcome (control S R)) :
  (∀ s, I s → wp (body s) (λ c,
     match c with
     | Next s' => I s' ∧ 0 ≤ mu s' < mu s
     | Stop r => Q r
     end)) →
  ∀ fuel s, I s → 0 ≤ mu s < Z.of_nat fuel → wp (loop fuel body s) Q.
Proof.
  intros Hbody fuel. induction fuel as [|fuel IH]; intros s HI Hmu; [lia|].
  cbn [loop]. apply wp_bind. eapply wp_mono; [by apply Hbody|].
  intros [s'|r]; [|done]. intros [HI' Hmu']. apply IH; [done|lia].
Qed.

(** More fuel never changes an answer. *)
Lemma loop_fuel_le {S R} (body : S → outcome (control S R)) fuel fuel' s r :
  (fuel ≤ fuel')%nat → loop fuel body s = Ret r → loop fuel' body s = Ret r.
Proof.
  revert fuel' s. induction fuel as [|fuel IH]; intros fuel' s Hle Hr; [done|].
  destruct fuel' as [|fuel']; [lia|]. cbn [loop] in *.
  apply bind_Ret_inv in Hr as (c & -> & Hr). rewrite bind_ret.
  destruct c; [|done]. apply IH; [lia|done].
Qed.

(** Where going on always lowers a measure, all sufficient fuels agree. *)
Lemma loop_enough {S R} (I : S → Prop) (mu : S → Z) (body : S → outcome (control S R)) :
  (∀ s s', I s → body s = Ret (Next s') → I s' ∧ 0 ≤ mu s' < mu s) →
  ∀ fuel fuel' s, I s → 0 ≤ mu s < Z.of_nat fuel → mu s < Z.of_nat fuel' →
  loop fuel body s = loop fuel' body s.
Proof.
  intros Hb fuel. induction fuel as [|fuel IH]; intros fuel' s HI Hf Hf'; [lia|].
  destruct fuel' as [|fuel']; [lia|]. cbn [loop].
  destruct (body s) as [[s'|r]| |] eqn:E; [|done..]. rewrite !bind_ret.
  destruct (Hb s s' HI E) as [HI' Hmu]. apply IH; [done|lia..].
Qed.

Lemma loop_unique {S R} (body : S → outcome (control S R)) fuel fuel' s r r' :
  loop fuel body s = Ret r → loop fuel' body s = Ret r' → r = r'.
Proof.
  intros H%(loop_fuel_le _ _ (fuel + fuel')) H'%(loop_fuel_le _ _ (fuel + fuel')); [|lia..].
  congruence.
Qed.

(** Two loops that go in step: [f] relates their states, [g] the results that
    matter. *)
Lemma loop_map {S S' R R'} (body : S → outcome (control S R)) (body' : S' → outcome (control S' R'))
    (f : S → S') (g : R → R') (ok : R → Prop) :
  (∀ s s', body s = Ret (Next s') → body' (f s) = Ret (Next (f s'))) →
  (∀ s r, body s = Ret (Stop r) → ok r → body' (f s) = Ret (Stop (g r))) →
  ∀ fuel s r, loop fuel body s = Ret r → ok r → loop fuel body' (f s) = Ret (g r).
Proof.
  intros Hn Hs fuel. induction fuel as [|fuel IH]; intros s r Hl Hok; [done|]. cbn [loop] in *.
  apply bind_Ret_inv in Hl as ([s'|r'] & Hb & Hl).
  - rewrite (Hn _ _ Hb), bind_ret. by apply IH.
  - injection Hl as ->. by rewrite (Hs _ _ Hb Hok).
Qed.

(** [reaches body s s']: some rounds of the loop lead from [s] to [s']. *)
Inductive reaches {S R} (body : S → outcome (control S R)) : S → S → Prop :=
| reaches_refl s : reaches body s s
| reaches_step s s' s'' : body s = Ret (Next s') → reaches body s' s'' → reaches body s s''.

Lemma loop_reaches {S R} (body : S → outcome (control S R)) fuel s r :
  loop fuel body s = Ret r → ∃ s', reaches body s s' ∧ body s' = Ret (Stop r).
Proof.
  revert s. induction fuel as [|fuel IH]; intros s Hl; [done|]. cbn [loop] in Hl.
  apply bind_Ret_inv in Hl as ([s1|r'] & Hb & Hl).
  - destruct (IH s1 Hl) as (s' & Hs & Hr). exists s'. split; [by eapply reaches_step|done].
  - injection Hl as ->. exists s. split; [constructor|done].
Qed.
Lemma reaches_loop {S R} (body : S → outcome (control S R)) s s' fuel r :
  reaches body s s' → loop fuel body s' = Ret r → ∃ fuel', loop fuel' body s = Ret r.
Proof.
  induction 1 as [s|s s1 s' Hb _ IH]; intros Hl; [by exists fuel|].
  destruct (IH Hl) as [fuel' H]. exists (Datatypes.S fuel'). cbn [loop]. by rewrite Hb, bind_ret.
Qed.

(** ** Machine integers

    An unsigned integer of width [w] is a [Z] in [0 .. 2^w-1]; arithmetic wraps
    by reduction modulo [2^w].  [i32] is the cast to a signed 32-bit integer. *)

Definition u8 (z : Z) : Z := z mod 2 ^ 8.
Definition u16 (z : Z) : Z := z mod 2 ^ 16.
Definition u32 (z : Z) : Z := z mod 2 ^ 32.
Definition u64 (z : Z) : Z := z mod 2 ^ 64.
Definition i32 (z : Z) : Z := (z + 2 ^ 31) mod 2 ^ 32 - 2 ^ 31.

Lemma u16_small z : 0 ≤ z < 65536 → u16 z = z.
Proof. intros. by apply Z.mod_small. Qed.
Lemma u32_small z : 0 ≤ z < 4294967296 → u32 z = z.
Proof. intros. by apply Z.mod_small. Qed.
Lemma u64_small z : 0 ≤ z < 18446744073709551616 → u64 z = z.
Proof. intros. by apply Z.mod_small. Qed.
Lemma u32_range z : 0 ≤ u32 z < 4294967296.
Proof. by apply Z.mod_pos_bound. Qed.
Lemma u64_range z : 0 ≤ u64 z < 18446744073709551616.
Proof. by apply Z.mod_pos_bound. Qed.

Lemma u64_le z : 0 ≤ z → u64 z ≤ z.
Proof. intros. apply Z.mod_le; lia. Qed.
Lemma u16_range z : 0 ≤ u16 z < 65536.
Proof. by apply Z.mod_pos_bound. Qed.

(** Nested wrap-arounds collapse: sequence numbers are added and subtracted
    modulo [2^32], and the signed view recovers a small difference. *)
Lemma u32_add_l a b : u32 (u32 a + b) = u32 (a + b).
Proof. unfold u32. by rewrite Zplus_mod_idemp_l. Qed.
Lemma u32_add_r a b : u32 (a + u32 b) = u32 (a + b).
Proof. unfold u32. by rewrite Zplus_mod_idemp_r. Qed.
Lemma u32_sub_l a b : u32 (u32 a - b) = u32 (a - b).
Proof. unfold u32. by rewrite Zminus_mod_idemp_l. Qed.
Lemma u32_sub_r a b : u32 (a - u32 b) = u32 (a - b).
Proof. unfold u32. by rewrite Zminus_mod_idemp_r. Qed.

Lemma u32_u32 z : u32 (u32 z) = u32 z.
Proof. unfold u32. by rewrite Z.mod_mod. Qed.

Lemma u32_diff isn a b : u32 (u32 (isn + a) - u32 (isn + b)) = u32 (a - b).
Proof. rewrite u32_sub_l, u32_sub_r. f_equal. lia. Qed.

Lemma i32_u32 z : i32 (u32 z) = i32 z.
Proof. unfold i32, u32. by rewrite Zplus_mod_idemp_l. Qed.
Lemma i32_small z : - 2147483648 ≤ z < 2147483648 → i32 z = z.
Proof. intros. unfold i32. rewrite Z.mod_small by lia. lia. Qed.

(** Bit operations as arithmetic: a mask selects a run of bits, and joining
    disjoint runs is an addition. *)
Lemma land_ones_shift x k s :
  0 ≤ k → 0 ≤ s →
  Z.land x (Z.shiftl (Z.ones k) s) = Z.shiftl ((x / 2 ^ s) mod 2 ^ k) s.
Proof.
  intros Hk Hs. rewrite <- Z.shiftr_div_pow2, <- Z.land_ones by done.
  apply Z.bits_inj'; intros n Hn. rewrite Z.land_spec, !Z.shiftl_spec by done.
  destruct (Z.ltb_spec n s).
  - rewrite !(Z.testbit_neg_r _ (n - s)) by lia. by rewrite andb_false_r.
  - rewrite Z.land_spec, Z.shiftr_spec by lia. by replace (n - s + s) with n by lia.
Qed.

Lemma lor_disjoint a b k :
  0 ≤ k → 0 ≤ a < 2 ^ k → Z.lor a (Z.shiftl b k) = a + b * 2 ^ k.
Proof.
  intros Hk Ha. rewrite <- Z.shiftl_mul_pow2 by done.
  enough (Z.land a (Z.shiftl b k) = 0).
  { by rewrite Z.add_nocarry_lxor, Z.lxor_lor. }
  apply Z.bits_inj'; intros n Hn.
  rewrite Z.land_spec, Z.bits_0, Z.shiftl_spec by done.
  destruct (Z.ltb_spec n k).
  - by rewrite (Z.testbit_neg_r _ (n - k)), andb_false_r by lia.
  - replace a with (a mod 2 ^ k) by (apply Z.mod_small; lia).
    by rewrite Z.mod_pow2_bits_high by lia.
Qed.

(** ** Buffers

    A [std::span<const uint8_t>] (and a [std::vector<uint8_t>], a
    [std::string], a [std::string_view]) is the list of its bytes; a pointer
    into a buffer is the list of bytes from it to the buffer's end. *)

Abbreviation bytes := (list Z).

Definition is_byte (b : Z) : Prop := 0 ≤ b < 256.
Definition bytes_ok (l : bytes) : Prop := Forall is_byte l.

Definition len {A} (l : list A) : Z := Z.of_nat (length l).
Definition ztake {A} (n : Z) (l : list A) : list A := take (Z.to_nat n) l.
Definition zdrop {A} (n : Z) (l : list A) : list A := drop (Z.to_nat n) l.

(** [span.first(n)] and the [n] bytes a [memcpy] reads. *)
Definition first (n : Z) (s : bytes) : outcome bytes :=
  if (0 <=? n) && (n <=? len s) then Ret (ztake n s) else UB.
Definition memcpy (s : bytes) (n : Z) : outcome bytes := first n s.

(** [span.subspan(off)] and [span.subspan(off, n)]. *)
Definition subspan (s : bytes) (off : Z) : outcome bytes :=
  if (0 <=? off) && (off <=? len s) then Ret (zdrop off s) else UB.
Definition subspan_n (s : bytes) (off n : Z) : outcome bytes :=
  t ← subspan s off; first n t.

(** [data[i]]. *)
Definition at_ (s : bytes) (i : Z) : outcome Z :=
  if (0 <=? i) then
    match s !! Z.to_nat i with Some b => Ret b | None => UB end
  else UB.

Lemma len_nonneg {A} (l : list A) : 0 ≤ len l.
Proof. unfold len. lia. Qed.
Lemma len_nil {A} : len (@nil A) = 0.
Proof. done. Qed.
Lemma len_cons {A} (x : A) l : len (x :: l) = 1 + len l.
Proof. unfold len. cbn [length]. lia. Qed.
Lemma len_app {A} (l k : list A) : len (l ++ k) = len l + len k.
Proof. unfold len. rewrite length_app. lia. Qed.
Lemma len_ztake {A} n (l : list A) : 0 ≤ n ≤ len l → len (ztake n l) = n.
Proof. unfold len, ztake. rewrite length_take. lia. Qed.
Lemma len_zdrop {A} n (l : list A) : 0 ≤ n ≤ len l → len (zdrop n l) = len l - n.
Proof. unfold len, zdrop. rewrite length_drop. lia. Qed.
Lemma len_ztake_le {A} n (l : list A) : len (ztake n l) ≤ len l.
Proof. unfold len, ztake. rewrite length_take. lia. Qed.
Lemma len_zdrop_le {A} n (l : list A) : len (zdrop n l) ≤ len l.
Proof. unfold len, zdrop. rewrite length_drop. lia. Qed.
Lemma len_0_nil {A} (l : list A) : len l = 0 → l = [].
Proof. unfold len. destruct l; [done|cbn; lia]. Qed.

Lemma ztake_zdrop {A} n (l : list A) : ztake n l ++ zdrop n l = l.
Proof. apply take_drop. Qed.
Lemma zdrop_0 {A} (l : list A) : zdrop 0 l = l.
Proof. done. Qed.
Lemma zdrop_zdrop {A} n m (l : list A) :
  0 ≤ n → 0 ≤ m → zdrop n (zdrop m l) = zdrop (m + n) l.
Proof. intros. unfold zdrop. rewrite drop_drop. f_equal. lia. Qed.
Lemma zdrop_app_exact {A} n (l k : list A) : len l = n → zdrop n (l ++ k) = k.
Proof. intros <-. unfold zdrop, len. rewrite Nat2Z.id. apply drop_app_length. Qed.
Lemma ztake_app_exact {A} n (l k : list A) : len l = n → ztake n (l ++ k) = l.
Proof. intros <-. unfold ztake, len. rewrite Nat2Z.id. apply take_app_length. Qed.
Lemma zdrop_ge {A} n (l : list A) : len l ≤ n → zdrop n l = [].
Proof. intros. unfold zdrop, len in *. apply drop_ge. lia. Qed.
Lemma ztake_ge {A} n (l : list A) : len l ≤ n → ztake n l = l.
Proof. intros. unfold ztake, len in *. apply take_ge. lia. Qed.

Lemma ztake_app_le {A} n (l k : list A) : n ≤ len l → ztake n (l ++ k) = ztake n l.
Proof. intros. unfold ztake. apply take_app_le. unfold len in *. lia. Qed.
Lemma zdrop_app_le {A} n (l k : list A) : n ≤ len l → zdrop n (l ++ k) = zdrop n l ++ k.
Proof. intros. unfold zdrop. apply drop_app_le. unfold len in *. lia. Qed.

Lemma bytes_ok_app l k : bytes_ok (l ++ k) ↔ bytes_ok l ∧ bytes_ok k.
Proof. apply Forall_app. Qed.
Lemma bytes_ok_ztake n l : bytes_ok l → bytes_ok (ztake n l).
Proof. apply Forall_take. Qed.
Lemma bytes_ok_zdrop n l : bytes_ok l → bytes_ok (zdrop n l).
Proof. apply Forall_drop. Qed.
Lemma bytes_ok_lookup l i b : bytes_ok l → l !! i = Some b → is_byte b.
Proof. intros Hl. by apply Forall_lookup_1. Qed.

Lemma wp_first n s (Q : bytes → Prop) :
  0 ≤ n ≤ len s → Q (ztake n s) → wp (first n s) Q.
Proof. intros. unfold first. rewrite (proj2 (Z.leb_le _ _)), (proj2 (Z.leb_le _ _)) by lia. done. Qed.
Lemma wp_memcpy n s (Q : bytes → Prop) :
  0 ≤ n ≤ len s → Q (ztake n s) → wp (memcpy s n) Q.
Proof. apply wp_first. Qed.
Lemma wp_subspan s off (Q : bytes → Prop) :
  0 ≤ off ≤ len s → Q (zdrop off s) → wp (subspan s off) Q.
Proof. intros. unfold subspan. rewrite (proj2 (Z.leb_le _ _)), (proj2 (Z.leb_le _ _)) by lia. done. Qed.
Lemma wp_subspan_n s off n (Q : bytes → Prop) :
  0 ≤ off → 0 ≤ n → off + n ≤ len s → Q (ztake n (zdrop off s)) → wp (subspan_n s off n) Q.
Proof.
  intros. unfold subspan_n. apply wp_bind, wp_subspan; [lia|].
  apply wp_first; [|done]. rewrite len_zdrop; lia.
Qed.
Lemma wp_at s i (Q : Z → Prop) :
  0 ≤ i < len s → (∀ b, s !! Z.to_nat i = Some b → Q b) → wp (at_ s i) Q.
Proof.
  intros Hi HQ. unfold at_. rewrite (proj2 (Z.leb_le _ _)) by lia.
  destruct (s !! Z.to_nat i) eqn:E; [by apply HQ|].
  apply lookup_ge_None_1 in E. unfold len in Hi. lia.
Qed.

Lemma zdrop_cons {A} i (l : list A) (x : A) :
  0 ≤ i → l !! Z.to_nat i = Some x → zdrop i l = x :: zdrop (i + 1) l.
Proof.
  intros Hi Hx. unfold zdrop. rewrite (drop_S l x _ Hx). do 3 f_equal. lia.
Qed.
Lemma lookup_ztake {A} i n (l : list A) :
  0 ≤ i < n → ztake n l !! Z.to_nat i = l !! Z.to_nat i.
Proof. intros. unfold ztake. apply lookup_take_lt. lia. Qed.
Lemma ztake_zdrop_ztake {A} i k n (l : list A) :
  0 ≤ i → 0 ≤ k → i + k ≤ n → ztake k (zdrop i (ztake n l)) = ztake k (zdrop i l).
Proof.
  intros. unfold ztake, zdrop. rewrite skipn_firstn_comm, take_take.
  f_equal. lia.
Qed.

(** A span that starts with [n] known bytes. *)
Lemma ltb_app_exact {A} (l k : list A) n : len l = n → (len (l ++ k) <? n) = false.
Proof. intros <-. rewrite len_app. pose proof (len_nonneg k). apply Z.ltb_ge. lia. Qed.
Lemma first_app_exact n l k : len l = n → first n (l ++ k) = Ret l.
Proof.
  intros Hl. unfold first. rewrite ztake_app_exact by done.
  pose proof (len_nonneg l). pose proof (len_nonneg k). rewrite len_app.
  rewrite (proj2 (Z.leb_le _ _)), (proj2 (Z.leb_le _ _)) by lia. done.
Qed.
Lemma memcpy_app_exact n l k : len l = n → memcpy (l ++ k) n = Ret l.
Proof. apply first_app_exact. Qed.
Lemma subspan_app_exact n l k : len l = n → subspan (l ++ k) n = Ret k.
Proof.
  intros Hl. unfold subspan. rewrite zdrop_app_exact by done.
  pose proof (len_nonneg l). pose proof (len_nonneg k). rewrite len_app.
  rewrite (proj2 (Z.leb_le _ _)), (proj2 (Z.leb_le _ _)) by lia. done.
Qed.

(** [slice s t]: the view [s] is a contiguous part of the buffer [t]. *)
Definition slice {A} (s t : list A) : Prop := ∃ l r, t = l ++ s ++ r.

Lemma slice_refl {A} (s : list A) : slice s s.
Proof. exists [], []. by rewrite app_nil_r. Qed.
Lemma slice_trans {A} (s t u : list A) : slice s t → slice t u → slice s u.
Proof.
  intros (l & r & ->) (l' & r' & ->). exists (l' ++ l), (r ++ r'). by rewrite !app_assoc.
Qed.
Lemma slice_zdrop {A} n (s : list A) : slice (zdrop n s) s.
Proof. exists (ztake n s), []. by rewrite app_nil_r, ztake_zdrop. Qed.
Lemma slice_ztake {A} n (s : list A) : slice (ztake n s) s.
Proof. exists [], (zdrop n s). by rewrite ztake_zdrop. Qed.
Lemma slice_len {A} (s t : list A) : slice s t → len s ≤ len t.
Proof. intros (l & r & ->). rewrite !len_app. pose proof (len_nonneg l). pose proof (len_nonneg r). lia. Qed.
Lemma slice_bytes_ok s t : slice s t → bytes_ok t → bytes_ok s.
Proof. intros (l & r & ->) [_ [Hs _]%bytes_ok_app]%bytes_ok_app. done. Qed.

(** Induction by two elements at a time. *)
Lemma list_pair_ind {A} (P : list A → Prop) :
  P [] → (∀ a, P [a]) → (∀ a b l, P l → P (a :: b :: l)) → ∀ l, P l.
Proof.
  intros H0 H1 H2 l. enough (P l ∧ ∀ a, P (a :: l)) as [? _] by done.
  induction l as [|b l [IH1 IH2]]; auto.
Qed.

(** ** Automation *)

Create HintDb pcap.
Create Rewrite HintDb pcap_len.
#[export] Hint Resolve len_nonneg bytes_ok_ztake bytes_ok_zdrop : pcap.
#[export] Hint Resolve slice_refl slice_zdrop slice_ztake slice_trans slice_bytes_ok : pcap.
#[export] Hint Rewrite @len_cons @len_app @len_nil : pcap_len.

(** Turns the length of every list in sight into arithmetic. *)
Ltac len_facts :=
  repeat match goal with
  | l : list ?A |- _ =>
      lazymatch goal with
      | _ : 0 ≤ len l |- _ => fail
      | _ => pose proof (len_nonneg l)
      end
  end.
Ltac zlen := autorewrite with pcap_len in *; len_facts; lia.

(** Splits on the condition of an [if] of the goal and keeps what it says. *)
Ltac split_if :=
  match goal with
  | |- context [if ?b then _ else _] => let E := fresh "Hc" in destruct b eqn:E
  end.
Ltac split_if_in H :=
  match type of H with
  | context [if ?b then _ else _] => let E := fresh "Hc" in destruct b eqn:E; try discriminate H
  end.

(** One step of a weakest-precondition goal: a return, a bind, a buffer access
    whose bounds are arithmetic, a condition. *)
Ltac wp_step :=
  lazymatch goal with
  | |- wp (Ret _) _ => apply wp_ret
  | |- wp (mret _) _ => apply wp_ret
  | |- wp (_ ≫= _) _ => apply wp_bind
  | |- wp (memcpy _ _) _ => apply wp_memcpy; [try lia|]
  | |- wp (first _ _) _ => apply wp_first; [try lia|]
  | |- wp (subspan _ _) _ => apply wp_subspan; [try lia|]
  | |- wp (subspan_n _ _ _) _ => apply wp_subspan_n; [try lia..|]
  | |- wp (if _ then _ else _) _ => split_if
  | |- wp (match ?m with pair _ _ => _ end) _ => destruct m
  end.
Ltac wp_steps := repeat (wp_step; cbn beta iota zeta).
