(* ===== verification/Endian.v ===== *)
(** Byte order: [include/net/util/endian.h], and the little-endian view of
    memory that [std::memcpy] into a packed struct gives on the hosts the
    program supports (the [static_assert] of that file). *)
From S2P Require Import Prelude.

Inductive Endian := Big | Little.

#[export] Instance Endian_eq_dec : EqDecision Endian.
Proof. solve_decision. Defined.

Definition bswap16 (x : Z) : Z :=
  u16 (Z.lor (Z.shiftr x 8) (Z.shiftl x 8)).

Definition bswap32 (x : Z) : Z :=
  Z.lor (Z.lor (Z.lor (Z.land (Z.shiftr x 24) 0x000000FF)
                      (Z.land (Z.shiftr x 8) 0x0000FF00))
               (Z.land (u32 (Z.shiftl x 8)) 0x00FF0000))
        (Z.land (u32 (Z.shiftl x 24)) 0xFF000000).

Definition toHost16 (v : Z) (e : Endian) : Z :=
  match e with Big => bswap16 v | Little => v end.
Definition toHost32 (v : Z) (e : Endian) : Z :=
  match e with Big => bswap32 v | Little => v end.

(** The integer a little-endian host reads from a run of bytes, and the bytes
    it stores. *)
Fixpoint le_val (l : bytes) : Z :=
  match l with [] => 0 | b :: l => b + 256 * le_val l end.

Fixpoint le_bytes (n : nat) (v : Z) : bytes :=
  match n with O => [] | S n => v mod 256 :: le_bytes n (v / 256) end.

(** The big-endian (network order) counterparts. *)
Definition be_val (l : bytes) : Z := le_val (rev l).
Definition be_bytes (n : nat) (v : Z) : bytes := rev (le_bytes n v).

(** The field of [n] bytes at offset [off] of a packed struct whose bytes are
    [l]. *)
Definition field (l : bytes) (off n : nat) : Z := le_val (take n (drop off l)).
Definition field_bytes (l : bytes) (off n : nat) : bytes := take n (drop off l).

(** The bytes of an integer of the file's byte order. *)
Definition enc (e : Endian) (n : nat) (v : Z) : bytes :=
  match e with Big => be_bytes n v | Little => le_bytes n v end.

(** ** Lemmas *)

Lemma length_le_bytes n v : length (le_bytes n v) = n.
Proof. revert v. induction n; intros; cbn; by f_equal. Qed.
Lemma length_be_bytes n v : length (be_bytes n v) = n.
Proof. unfold be_bytes. by rewrite length_rev, length_le_bytes. Qed.
Lemma length_enc e n v : length (enc e n v) = n.
Proof. destruct e; [apply length_be_bytes|apply length_le_bytes]. Qed.
Lemma len_enc e n v : len (enc e n v) = Z.of_nat n.
Proof. unfold len. by rewrite length_enc. Qed.

Lemma le_bytes_ok n v : bytes_ok (le_bytes n v).
Proof.
  revert v. induction n; intros; constructor; [|by apply IHn].
  by apply Z.mod_pos_bound.
Qed.
Lemma bytes_ok_rev l : bytes_ok l → bytes_ok (rev l).
Proof. intros. unfold bytes_ok. by apply Forall_rev. Qed.
Lemma enc_ok e n v : bytes_ok (enc e n v).
Proof. destruct e; [apply bytes_ok_rev|]; apply le_bytes_ok. Qed.

Lemma le_val_le_bytes n v : le_val (le_bytes n v) = v mod 256 ^ Z.of_nat n.
Proof.
  revert v. induction n as [|n IH]; intros v; cbn [le_bytes le_val].
  - by rewrite Z.mod_1_r.
  - rewrite IH, Nat2Z.inj_succ, Z.pow_succ_r by lia.
    by rewrite Z.rem_mul_r by (try apply Z.pow_nonzero; lia).
Qed.

Lemma le_val_range l : bytes_ok l → 0 ≤ le_val l < 256 ^ len l.
Proof.
  induction 1 as [|b l Hb Hl IH]; [done|]. cbn [le_val]. unfold is_byte in Hb.
  pose proof (len_nonneg l). rewrite len_cons, Z.pow_add_r by lia.
  change (256 ^ 1) with 256. lia.
Qed.

Lemma le_val_app l k : le_val (l ++ k) = le_val l + 256 ^ len l * le_val k.
Proof.
  induction l as [|b l IH]; [rewrite (@len_nil Z), Z.pow_0_r; cbn [le_val app]; lia|]. cbn [le_val app].
  pose proof (len_nonneg l). rewrite IH, len_cons, Z.pow_add_r by lia.
  change (256 ^ 1) with 256. ring.
Qed.

(** Swapping reverses the bytes of a word. *)
Lemma bswap16_bytes a b :
  is_byte a → is_byte b → bswap16 (a + 256 * b) = b + 256 * a.
Proof.
  unfold is_byte, bswap16, u16. intros Ha Hb.
  rewrite Z.shiftr_div_pow2 by lia.
  replace ((a + 256 * b) / 2 ^ 8) with b by (Z.div_mod_to_equations; lia).
  rewrite lor_disjoint by lia. Z.div_mod_to_equations; lia.
Qed.

Lemma bswap32_bytes a b c d :
  is_byte a → is_byte b → is_byte c → is_byte d →
  bswap32 (a + 256 * (b + 256 * (c + 256 * d))) =
  d + 256 * (c + 256 * (b + 256 * a)).
Proof.
  unfold is_byte, bswap32, u32. intros Ha Hb Hc Hd.
  set (x := a + _).
  change 0x000000FF with (Z.shiftl (Z.ones 8) 0).
  change 0x0000FF00 with (Z.shiftl (Z.ones 8) 8).
  change 0x00FF0000 with (Z.shiftl (Z.ones 8) 16).
  change 0xFF000000 with (Z.shiftl (Z.ones 8) 24).
  rewrite !land_ones_shift by lia.
  replace (Z.shiftr x 24 / 2 ^ 0 mod 2 ^ 8) with d
    by (rewrite Z.shiftr_div_pow2 by lia; subst x; Z.div_mod_to_equations; lia).
  replace (Z.shiftr x 8 / 2 ^ 8 mod 2 ^ 8) with c
    by (rewrite Z.shiftr_div_pow2 by lia; subst x; Z.div_mod_to_equations; lia).
  replace (Z.shiftl x 8 mod 2 ^ 32 / 2 ^ 16 mod 2 ^ 8) with b
    by (rewrite Z.shiftl_mul_pow2 by lia; subst x; Z.div_mod_to_equations; lia).
  replace (Z.shiftl x 24 mod 2 ^ 32 / 2 ^ 24 mod 2 ^ 8) with a
    by (rewrite Z.shiftl_mul_pow2 by lia; subst x; Z.div_mod_to_equations; lia).
  rewrite Z.shiftl_0_r, (lor_disjoint d c), (lor_disjoint _ b), (lor_disjoint _ a) by lia. lia.
Qed.

Lemma bswap32_range x : 0 ≤ x < 4294967296 → 0 ≤ bswap32 x < 4294967296.
Proof.
  intros Hx.
  replace x with (x mod 256 + 256 * ((x / 256) mod 256 + 256 *
                  ((x / 65536) mod 256 + 256 * (x / 16777216))))
    by (Z.div_mod_to_equations; lia).
  rewrite bswap32_bytes by (unfold is_byte; Z.div_mod_to_equations; lia).
  Z.div_mod_to_equations; lia.
Qed.
Lemma toHost16_range x e : 0 ≤ x < 65536 → 0 ≤ toHost16 x e < 65536.
Proof. destruct e; [|done]. intros _. by apply Z.mod_pos_bound. Qed.
Lemma toHost32_range x e : 0 ≤ x < 4294967296 → 0 ≤ toHost32 x e < 4294967296.
Proof. destruct e; [apply bswap32_range|done]. Qed.

(** Reading back a field written in byte order [e] gives the number. *)
Lemma toHost16_enc e v : 0 ≤ v < 65536 → toHost16 (le_val (enc e 2 v)) e = v.
Proof.
  intros Hv. destruct e; cbn [toHost16 enc].
  - unfold be_bytes. cbn [le_bytes rev app le_val].
    rewrite Z.mul_0_r, Z.add_0_r, bswap16_bytes
      by (unfold is_byte; Z.div_mod_to_equations; lia).
    Z.div_mod_to_equations; lia.
  - rewrite le_val_le_bytes. by apply Z.mod_small.
Qed.

Lemma toHost32_enc e v : 0 ≤ v < 4294967296 → toHost32 (le_val (enc e 4 v)) e = v.
Proof.
  intros Hv. destruct e; cbn [toHost32 enc].
  - unfold be_bytes. cbn [le_bytes rev app le_val].
    rewrite Z.mul_0_r, Z.add_0_r, bswap32_bytes
      by (unfold is_byte; Z.div_mod_to_equations; lia).
    Z.div_mod_to_equations; lia.
  - rewrite le_val_le_bytes. by apply Z.mod_small.
Qed.

(** Fields of a concatenation. *)
Lemma field_hit x y n : length x = n → field (x ++ y) 0 n = le_val x.
Proof. intros <-. unfold field. by rewrite drop_0, take_app_length. Qed.
Lemma field_last x n : length x = n → field x 0 n = le_val x.
Proof. intros <-. unfold field. by rewrite drop_0, firstn_all. Qed.
Lemma field_skip x y off n :
  (length x ≤ off)%nat → field (x ++ y) off n = field y (off - length x) n.
Proof. intros. unfold field. by rewrite drop_app_ge. Qed.
Lemma field_range l off n : bytes_ok l → 0 ≤ field l off n < 256 ^ Z.of_nat n.
Proof.
  intros Hl. assert (Hf : bytes_ok (take n (drop off l))) by (by apply Forall_take, Forall_drop).
  pose proof (le_val_range _ Hf) as Hr. unfold field.
  split; [lia|]. eapply Z.lt_le_trans; [apply Hr|]. apply Z.pow_le_mono_r; [lia|].
  unfold len. rewrite length_take. lia.
Qed.

Lemma field_byte l off : bytes_ok l → is_byte (field l off 1).
Proof. apply (field_range l off 1). Qed.
Lemma field_word l off e : bytes_ok l → 0 ≤ toHost16 (field l off 2) e < 65536.
Proof. intros. apply toHost16_range. by apply (field_range l off 2). Qed.
Lemma field_dword l off e : bytes_ok l → 0 ≤ toHost32 (field l off 4) e < 4294967296.
Proof. intros. apply toHost32_range. by apply (field_range l off 4). Qed.
Lemma field_bytes_ok l off n : bytes_ok l → bytes_ok (field_bytes l off n).
Proof. intros. by apply Forall_take, Forall_drop. Qed.
Lemma len_field_bytes l off n :
  Z.of_nat off + Z.of_nat n ≤ len l → len (field_bytes l off n) = Z.of_nat n.
Proof. unfold field_bytes, len. rewrite length_take, length_drop. lia. Qed.
Lemma field_bytes_hit x y n : length x = n → field_bytes (x ++ y) 0 n = x.
Proof. intros <-. unfold field_bytes. by rewrite drop_0, take_app_length. Qed.
Lemma field_bytes_last x n : length x = n → field_bytes x 0 n = x.
Proof. intros <-. unfold field_bytes. by rewrite drop_0, firstn_all. Qed.
Lemma field_bytes_skip x y off n :
  (length x ≤ off)%nat → field_bytes (x ++ y) off n = field_bytes y (off - length x) n.
Proof. intros. unfold field_bytes. by rewrite drop_app_ge. Qed.

(** [read_fields] evaluates every field of a header spelled as a concatenation
    of encoded fields. *)
Ltac length_known :=
  cbn [length Nat.sub]; rewrite ?length_enc, ?length_be_bytes, ?length_le_bytes; (lia || done).
Ltac read_fields :=
  repeat first
    [ rewrite field_hit by length_known
    | rewrite field_last by length_known
    | rewrite field_skip by length_known
    | rewrite field_bytes_hit by length_known
    | rewrite field_bytes_last by length_known
    | rewrite field_bytes_skip by length_known
    | progress rewrite ?length_enc, ?length_be_bytes, ?length_le_bytes
    | progress cbn [Nat.sub length] ].

#[export] Hint Resolve field_byte field_word field_dword field_bytes_ok : pcap.
