(* ===== verification/ParseError.v ===== *)
(** Parser results: [include/net/util/parse_error.h].  A parser returns a
    [ParseError]; the enumerator [None] is [NoError] here. *)
From S2P Require Import Prelude.

Inductive ParseError :=
| NoError
| Filtered
| UnexpectedEofF
| UnexpectedEof
| UnsupportedVersion
| UnsupportedLinktype
| UnsupportedNetworkType
| UnsupportedTransportType
| MalformedHeader
| InvalidFieldValue
| ChecksumMismatch.

#[export] Instance ParseError_eq_dec : EqDecision ParseError.
Proof. solve_decision. Defined.

(** [err != ParseError::None]. *)
Definition failed (e : ParseError) : bool :=
  match e with NoError => false | _ => true end.

Lemma failed_false e : failed e = false ↔ e = NoError.
Proof. by destruct e. Qed.
Lemma failed_true e : failed e = true ↔ e ≠ NoError.
Proof. by destruct e. Qed.

Definition toString (e : ParseError) : string :=
  match e with
  | NoError => "no error"
  | UnexpectedEofF => "unexpected end of file"
  | UnexpectedEof => "unexpected end of buffer"
  | UnsupportedVersion => "unsupported version"
  | UnsupportedLinktype => "unsupported link type"
  | UnsupportedNetworkType => "unsupported network type"
  | UnsupportedTransportType => "unsupported transport type"
  | MalformedHeader => "malformed header"
  | InvalidFieldValue => "invalid field value"
  | ChecksumMismatch => "checksum mismatch"
  | Filtered => "filtered out"
  end.

(** A routine that answered no error, and what it left. *)
Definition accepts {A} (m : outcome (ParseError * A)) : bool :=
  match m with Ret (NoError, _) => true | _ => false end.
Definition left_by {A} (d : A) (m : outcome (ParseError * A)) : A :=
  match m with Ret (_, a) => a | _ => d end.
Lemma accepts_eq {A B C} (d : A * (B * C)) m :
  accepts m = true → m = Ret (NoError, ((left_by d m).1, ((left_by d m).2.1, (left_by d m).2.2))).
Proof. destruct m as [[[] [a [b c]]]| |]; done. Qed.
