(* ===== verification/Checksum.v ===== *)
(** The Internet checksum: [src/net/util/checksum.cpp], and its equivalence
    with the word-by-word definition of RFC 1071. *)
From S2P Require Import Prelude Endian.

(** [std::memcpy(&w, data + i, n)]. *)
Definition load (data : bytes) (i n : Z) : outcome Z :=
  t ← subspan_n data i n; Ret (le_val t).

(** [(w & 0xFFFFFFFF) + (w >> 32)]. *)
Definition halves (w : Z) : Z := u64 (Z.land w 0xFFFFFFFF + Z.shiftr w 32).

(** The 32-byte stride with four accumulators. *)
Definition sum32_body (data : bytes) (n : Z) (st : Z * Z * Z * Z * Z)
    : outcome (control (Z * Z * Z * Z * Z) (Z * Z)) :=
  let '(i, a, b, c, d) := st in
  if i + 32 <=? n then
    w0 ← load data i 8;
    w1 ← load data (i + 8) 8;
    w2 ← load data (i + 16) 8;
    w3 ← load data (i + 24) 8;
    Ret (Next (i + 32, u64 (a + halves w0), u64 (b + halves w1),
               u64 (c + halves w2), u64 (d + halves w3)))
  else Ret (Stop (i, u64 (a + b + c + d))).

(** The 4-byte stride. *)
Definition sum4_body (data : bytes) (n : Z) (st : Z * Z) : outcome (control (Z * Z) (Z * Z)) :=
  let '(i, swapped) := st in
  if i + 4 <=? n then
    w ← load data i 4;
    Ret (Next (i + 4, u64 (swapped + w)))
  else Ret (Stop (i, swapped)).

(** The 2-byte stride over what is left, in network order. *)
Definition sum2_body (data : bytes) (n : Z) (st : Z * Z) : outcome (control (Z * Z) (Z * Z)) :=
  let '(i, sum) := st in
  if i + 2 <=? n then
    hi ← at_ data i;
    lo ← at_ data (i + 1);
    Ret (Next (i + 2, u64 (sum + Z.lor (u32 (Z.shiftl hi 8)) lo)))
  else Ret (Stop (i, sum)).

(** [while (x >> 16) x = (x & 0xFFFF) + (x >> 16)]. *)
Definition fold_body (x : Z) : outcome (control Z Z) :=
  if Z.shiftr x 16 =? 0 then Ret (Stop x)
  else Ret (Next (u64 (Z.land x 0xFFFF + Z.shiftr x 16))).
Definition fold16 (x : Z) : outcome Z := loop 65 fold_body x.

Definition verifyChecksum (data : bytes) (n : Z) (pseudo_header_sum : Z) : outcome bool :=
  let fuel := S (Z.to_nat n) in
  '(i, swapped) ← loop fuel (sum32_body data n) (0, 0, 0, 0, 0);
  '(i, swapped) ← loop fuel (sum4_body data n) (i, swapped);
  swapped ← fold16 swapped;
  let sum := u64 (pseudo_header_sum + bswap16 (u16 swapped)) in
  '(i, sum) ← loop fuel (sum2_body data n) (i, sum);
  sum ← (if i <? n then hi ← at_ data i; Ret (u64 (sum + u32 (Z.shiftl hi 8)))
         else Ret sum);
  sum ← fold16 sum;
  Ret (u16 (Z.lnot sum) =? 0).

(** ** The reference: RFC 1071

    One's-complement addition of 16-bit words (end-around carry); a block is
    valid when the sum of all its words, the checksum's own word included, is
    all ones.  An odd last byte is padded on the right with zero. *)

Definition oc_add (x y : Z) : Z :=
  let s := x + y in if 65535 <? s then s - 65535 else s.

Fixpoint be_words (l : bytes) : list Z :=
  match l with
  | a :: b :: l => 256 * a + b :: be_words l
  | [a] => [256 * a]
  | [] => []
  end.

Definition rfc1071_valid (words : list Z) : bool := foldr oc_add 0 words =? 65535.

Definition is_word (w : Z) : Prop := 0 ≤ w < 65536.
Definition zsum (l : list Z) : Z := foldr Z.add 0 l.

(** ** Lemmas *)

(** [x ~ y]: equal as one's-complement sums, zero told apart from all ones. *)
Definition oc_eq (x y : Z) : Prop := x mod 65535 = y mod 65535 ∧ (x = 0 ↔ y = 0).

Lemma oc_eq_refl x : oc_eq x x.
Proof. done. Qed.
Lemma oc_eq_sym x y : oc_eq x y → oc_eq y x.
Proof. unfold oc_eq. intros [? ?]. split; [congruence|tauto]. Qed.
Lemma oc_eq_trans x y z : oc_eq x y → oc_eq y z → oc_eq x z.
Proof. unfold oc_eq. intros [? ?] [? ?]. split; [congruence|tauto]. Qed.

#[export] Instance oc_eq_equiv : Equivalence oc_eq.
Proof. split; hnf; eauto using oc_eq_refl, oc_eq_sym, oc_eq_trans. Qed.

Lemma oc_eq_add x x' y y' :
  0 ≤ x → 0 ≤ x' → 0 ≤ y → 0 ≤ y' → oc_eq x x' → oc_eq y y' → oc_eq (x + y) (x' + y').
Proof.
  intros ???? [Hx Hx0] [Hy Hy0]. split; [|lia].
  rewrite Z.add_mod, Hx, Hy, <- Z.add_mod by done. done.
Qed.

(** A multiple of [65536] counts as its quotient. *)
Lemma oc_eq_shift x y k : 0 ≤ x → 0 ≤ y → k mod 65535 = 1 → 0 < k → oc_eq (x + k * y) (x + y).
Proof.
  intros Hx Hy Hk Hpos. split; [|nia].
  rewrite (Z.add_mod x (k * y)), Z.mul_mod, Hk, Z.mul_1_l, Z.mod_mod, <- Z.add_mod by done.
  done.
Qed.

Lemma zsum_nonneg l : Forall (λ w, 0 ≤ w) l → 0 ≤ zsum l.
Proof. induction 1; cbn; [done|]. unfold zsum in *. lia. Qed.
Lemma zsum_app l k : zsum (l ++ k) = zsum l + zsum k.
Proof. induction l; cbn; [done|]. unfold zsum in *. lia. Qed.

Lemma foldr_oc_add l :
  Forall is_word l → 0 ≤ foldr oc_add 0 l < 65536 ∧ oc_eq (foldr oc_add 0 l) (zsum l).
Proof.
  induction 1 as [|w l Hw Hl [IH1 IH2]]; [done|].
  change (zsum (w :: l)) with (w + zsum l). cbn [foldr].
  assert (0 ≤ zsum l).
  { apply zsum_nonneg. eapply Forall_impl; [done|]. unfold is_word. lia. }
  set (f := foldr oc_add 0 l) in *. unfold oc_add. unfold is_word in Hw.
  assert (Hsum : oc_eq (w + f) (w + zsum l)) by (apply oc_eq_add; lia || done).
  destruct (Z.ltb_spec 65535 (w + f)); [|split; [lia|done]].
  split; [lia|]. etransitivity; [|exact Hsum]. split; [|lia].
  by rewrite <- (Z_mod_plus_full (w + f) (-1) 65535).
Qed.

Lemma be_words_ok l : bytes_ok l → Forall is_word (be_words l).
Proof.
  unfold bytes_ok, is_byte, is_word. revert l.
  apply (list_pair_ind (λ l, Forall _ l → Forall _ (be_words l))); cbn.
  - constructor.
  - intros a [? _]%Forall_cons. constructor; [lia|constructor].
  - intros a b l IH [? [? ?]%Forall_cons]%Forall_cons. constructor; [lia|auto].
Qed.

Lemma be_sum_nonneg l : bytes_ok l → 0 ≤ zsum (be_words l).
Proof.
  intros ?%be_words_ok. apply zsum_nonneg. eapply Forall_impl; [done|].
  unfold is_word. lia.
Qed.

Lemma be_words_app l k : len l mod 2 = 0 → be_words (l ++ k) = be_words l ++ be_words k.
Proof.
  revert l. apply (list_pair_ind (λ l, _ l mod 2 = 0 → be_words (l ++ k) = _)).
  - done.
  - intros a. by unfold len.
  - intros a b l IH Hl. cbn. f_equal. apply IH. rewrite !len_cons in Hl.
    Z.div_mod_to_equations; lia.
Qed.

(** Summing little-endian words and swapping the total once is summing the
    big-endian words: [256 * 256 = 1] modulo [65535]. *)
Lemma le_be_sum l :
  len l mod 2 = 0 → bytes_ok l → oc_eq (256 * le_val l) (zsum (be_words l)).
Proof.
  revert l.
  apply (list_pair_ind (λ l, _ l mod 2 = 0 → bytes_ok l → oc_eq (256 * le_val l) _)).
  - done.
  - intros a. by unfold len.
  - intros a b l IH Hl [Ha [Hb Hok]%Forall_cons]%Forall_cons.
    unfold is_byte in Ha, Hb.
    assert (Hl' : len l mod 2 = 0) by (rewrite !len_cons in Hl; Z.div_mod_to_equations; lia).
    specialize (IH Hl' Hok). pose proof (le_val_range l Hok) as Hr.
    pose proof (be_sum_nonneg l Hok).
    cbn [be_words le_val zsum foldr]. fold (zsum (be_words l)).
    transitivity ((256 * a + b) + 256 * le_val l);
      [|apply oc_eq_add; try lia; [reflexivity|done]].
    replace (256 * (a + 256 * (b + 256 * le_val l)))
      with (256 * a + 65536 * (b + 256 * le_val l)) by lia.
    etransitivity; [apply oc_eq_shift; [lia|lia|done|lia]|].
    replace (256 * a + (b + 256 * le_val l)) with (256 * a + b + 256 * le_val l) by lia.
    reflexivity.
Qed.

(** The invariant of the strides: [256 * acc], plus the words still to read,
    is the sum of the whole block. *)
Definition strides (blk : bytes) (i acc : Z) : Prop :=
  0 ≤ i ≤ len blk ∧ i mod 2 = 0 ∧ 0 ≤ acc ∧
  oc_eq (zsum (be_words blk)) (256 * acc + zsum (be_words (zdrop i blk))).

Lemma strides_start blk : strides blk 0 0.
Proof. pose proof (len_nonneg blk). split; [lia|]. done. Qed.

Lemma strides_step blk i acc k acc' :
  bytes_ok blk → strides blk i acc → 0 ≤ k → k mod 2 = 0 → i + k ≤ len blk → 0 ≤ acc' →
  oc_eq acc' (acc + le_val (ztake k (zdrop i blk))) → strides blk (i + k) acc'.
Proof.
  intros Hok (Hi & Hev & Hacc & Heq) Hk Hkev Hle Hacc' Hstep.
  set (x := ztake k (zdrop i blk)) in *.
  assert (Hlx : len x = k) by (apply len_ztake; rewrite len_zdrop; lia).
  assert (Hdrop : zdrop i blk = x ++ zdrop (i + k) blk).
  { rewrite <- (zdrop_zdrop k i) by lia. symmetry. apply ztake_zdrop. }
  assert (Hx : bytes_ok x) by (by apply bytes_ok_ztake, bytes_ok_zdrop).
  pose proof (le_val_range x Hx). pose proof (be_sum_nonneg x Hx).
  pose proof (be_sum_nonneg _ (bytes_ok_zdrop (i + k) _ Hok)).
  split; [lia|]. split; [Z.div_mod_to_equations; lia|]. split; [done|].
  etransitivity; [exact Heq|].
  rewrite Hdrop, be_words_app, zsum_app by (by rewrite Hlx).
  rewrite Z.add_assoc. apply oc_eq_add; try lia; [|reflexivity].
  transitivity (256 * acc + 256 * le_val x).
  - apply oc_eq_add; try lia; [reflexivity|]. symmetry. apply le_be_sum; [by rewrite Hlx|done].
  - destruct Hstep as [Hm Hz]. split; [|lia].
    rewrite <- Z.mul_add_distr_l, Z.mul_mod, <- Hm, <- Z.mul_mod by done. done.
Qed.

Lemma halves_eq w : 0 ≤ w < 2 ^ 64 → 0 ≤ halves w < 2 ^ 33 ∧ oc_eq (halves w) w.
Proof.
  intros Hw. unfold halves.
  change 0xFFFFFFFF with (Z.ones 32).
  rewrite Z.land_ones, Z.shiftr_div_pow2 by lia.
  rewrite u64_small by (Z.div_mod_to_equations; lia).
  split; [Z.div_mod_to_equations; lia|].
  rewrite (Z.div_mod w (2 ^ 32)) at 3 by done. rewrite Z.add_comm, (Z.add_comm (2 ^ 32 * _)).
  rewrite (Z.add_comm (w / _)). symmetry.
  apply oc_eq_shift; try done; Z.div_mod_to_equations; lia.
Qed.

Lemma wp_load data i n (Q : Z → Prop) :
  0 ≤ i → 0 ≤ n → i + n ≤ len data →
  Q (le_val (ztake n (zdrop i data))) → wp (load data i n) Q.
Proof. intros. unfold load. apply wp_bind, wp_subspan_n; [done..|]. done. Qed.

Section Verify.
Context (data : bytes) (n : Z).
Context (Hn : 0 ≤ n ≤ len data) (Hmax : n ≤ 2 ^ 32).
Let blk := ztake n data.
Context (Hok : bytes_ok blk).

Lemma len_blk : len blk = n.
Proof. by apply len_ztake. Qed.

Lemma wp_load_blk i k (Q : Z → Prop) :
  0 ≤ i → 0 ≤ k → i + k ≤ n →
  Q (le_val (ztake k (zdrop i blk))) → wp (load data i k) Q.
Proof.
  intros ??? HQ. apply wp_load; [lia..|].
  unfold blk in HQ. by rewrite ztake_zdrop_ztake in HQ by lia.
Qed.

Lemma word_range i k :
  0 ≤ i → 0 ≤ k → i + k ≤ n → 0 ≤ le_val (ztake k (zdrop i blk)) < 256 ^ k.
Proof.
  intros. assert (len (ztake k (zdrop i blk)) = k) as <-.
  { apply len_ztake. rewrite len_zdrop; rewrite len_blk; lia. }
  rewrite len_ztake by (rewrite len_zdrop; rewrite len_blk; lia).
  pose proof (le_val_range (ztake k (zdrop i blk))
                (bytes_ok_ztake _ _ (bytes_ok_zdrop _ _ Hok))) as Hr.
  by rewrite len_ztake in Hr by (rewrite len_zdrop; rewrite len_blk; lia).
Qed.

(** One accumulator of the 32-byte stride takes in one 8-byte load. *)
Lemma stride8 i acc acc' :
  strides blk i acc → i + 8 ≤ n →
  acc' = acc + halves (le_val (ztake 8 (zdrop i blk))) → strides blk (i + 8) acc'.
Proof.
  intros Hs Hle ->. pose proof Hs as (Hi & _ & Hacc & _).
  pose proof (word_range i 8 ltac:(lia) ltac:(lia) Hle) as Hr.
  destruct (halves_eq _ Hr) as [Hh Heq].
  eapply strides_step; [done|exact Hs|lia|done|rewrite len_blk; lia|lia|].
  apply oc_eq_add; lia || done.
Qed.

Lemma wp_sum32 fuel :
  n < Z.of_nat fuel →
  wp (loop fuel (sum32_body data n) (0, 0, 0, 0, 0))
     (λ '(i, s), strides blk i s ∧ s ≤ i * 2 ^ 30).
Proof.
  intros Hfuel.
  eapply (wp_loop (λ '(i, a, b, c, d), strides blk i (a + b + c + d) ∧
            0 ≤ a ≤ i * 2 ^ 28 ∧ 0 ≤ b ≤ i * 2 ^ 28 ∧
            0 ≤ c ≤ i * 2 ^ 28 ∧ 0 ≤ d ≤ i * 2 ^ 28)
            _ (λ '(i, _, _, _, _), n - i)); [|split|].
  - intros [[[[i a] b] c] d] (Hs & Ha & Hb & Hc & Hd).
    pose proof Hs as (Hi & Hev & Hacc & _). rewrite len_blk in Hi.
    unfold sum32_body. destruct (Z.leb_spec (i + 32) n) as [Hle|Hgt].
    + do 4 (apply wp_bind, wp_load_blk; [lia..|]). apply wp_ret.
      pose proof (halves_eq _ (word_range i 8 ltac:(lia) ltac:(lia) ltac:(lia))) as [H0 _].
      pose proof (halves_eq _ (word_range (i + 8) 8 ltac:(lia) ltac:(lia) ltac:(lia))) as [H1 _].
      pose proof (halves_eq _ (word_range (i + 16) 8 ltac:(lia) ltac:(lia) ltac:(lia))) as [H2 _].
      pose proof (halves_eq _ (word_range (i + 24) 8 ltac:(lia) ltac:(lia) ltac:(lia))) as [H3 _].
      rewrite !u64_small by lia. split; [|lia]. split; [|lia].
      replace (i + 32) with (i + 8 + 8 + 8 + 8) by lia.
      eapply stride8; [eapply stride8; [eapply stride8; [eapply stride8; [exact Hs|lia|reflexivity]
        |lia|reflexivity]|lia|reflexivity]|lia|].
      replace (i + 8 + 8) with (i + 16) by lia. replace (i + 16 + 8) with (i + 24) by lia. lia.
    + apply wp_ret. rewrite u64_small by lia. split; [done|lia].
  - apply (strides_start blk).
  - lia.
  - lia.
Qed.

Lemma wp_sum4 fuel i s :
  n < Z.of_nat fuel → strides blk i s → s ≤ i * 2 ^ 30 →
  wp (loop fuel (sum4_body data n) (i, s))
     (λ '(i, s), strides blk i s ∧ s ≤ i * 2 ^ 30 ∧ n < i + 4).
Proof.
  intros Hfuel Hs Hb. pose proof Hs as (Hi & _). rewrite len_blk in Hi.
  eapply (wp_loop (λ '(i, s), strides blk i s ∧ s ≤ i * 2 ^ 30) _ (λ '(i, _), n - i));
    [|split; done|lia].
  clear i s Hs Hb Hi. intros [i s] [Hs Hb]. pose proof Hs as (Hi & Hev & Hacc & _).
  rewrite len_blk in Hi. unfold sum4_body. destruct (Z.leb_spec (i + 4) n) as [Hle|Hgt].
  - apply wp_bind, wp_load_blk; [lia..|]. apply wp_ret.
    pose proof (word_range i 4 ltac:(lia) ltac:(lia) ltac:(lia)) as Hr.
    rewrite u64_small by lia. split; [|lia]. split; [|lia].
    eapply strides_step; [done|exact Hs|lia|done|rewrite len_blk; lia|lia|reflexivity].
  - apply wp_ret. split; [done|]. split; [done|lia].
Qed.
End Verify.

(** Folding 64 bits to 16 keeps the one's-complement value. *)
Lemma fold_step x :
  65536 ≤ x < 2 ^ 64 →
  let y := x mod 65536 + x / 65536 in
  0 ≤ y ∧ oc_eq y x ∧ Z.log2_up y < Z.log2_up x.
Proof.
  intros Hx y. assert (Hy : 0 < y) by (unfold y; Z.div_mod_to_equations; lia).
  split; [lia|]. split.
  - unfold y. rewrite (Z.div_mod x 65536) at 3 by done. rewrite (Z.add_comm (65536 * _)).
    symmetry. apply oc_eq_shift; try done; Z.div_mod_to_equations; lia.
  - assert (Hk : 17 ≤ Z.log2_up x ∨ x = 65536).
    { destruct (Z.eq_dec x 65536); [by right|left].
      change 17 with (Z.log2_up (65536 + 1)). apply Z.log2_up_le_mono. lia. }
    destruct Hk as [Hk| ->]; [|done].
    pose proof (Z.log2_up_spec x ltac:(lia)) as [_ Hup].
    set (k := Z.log2_up x) in *.
    apply Z.le_lt_trans with (Z.log2_up (2 ^ (k - 1))); [|rewrite Z.log2_up_pow2; lia].
    apply Z.log2_up_le_mono.
    replace k with ((k - 17) + 1 + 16) in Hup |- * by lia.
    replace (k - 17 + 1 + 16 - 1) with (k - 17 + 16) by lia.
    rewrite Z.pow_add_r, (Z.pow_add_r 2 _ 1) in Hup by lia.
    rewrite Z.pow_add_r by lia.
    pose proof (Z.pow_pos_nonneg 2 (k - 17) ltac:(lia) ltac:(lia)).
    set (q := 2 ^ (k - 17)) in *. change (2 ^ 1) with 2 in *. change (2 ^ 16) with 65536 in *.
    assert (x / 65536 ≤ q * 2) by (apply Z.div_le_upper_bound; lia).
    destruct (Z.eq_dec (x / 65536) (q * 2)); unfold y; Z.div_mod_to_equations; nia.
Qed.

Lemma wp_fold16 x :
  0 ≤ x < 2 ^ 64 → wp (fold16 x) (λ y, 0 ≤ y < 65536 ∧ oc_eq y x).
Proof.
  intros Hx. unfold fold16.
  eapply (wp_loop (λ y, 0 ≤ y < 2 ^ 64 ∧ oc_eq y x) _ Z.log2_up); [|by split|].
  - intros y [Hy Heq]. unfold fold_body. rewrite Z.shiftr_div_pow2 by lia.
    change (2 ^ 16) with 65536.
    destruct (Z.eqb_spec (y / 65536) 0) as [H0|H0].
    + apply wp_ret. split; [Z.div_mod_to_equations; lia|done].
    + apply wp_ret. change 0xFFFF with (Z.ones 16). rewrite Z.land_ones by lia.
      change (2 ^ 16) with 65536.
      destruct (fold_step y) as (H1 & H2 & H3); [Z.div_mod_to_equations; lia|].
      rewrite u64_small by (Z.div_mod_to_equations; lia).
      split; [split; [Z.div_mod_to_equations; lia|by etransitivity]|].
      pose proof (Z.log2_up_nonneg (y mod 65536 + y / 65536)). lia.
  - pose proof (Z.log2_up_nonneg x). split; [done|].
    apply Z.le_lt_trans with (Z.log2_up (2 ^ 64)); [apply Z.log2_up_le_mono; lia|].
    rewrite Z.log2_up_pow2; lia.
Qed.

Lemma bswap16_oc y :
  0 ≤ y < 65536 → 0 ≤ bswap16 y < 65536 ∧ oc_eq (bswap16 y) (256 * y).
Proof.
  intros Hy.
  assert (∃ a b, y = a + 256 * b ∧ is_byte a ∧ is_byte b) as (a & b & -> & Ha & Hb).
  { exists (y mod 256), (y / 256). unfold is_byte. Z.div_mod_to_equations; lia. }
  rewrite bswap16_bytes by done. unfold is_byte in Ha, Hb. split; [lia|]. symmetry.
  replace (256 * (a + 256 * b)) with (256 * a + 65536 * b) by lia.
  rewrite (Z.add_comm b). apply oc_eq_shift; lia || done.
Qed.

(** A 16-bit one's-complement value is its class's only representative. *)
Lemma oc_eq_unique x y : 0 ≤ x < 65536 → 0 ≤ y < 65536 → oc_eq x y → x = y.
Proof. intros Hx Hy [Hm H0]. Z.div_mod_to_equations. lia. Qed.

Section Tail.
Context (data : bytes) (n : Z).
Context (Hn : 0 ≤ n ≤ len data).
Let blk := ztake n data.
Context (Hok : bytes_ok blk).

(** The invariant of the 2-byte stride: the sum so far, plus the words
    still to read, is the total. *)
Definition tail_inv (total bound i sum : Z) : Prop :=
  0 ≤ i ≤ n ∧ 0 ≤ sum ∧ sum + 65536 * (n - i) ≤ bound ∧
  oc_eq (sum + zsum (be_words (zdrop i blk))) total.

Lemma wp_at_blk i (Q : Z → Prop) :
  0 ≤ i < n → (∀ b, is_byte b → zdrop i blk = b :: zdrop (i + 1) blk → Q b) →
  wp (at_ data i) Q.
Proof.
  intros Hi HQ. apply wp_at; [lia|]. intros b Hb. unfold blk in HQ.
  rewrite <- (lookup_ztake i n) in Hb by lia. apply HQ; [by eapply bytes_ok_lookup|].
  apply zdrop_cons; [lia|done].
Qed.

Lemma wp_sum2 total bound fuel i sum :
  n < Z.of_nat fuel → bound < 2 ^ 64 → tail_inv total bound i sum → 
  wp (loop fuel (sum2_body data n) (i, sum))
     (λ '(i, sum), tail_inv total bound i sum ∧ n < i + 2).
Proof.
  intros Hfuel Hbd Hinv. pose proof Hinv as (Hi & _).
  eapply (wp_loop (λ '(i, s), tail_inv total bound i s) _ (λ '(i, _), n - i)); [|done|lia].
  clear i sum Hi Hinv. intros [i s] (Hi & Hs & Hb & Heq). unfold sum2_body.
  destruct (Z.leb_spec (i + 2) n) as [Hle|Hgt]; [|apply wp_ret; split; [done|lia]].
  apply wp_bind, wp_at_blk; [lia|]. intros hi Hhi Ehi.
  apply wp_bind, wp_at_blk; [lia|]. intros lo Hlo Elo. apply wp_ret.
  replace (i + 1 + 1) with (i + 2) in Elo by lia. rewrite Ehi, Elo in Heq.
  cbn [be_words zsum foldr] in Heq. fold (zsum (be_words (zdrop (i + 2) blk))) in Heq.
  unfold is_byte in *. unfold u32. rewrite Z.shiftl_mul_pow2, Z.mod_small by lia.
  rewrite <- Z.shiftl_mul_pow2, Z.lor_comm, lor_disjoint by lia.
  rewrite u64_small by lia. split; [|lia]. split; [lia|]. split; [lia|]. split; [lia|].
  by replace (s + (lo + hi * 2 ^ 8) + zsum (be_words (zdrop (i + 2) blk)))
    with (s + (256 * hi + lo + zsum (be_words (zdrop (i + 2) blk)))) by lia.
Qed.

(** The last byte of an odd-sized block. *)
Lemma wp_last total bound i sum :
  bound < 2 ^ 64 → tail_inv total bound i sum → n < i + 2 →
  wp (if i <? n then hi ← at_ data i; Ret (u64 (sum + u32 (Z.shiftl hi 8))) else Ret sum)
     (λ sum, 0 ≤ sum < 2 ^ 64 ∧ oc_eq sum total).
Proof.
  intros Hbd (Hi & Hs & Hb & Heq) Hlt. destruct (Z.ltb_spec i n).
  - apply wp_bind, wp_at_blk; [lia|]. intros hi Hhi Ehi. apply wp_ret.
    rewrite Ehi, (zdrop_ge (i + 1)) in Heq by (unfold blk; rewrite len_ztake; lia).
    cbn [be_words zsum foldr] in Heq. unfold is_byte in *. unfold u32.
    rewrite Z.shiftl_mul_pow2, Z.mod_small by lia. rewrite u64_small by lia.
    split; [lia|]. by replace (sum + hi * 2 ^ 8) with (sum + (256 * hi + 0)) by lia.
  - apply wp_ret. rewrite zdrop_ge in Heq by (unfold blk; rewrite len_ztake; lia).
    cbn in Heq. rewrite Z.add_0_r in Heq. split; [lia|done].
Qed.
End Tail.

Lemma lnot_u16_zero y : 0 ≤ y < 65536 → (u16 (Z.lnot y) =? 0) = (y =? 65535).
Proof.
  intros. unfold u16, Z.lnot. apply Bool.eq_iff_eq_true. rewrite !Z.eqb_eq.
  Z.div_mod_to_equations; lia.
Qed.

(** What the routine computes, on the numeric total. *)
Lemma verifyChecksum_sum data n pseudo :
  0 ≤ n ≤ len data → n ≤ 2 ^ 32 → bytes_ok (ztake n data) → 0 ≤ pseudo < 2 ^ 63 →
  ∃ y, 0 ≤ y < 65536 ∧ oc_eq y (pseudo + zsum (be_words (ztake n data))) ∧
       verifyChecksum data n pseudo = Ret (y =? 65535).
Proof.
  intros Hn Hmax Hok Hp. set (total := pseudo + _).
  enough (Hwp : wp (verifyChecksum data n pseudo)
            (λ r, ∃ y, 0 ≤ y < 65536 ∧ oc_eq y total ∧ r = (y =? 65535))).
  { apply wp_returns in Hwp as (r & -> & y & ? & ? & ->). by exists y. }
  unfold verifyChecksum. cbn zeta.
  apply wp_bind. eapply wp_mono; [apply wp_sum32; lia || done|]. intros [i s] [Hs Hb].
  apply wp_bind. eapply wp_mono; [apply wp_sum4; lia || done|]. clear i s Hs Hb.
  intros [i s] (Hs & Hb & Hi4). pose proof Hs as (Hi & _ & Hs0 & Heq).
  rewrite len_ztake in Hi by lia.
  apply wp_bind. eapply wp_mono; [apply wp_fold16; lia|]. intros y [Hy Hys].
  destruct (bswap16_oc y Hy) as [Hsw Hsweq].
  rewrite u16_small, (u64_small (pseudo + _)) by lia.
  apply wp_bind. eapply wp_mono.
  { apply (wp_sum2 data n Hn Hok total (2 ^ 63 + 65536 * 6)); [lia|lia|].
    split; [lia|]. split; [lia|]. split; [lia|]. unfold total. rewrite <- Z.add_assoc.
    apply oc_eq_add; try lia || reflexivity.
    - pose proof (be_sum_nonneg _ (bytes_ok_zdrop i _ Hok)). lia.
    - by apply be_sum_nonneg.
    - symmetry. etransitivity; [exact Heq|].
      pose proof (be_sum_nonneg _ (bytes_ok_zdrop i _ Hok)).
      apply oc_eq_add; try lia || reflexivity. symmetry. etransitivity; [exact Hsweq|].
      destruct Hys as [Hm H0]. split; [|lia]. by rewrite Z.mul_mod, Hm, <- Z.mul_mod. }
  intros [i' s'] [Hinv Hi2].
  apply wp_bind. eapply wp_mono; [eapply wp_last; [exact Hn|exact Hok| |exact Hinv|lia]; lia|].
  intros s2 [Hs2 Hs2eq]. apply wp_bind. eapply wp_mono; [by apply wp_fold16|].
  intros z [Hz Hzeq]. apply wp_ret. exists z. split; [done|]. split; [by etransitivity|].
  by apply lnot_u16_zero.
Qed.

(** Whatever the bytes, the checksum is computed without leaving the buffer. *)
Lemma wp_verifyChecksum data n pseudo (Q : bool → Prop) :
  0 ≤ n ≤ len data → n ≤ 2 ^ 32 → bytes_ok data → 0 ≤ pseudo < 2 ^ 63 →
  (∀ b, Q b) → wp (verifyChecksum data n pseudo) Q.
Proof.
  intros Hn Hmax Hok Hp HQ.
  destruct (verifyChecksum_sum data n pseudo) as (y & _ & _ & ->); auto with pcap.
  by apply wp_ret.
Qed.

(** C29: the optimised checksum routine (four 64-bit accumulators, 8- and 4-byte
    little-endian loads, one byte swap at the end) answers exactly what
    RFC 1071 defines word by word, for any block of bytes and any
    pseudo-header given by its 16-bit words; it always terminates and reads
    nothing outside the block. *)
Theorem verifyChecksum_rfc1071 (data : bytes) (n : Z) (pseudo : list Z) :
  0 ≤ n ≤ len data → n ≤ 2 ^ 32 → bytes_ok (ztake n data) →
  Forall is_word pseudo → zsum pseudo < 2 ^ 63 →
  verifyChecksum data n (zsum pseudo) =
  Ret (rfc1071_valid (pseudo ++ be_words (ztake n data))).
Proof.
  intros Hn Hmax Hok Hps Hbd.
  assert (0 ≤ zsum pseudo).
  { apply zsum_nonneg. eapply Forall_impl; [done|]. unfold is_word. lia. }
  destruct (verifyChecksum_sum data n (zsum pseudo)) as (y & Hy & Heq & ->); [done..|lia|].
  f_equal. unfold rfc1071_valid.
  destruct (foldr_oc_add (pseudo ++ be_words (ztake n data))) as [Hr Hreq].
  { apply Forall_app. split; [done|by apply be_words_ok]. }
  rewrite zsum_app in Hreq.
  rewrite (oc_eq_unique y (foldr oc_add 0 (pseudo ++ be_words (ztake n data)))); [done..|].
  etransitivity; [exact Heq|by symmetry].
Qed.

(** The IPv4 header of the RFC 1071 family of examples, checksum included. *)
Definition sample_header : bytes :=
  [0x45; 0x00; 0x00; 0x73; 0x00; 0x00; 0x40; 0x00; 0x40; 0x11; 0xb8; 0x61;
   0xc0; 0xa8; 0x00; 0x01; 0xc0; 0xa8; 0x00; 0xc7].

Lemma verifyChecksum_rfc1071_witness :
  verifyChecksum sample_header 20 (zsum []) = Ret true.
Proof.
  rewrite (verifyChecksum_rfc1071 sample_header 20 []).
  - reflexivity.
  - vm_compute. split; discriminate.
  - lia.
  - repeat constructor; discriminate || reflexivity.
  - constructor.
  - reflexivity.
Defined.
