(* ===== verification/Text.v ===== *)
(** Text helpers: [src/net/util/text.cpp], and what the program uses of the
    C++ streams (decimal and hexadecimal insertion, [std::setw] with
    [std::setfill('0')]) and of [std::string_view].

    [printDuration] and [printRate], whose output is the decimal rendering of a
    [double], are in [Double]. *)
From S2P Require Import Prelude.
From Stdlib Require Import Ascii.

(** A literal.  [jstr] is a literal of JSON output, written with a backquote
    for every double quote. *)
Definition chars (s : string) : bytes :=
  (λ c, Z.of_N (N_of_ascii c)) <$> String.list_ascii_of_string s.
Definition jstr (s : string) : bytes :=
  (λ c, if c =? 96 then 34 else c) <$> chars s.

Definition quote : Z := 34.
Definition backslash : Z := 92.
Definition newline : Z := 10.

(** ** Streams *)

(** The digits of a non-negative integer, least significant first. *)
Fixpoint digits (fuel : nat) (base v : Z) : list Z :=
  match fuel with
  | O => []
  | S fuel => if v <? base then [v] else v mod base :: digits fuel base (v / base)
  end.

Definition digit_char (d : Z) : Z := if d <? 10 then 48 + d else 87 + d.

Definition number (base v : Z) : bytes :=
  digit_char <$> rev (digits (S (Z.to_nat (Z.log2 v))) base v).

(** [os << v] and [os << std::hex << v]. *)
Definition dec (v : Z) : bytes := number 10 v.
Definition hex (v : Z) : bytes := number 16 v.

(** [std::setfill('0') << std::setw(w)] before an insertion. *)
Definition setw (w : Z) (s : bytes) : bytes :=
  replicate (Z.to_nat (w - len s)) 48 ++ s.

(** An optional insertion. *)
Definition when (b : bool) (s : bytes) : bytes := if b then s else [].

(** [std::string_view::find(c, pos)]. *)
Fixpoint index_of (c : Z) (s : bytes) : option Z :=
  match s with
  | [] => None
  | b :: s => if b =? c then Some 0 else Z.succ <$> index_of c s
  end.
Definition find (s : bytes) (c pos : Z) : option Z :=
  if pos <=? len s then Z.add pos <$> index_of c (zdrop pos s) else None.

(** [s.starts_with(p)]. *)
Fixpoint starts_with (s p : bytes) : bool :=
  match p, s with
  | [], _ => true
  | x :: p, y :: s => (x =? y) && starts_with s p
  | _ :: _, [] => false
  end.

(** [std::tolower] of an [unsigned char], in the C locale. *)
Definition tolower (c : Z) : Z := if (65 <=? c) && (c <=? 90) then c + 32 else c.
(** [std::isdigit] of a plain [char], which is signed on the platforms the program
    is built for: a byte from 0x80 on is a negative value, and the call is then
    undefined (for 0xFF unless the library's [EOF] happens to be -1). *)
Definition isdigit (c : Z) : outcome bool := if c <? 128 then Ret ((48 <=? c) && (c <=? 57)) else UB.

(** ** The helpers of text.cpp *)

(** The loop of [isEquals] over two views of one length. *)
Fixpoint isEquals_loop (a b : bytes) : bool :=
  match a, b with
  | x :: a, y :: b => if negb (tolower x =? tolower y) then false else isEquals_loop a b
  | _, _ => true
  end.
Definition isEquals (a b : bytes) : bool :=
  if negb (len a =? len b) then false else isEquals_loop a b.

(** [parseUint] answers [Some value] where the code stores [out] and returns
    true, [None] where it returns false and leaves [out] alone. *)
Fixpoint parseUint_loop (text : bytes) (value max : Z) : option Z :=
  match text with
  | [] => Some value
  | c :: text =>
      if (c <? 48) || (57 <? c) then None
      else
        let digit := c - 48 in
        if (max / 10 <? value) || (u64 (max - digit) <? u64 (value * 10)) then None
        else parseUint_loop text (u64 (u64 (value * 10) + digit)) max
  end.
Definition parseUint (text : bytes) (max : Z) : option Z :=
  match text with [] => None | _ => parseUint_loop text 0 max end.

(** The loop of [indent], from the line that starts at [pos]. *)
Fixpoint indent_loop (fuel : nat) (str prefix : bytes) (pos : Z) (out : bytes) : bytes :=
  match fuel with
  | O => out
  | S fuel =>
      if pos <? len str then
        let out := out ++ prefix in
        match find str newline pos with
        | None => out ++ zdrop pos str
        | Some new_line =>
            let out := (out ++ ztake (new_line - pos) (zdrop pos str)) ++ [newline] in
            indent_loop fuel str prefix (new_line + 1) out
        end
      else out
  end.
Definition indent (str prefix : bytes) : bytes :=
  match str with [] => [] | _ => indent_loop (S (length str)) str prefix 0 [] end.

Definition jsonEscape_char (c : Z) : bytes :=
  if c =? quote then [backslash; quote]
  else if c =? backslash then [backslash; backslash]
  else if c =? 10 then chars "\n"
  else if c =? 13 then chars "\r"
  else if c =? 9 then chars "\t"
  else if c =? 8 then chars "\b"
  else if c =? 12 then chars "\f"
  else if c <? 0x20 then chars "\u" ++ setw 4 (hex c)
  else [c].
Definition jsonEscape (s : bytes) : bytes := s ≫= jsonEscape_char.

Definition printBytes (bytes_ : Z) : bytes :=
  if 10 * 2 ^ 20 <? bytes_ then dec (Z.shiftr bytes_ 20) ++ chars "MB"
  else if 10 * 2 ^ 10 <? bytes_ then dec (Z.shiftr bytes_ 10) ++ chars "KB"
  else dec bytes_ ++ chars "B".

(** ** Reference definitions *)

(** The value of a digit string. *)
Definition of_digits (base : Z) (ds : list Z) : Z := foldl (λ v d, v * base + d) 0 ds.
Definition decimal_value (text : bytes) : Z := of_digits 10 ((λ c, c - 48) <$> text).

(** [indent] says it prefixes every line: a line starts at the beginning and
    after every newline that is not the last character. *)
Fixpoint indent_spec (at_start : bool) (str prefix : bytes) : bytes :=
  match str with
  | [] => []
  | c :: str =>
      (if at_start then prefix else []) ++ c :: indent_spec (c =? newline) str prefix
  end.

(** A JSON string body read back (RFC 8259, section 7): escapes are undone; a
    raw quote, a raw control character or an unknown escape is an error. *)
Definition hex_digit (c : Z) : option Z :=
  if (48 <=? c) && (c <=? 57) then Some (c - 48)
  else if (97 <=? c) && (c <=? 102) then Some (c - 87)
  else if (65 <=? c) && (c <=? 70) then Some (c - 55)
  else None.

Definition json_escape_value (c : Z) : option Z :=
  if c =? quote then Some quote else if c =? backslash then Some backslash
  else if c =? 47 then Some 47 else if c =? 110 then Some 10
  else if c =? 114 then Some 13 else if c =? 116 then Some 9
  else if c =? 98 then Some 8 else if c =? 102 then Some 12 else None.

Fixpoint json_unescape (s : bytes) : option bytes :=
  match s with
  | [] => Some []
  | c :: s =>
      if c =? backslash then
        match s with
        | [] => None
        | e :: s =>
            if e =? 117 then
              match s with
              | a :: b :: c :: d :: s =>
                  a ← hex_digit a; b ← hex_digit b; c ← hex_digit c; d ← hex_digit d;
                  cons (((a * 16 + b) * 16 + c) * 16 + d) <$> json_unescape s
              | _ => None
              end
            else e ← json_escape_value e; cons e <$> json_unescape s
        end
      else if (c =? quote) || (c <? 32) then None
      else cons c <$> json_unescape s
  end.

Example dec_1280 : dec 1280 = chars "1280".
Proof. reflexivity. Qed.
Example hex_beef : setw 8 (hex 0xbeef) = chars "0000beef".
Proof. reflexivity. Qed.
Example jsonEscape_ex : jsonEscape (34 :: 1 :: chars "a") = 92 :: 34 :: chars "\u0001a".
Proof. reflexivity. Qed.

(** ** Numbers *)

Lemma of_digits_rev base l : of_digits base (rev l) = foldr (λ d v, v * base + d) 0 l.
Proof.
  unfold of_digits. induction l as [|x l IH]; [done|]. cbn [rev foldr].
  by rewrite foldl_app, IH.
Qed.

Lemma digits_value fuel base v :
  1 < base → 0 ≤ v < base ^ Z.of_nat fuel →
  foldr (λ d v, v * base + d) 0 (digits fuel base v) = v ∧
  Forall (λ d, 0 ≤ d < base) (digits fuel base v).
Proof.
  intros Hb. revert v. induction fuel as [|fuel IH]; intros v Hv; cbn [digits].
  { change (base ^ Z.of_nat 0) with 1 in Hv. split; [cbn; lia|constructor]. }
  rewrite Nat2Z.inj_succ, Z.pow_succ_r in Hv by lia.
  destruct (Z.ltb_spec v base).
  { cbn [foldr]. split; [lia|]. repeat constructor; lia. }
  destruct (IH (v / base)) as [Hval Hall].
  { split; [apply Z.div_pos; lia|apply Z.div_lt_upper_bound; lia]. }
  cbn [foldr]. rewrite Hval. pose proof (Z.mod_pos_bound v base ltac:(lia)).
  split; [pose proof (Z.div_mod v base ltac:(lia)); lia|by constructor].
Qed.

Lemma digits_fuel base v :
  1 < base → 0 ≤ v → v < base ^ Z.of_nat (S (Z.to_nat (Z.log2 v))).
Proof.
  intros Hb Hv. pose proof (Z.log2_nonneg v).
  rewrite Nat2Z.inj_succ, Z2Nat.id by lia.
  apply Z.lt_le_trans with (2 ^ Z.succ (Z.log2 v)).
  - destruct (Z.eq_dec v 0) as [->|]; [done|]. apply Z.log2_spec. lia.
  - apply Z.pow_le_mono_l. lia.
Qed.

Lemma digits_nonempty fuel base v : digits (S fuel) base v ≠ [].
Proof. cbn. by destruct (v <? base). Qed.

(** A printed decimal is digits only, is not empty, and its value is the number. *)
Lemma dec_spec v :
  0 ≤ v → dec v ≠ [] ∧ Forall (λ c, 48 ≤ c ≤ 57) (dec v) ∧ decimal_value (dec v) = v.
Proof.
  intros Hv. unfold dec, number.
  destruct (digits_value (S (Z.to_nat (Z.log2 v))) 10 v) as [Hval Hall];
    [lia|split; [done|apply digits_fuel; lia]|].
  pose proof (digits_nonempty (Z.to_nat (Z.log2 v)) 10 v) as Hne.
  set (ds := digits _ 10 v) in *. split; [|split].
  - intros Hnil%fmap_nil_inv. apply Hne. rewrite <- (rev_involutive ds). by rewrite Hnil.
  - apply Forall_fmap, Forall_rev. eapply Forall_impl; [exact Hall|].
    intros d Hd. unfold compose, digit_char. cbn in Hd. destruct (Z.ltb_spec d 10); lia.
  - unfold decimal_value. rewrite <- list_fmap_compose.
    rewrite (list_fmap_ext _ id); [by rewrite list_fmap_id, of_digits_rev|].
    intros i d Hd. unfold compose, digit_char, id.
    assert (0 ≤ d < 10).
    { apply Forall_rev in Hall. by eapply Forall_lookup_1 in Hall. }
    destruct (Z.ltb_spec d 10); lia.
Qed.

Lemma foldl_digits_ge text value :
  0 ≤ value → Forall (λ c, 48 ≤ c ≤ 57) text →
  value ≤ foldl (λ v d, v * 10 + d) value ((λ c, c - 48) <$> text).
Proof.
  intros Hv Hall. revert value Hv. induction Hall as [|c text Hc Hall IH]; intros value Hv; cbn.
  { lia. }
  specialize (IH (value * 10 + (c - 48)) ltac:(lia)). cbn in IH. lia.
Qed.

Lemma parseUint_loop_spec max text value v :
  9 ≤ max < 2 ^ 64 → 0 ≤ value ≤ max →
  parseUint_loop text value max = Some v ↔
  Forall (λ c, 48 ≤ c ≤ 57) text ∧
  foldl (λ v d, v * 10 + d) value ((λ c, c - 48) <$> text) = v ∧ v ≤ max.
Proof.
  intros Hmax. revert value. induction text as [|c text IH]; intros value Hv.
  { cbn. split; [intros [= <-]; split; [constructor|lia]|by intros (_ & <- & _)]. }
  cbn [parseUint_loop fmap list_fmap foldl].
  destruct ((c <? 48) || (57 <? c)) eqn:Hc.
  { split; [done|]. intros (Hall & _). apply Forall_cons in Hall as [? _]. lia. }
  rewrite (u64_small (max - (c - 48))) by lia.
  destruct (Z.ltb_spec (max / 10) value) as [Hbig|Hsmall]; cbn [orb].
  - split; [done|]. intros ([? Hall]%Forall_cons & Hval & Hle).
    pose proof (foldl_digits_ge text (value * 10 + (c - 48)) ltac:(lia) Hall). cbn in *.
    Z.div_mod_to_equations; lia.
  - assert (value * 10 ≤ max) by (Z.div_mod_to_equations; lia).
    rewrite (u64_small (value * 10)) by lia.
    destruct (Z.ltb_spec (max - (c - 48)) (value * 10)) as [Hbig|Hok].
    + split; [done|]. intros ([? Hall]%Forall_cons & Hval & Hle).
      pose proof (foldl_digits_ge text (value * 10 + (c - 48)) ltac:(lia) Hall). cbn in *. lia.
    + rewrite (u64_small (value * 10 + (c - 48))) by lia. rewrite IH by lia.
      rewrite Forall_cons. split; [|naive_solver].
      intros (? & ? & ?). split; [|done]. split; [lia|done].
Qed.

(** [parseUint] accepts exactly the non-empty strings of decimal digits
    whose value is at most [max], and then stores that value: no overflow of the
    64-bit accumulator is ever mistaken for a small number (for every limit the
    program passes, which are all at least 9). *)
Theorem parseUint_correct (text : bytes) (max v : Z) :
  9 ≤ max < 2 ^ 64 →
  parseUint text max = Some v ↔
  text ≠ [] ∧ Forall (λ c, 48 ≤ c ≤ 57) text ∧ decimal_value text = v ∧ v ≤ max.
Proof.
  intros Hmax. unfold parseUint, decimal_value, of_digits.
  destruct text as [|c text]; [naive_solver|].
  rewrite parseUint_loop_spec by lia. naive_solver.
Qed.

Lemma parseUint_correct_witness : parseUint (chars "00443") 65535 = Some 443.
Proof.
  apply parseUint_correct; [lia|]. repeat split; try done. repeat constructor; done.
Defined.

(** Printing a counter and parsing it back. *)
Lemma parseUint_dec v max : 9 ≤ max < 2 ^ 64 → 0 ≤ v ≤ max → parseUint (dec v) max = Some v.
Proof.
  intros Hmax Hv. destruct (dec_spec v) as (Hne & Hall & Hval); [lia|].
  unfold parseUint. unfold decimal_value, of_digits in Hval.
  destruct (dec v) as [|c text]; [done|]. apply parseUint_loop_spec; [lia..|].
  split; [done|]. split; [done|lia].
Qed.

(** ** Searching *)

Lemma index_of_Some c s k :
  index_of c s = Some k → ∃ l1 l2, s = l1 ++ c :: l2 ∧ len l1 = k ∧ c ∉ l1.
Proof.
  revert k. induction s as [|b s IH]; intros k; cbn; [done|].
  destruct (Z.eqb_spec b c) as [->|Hne].
  - intros [= <-]. exists [], s. split; [done|]. split; [done|apply not_elem_of_nil].
  - intros (k' & Hk & ->)%fmap_Some. destruct (IH k' Hk) as (l1 & l2 & -> & Hl & Hni).
    exists (b :: l1), l2. split; [done|]. split; [rewrite len_cons; lia|].
    apply not_elem_of_cons. done.
Qed.

Lemma index_of_None c s : index_of c s = None ↔ c ∉ s.
Proof.
  induction s as [|b s IH]; cbn; [by split; [intros _; apply not_elem_of_nil|]|].
  rewrite not_elem_of_cons, <- IH. destruct (Z.eqb_spec b c) as [->|Hne]; [naive_solver|].
  rewrite fmap_None. naive_solver.
Qed.

Lemma index_of_app c l1 l2 : c ∉ l1 → index_of c (l1 ++ c :: l2) = Some (len l1).
Proof.
  induction l1 as [|b l1 IH]; cbn; intros Hni; [by rewrite Z.eqb_refl|].
  apply not_elem_of_cons in Hni as [Hne Hni]. destruct (Z.eqb_spec b c); [done|].
  rewrite (IH Hni). cbn. f_equal. rewrite len_cons. lia.
Qed.

Lemma find_Some s c pos k :
  0 ≤ pos → find s c pos = Some k →
  ∃ l1 l2, zdrop pos s = l1 ++ c :: l2 ∧ k = pos + len l1 ∧ (c ∉ l1) ∧ (pos ≤ k < len s).
Proof.
  intros Hpos. unfold find. destruct (Z.leb_spec pos (len s)); [|done].
  intros (k' & Hk & ->)%fmap_Some. apply index_of_Some in Hk as (l1 & l2 & Heq & <- & Hni).
  exists l1, l2. split; [done|]. split; [done|]. split; [done|].
  pose proof (len_zdrop pos s ltac:(lia)) as Hl. rewrite Heq, len_app, len_cons in Hl.
  pose proof (len_nonneg l1). pose proof (len_nonneg l2). lia.
Qed.

(** ** Indentation *)

Lemma indent_spec_line l1 l2 prefix :
  newline ∉ l1 →
  indent_spec false (l1 ++ newline :: l2) prefix =
  l1 ++ newline :: indent_spec true l2 prefix.
Proof.
  induction l1 as [|c l1 IH]; intros Hni; [done|].
  apply not_elem_of_cons in Hni as [Hne Hni]. cbn [app indent_spec].
  destruct (Z.eqb_spec c newline); [done|]. by rewrite IH.
Qed.

Lemma indent_spec_last l prefix : newline ∉ l → indent_spec false l prefix = l.
Proof.
  induction l as [|c l IH]; intros Hni; [done|].
  apply not_elem_of_cons in Hni as [Hne Hni]. cbn [indent_spec].
  destruct (Z.eqb_spec c newline); [done|]. by rewrite IH.
Qed.

Lemma indent_spec_start l prefix :
  l ≠ [] → indent_spec true l prefix = prefix ++ indent_spec false l prefix.
Proof. by destruct l. Qed.

Lemma indent_loop_spec fuel str prefix pos out :
  0 ≤ pos ≤ len str → len str - pos < Z.of_nat fuel →
  indent_loop fuel str prefix pos out = out ++ indent_spec true (zdrop pos str) prefix.
Proof.
  revert pos out. induction fuel as [|fuel IH]; intros pos out Hpos Hf; [lia|].
  cbn [indent_loop]. destruct (Z.ltb_spec pos (len str)) as [Hlt|Hge].
  2:{ rewrite zdrop_ge by lia. cbn. by rewrite app_nil_r. }
  assert (Hne : zdrop pos str ≠ []).
  { intros Hnil. pose proof (len_zdrop pos str ltac:(lia)) as Hl. rewrite Hnil in Hl.
    rewrite len_nil in Hl. lia. }
  rewrite indent_spec_start by done.
  destruct (find str newline pos) as [k|] eqn:Hf'.
  - apply find_Some in Hf' as (l1 & l2 & Heq & -> & Hni & Hk); [|lia].
    rewrite IH by lia. rewrite Heq, indent_spec_line, ztake_app_exact by (lia || done).
    replace (pos + len l1 + 1) with (pos + (len l1 + 1)) by lia.
    rewrite <- zdrop_zdrop, Heq by (pose proof (len_nonneg l1); lia).
    rewrite (cons_middle newline l1 l2), app_assoc, zdrop_app_exact
      by (rewrite len_app; done).
    by rewrite <- !app_assoc.
  - unfold find in Hf'. rewrite (proj2 (Z.leb_le _ _)) in Hf' by lia.
    apply fmap_None, index_of_None in Hf'. by rewrite indent_spec_last, app_assoc.
Qed.

(** [indent] puts the prefix in front of every line and changes nothing
    else, and its loop over [std::string_view::find] always reaches the end. *)
Theorem indent_correct (str prefix : bytes) :
  indent str prefix = indent_spec true str prefix.
Proof.
  unfold indent. destruct str as [|c str]; [done|].
  rewrite indent_loop_spec; [done|split; [lia|apply len_nonneg]|unfold len; lia].
Qed.

(** ** JSON *)

Lemma json_unescape_plain c s :
  32 ≤ c → c ≠ quote → c ≠ backslash →
  json_unescape (c :: s) = cons c <$> json_unescape s.
Proof.
  intros Hc Hq Hb. cbn [json_unescape].
  destruct (Z.eqb_spec c backslash); [done|]. destruct (Z.eqb_spec c quote); [done|].
  by destruct (Z.ltb_spec c 32); [lia|].
Qed.

Lemma json_unescape_control c s :
  0 ≤ c < 32 → json_unescape (jsonEscape_char c ++ s) = cons c <$> json_unescape s.
Proof.
  intros Hc. rewrite <- (Z2Nat.id c) by lia.
  assert (Hn : (Z.to_nat c < 32)%nat) by lia. revert Hn. generalize (Z.to_nat c) as n.
  clear. intros n Hn.
  do 32 (destruct n as [|n];
    [match goal with |- context [jsonEscape_char ?c] =>
       let v := eval vm_compute in (jsonEscape_char c) in change (jsonEscape_char c) with v
     end; cbn; by destruct (json_unescape s)|]).
  lia.
Qed.

Lemma jsonEscape_cons c s : jsonEscape (c :: s) = jsonEscape_char c ++ jsonEscape s.
Proof. done. Qed.

(** The body [jsonEscape] prints is a well-formed JSON string body, and
    reading it back by the rules of RFC 8259 gives the original bytes. *)
Theorem jsonEscape_roundtrip (s : bytes) :
  bytes_ok s → json_unescape (jsonEscape s) = Some s.
Proof.
  induction 1 as [|c s Hc Hs IH]; [done|]. rewrite jsonEscape_cons. unfold is_byte in Hc.
  destruct (Z.ltb_spec c 32).
  { rewrite json_unescape_control by lia. by rewrite IH. }
  unfold jsonEscape_char.
  destruct (Z.eqb_spec c quote) as [->|Hq]; [cbn; by rewrite IH|].
  destruct (Z.eqb_spec c backslash) as [->|Hb]; [cbn; by rewrite IH|].
  repeat (case_match; [lia|]). cbn [app]. rewrite json_unescape_plain by done.
  by rewrite IH.
Qed.

Lemma jsonEscape_roundtrip_witness :
  json_unescape (jsonEscape [104; 34; 10; 0; 255]) = Some [104; 34; 10; 0; 255].
Proof. apply jsonEscape_roundtrip. repeat constructor; done. Defined.
