(* ===== verification/Double.v ===== *)
(** Double-precision numbers and the helpers of [src/net/util/text.cpp] that
    print them.

    A double is an IEEE 754 binary64 number of the Standard Library's
    specification ([SpecFloat]), rounded to nearest, ties to even.  All doubles
    of the program are finite and not negative.  A C library prints the decimal
    number nearest to the exact value of the double, ties to even. *)
From S2P Require Import Prelude Text.
From Stdlib Require SpecFloat.
#[local] Open Scope Z_scope.

Abbreviation double := SpecFloat.spec_float.

(** [static_cast<double>(n)], [*], [/], [<] and [>=]. *)
Definition of_uint (n : Z) : double := SpecFloat.binary_normalize 53 1024 n 0 false.
Definition mul (x y : double) : double := SpecFloat.SFmul 53 1024 x y.
Definition div (x y : double) : double := SpecFloat.SFdiv 53 1024 x y.
Definition lt (x y : double) : bool := SpecFloat.SFltb x y.
Definition ge (x y : double) : bool := SpecFloat.SFleb y x.

(** The value of a finite double that is not negative, as a fraction. *)
Definition ratio (x : double) : Z * Z :=
  match x with
  | SpecFloat.S754_finite _ m e => (Zpos m * 2 ^ Z.max 0 e, 2 ^ Z.max 0 (- e))
  | _ => (0, 1)
  end.

(** [static_cast<uint64_t>(x)]. *)
Definition to_uint (x : double) : Z := let '(n, d) := ratio x in n / d.

(** The integer nearest to [n / d], ties to even. *)
Definition nearest (n d : Z) : Z :=
  let q := n / d in
  let r := n mod d in
  if 2 * r <? d then q else if d <? 2 * r then q + 1 else if Z.even q then q else q + 1.

(** [std::fixed << std::setprecision(p)]. *)
Definition decimals (p n : Z) : bytes :=
  dec (n / 10 ^ p) ++ when (0 <? p) (chars "." ++ setw p (dec (n mod 10 ^ p))).
Definition fixed (p : Z) (x : double) : bytes :=
  let '(n, d) := ratio x in decimals p (nearest (n * 10 ^ p) d).

(** The default format: six significant digits, trailing zeros dropped, an
    exponent when it is below -4 or above 5. *)
Fixpoint log10_up (fuel : nat) (n d k : Z) : Z :=
  match fuel with
  | O => k
  | S fuel => if 10 * d <=? n then log10_up fuel n (10 * d) (k + 1) else k
  end.
Fixpoint log10_down (fuel : nat) (n d k : Z) : Z :=
  match fuel with
  | O => k
  | S fuel => if n <? d then log10_down fuel (10 * n) d (k - 1) else k
  end.
Definition log10 (n d : Z) : Z :=
  if n <? d then log10_down (S (Z.to_nat (Z.log2 d))) n d 0
  else log10_up (S (Z.to_nat (Z.log2 n))) n d 0.
(** [n / d / 10 ^ k], rounded. *)
Definition scaled (n d k : Z) : Z := nearest (n * 10 ^ Z.max 0 (- k)) (d * 10 ^ Z.max 0 k).

Fixpoint drop_zeros (s : bytes) : bytes :=
  match s with c :: s' => if c =? 48 then drop_zeros s' else s | [] => [] end.
Definition drop_point (s : bytes) : bytes :=
  match s with c :: s' => if c =? 46 then s' else s | [] => [] end.
(** Trailing zeros of a decimal fraction, and then its point. *)
Definition trim_zeros (s : bytes) : bytes :=
  if existsb (Z.eqb 46) s then rev (drop_point (drop_zeros (rev s))) else s.

Definition exponent (k : Z) : bytes :=
  chars "e" ++ (if k <? 0 then chars "-" else chars "+") ++ setw 2 (dec (Z.abs k)).
Definition general (x : double) : bytes :=
  let '(n, d) := ratio x in
  if n =? 0 then chars "0" else
  let k := log10 n d in
  let m := scaled n d (k - 5) in
  let '(m, k) := if m =? 10 ^ 6 then (10 ^ 5, k + 1) else (m, k) in
  if (-4 <=? k) && (k <? 6)
  then trim_zeros (decimals (5 - k) m)
  else trim_zeros (decimals 5 m) ++ exponent k.

(** ** The helpers of text.cpp *)

Definition printDuration (ns : Z) : bytes :=
  if 1000000000 <=? ns then fixed 3 (div (of_uint ns) (of_uint 1000000000)) ++ chars "s"
  else if 1000000 <=? ns then fixed 2 (div (of_uint ns) (of_uint 1000000)) ++ chars "ms"
  else if 1000 <=? ns then fixed 2 (div (of_uint ns) (of_uint 1000)) ++ chars "us"
  else dec ns ++ chars "ns".

Definition printRate (bps : double) : bytes :=
  if ge bps (of_uint 1000000000) then fixed 2 (div bps (of_uint 1000000000)) ++ chars "Gbps"
  else if ge bps (of_uint 1000000) then fixed 2 (div bps (of_uint 1000000)) ++ chars "Mbps"
  else if ge bps (of_uint 1000) then fixed 2 (div bps (of_uint 1000)) ++ chars "Kbps"
  else fixed 2 bps ++ chars "bps".

Example duration_s : printDuration 1234567890 = chars "1.235s".
Proof. vm_compute. reflexivity. Qed.
Example duration_us : printDuration 999999 = chars "1000.00us".
Proof. vm_compute. reflexivity. Qed.
Example duration_ns : printDuration 7 = chars "7ns".
Proof. vm_compute. reflexivity. Qed.
(** The double nearest to 2.675 is below it; 0.125 is a tie. *)
Example fixed_below : fixed 2 (div (of_uint 2675) (of_uint 1000)) = chars "2.67".
Proof. vm_compute. reflexivity. Qed.
Example fixed_tie : fixed 2 (div (of_uint 125) (of_uint 1000)) = chars "0.12".
Proof. vm_compute. reflexivity. Qed.
Example general_third : general (div (of_uint 100) (of_uint 3)) = chars "33.3333".
Proof. vm_compute. reflexivity. Qed.
Example general_hundred : general (of_uint 100) = chars "100".
Proof. vm_compute. reflexivity. Qed.
Example general_big : general (of_uint 1234567) = chars "1.23457e+06".
Proof. vm_compute. reflexivity. Qed.
Example general_small : general (div (of_uint 1) (of_uint 30000)) = chars "3.33333e-05".
Proof. vm_compute. reflexivity. Qed.
Example general_small4 : general (div (of_uint 1) (of_uint 3000)) = chars "0.000333333".
Proof. vm_compute. reflexivity. Qed.
Example general_round : general (div (of_uint 9999999) (of_uint 10)) = chars "1e+06".
Proof. vm_compute. reflexivity. Qed.
Example rate_mbps : printRate (of_uint 2500000) = chars "2.50Mbps".
Proof. vm_compute. reflexivity. Qed.
