(* ===== verification/Pcap.v ===== *)
(** The capture file's headers: [include/net/capture/pcap.h],
    [src/net/capture/pcap.cpp]. *)
From S2P Require Import Prelude Endian ParseError Text.

Definition FILE_HEADER_LEN : Z := 24.
Definition PACKET_HEADER_LEN : Z := 16.

Definition PCAP_MAGIC_USEC_BE : Z := 0xd4c3b2a1.
Definition PCAP_MAGIC_USEC_LE : Z := 0xa1b2c3d4.
Definition PCAP_MAGIC_NSEC_BE : Z := 0x4d3cb2a1.
Definition PCAP_MAGIC_NSEC_LE : Z := 0xa1b23c4d.

Definition SUPPORTED_MAJOR_VERSION : Z := 2.
Definition SUPPORTED_MINOR_VERSION : Z := 4.
Definition LINKTYPE_ETHERNET : Z := 1.

Record FileHeader := mkFileHeader {
  magic_number : Z;
  major_version : Z;
  minor_version : Z;
  reserved1 : Z;
  reserved2 : Z;
  snaplen : Z;
  linktype : Z;
}.

Record PacketHeader := mkPacketHeader {
  ts_sec : Z;
  ts_usec : Z;
  incl_len : Z;
  orig_len : Z;
}.

Definition zeroFileHeader : FileHeader := mkFileHeader 0 0 0 0 0 0 0.
Definition zeroPacketHeader : PacketHeader := mkPacketHeader 0 0 0 0.

(** [std::memcpy(&header, span.data(), sizeof(header))]. *)
Definition FileHeader_of (b : bytes) : FileHeader :=
  mkFileHeader (field b 0 4) (field b 4 2) (field b 6 2) (field b 8 4)
               (field b 12 4) (field b 16 4) (field b 20 4).
Definition PacketHeader_of (b : bytes) : PacketHeader :=
  mkPacketHeader (field b 0 4) (field b 4 4) (field b 8 4) (field b 12 4).

(** The [switch] over [header.magic_number]. *)
Definition magicEndian (magic : Z) : option Endian :=
  if (magic =? PCAP_MAGIC_USEC_BE) || (magic =? PCAP_MAGIC_NSEC_BE) then Some Big
  else if (magic =? PCAP_MAGIC_USEC_LE) || (magic =? PCAP_MAGIC_NSEC_LE) then Some Little
  else None.

(** [parse(span, FileHeader&, Endian&)]: the error, then the three references
    as the call leaves them. *)
Definition parseFileHeader (span : bytes) (header : FileHeader) (endian : Endian)
    : outcome (ParseError * (bytes * FileHeader * Endian)) :=
  if len span <? FILE_HEADER_LEN then Ret (UnexpectedEof, (span, header, endian)) else
  b ← memcpy span FILE_HEADER_LEN;
  let header := FileHeader_of b in
  match magicEndian header.(magic_number) with
  | None => Ret (InvalidFieldValue, (span, header, endian))
  | Some endian =>
      let header := {|
        magic_number := header.(magic_number);
        major_version := toHost16 header.(major_version) endian;
        minor_version := toHost16 header.(minor_version) endian;
        reserved1 := header.(reserved1);
        reserved2 := header.(reserved2);
        snaplen := toHost32 header.(snaplen) endian;
        linktype := toHost32 header.(linktype) endian;
      |} in
      if negb (header.(major_version) =? SUPPORTED_MAJOR_VERSION)
         || negb (header.(minor_version) =? SUPPORTED_MINOR_VERSION)
      then Ret (UnsupportedVersion, (span, header, endian))
      else if header.(snaplen) =? 0 then Ret (InvalidFieldValue, (span, header, endian))
      else if negb (Z.land header.(linktype) 0x0FFFFFFF =? LINKTYPE_ETHERNET)
      then Ret (UnsupportedLinktype, (span, header, endian))
      else
        span ← subspan span FILE_HEADER_LEN;
        Ret (NoError, (span, header, endian))
  end.

(** [parse(span, PacketHeader&, Endian)]. *)
Definition parsePacketHeader (span : bytes) (header : PacketHeader) (endian : Endian)
    : outcome (ParseError * (bytes * PacketHeader)) :=
  if len span <? PACKET_HEADER_LEN then Ret (UnexpectedEof, (span, header)) else
  b ← memcpy span PACKET_HEADER_LEN;
  let header := PacketHeader_of b in
  let header := {|
    ts_sec := toHost32 header.(ts_sec) endian;
    ts_usec := toHost32 header.(ts_usec) endian;
    incl_len := toHost32 header.(incl_len) endian;
    orig_len := toHost32 header.(orig_len) endian;
  |} in
  if (header.(incl_len) =? 0) || (header.(orig_len) =? 0)
  then Ret (InvalidFieldValue, (span, header))
  else if header.(orig_len) <? header.(incl_len) then Ret (MalformedHeader, (span, header))
  else
    span ← subspan span PACKET_HEADER_LEN;
    Ret (NoError, (span, header)).

(** ** Printing *)

Definition FileHeader_toString (h : FileHeader) : bytes :=
  chars "FileHeader {" ++ [newline] ++
  chars "  magic: 0x" ++ hex h.(magic_number) ++ [newline] ++
  chars "  version: " ++ dec h.(major_version) ++ chars "." ++ dec h.(minor_version) ++ [newline] ++
  chars "  snaplen: " ++ dec h.(snaplen) ++ [newline] ++
  chars "  linktype: " ++ dec h.(linktype) ++ [newline] ++
  chars "}".

Definition FileHeader_toJson (h : FileHeader) : bytes :=
  jstr "`file_header`: {" ++ [newline] ++
  jstr "  `magic_number`: `0x" ++ hex h.(magic_number) ++ jstr "`," ++ [newline] ++
  jstr "  `major_version`: `" ++ dec h.(major_version) ++ chars "." ++
    dec h.(minor_version) ++ jstr "`," ++ [newline] ++
  jstr "  `snaplen`: " ++ dec h.(snaplen) ++ chars "," ++ [newline] ++
  jstr "  `linktype`: " ++ dec h.(linktype) ++ [newline] ++
  chars "}".

Definition PacketHeader_toString (h : PacketHeader) : bytes :=
  chars "PacketHeader {" ++ [newline] ++
  chars "  ts_sec: " ++ dec h.(ts_sec) ++ [newline] ++
  chars "  ts_usec: " ++ dec h.(ts_usec) ++ [newline] ++
  chars "  incl_len: " ++ dec h.(incl_len) ++ [newline] ++
  chars "  orig_len: " ++ dec h.(orig_len) ++ [newline] ++
  chars "}".

Definition PacketHeader_toJson (h : PacketHeader) : bytes :=
  jstr "`packet_header`: {" ++ [newline] ++
  jstr "  `ts_sec`: " ++ dec h.(ts_sec) ++ chars "," ++ [newline] ++
  jstr "  `ts_usec`: " ++ dec h.(ts_usec) ++ chars "," ++ [newline] ++
  jstr "  `incl_len`: " ++ dec h.(incl_len) ++ chars "," ++ [newline] ++
  jstr "  `orig_len`: " ++ dec h.(orig_len) ++ [newline] ++
  chars "}".

(** ** Reference encoders

    The two headers as a capturing tool writes them, in its own byte order and
    with microsecond or nanosecond time stamps. *)

Definition magic_bytes (e : Endian) (nsec : bool) : bytes :=
  enc e 4 (if nsec then PCAP_MAGIC_NSEC_LE else PCAP_MAGIC_USEC_LE).

Definition encodeFileHeader (e : Endian) (nsec : bool) (h : FileHeader) : bytes :=
  magic_bytes e nsec ++ enc e 2 h.(major_version) ++ enc e 2 h.(minor_version) ++
  le_bytes 4 h.(reserved1) ++ le_bytes 4 h.(reserved2) ++
  enc e 4 h.(snaplen) ++ enc e 4 h.(linktype).

Definition encodePacketHeader (e : Endian) (h : PacketHeader) : bytes :=
  enc e 4 h.(ts_sec) ++ enc e 4 h.(ts_usec) ++ enc e 4 h.(incl_len) ++ enc e 4 h.(orig_len).

Definition is_u32 (z : Z) : Prop := 0 ≤ z < 4294967296.

(** What a file header must hold to be accepted. *)
Definition FileHeader_ok (e : Endian) (nsec : bool) (h : FileHeader) : Prop :=
  h.(magic_number) = le_val (magic_bytes e nsec) ∧
  h.(major_version) = SUPPORTED_MAJOR_VERSION ∧
  h.(minor_version) = SUPPORTED_MINOR_VERSION ∧
  is_u32 h.(reserved1) ∧ is_u32 h.(reserved2) ∧
  is_u32 h.(snaplen) ∧ h.(snaplen) ≠ 0 ∧
  is_u32 h.(linktype) ∧ Z.land h.(linktype) 0x0FFFFFFF = LINKTYPE_ETHERNET.

Definition PacketHeader_ok (h : PacketHeader) : Prop :=
  is_u32 h.(ts_sec) ∧ is_u32 h.(ts_usec) ∧ is_u32 h.(orig_len) ∧
  0 < h.(incl_len) ≤ h.(orig_len).

(** ** Theorems *)

Lemma len_encodeFileHeader e nsec h : len (encodeFileHeader e nsec h) = FILE_HEADER_LEN.
Proof.
  unfold encodeFileHeader, magic_bytes, len.
  rewrite !length_app, !length_enc, !length_le_bytes. done.
Qed.
Lemma len_encodePacketHeader e h : len (encodePacketHeader e h) = PACKET_HEADER_LEN.
Proof. unfold encodePacketHeader, len. rewrite !length_app, !length_enc. done. Qed.

Lemma magicEndian_magic e nsec : magicEndian (le_val (magic_bytes e nsec)) = Some e.
Proof. by destruct e, nsec. Qed.

Lemma FileHeader_of_encode e nsec h :
  FileHeader_of (encodeFileHeader e nsec h) =
  mkFileHeader (le_val (magic_bytes e nsec))
    (le_val (enc e 2 h.(major_version))) (le_val (enc e 2 h.(minor_version)))
    (le_val (le_bytes 4 h.(reserved1))) (le_val (le_bytes 4 h.(reserved2)))
    (le_val (enc e 4 h.(snaplen))) (le_val (enc e 4 h.(linktype))).
Proof. unfold FileHeader_of, encodeFileHeader, magic_bytes. by read_fields. Qed.

Lemma PacketHeader_of_encode e h :
  PacketHeader_of (encodePacketHeader e h) =
  mkPacketHeader (le_val (enc e 4 h.(ts_sec))) (le_val (enc e 4 h.(ts_usec)))
    (le_val (enc e 4 h.(incl_len))) (le_val (enc e 4 h.(orig_len))).
Proof. unfold PacketHeader_of, encodePacketHeader. by read_fields. Qed.

Lemma parseFileHeader_encoded e nsec h h0 e0 rest :
  FileHeader_ok e nsec h →
  parseFileHeader (encodeFileHeader e nsec h ++ rest) h0 e0 = Ret (NoError, (rest, h, e)).
Proof.
  intros (Hmagic & Hmaj & Hmin & Hr1 & Hr2 & Hs & Hs0 & Hl & Hl1).
  pose proof (len_encodeFileHeader e nsec h) as Hlen.
  unfold parseFileHeader. rewrite ltb_app_exact, memcpy_app_exact by done.
  rewrite bind_ret, FileHeader_of_encode. cbn [magic_number].
  rewrite magicEndian_magic. cbn [major_version minor_version reserved1 reserved2 snaplen linktype].
  rewrite !toHost32_enc, !toHost16_enc by (done || by rewrite ?Hmaj, ?Hmin).
  rewrite Hmaj, Hmin, (proj2 (Z.eqb_neq h.(snaplen) 0)), Hl1, subspan_app_exact by done.
  rewrite !le_val_le_bytes, !Z.mod_small by done.
  destruct h; cbn in *. by subst.
Qed.

Lemma parsePacketHeader_encoded h h0 e rest :
  PacketHeader_ok h →
  parsePacketHeader (encodePacketHeader e h ++ rest) h0 e = Ret (NoError, (rest, h)).
Proof.
  unfold PacketHeader_ok, is_u32. intros (Hs & Hu & Ho & Hi).
  pose proof (len_encodePacketHeader e h) as Hlen.
  unfold parsePacketHeader. rewrite ltb_app_exact, memcpy_app_exact by done.
  rewrite bind_ret, PacketHeader_of_encode. cbn [ts_sec ts_usec incl_len orig_len].
  rewrite !toHost32_enc, subspan_app_exact by (done || lia).
  rewrite !(proj2 (Z.eqb_neq _ _)), (proj2 (Z.ltb_ge _ _)) by lia. by destruct h.
Qed.

(** A capture file header written by a tool of either byte order, with
    either time-stamp resolution, is parsed back exactly: the byte order is
    recognised from the magic number, every multi-byte field is swapped as
    needed and the span advances past the header. *)
Theorem parseFileHeader_roundtrip e nsec (h h0 : FileHeader) (e0 : Endian) (rest : bytes) :
  FileHeader_ok e nsec h →
  parseFileHeader (encodeFileHeader e nsec h ++ rest) h0 e0 = Ret (NoError, (rest, h, e)).
Proof. apply parseFileHeader_encoded. Qed.

Definition sampleFileHeader : FileHeader := mkFileHeader PCAP_MAGIC_NSEC_BE 2 4 0 0 65535 1.

Lemma parseFileHeader_roundtrip_witness :
  parseFileHeader (encodeFileHeader Big true sampleFileHeader ++ [7; 7]) zeroFileHeader Little =
  Ret (NoError, ([7; 7], sampleFileHeader, Big)).
Proof.
  apply parseFileHeader_roundtrip. unfold FileHeader_ok, is_u32. cbn.
  repeat split; discriminate || reflexivity.
Defined.

(** A record header written in the file's byte order is parsed back
    exactly. *)
Theorem parsePacketHeader_roundtrip (h h0 : PacketHeader) (e : Endian) (rest : bytes) :
  PacketHeader_ok h →
  parsePacketHeader (encodePacketHeader e h ++ rest) h0 e = Ret (NoError, (rest, h)).
Proof. apply parsePacketHeader_encoded. Qed.

Lemma parsePacketHeader_roundtrip_witness :
  parsePacketHeader (encodePacketHeader Big (mkPacketHeader 1 2 60 64) ++ [9]) zeroPacketHeader Big =
  Ret (NoError, ([9], mkPacketHeader 1 2 60 64)).
Proof. apply parsePacketHeader_roundtrip. unfold PacketHeader_ok, is_u32; cbn; lia. Defined.

