(* ===== verification/Ethernet.v ===== *)
(** Ethernet II frames: [include/net/protocols/ethernet.h],
    [src/net/protocols/ethernet.cpp]. *)
From S2P Require Import Prelude Endian ParseError Text.

Definition HEADER_LEN : Z := 14.

Definition ETHERTYPE_IPV4 : Z := 0x0800.
Definition ETHERTYPE_IPV6 : Z := 0x86DD.
Definition ETHERTYPE_ARP : Z := 0x0806.
Definition ETHERTYPE_VLAN : Z := 0x8100.
Definition ETHERTYPE_VLAN_QQ : Z := 0x88A8.

Record Header := mkHeader {
  dst_mac : bytes;
  src_mac : bytes;
  ethertype : Z;
}.

Definition zeroHeader : Header := mkHeader (replicate 6 0) (replicate 6 0) 0.

Definition Header_of (b : bytes) : Header :=
  mkHeader (field_bytes b 0 6) (field_bytes b 6 6) (field b 12 2).

Definition set_ethertype (h : Header) (v : Z) : Header :=
  mkHeader h.(dst_mac) h.(src_mac) v.

Definition parse (span : bytes) (header : Header) (endian : Endian)
    : outcome (ParseError * (bytes * Header)) :=
  if len span <? HEADER_LEN then Ret (UnexpectedEof, (span, header)) else
  b ← memcpy span HEADER_LEN;
  let header := Header_of b in
  let header := set_ethertype header (toHost16 header.(ethertype) endian) in
  span ← subspan span HEADER_LEN;
  Ret (NoError, (span, header)).

(** ** Printing *)

Definition ethertypeName (t : Z) : bytes :=
  if t =? ETHERTYPE_IPV4 then chars "IPv4"
  else if t =? ETHERTYPE_IPV6 then chars "IPv6"
  else if t =? ETHERTYPE_ARP then chars "ARP"
  else if t =? ETHERTYPE_VLAN then chars "VLAN"
  else if t =? ETHERTYPE_VLAN_QQ then chars "VLAN QoS"
  else chars "?".

(** [printMac] reads the six bytes behind a pointer. *)
Definition printMac_body (mac : bytes) (st : Z * bytes) : outcome (control (Z * bytes) bytes) :=
  let '(i, os) := st in
  if i <? 6 then
    let os := if i =? 0 then os else os ++ chars ":" in
    b ← at_ mac i;
    Ret (Next (i + 1, os ++ setw 2 (hex b)))
  else Ret (Stop os).
Definition printMac (mac : bytes) : outcome bytes := loop 7 (printMac_body mac) (0, []).

Definition toString (h : Header) : outcome bytes :=
  dst ← printMac h.(dst_mac);
  src ← printMac h.(src_mac);
  Ret (chars "EthernetHeader {" ++ [newline] ++
       chars "  dst_mac: " ++ dst ++ [newline] ++
       chars "  src_mac: " ++ src ++ [newline] ++
       chars "  ethertype: 0x" ++ setw 4 (hex h.(ethertype)) ++ chars " (" ++
         ethertypeName h.(ethertype) ++ chars ")" ++ [newline] ++
       chars "}").

Definition toJson (h : Header) : outcome bytes :=
  dst ← printMac h.(dst_mac);
  src ← printMac h.(src_mac);
  Ret (jstr "`ethernet`: {" ++ [newline] ++
       jstr "  `dst_mac`: `" ++ dst ++ jstr "`," ++ [newline] ++
       jstr "  `src_mac`: `" ++ src ++ jstr "`," ++ [newline] ++
       jstr "  `ethertype`: `0x" ++ setw 4 (hex h.(ethertype)) ++ jstr "`" ++ [newline] ++
       chars "}").

(** ** Reference encoder *)

Definition encode (h : Header) : bytes := h.(dst_mac) ++ h.(src_mac) ++ be_bytes 2 h.(ethertype).

Definition Header_ok (h : Header) : Prop :=
  len h.(dst_mac) = 6 ∧ len h.(src_mac) = 6 ∧ 0 ≤ h.(ethertype) < 65536.

(** ** Lemmas *)

Lemma wp_parse_ethernet span h e :
  wp (parse span h e) (λ '(err, (span', h')),
    match err with
    | NoError => HEADER_LEN ≤ len span ∧ span' = zdrop HEADER_LEN span ∧
                 len h'.(dst_mac) = 6 ∧ len h'.(src_mac) = 6
    | _ => err = UnexpectedEof ∧ span' = span ∧ h' = h
    end).
Proof.
  unfold parse, HEADER_LEN. split_if; [by wp_steps|].
  assert (14 ≤ len span) by lia. wp_steps.
  cbn [set_ethertype Header_of dst_mac src_mac].
  split_and!; [lia|done|..]; rewrite len_field_bytes; rewrite ?len_ztake; lia.
Qed.

Lemma len_encode_ethernet h : Header_ok h → len (encode h) = HEADER_LEN.
Proof.
  intros (Hd & Hs & _). unfold encode. rewrite !len_app, Hd, Hs.
  unfold len. by rewrite length_be_bytes.
Qed.

Lemma parse_encode_ethernet h h0 rest :
  Header_ok h → parse (encode h ++ rest) h0 Big = Ret (NoError, (rest, h)).
Proof.
  intros Hok. pose proof (len_encode_ethernet h Hok) as Hlen. destruct Hok as (Hd & Hs & He).
  unfold parse. rewrite ltb_app_exact, memcpy_app_exact by done.
  rewrite bind_ret, subspan_app_exact by done. rewrite bind_ret.
  unfold Header_of, encode, set_ethertype; cbn [dst_mac src_mac ethertype].
  assert (length (dst_mac h) = 6%nat) by (unfold len in Hd; lia).
  assert (length (src_mac h) = 6%nat) by (unfold len in Hs; lia).
  rewrite field_bytes_hit, field_bytes_skip, !field_skip by lia.
  rewrite H, H0. cbn [Nat.sub]. rewrite field_bytes_hit by done.
  rewrite field_last by apply length_be_bytes.
  change (be_bytes 2 (ethertype h)) with (enc Big 2 (ethertype h)).
  rewrite toHost16_enc by done. by destruct h.
Qed.

Lemma wp_printMac mac : 6 ≤ len mac → wp (printMac mac) (λ _, True).
Proof.
  intros Hm. unfold printMac.
  eapply (wp_loop (λ '(i, _), 0 ≤ i ≤ 6) _ (λ '(i, _), 6 - i)); [|lia..].
  intros [i os] Hi. unfold printMac_body. split_if; [|by wp_steps].
  wp_step. apply wp_at; [lia|]. intros b _. apply wp_ret. lia.
Qed.

Lemma wp_print_ethernet h : len h.(dst_mac) = 6 → len h.(src_mac) = 6 →
  wp (toString h) (λ _, True) ∧ wp (toJson h) (λ _, True).
Proof.
  intros Hd Hs.
  split; (apply wp_bind; eapply wp_mono; [apply wp_printMac; lia|]; intros d _;
          apply wp_bind; eapply wp_mono; [apply wp_printMac; lia|]; intros; by apply wp_ret).
Qed.
