(* ===== verification/Vlan.v ===== *)
(** 802.1Q / 802.1ad tags: [include/net/protocols/vlan.h],
    [src/net/protocols/vlan.cpp]. *)
From S2P Require Import Prelude Endian ParseError Text Ethernet.

Definition HEADER_LEN : Z := 4.
Definition MAX_TAGS : Z := 4.
Definition VID_RESERVED : Z := 0x0FFF.

Record Header := mkHeader { tci : Z; ethertype : Z }.

Definition zeroHeader : Header := mkHeader 0 0.

Definition Header_of (b : bytes) : Header := mkHeader (field b 0 2) (field b 2 2).

Definition pcp (h : Header) : Z := Z.shiftr h.(tci) 13.
Definition dei (h : Header) : Z := Z.land (Z.shiftr h.(tci) 12) 0x1.
Definition vid (h : Header) : Z := Z.land h.(tci) 0x0FFF.

Definition parse (span : bytes) (header : Header) (endian : Endian)
    : outcome (ParseError * (bytes * Header)) :=
  if len span <? HEADER_LEN then Ret (UnexpectedEof, (span, header)) else
  b ← memcpy span HEADER_LEN;
  let header := Header_of b in
  let header := mkHeader (toHost16 header.(tci) endian) (toHost16 header.(ethertype) endian) in
  if vid header =? VID_RESERVED then Ret (InvalidFieldValue, (span, header)) else
  span ← subspan span HEADER_LEN;
  Ret (NoError, (span, header)).

Definition toString (h : Header) : bytes :=
  chars "VLANHeader {" ++ [newline] ++
  chars "  pcp: " ++ dec (pcp h) ++ [newline] ++
  chars "  dei: " ++ dec (dei h) ++ [newline] ++
  chars "  vid: " ++ dec (vid h) ++ [newline] ++
  chars "  ethertype: 0x" ++ setw 4 (hex h.(ethertype)) ++ chars " (" ++
    Ethernet.ethertypeName h.(ethertype) ++ chars ")" ++ [newline] ++
  chars "}".

Definition toJson (h : Header) : bytes :=
  jstr "`vlan`: {" ++ [newline] ++
  jstr "  `pcp`: " ++ dec (pcp h) ++ chars "," ++ [newline] ++
  jstr "  `dei`: " ++ dec (dei h) ++ chars "," ++ [newline] ++
  jstr "  `vid`: " ++ dec (vid h) ++ chars "," ++ [newline] ++
  jstr "  `ethertype`: `0x" ++ setw 4 (hex h.(ethertype)) ++ jstr "`" ++ [newline] ++
  chars "}".

(** ** Reference encoder *)

Definition make_tci (pcp dei vid : Z) : Z := pcp * 8192 + dei * 4096 + vid.

Definition encode (h : Header) : bytes := be_bytes 2 h.(tci) ++ be_bytes 2 h.(ethertype).

Definition Header_ok (h : Header) : Prop :=
  0 ≤ h.(tci) < 65536 ∧ 0 ≤ h.(ethertype) < 65536 ∧ vid h ≠ VID_RESERVED.

(** ** Lemmas *)

(** The three accessors take the tag control information apart. *)
Lemma tci_fields p d v h :
  0 ≤ p < 8 → 0 ≤ d < 2 → 0 ≤ v < 4096 → h.(tci) = make_tci p d v →
  pcp h = p ∧ dei h = d ∧ vid h = v.
Proof.
  intros Hp Hd Hv Ht. unfold pcp, dei, vid, make_tci in *. rewrite Ht.
  change 0x1 with (Z.ones 1). change 0x0FFF with (Z.ones 12).
  rewrite !Z.land_ones, !Z.shiftr_div_pow2 by lia. Z.div_mod_to_equations; lia.
Qed.

Lemma wp_parse_vlan span h e :
  wp (parse span h e) (λ '(err, (span', h')),
    match err with
    | NoError => HEADER_LEN ≤ len span ∧ span' = zdrop HEADER_LEN span ∧ vid h' ≠ VID_RESERVED
    | _ => span' = span
    end).
Proof.
  unfold parse, HEADER_LEN. split_if; [by wp_steps|].
  assert (4 ≤ len span) by lia. wp_steps; [done|].
  split_and!; [done..|]. by apply Z.eqb_neq.
Qed.

Lemma len_encode_vlan h : len (encode h) = HEADER_LEN.
Proof. unfold encode, len. by rewrite length_app, !length_be_bytes. Qed.

Lemma parse_encode_vlan h h0 rest :
  Header_ok h → parse (encode h ++ rest) h0 Big = Ret (NoError, (rest, h)).
Proof.
  intros (Ht & He & Hv). pose proof (len_encode_vlan h) as Hlen.
  unfold parse. rewrite ltb_app_exact, memcpy_app_exact by done.
  rewrite bind_ret. unfold Header_of, encode; cbn [tci ethertype].
  read_fields.
  change (be_bytes 2 (tci h)) with (enc Big 2 (tci h)).
  change (be_bytes 2 (ethertype h)) with (enc Big 2 (ethertype h)).
  rewrite !toHost16_enc by done. destruct h as [t ty]. cbn [tci ethertype] in *.
  rewrite (proj2 (Z.eqb_neq _ _)) by done. change (enc Big 2 t ++ enc Big 2 ty) with (encode (mkHeader t ty)).
  by rewrite subspan_app_exact.
Qed.
