(* ===== verification/Ip.v ===== *)
(** IP protocol numbers: [include/net/protocols/ip.h]. *)
From S2P Require Import Prelude Text.

Definition PROTOCOL_UDP : Z := 17.
Definition PROTOCOL_TCP : Z := 6.
Definition PROTOCOL_ICMP : Z := 1.
Definition PROTOCOL_ICMPV6 : Z := 58.

Definition PROTOCOL_HOPOPT : Z := 0.
Definition PROTOCOL_IPV6_ROUTE : Z := 43.
Definition PROTOCOL_IPV6_FRAG : Z := 44.
Definition PROTOCOL_ESP : Z := 50.
Definition PROTOCOL_AH : Z := 51.
Definition PROTOCOL_IPV6_NONXT : Z := 59.
Definition PROTOCOL_IPV6_OPTS : Z := 60.
Definition PROTOCOL_MOBILITY : Z := 135.
Definition PROTOCOL_HIP : Z := 139.
Definition PROTOCOL_SHIM6 : Z := 140.

Definition protocolName (protocol : Z) : bytes :=
  if protocol =? PROTOCOL_TCP then chars "TCP"
  else if protocol =? PROTOCOL_UDP then chars "UDP"
  else if protocol =? PROTOCOL_ICMP then chars "ICMP"
  else if protocol =? PROTOCOL_ICMPV6 then chars "ICMPV6"
  else if protocol =? PROTOCOL_HOPOPT then chars "HOPOPT"
  else if protocol =? PROTOCOL_IPV6_ROUTE then chars "IPv6-Route"
  else if protocol =? PROTOCOL_IPV6_FRAG then chars "IPv6-Frag"
  else if protocol =? PROTOCOL_ESP then chars "ESP"
  else if protocol =? PROTOCOL_AH then chars "AH"
  else if protocol =? PROTOCOL_IPV6_NONXT then chars "IPv6-NoNxt"
  else if protocol =? PROTOCOL_IPV6_OPTS then chars "IPv6-Opts"
  else if protocol =? PROTOCOL_MOBILITY then chars "Mobility"
  else if protocol =? PROTOCOL_HIP then chars "HIP"
  else if protocol =? PROTOCOL_SHIM6 then chars "Shim6"
  else chars "?".

(** [Some p] where the code stores [p] in [out] and returns true. *)
Definition protocolFromName (name : bytes) : option Z :=
  if isEquals name (chars "tcp") then Some PROTOCOL_TCP
  else if isEquals name (chars "udp") then Some PROTOCOL_UDP
  else if isEquals name (chars "icmp") then Some PROTOCOL_ICMP
  else if isEquals name (chars "icmpv6") then Some PROTOCOL_ICMPV6
  else
    value ← parseUint name 255;
    Some (u8 value).

Example protocolFromName_tcp : protocolFromName (chars "TcP") = Some PROTOCOL_TCP.
Proof. reflexivity. Qed.
Example protocolFromName_num : protocolFromName (chars "132") = Some 132.
Proof. reflexivity. Qed.
Example protocolFromName_big : protocolFromName (chars "256") = None.
Proof. reflexivity. Qed.
