(* ===== verification/Ipv4.v ===== *)
(** IPv4: [include/net/protocols/ipv4.h], [src/net/protocols/ipv4.cpp]. *)
From S2P Require Import Prelude Endian ParseError Checksum Text Ip.

Definition MIN_IHL : Z := 5.
Definition MAX_IHL : Z := 15.
Definition MIN_HEADER_LEN : Z := 4 * MIN_IHL.
Definition MAX_HEADER_LEN : Z := 4 * MAX_IHL.
Definition SUPPORTED_VERSION : Z := 4.

Record Header := mkHeader {
  version_ihl : Z;
  tos : Z;
  total_length : Z;
  identification : Z;
  flags_fragment : Z;
  ttl : Z;
  protocol : Z;
  checksum : Z;
  src_ip : Z;
  dst_ip : Z;
}.

Definition zeroHeader : Header := mkHeader 0 0 0 0 0 0 0 0 0 0.

Definition Header_of (b : bytes) : Header :=
  mkHeader (field b 0 1) (field b 1 1) (field b 2 2) (field b 4 2) (field b 6 2)
           (field b 8 1) (field b 9 1) (field b 10 2) (field b 12 4) (field b 16 4).

Definition version (h : Header) : Z := Z.shiftr h.(version_ihl) 4.
Definition ihl (h : Header) : Z := Z.land h.(version_ihl) 0x0F.
Definition header_length (h : Header) : Z := u16 (4 * ihl h).
Definition flags (h : Header) : Z := u8 (Z.shiftr h.(flags_fragment) 13).
Definition dontFragment (h : Header) : bool := negb (Z.land (flags h) 0x2 =? 0).
Definition moreFragments (h : Header) : bool := negb (Z.land (flags h) 0x1 =? 0).
Definition fragment (h : Header) : Z := Z.land h.(flags_fragment) 0x1FFF.

(** The multi-byte fields taken to host order. *)
Definition toHost (h : Header) (endian : Endian) : Header := {|
  version_ihl := h.(version_ihl);
  tos := h.(tos);
  total_length := toHost16 h.(total_length) endian;
  identification := toHost16 h.(identification) endian;
  flags_fragment := toHost16 h.(flags_fragment) endian;
  ttl := h.(ttl);
  protocol := h.(protocol);
  checksum := toHost16 h.(checksum) endian;
  src_ip := toHost32 h.(src_ip) endian;
  dst_ip := toHost32 h.(dst_ip) endian;
|}.

Definition parse (span : bytes) (header : Header) (endian : Endian) (verify_checksum : bool)
    : outcome (ParseError * (bytes * Header)) :=
  if len span <? MIN_HEADER_LEN then Ret (UnexpectedEof, (span, header)) else
  b ← memcpy span MIN_HEADER_LEN;
  let header := Header_of b in
  if (header_length header <? MIN_HEADER_LEN) || (MAX_HEADER_LEN <? header_length header)
  then Ret (MalformedHeader, (span, header))
  else if len span <? header_length header then Ret (UnexpectedEof, (span, header))
  else if negb (version header =? SUPPORTED_VERSION) then Ret (InvalidFieldValue, (span, header))
  else
    ok ← (if verify_checksum then verifyChecksum span (header_length header) 0 else Ret true);
    if negb ok then Ret (ChecksumMismatch, (span, header)) else
    let header := toHost header endian in
    if header.(total_length) <? header_length header then Ret (MalformedHeader, (span, header))
    else if len span <? header.(total_length) then Ret (UnexpectedEof, (span, header))
    else
      span ← subspan_n span (header_length header) (header.(total_length) - header_length header);
      Ret (NoError, (span, header)).

Definition computePseudoHeaderSum (header : Header) : Z :=
  u64 (Z.shiftr header.(src_ip) 16 +
       Z.land header.(src_ip) 0xFFFF +
       Z.shiftr header.(dst_ip) 16 +
       Z.land header.(dst_ip) 0xFFFF +
       header.(protocol) +
       u64 (header.(total_length) - 4 * ihl header)).

(** ** Addresses *)

Definition dotted (a b c d : Z) : bytes :=
  dec a ++ chars "." ++ dec b ++ chars "." ++ dec c ++ chars "." ++ dec d.

(** [printIp(os, uint32_t)]. *)
Definition printIp32 (ip : Z) : bytes :=
  dotted (Z.land (Z.shiftr ip 24) 0xFF) (Z.land (Z.shiftr ip 16) 0xFF)
         (Z.land (Z.shiftr ip 8) 0xFF) (Z.land ip 0xFF).

(** [printIp(os, const uint8_t[4])] reads four bytes behind a pointer. *)
Definition printIp (ip : bytes) : outcome bytes :=
  a ← at_ ip 0; b ← at_ ip 1; c ← at_ ip 2; d ← at_ ip 3;
  Ret (dotted a b c d).

(** The loop of [addressFromString]: [text] is what is left of the view, [out]
    the octets stored so far ([octets] of them).  The end of the view is the
    iteration [i == text.size()], after which the loop stops. *)
Fixpoint addressFromString_loop (text : bytes) (out : list Z) (value digits : Z)
    : option (list Z) :=
  match text with
  | [] =>
      if (digits =? 0) || (3 <? len out) then None
      else
        let out := out ++ [u8 value] in
        if len out =? 4 then Some out else None
  | c :: text =>
      if (48 <=? c) && (c <=? 57) then
        let value := value * 10 + (c - 48) in
        if 255 <? value then None
        else
          let digits := digits + 1 in
          if 3 <? digits then None
          else addressFromString_loop text out value digits
      else if c =? 46 then
        if (digits =? 0) || (3 <? len out) then None
        else addressFromString_loop text (out ++ [u8 value]) 0 0
      else None
  end.
Definition addressFromString (text : bytes) : option (list Z) :=
  addressFromString_loop text [] 0 0.

(** ** Printing *)

Definition toString (h : Header) : bytes :=
  chars "IPv4Header {" ++ [newline] ++
  chars "  version: " ++ dec (version h) ++ [newline] ++
  chars "  ihl: " ++ dec (ihl h) ++ [newline] ++
  chars "  tos: 0x" ++ setw 2 (hex h.(tos)) ++ [newline] ++
  chars "  total_length: " ++ dec h.(total_length) ++ [newline] ++
  chars "  identification: " ++ dec h.(identification) ++ [newline] ++
  chars "  flags: " ++ when (dontFragment h) (chars "DF") ++
    when (moreFragments h) (chars "MF") ++
    when (negb (dontFragment h) && negb (moreFragments h)) (chars "none") ++
    chars " (0b" ++ dec (Z.land (Z.shiftr (flags h) 2) 1) ++
    dec (Z.land (Z.shiftr (flags h) 1) 1) ++ dec (Z.land (flags h) 1) ++
    chars ")" ++ [newline] ++
  chars "  fragment: " ++ setw 4 (hex (fragment h)) ++ [newline] ++
  chars "  ttl: " ++ dec h.(ttl) ++ [newline] ++
  chars "  protocol: " ++ dec h.(protocol) ++ chars " (" ++ Ip.protocolName h.(protocol) ++
    chars ")" ++ [newline] ++
  chars "  checksum: 0x" ++ hex h.(checksum) ++ [newline] ++
  chars "  src_ip: " ++ printIp32 h.(src_ip) ++ [newline] ++
  chars "  dst_ip: " ++ printIp32 h.(dst_ip) ++ [newline] ++
  chars "}".

Definition toJson (h : Header) : bytes :=
  jstr "`ipv4`: {" ++ [newline] ++
  jstr "  `version`: " ++ dec (version h) ++ chars "," ++ [newline] ++
  jstr "  `ihl`: " ++ dec (ihl h) ++ chars "," ++ [newline] ++
  jstr "  `tos`: `0x" ++ setw 2 (hex h.(tos)) ++ jstr "`," ++ [newline] ++
  jstr "  `total_length`: " ++ dec h.(total_length) ++ chars "," ++ [newline] ++
  jstr "  `identification`: " ++ dec h.(identification) ++ chars "," ++ [newline] ++
  jstr "  `flags`: [" ++ when (dontFragment h) (jstr "`DF`") ++
    when (moreFragments h) (when (dontFragment h) (chars ", ") ++ jstr "`MF`") ++
    chars "]," ++ [newline] ++
  jstr "  `fragment`: `0x" ++ setw 4 (hex (fragment h)) ++ jstr "`," ++ [newline] ++
  jstr "  `ttl`: " ++ dec h.(ttl) ++ chars "," ++ [newline] ++
  jstr "  `protocol`: " ++ dec h.(protocol) ++ chars "," ++ [newline] ++
  jstr "  `checksum`: `0x" ++ hex h.(checksum) ++ jstr "`," ++ [newline] ++
  jstr "  `src_ip`: `" ++ printIp32 h.(src_ip) ++ jstr "`," ++ [newline] ++
  jstr "  `dst_ip`: `" ++ printIp32 h.(dst_ip) ++ jstr "`" ++ [newline] ++
  chars "}".

(** ** Reference encoder *)

Definition encode (h : Header) (options : bytes) : bytes :=
  [h.(version_ihl)] ++ [h.(tos)] ++ enc Big 2 h.(total_length) ++ enc Big 2 h.(identification) ++
  enc Big 2 h.(flags_fragment) ++ [h.(ttl)] ++ [h.(protocol)] ++ enc Big 2 h.(checksum) ++
  enc Big 4 h.(src_ip) ++ enc Big 4 h.(dst_ip) ++ options.

(** A header its sender may put on the wire: version 4, every field in its
    range, an option area of the size [ihl] says, a total length that covers
    the header. *)
Record Header_ok (h : Header) (options : bytes) : Prop := {
  ok_version : version h = SUPPORTED_VERSION;
  ok_ihl : MIN_IHL ≤ ihl h;
  ok_vi : is_byte h.(version_ihl);
  ok_options : len options = 4 * (ihl h - MIN_IHL);
  ok_total : header_length h ≤ h.(total_length) < 65536;
  ok_tos : is_byte h.(tos);
  ok_id : 0 ≤ h.(identification) < 65536;
  ok_ff : 0 ≤ h.(flags_fragment) < 65536;
  ok_ttl : is_byte h.(ttl);
  ok_proto : is_byte h.(protocol);
  ok_checksum : 0 ≤ h.(checksum) < 65536;
  ok_src : 0 ≤ h.(src_ip) < 4294967296;
  ok_dst : 0 ≤ h.(dst_ip) < 4294967296;
}.

(** ** Lemmas *)

Lemma ihl_range h : 0 ≤ ihl h < 16.
Proof.
  unfold ihl. change 0x0F with (Z.ones 4). rewrite Z.land_ones by lia.
  by apply Z.mod_pos_bound.
Qed.
Lemma header_length_ihl h : header_length h = 4 * ihl h.
Proof. pose proof (ihl_range h). apply u16_small. lia. Qed.

(** The fields of a parsed header are in the range of their types. *)
Record Header_typed (h : Header) : Prop := {
  ty_total : 0 ≤ h.(total_length) < 65536;
  ty_proto : is_byte h.(protocol);
  ty_src : 0 ≤ h.(src_ip) < 4294967296;
  ty_dst : 0 ≤ h.(dst_ip) < 4294967296;
}.
Lemma Header_of_typed_ipv4 b e : bytes_ok b → Header_typed (toHost (Header_of b) e).
Proof. split; cbn; auto with pcap. Qed.

Lemma pseudo_range_ipv4 h :
  Header_typed h → header_length h ≤ h.(total_length) → 0 ≤ computePseudoHeaderSum h < 2 ^ 63.
Proof.
  unfold computePseudoHeaderSum. rewrite header_length_ihl. intros [Ht Hp Hs Hd] Hle.
  unfold is_byte in Hp.
  pose proof (ihl_range h).
  change 0xFFFF with (Z.ones 16).
  rewrite !Z.shiftr_div_pow2, !Z.land_ones, (u64_small (_ - _)) by lia.
  rewrite u64_small; Z.div_mod_to_equations; lia.
Qed.

Lemma wp_parse_ipv4 span h e verify :
  bytes_ok span →
  wp (parse span h e verify) (λ '(err, (span', h')),
    match err with
    | NoError =>
        MIN_HEADER_LEN ≤ header_length h' ≤ h'.(total_length) ∧ h'.(total_length) ≤ len span ∧
        version h' = SUPPORTED_VERSION ∧
        span' = ztake (h'.(total_length) - header_length h') (zdrop (header_length h') span) ∧
        Header_typed h'
    | _ => span' = span
    end).
Proof.
  intros Hok. unfold parse. split_if; [by wp_steps|].
  unfold MIN_HEADER_LEN, MAX_HEADER_LEN, MIN_IHL, MAX_IHL in *.
  assert (20 ≤ len span) by lia. wp_step. wp_step.
  set (hd := Header_of _). cbn zeta. do 3 (split_if; [by wp_steps|]).
  pose proof (header_length_ihl hd) as Hh. pose proof (ihl_range hd).
  wp_step. eapply (wp_mono _ (λ _, True)).
  { destruct verify; [|by wp_steps]. apply wp_verifyChecksum; auto; lia. }
  intros ok _. change (header_length (toHost hd e)) with (header_length hd).
  do 3 (split_if; [by wp_steps|]). wp_steps.
  change (header_length (toHost hd e)) with (header_length hd).
  change (version (toHost hd e)) with (version hd).
  split_and!; [lia..| |done|]; [lia|]. apply Header_of_typed_ipv4. auto with pcap.
Qed.

(** [parse] takes off exactly the header its sender wrote, and cuts the padding
    a link layer adds behind the datagram. *)
Lemma parse_encode_ipv4 h h0 options payload padding verify :
  Header_ok h options → len payload = h.(total_length) - header_length h →
  (verify = true →
   verifyChecksum (encode h options ++ payload ++ padding) (header_length h) 0 = Ret true) →
  parse (encode h options ++ payload ++ padding) h0 Big verify = Ret (NoError, (payload, h)).
Proof.
  intros [] Hpay Hck. pose proof (header_length_ihl h) as Hhl. pose proof (ihl_range h).
  unfold MIN_IHL in *.
  assert (Hlen : len (encode h options) = header_length h).
  { unfold encode. rewrite !len_app, !len_enc, ok_options0. unfold len; cbn [length]. lia. }
  assert (Hspan : len (encode h options ++ payload ++ padding) = h.(total_length) + len padding)
    by (rewrite !len_app; lia).
  pose proof (len_nonneg padding).
  set (span := encode h options ++ payload ++ padding) in *.
  set (raw := Header_of (ztake MIN_HEADER_LEN span)).
  assert (Hraw : toHost raw Big = h ∧ header_length raw = header_length h ∧ version raw = version h).
  { subst raw span. unfold encode, MIN_HEADER_LEN, MIN_IHL.
    rewrite !app_assoc. rewrite <- (app_assoc _ payload), <- (app_assoc _ options).
    rewrite ztake_app_exact by (rewrite !len_app, !len_enc; reflexivity).
    rewrite <- !app_assoc. unfold Header_of. read_fields. cbn [le_val].
    unfold toHost; cbn [version_ihl tos total_length identification flags_fragment ttl protocol
      checksum src_ip dst_ip]. rewrite !toHost16_enc, !toHost32_enc by lia.
    rewrite !Z.mul_0_r, !Z.add_0_r. unfold header_length, ihl, version; cbn [version_ihl].
    by destruct h. }
  destruct Hraw as (Hraw & Hrl & Hrv).
  unfold parse, memcpy, first. rewrite (proj2 (Z.ltb_ge _ _)), (proj2 (Z.leb_le 0 _)),
    (proj2 (Z.leb_le MIN_HEADER_LEN _)) by (unfold MIN_HEADER_LEN, MIN_IHL; lia).
  cbn [andb]. rewrite bind_ret. fold raw. rewrite Hraw, Hrl, Hrv, ok_version0.
  unfold MIN_HEADER_LEN, MAX_HEADER_LEN, MIN_IHL, MAX_IHL.
  rewrite !(proj2 (Z.ltb_ge _ _)) by lia. cbn [orb negb Z.eqb].
  replace (if verify then _ else Ret true) with (Ret true : outcome bool)
    by (destruct verify; [by rewrite Hck|done]).
  rewrite bind_ret. cbn [negb SUPPORTED_VERSION Z.eqb Pos.eqb].
  subst span. unfold subspan_n. rewrite subspan_app_exact, bind_ret by done.
  by rewrite first_app_exact, bind_ret by done.
Qed.

(** ** Addresses in text *)

(** A printed octet is one, two or three digits. *)
Definition octet_text (o : Z) : bytes :=
  if o <? 10 then [48 + o]
  else if o <? 100 then [48 + o / 10; 48 + o mod 10]
  else [48 + o / 100; 48 + o / 10 mod 10; 48 + o mod 10].

Lemma dec_octet o : is_byte o → dec o = octet_text o.
Proof.
  unfold is_byte. intros Ho. rewrite <- (Z2Nat.id o) by lia.
  assert (Hn : (Z.to_nat o < 256)%nat) by lia. revert Hn. generalize (Z.to_nat o) as n.
  assert (Hall : forallb (λ n, bool_decide (dec (Z.of_nat n) = octet_text (Z.of_nat n)))
                         (seq 0 256) = true) by (vm_compute; reflexivity).
  intros n Hn. rewrite forallb_forall in Hall. eapply bool_decide_eq_true_1, Hall.
  apply in_seq. lia.
Qed.

(** The loop reads a printed octet whole. *)
Lemma addressFromString_octet o rest out :
  is_byte o →
  ∃ d, 0 < d ≤ 3 ∧ addressFromString_loop (dec o ++ rest) out 0 0 =
                   addressFromString_loop rest out o d.
Proof.
  intros Ho. rewrite dec_octet by done. unfold is_byte, octet_text in *.
  assert (Hstep : ∀ c text v d, 48 ≤ c ≤ 57 → 0 ≤ d < 3 → v * 10 + (c - 48) < 256 →
    addressFromString_loop (c :: text) out v d =
    addressFromString_loop text out (v * 10 + (c - 48)) (d + 1)).
  { intros c text v d Hc Hd Hv. cbn [addressFromString_loop].
    rewrite !(proj2 (Z.leb_le _ _)), !(proj2 (Z.ltb_ge _ _)) by lia. done. }
  destruct (Z.ltb_spec o 10); [|destruct (Z.ltb_spec o 100)]; cbn [app].
  - exists 1. rewrite Hstep by lia. split; [lia|]. f_equal. lia.
  - exists 2. rewrite !Hstep by (Z.div_mod_to_equations; lia). split; [lia|].
    f_equal. Z.div_mod_to_equations; lia.
  - exists 3. rewrite !Hstep by (Z.div_mod_to_equations; lia). split; [lia|].
    f_equal. Z.div_mod_to_equations; lia.
Qed.

Lemma addressFromString_dotted a b c d :
  is_byte a → is_byte b → is_byte c → is_byte d →
  addressFromString (dotted a b c d) = Some [a; b; c; d].
Proof.
  intros Ha Hb Hc Hd. unfold addressFromString, dotted.
  assert (Hdot : ∀ o rest out, is_byte o → len out < 4 →
    addressFromString_loop (dec o ++ 46 :: rest) out 0 0 =
    addressFromString_loop rest (out ++ [o]) 0 0).
  { intros o rest out Ho Hout. destruct (addressFromString_octet o (46 :: rest) out Ho) as (n & Hn & ->).
    cbn [addressFromString_loop Z.leb Z.compare Pos.compare Pos.compare_cont andb Z.eqb Pos.eqb].
    rewrite (proj2 (Z.eqb_neq n 0)), (proj2 (Z.ltb_ge _ _)) by lia. cbn [orb].
    unfold u8. by rewrite Z.mod_small. }
  change (chars ".") with [46]. cbn [app].
  rewrite !Hdot by (done || reflexivity). cbn [app].
  destruct (addressFromString_octet d [] [a; b; c] Hd) as (n & Hn & Heq).
  rewrite app_nil_r in Heq. rewrite Heq. cbn [addressFromString_loop app].
  rewrite (proj2 (Z.eqb_neq n 0)) by lia. unfold u8. rewrite Z.mod_small by done. done.
Qed.

Lemma addressFromString_loop_ok text out v d ip :
  bytes_ok out → addressFromString_loop text out v d = Some ip → len ip = 4 ∧ bytes_ok ip.
Proof.
  revert out v d. induction text as [|c text IH]; intros out v d Ho; cbn [addressFromString_loop].
  - split_if; [done|]. split_if; [|done]. intros [= <-]. split; [lia|].
    apply bytes_ok_app. split; [done|]. apply Forall_singleton, Z.mod_pos_bound. lia.
  - split_if; [split_if; [done|]; split_if; [done|]; by apply IH|].
    split_if; [|done]. split_if; [done|]. apply IH, bytes_ok_app. split; [done|].
    apply Forall_singleton, Z.mod_pos_bound. lia.
Qed.
(** A colon is no part of an IPv4 address. *)
Lemma addressFromString_no_colon text : 58 ∈ text → addressFromString text = None.
Proof.
  unfold addressFromString. generalize (@nil Z) as out. generalize 0 at 2 as d. generalize 0 as v.
  induction text as [|c text IH]; intros v d out; [by intros ?%elem_of_nil|].
  cbn [addressFromString_loop]. intros [<-|Hin]%elem_of_cons; [done|].
  by repeat (split_if; [try done|try done]); apply IH.
Qed.
Lemma addressFromString_ok text ip :
  addressFromString text = Some ip → len ip = 4 ∧ bytes_ok ip.
Proof. by apply addressFromString_loop_ok, Forall_nil_2. Qed.

(** An IPv4 address printed by [printIp] is read back by
    [addressFromString] as the same four octets, the most significant first. *)
Theorem address_roundtrip (ip : Z) :
  0 ≤ ip < 4294967296 → addressFromString (printIp32 ip) = Some (be_bytes 4 ip).
Proof.
  intros Hip. unfold printIp32. change 0xFF with (Z.ones 8).
  rewrite !Z.land_ones, !Z.shiftr_div_pow2 by lia.
  rewrite addressFromString_dotted by (unfold is_byte; Z.div_mod_to_equations; lia).
  unfold be_bytes; cbn [le_bytes rev app]. f_equal.
  repeat (f_equal; [Z.div_mod_to_equations; lia|]). f_equal. Z.div_mod_to_equations; lia.
Qed.

Lemma address_roundtrip_witness :
  addressFromString (printIp32 0xC0A80001) = Some (be_bytes 4 0xC0A80001).
Proof. apply address_roundtrip. lia. Defined.

Example addressFromString_rejects :
  addressFromString (chars "1.2.3") = None ∧ addressFromString (chars "1.2.3.256") = None ∧
  addressFromString (chars "1.2.3.4.") = None ∧ addressFromString (chars "1..3.4") = None ∧
  addressFromString (chars "001.002.3.4") = Some [1; 2; 3; 4] ∧
  addressFromString (chars "1.2.3.0004") = None.
Proof. vm_compute. done. Qed.

Lemma wp_printIp_ipv4 ip : 4 ≤ len ip → wp (printIp ip) (λ _, True).
Proof. intros. unfold printIp. do 4 (wp_step; apply wp_at; [lia|]; intros ? _). by apply wp_ret. Qed.
