(* ===== verification/Ipv6.v ===== *)
(** IPv6: [include/net/protocols/ipv6.h], [src/net/protocols/ipv6.cpp]. *)
From S2P Require Import Prelude Endian ParseError Text Ip.

Definition HEADER_LEN : Z := 40.
Definition SUPPORTED_VERSION : Z := 6.

Record Header := mkHeader {
  version_tc_fl : Z;
  payload_length : Z;
  next_header : Z;
  hop_limit : Z;
  src_ip : bytes;
  dst_ip : bytes;
}.

Definition zeroHeader : Header := mkHeader 0 0 0 0 (replicate 16 0) (replicate 16 0).

Definition Header_of (b : bytes) : Header :=
  mkHeader (field b 0 4) (field b 4 2) (field b 6 1) (field b 7 1)
           (field_bytes b 8 16) (field_bytes b 24 16).

Definition version (h : Header) : Z := u8 (Z.shiftr h.(version_tc_fl) 28).
Definition tc (h : Header) : Z := Z.land (Z.shiftr h.(version_tc_fl) 20) 0xFF.
Definition fl (h : Header) : Z := Z.land h.(version_tc_fl) 0x000FFFFF.

Definition toHost (h : Header) (endian : Endian) : Header := {|
  version_tc_fl := toHost32 h.(version_tc_fl) endian;
  payload_length := toHost16 h.(payload_length) endian;
  next_header := h.(next_header);
  hop_limit := h.(hop_limit);
  src_ip := h.(src_ip);
  dst_ip := h.(dst_ip);
|}.

(** On the second [UnexpectedEof] the header has already been taken off the
    span. *)
Definition parse (span : bytes) (header : Header) (endian : Endian)
    : outcome (ParseError * (bytes * Header)) :=
  if len span <? HEADER_LEN then Ret (UnexpectedEof, (span, header)) else
  b ← memcpy span HEADER_LEN;
  let header := toHost (Header_of b) endian in
  if negb (version header =? SUPPORTED_VERSION) then Ret (InvalidFieldValue, (span, header)) else
  span ← subspan span HEADER_LEN;
  if len span <? header.(payload_length) then Ret (UnexpectedEof, (span, header)) else
  span ← first header.(payload_length) span;
  Ret (NoError, (span, header)).

(** The two loops over the address words. *)
Fixpoint sumWords (ip : bytes) (sum : Z) : Z :=
  match ip with
  | a :: b :: ip => sumWords ip (u64 (sum + Z.lor (Z.shiftl a 8) b))
  | _ => sum
  end.
Definition computePseudoHeaderSum (header : Header) : Z :=
  let sum := sumWords header.(src_ip) 0 in
  let sum := sumWords header.(dst_ip) sum in
  let sum := u64 (sum + header.(payload_length)) in
  u64 (sum + header.(next_header)).

(** ** Printing an address *)

(** [ip[i] == 0 && ip[i + 1] == 0], the second byte read only if needed. *)
Definition zeroGroup (ip : bytes) (i : Z) : outcome bool :=
  a ← at_ ip i;
  if negb (a =? 0) then Ret false else
  b ← at_ ip (i + 1);
  Ret (b =? 0).

(** The [while] that extends a run of zero groups. *)
Definition zeroRun_body (ip : bytes) (i : Z) : outcome (control Z Z) :=
  if i + 2 <? 16 then
    z ← zeroGroup ip (i + 2);
    Ret (if (z : bool) then Next (i + 2) else Stop i)
  else Ret (Stop i).

(** The [for] that looks for the longest run. *)
Definition bestRun_body (ip : bytes) (st : Z * Z * Z)
    : outcome (control (Z * Z * Z) (Z * Z)) :=
  let '(i, bestStart, bestLen) := st in
  if i <? 16 then
    z ← zeroGroup ip i;
    if negb z then Ret (Next (i + 2, bestStart, bestLen)) else
    let start := i in
    i ← loop 9 (zeroRun_body ip) i;
    let len := i - start in
    if bestLen <? len then Ret (Next (i + 2, start, len))
    else Ret (Next (i + 2, bestStart, bestLen))
  else Ret (Stop (bestStart, bestLen)).

Definition hexpair (a b : Z) : bytes := setw 2 (hex a) ++ setw 2 (hex b).

(** The [for] that prints the groups. *)
Definition printIp_body (ip : bytes) (bestStart bestLen : Z) (st : Z * bytes)
    : outcome (control (Z * bytes) bytes) :=
  let '(i, os) := st in
  if i <? 16 then
    if i =? bestStart then
      let os := os ++ chars ":" in
      let i := i + bestLen in
      let os := if i + 2 =? 16 then os ++ chars ":" else os in
      Ret (Next (i + 2, os))
    else
      let os := if i =? 0 then os else os ++ chars ":" in
      a ← at_ ip i;
      b ← at_ ip (i + 1);
      Ret (Next (i + 2, os ++ hexpair a b))
  else Ret (Stop os).

Definition bestRun (ip : bytes) : outcome (Z * Z) :=
  '(bestStart, bestLen) ← loop 9 (bestRun_body ip) (0, -1, 0);
  Ret (if bestLen <? 2 then -1 else bestStart, bestLen).

Definition printIp (ip : bytes) : outcome bytes :=
  '(bestStart, bestLen) ← bestRun ip;
  loop 9 (printIp_body ip bestStart bestLen) (0, []).

(** ** Reading an address

    [rest] is the view from index [i] on; [None] is [return false]. *)

Definition hexVal (c : Z) : Z :=
  if (48 <=? c) && (c <=? 57) then c - 48
  else if (97 <=? c) && (c <=? 102) then c - 97 + 10
  else if (65 <=? c) && (c <=? 70) then c - 65 + 10
  else -1.

Fixpoint hexDigits (rest : bytes) (value digits : Z) : option (bytes * Z * Z) :=
  match rest with
  | c :: rest' =>
      if 0 <=? hexVal c then
        let value := u32 (value * 16 + hexVal c) in
        if 4 <? digits + 1 then None else hexDigits rest' value (digits + 1)
      else Some (rest, value, digits)
  | [] => Some ([], value, digits)
  end.

(** One turn of the outer [while]: a group, then what separates it from the
    next one. *)
Definition groups_body (st : bytes * list Z * Z)
    : outcome (control (bytes * list Z * Z) (option (list Z * Z))) :=
  let '(rest, groups, gap) := st in
  match rest with
  | [] => Ret (Stop (Some (groups, gap)))
  | _ =>
      match hexDigits rest 0 0 with
      | None => Ret (Stop None)
      | Some (rest, value, digits) =>
          if (digits =? 0) || (8 <=? len groups) then Ret (Stop None) else
          let groups := groups ++ [u16 value] in
          match rest with
          | [] => Ret (Stop (Some (groups, gap)))
          | c :: rest =>
              if negb (c =? 58) then Ret (Stop None) else
              match rest with
              | [] => Ret (Stop None)
              | c :: rest' =>
                  if c =? 58 then
                    if negb (gap =? -1) then Ret (Stop None) else
                    let gap := len groups in
                    match rest' with
                    | [] => Ret (Stop (Some (groups, gap)))
                    | _ => Ret (Next (rest', groups, gap))
                    end
                  else Ret (Next (rest, groups, gap))
              end
          end
      end
  end.

(** [assign(slot, n)] for consecutive slots. *)
Definition assign (groups : list Z) : bytes :=
  groups ≫= (λ n, [u8 (Z.shiftr n 8); u8 (Z.land n 0xFF)]).

Definition fill (groups : list Z) (gap : Z) : option bytes :=
  if gap =? -1 then
    if negb (len groups =? 8) then None else Some (assign groups)
  else if 8 <=? len groups then None
  else Some (assign (ztake gap groups ++ replicate (Z.to_nat (8 - len groups)) 0 ++
                     zdrop gap groups)).

Definition addressFromString (text : bytes) : outcome (option bytes) :=
  let parseFrom rest gap :=
    r ← loop (S (length text)) groups_body (rest, [], gap);
    Ret ('(groups, gap) ← r; fill groups gap) in
  match text with
  | 58 :: 58 :: [] => Ret (Some (replicate 16 0))
  | 58 :: 58 :: rest => parseFrom rest 0
  | 58 :: _ => Ret None
  | _ => parseFrom text (-1)
  end.

(** ** Printing a header *)

Definition toString (h : Header) : outcome bytes :=
  src ← printIp h.(src_ip);
  dst ← printIp h.(dst_ip);
  Ret (chars "IPv6Header {" ++ [newline] ++
       chars "  version: " ++ dec (version h) ++ [newline] ++
       chars "  traffic_class: " ++ dec (tc h) ++ [newline] ++
       chars "  flow_label: 0x" ++ setw 5 (hex (fl h)) ++ [newline] ++
       chars "  payload_length: " ++ dec h.(payload_length) ++ [newline] ++
       chars "  next_header: " ++ dec h.(next_header) ++ chars " (" ++
         Ip.protocolName h.(next_header) ++ chars ")" ++ [newline] ++
       chars "  hop_limit: " ++ dec h.(hop_limit) ++ [newline] ++
       chars "  src_ip: " ++ src ++ [newline] ++
       chars "  dst_ip: " ++ dst ++ [newline] ++
       chars "}").

Definition toJson (h : Header) : outcome bytes :=
  src ← printIp h.(src_ip);
  dst ← printIp h.(dst_ip);
  Ret (jstr "`ipv6`: {" ++ [newline] ++
       jstr "  `version`: " ++ dec (version h) ++ chars "," ++ [newline] ++
       jstr "  `traffic_class`: " ++ dec (tc h) ++ chars "," ++ [newline] ++
       jstr "  `flow_label`: `0x" ++ setw 5 (hex (fl h)) ++ jstr "`," ++ [newline] ++
       jstr "  `payload_length`: " ++ dec h.(payload_length) ++ chars "," ++ [newline] ++
       jstr "  `next_header`: " ++ dec h.(next_header) ++ chars "," ++ [newline] ++
       jstr "  `hop_limit`: " ++ dec h.(hop_limit) ++ chars "," ++ [newline] ++
       jstr "  `src_ip`: `" ++ src ++ jstr "`," ++ [newline] ++
       jstr "  `dst_ip`: `" ++ dst ++ jstr "`" ++ [newline] ++
       chars "}").

Example printIp_runs :
  printIp [0x20;1;0xd;0xb8;0;0;0;0;0;0;0;0;0;0;0;1] = Ret (chars "2001:0db8::0001") ∧
  printIp (replicate 16 0) = Ret (chars "::") ∧
  printIp [0;1;0;0;0;2;0;0;0;0;0;3;0;0;0;0] = Ret (chars "0001:0000:0002::0003:0000:0000") ∧
  printIp [0;1;0;1;0;2;0;1;0;1;0;3;0;0;0;0] = Ret (chars "0001:0001:0002:0001:0001:0003::").
Proof. vm_compute. done. Qed.
Example addressFromString_examples :
  addressFromString (chars "::1") = Ret (Some (replicate 15 0 ++ [1])) ∧
  addressFromString (chars "fe80::") = Ret (Some ([0xfe; 0x80] ++ replicate 14 0)) ∧
  addressFromString (chars "1:2:3:4:5:6:7:8") = Ret (Some [0;1;0;2;0;3;0;4;0;5;0;6;0;7;0;8]) ∧
  addressFromString (chars "1:2:3:4:5:6:7::8") = Ret None ∧
  addressFromString (chars "1::2::3") = Ret None ∧
  addressFromString (chars "1:") = Ret None ∧
  addressFromString (chars "12345::") = Ret None ∧
  addressFromString (chars "") = Ret None.
Proof. vm_compute. done. Qed.

(** ** Reference encoder *)

Definition encode (h : Header) : bytes :=
  enc Big 4 h.(version_tc_fl) ++ enc Big 2 h.(payload_length) ++ [h.(next_header)] ++
  [h.(hop_limit)] ++ h.(src_ip) ++ h.(dst_ip).

Record Header_ok (h : Header) : Prop := {
  ok_version : version h = SUPPORTED_VERSION;
  ok_vtf : 0 ≤ h.(version_tc_fl) < 4294967296;
  ok_payload : 0 ≤ h.(payload_length) < 65536;
  ok_next : is_byte h.(next_header);
  ok_hop : is_byte h.(hop_limit);
  ok_src : len h.(src_ip) = 16;
  ok_dst : len h.(dst_ip) = 16;
}.

(** ** Lemmas: the header *)

(** What the later layers rely on. *)
Record Header_typed (h : Header) : Prop := {
  ty_payload : 0 ≤ h.(payload_length) < 65536;
  ty_next : is_byte h.(next_header);
  ty_src : len h.(src_ip) = 16 ∧ bytes_ok h.(src_ip);
  ty_dst : len h.(dst_ip) = 16 ∧ bytes_ok h.(dst_ip);
}.

Lemma Header_of_typed_ipv6 b e : bytes_ok b → len b = HEADER_LEN → Header_typed (toHost (Header_of b) e).
Proof.
  intros Hb Hl. unfold HEADER_LEN in Hl.
  split; cbn; auto with pcap; (split; [rewrite len_field_bytes; lia|auto with pcap]).
Qed.

Lemma sumWords_range ip sum : bytes_ok ip → 0 ≤ sum → sum + 65536 * len ip < 2 ^ 63 →
  0 ≤ sumWords ip sum ≤ sum + 65536 * len ip.
Proof.
  intros Hok. revert ip Hok sum.
  apply (list_pair_ind (λ ip, bytes_ok ip → ∀ sum, _ → _ → 0 ≤ _ ≤ _ + 65536 * len ip)).
  - intros _ sum. unfold len; cbn [sumWords length]; lia.
  - intros a _ sum. unfold len; cbn [sumWords length]; lia.
  - intros a b ip IH [Ha [Hb Hok]%Forall_cons]%Forall_cons sum Hs Hlt.
    pose proof (len_nonneg ip). rewrite !len_cons in *. cbn [sumWords]. unfold is_byte in *.
    assert (Hw : Z.lor (Z.shiftl a 8) b = b + a * 2 ^ 8)
      by (rewrite Z.lor_comm, lor_disjoint; lia).
    rewrite Hw, u64_small by lia. specialize (IH Hok (sum + (b + a * 2 ^ 8))). lia.
Qed.

Lemma pseudo_range_ipv6 h : Header_typed h → 0 ≤ computePseudoHeaderSum h < 2 ^ 63.
Proof.
  intros [Hp Hn [Hs Hsb] [Hd Hdb]]. unfold computePseudoHeaderSum, is_byte in *.
  pose proof (sumWords_range (src_ip h) 0 Hsb) as H1. rewrite Hs in H1.
  pose proof (sumWords_range (dst_ip h) (sumWords (src_ip h) 0) Hdb) as H2. rewrite Hd in H2.
  assert (sumWords (src_ip h) 0 ≤ 2 ^ 32) by lia.
  assert (sumWords (dst_ip h) (sumWords (src_ip h) 0) ≤ 2 ^ 33) by lia.
  rewrite (u64_small (_ + payload_length h)), u64_small; lia.
Qed.

Lemma wp_parse_ipv6 span h e :
  bytes_ok span →
  wp (parse span h e) (λ '(err, (span', h')), slice span' span ∧
    (err = NoError →
     HEADER_LEN + h'.(payload_length) ≤ len span ∧ version h' = SUPPORTED_VERSION ∧
     span' = ztake h'.(payload_length) (zdrop HEADER_LEN span) ∧ Header_typed h')).
Proof.
  intros Hok. unfold parse. split_if; [wp_steps; split; [auto with pcap|done]|].
  unfold HEADER_LEN in *. assert (40 ≤ len span) by lia. do 2 wp_step.
  assert (Hty : Header_typed (toHost (Header_of (ztake 40 span)) e))
    by (apply Header_of_typed_ipv6; [auto with pcap|by rewrite len_ztake by lia]).
  set (hd := toHost _ e) in *. cbn zeta.
  split_if; [wp_steps; split; [auto with pcap|done]|].
  do 2 wp_step. pose proof (len_zdrop 40 span) as Hzd.
  split_if; [wp_steps; split; [auto with pcap|done]|].
  destruct Hty as [Hp ? ? ?]. do 3 wp_step.
  split; [eauto with pcap|]. intros _. split_and!; [lia|lia|done|done].
Qed.

Lemma parse_encode_ipv6 h h0 payload padding :
  Header_ok h → len payload = h.(payload_length) →
  parse (encode h ++ payload ++ padding) h0 Big = Ret (NoError, (payload, h)).
Proof.
  intros [] Hpay.
  assert (Hlen : len (encode h) = HEADER_LEN)
    by (unfold encode; rewrite !len_app, !len_enc, ok_src0, ok_dst0; reflexivity).
  unfold parse. rewrite ltb_app_exact, memcpy_app_exact, bind_ret by done.
  assert (Hraw : toHost (Header_of (encode h)) Big = h).
  { assert (length (src_ip h) = 16%nat) as Hs by (unfold len in ok_src0; lia).
    assert (length (dst_ip h) = 16%nat) as Hd by (unfold len in ok_dst0; lia).
    unfold encode, Header_of. read_fields.
    rewrite Hs. cbn [length Nat.sub]. rewrite field_bytes_last by done. cbn [le_val].
    unfold toHost; cbn [version_tc_fl payload_length next_header hop_limit src_ip dst_ip].
    rewrite toHost16_enc, toHost32_enc, !Z.mul_0_r, !Z.add_0_r by lia. by destruct h. }
  rewrite Hraw. cbn zeta. rewrite ok_version0. cbn [SUPPORTED_VERSION Z.eqb Pos.eqb negb].
  rewrite subspan_app_exact, bind_ret, len_app by done. pose proof (len_nonneg padding).
  rewrite (proj2 (Z.ltb_ge _ _)) by lia. by rewrite first_app_exact by done.
Qed.

(** ** Lemmas: reading an address always ends *)

Lemma hexDigits_len rest v d rest' v' d' :
  hexDigits rest v d = Some (rest', v', d') → len rest' + d' = len rest + d ∧ d ≤ d'.
Proof.
  revert v d. induction rest as [|c rest IH]; cbn [hexDigits]; intros v d; [naive_solver|].
  rewrite len_cons. split_if; [|intros [= <- <- <-]; rewrite len_cons; lia].
  split_if; [done|]. intros H. apply IH in H; lia.
Qed.

(** What the loop keeps of its groups and of the place of the gap. *)
Definition groups_ok (groups : list Z) (gap : Z) : Prop :=
  len groups ≤ 8 ∧ (gap = -1 ∨ 0 ≤ gap ≤ len groups).

Lemma wp_groups fuel rest groups gap :
  len rest < Z.of_nat fuel → groups_ok groups gap →
  wp (loop fuel groups_body (rest, groups, gap))
     (λ r, match r with Some (groups, gap) => groups_ok groups gap | None => True end).
Proof.
  intros Hf Hg.
  apply (wp_loop (λ '(_, groups, gap), groups_ok groups gap) _ (λ '(rest, _, _), len rest)); [|done|zlen].
  clear. intros [[rest groups] gap] [Hl Hg]. unfold groups_body.
  destruct rest as [|c0 rest0]; [by apply wp_ret|].
  destruct (hexDigits (c0 :: rest0) 0 0) as [[[rest v] d]|] eqn:Hd; [|done].
  apply hexDigits_len in Hd as [Hd Hd1].
  split_if; [done|]. apply orb_false_iff in Hc as [Hd0 H8].
  assert (Hnew : ∀ x, len (groups ++ [x]) = len groups + 1) by (intros; zlen).
  assert (Hkeep : ∀ x, groups_ok (groups ++ [x]) gap) by (intros; unfold groups_ok; rewrite Hnew; lia).
  assert (Hset : ∀ x, groups_ok (groups ++ [x]) (len (groups ++ [x])))
    by (intros; unfold groups_ok; rewrite Hnew; pose proof (len_nonneg groups); lia).
  destruct rest as [|c [|c' rest']]; [by apply wp_ret|by destruct (negb _)|].
  destruct (negb (c =? 58)); [done|]. rewrite !len_cons in *.
  pose proof (len_nonneg rest'). pose proof (len_nonneg rest0).
  split_if; [|apply wp_ret; rewrite !len_cons; split; [apply Hkeep|lia]].
  split_if; [done|]. destruct rest'; [by apply wp_ret|]. apply wp_ret. rewrite !len_cons in *.
  split; [apply Hset|lia].
Qed.

Lemma assign_ok groups : bytes_ok (assign groups) ∧ len (assign groups) = 2 * len groups.
Proof.
  unfold assign. induction groups as [|n groups [IH1 IH2]]; [split; [by apply Forall_nil_2|done]|].
  cbn [mbind list_bind]. split; [|rewrite len_app, IH2; zlen].
  apply bytes_ok_app. split; [|done].
  repeat (apply Forall_cons_2; [apply Z.mod_pos_bound; lia|]). by apply Forall_nil_2.
Qed.

Lemma fill_ok groups gap ip :
  groups_ok groups gap → fill groups gap = Some ip → len ip = 16 ∧ bytes_ok ip.
Proof.
  intros [Hl Hg]. unfold fill. split_if.
  - split_if; [done|]. intros [= <-]. destruct (assign_ok groups) as [Hb ->]. by split; [lia|].
  - split_if; [done|]. intros [= <-].
    match goal with |- context [assign ?l] => destruct (assign_ok l) as [Hb ->]; split; [|done] end.
    rewrite !len_app, len_ztake, len_zdrop by lia.
    assert (∀ n (x : Z), len (replicate n x) = Z.of_nat n) as -> by (intros; unfold len; by rewrite length_replicate). lia.
Qed.

Lemma wp_addressFromString text :
  wp (addressFromString text)
     (λ r, match r with Some ip => len ip = 16 ∧ bytes_ok ip | None => True end).
Proof.
  assert (H : ∀ rest gap, len rest ≤ len text → groups_ok [] gap →
    wp (r ← loop (S (length text)) groups_body (rest, [], gap);
        Ret ('(groups, gap) ← r; fill groups gap))
       (λ r, match r with Some ip => len ip = 16 ∧ bytes_ok ip | None => True end)).
  { intros rest gap Hle Hg. wp_step. eapply wp_mono; [apply wp_groups; [unfold len in *; lia|done]|].
    intros [[groups gap']|] Hr; apply wp_ret; [|done]. cbn [mbind option_bind].
    destruct (fill groups gap') as [ip|] eqn:E; [|done]. by eapply fill_ok. }
  unfold addressFromString.
  repeat match goal with
  | |- wp (match ?x with _ => _ end) _ => destruct x
  | |- wp (_ ≫= _) _ => apply H; [zlen|split; rewrite (@len_nil Z); lia]
  | |- wp (Ret None) _ => by apply wp_ret
  | |- wp (Ret (Some _)) _ => apply wp_ret; split; [done|repeat constructor; done]
  end.
Qed.

Lemma hexDigits_suffix rest v d rest' v' d' :
  hexDigits rest v d = Some (rest', v', d') → ∃ l, rest = l ++ rest'.
Proof.
  revert v d. induction rest as [|c rest IH]; cbn [hexDigits]; intros v d; [intros [= <- _ _]; by exists []|].
  split_if; [|intros [= <- _ _]; by exists []]. cbn zeta. split_if; [done|].
  intros (l & ->)%IH. by exists (c :: l).
Qed.

(** What is accepted has a colon in it. *)
Lemma addressFromString_colon text ip : addressFromString text = Ret (Some ip) → 58 ∈ text.
Proof.
  intros H. destruct (decide (58 ∈ text)) as [|Hn]; [done|exfalso].
  assert (Hp : (r ← loop (S (length text)) groups_body (text, [], -1);
                Ret ('(groups, gap) ← r; fill groups gap)) ≠ Ret (Some ip)).
  { destruct text as [|c text]; [done|]. cbn [length loop groups_body].
    destruct (hexDigits (c :: text) 0 0) as [[[rest v] d]|] eqn:Hd; [|done].
    apply hexDigits_suffix in Hd as [l Hl]. split_if; [done|]. destruct rest as [|c' rest]; [done|].
    assert (c' ≠ 58) as Hne%Z.eqb_neq; [|by rewrite Hne].
    intros ->. apply Hn. rewrite Hl. apply elem_of_app. right. by left. }
  apply Hp. rewrite <- H. unfold addressFromString.
  destruct text as [|c text]; [done|]. assert (c ≠ 58) as Hne by (intros ->; apply Hn; by left).
  repeat match goal with
  | |- _ = match ?x with _ => _ end => destruct x; try done
  end.
Qed.

(** ** Lemmas: printing then reading *)

Lemma setw_hex_byte b :
  is_byte b → setw 2 (hex b) = [digit_char (b / 16); digit_char (b mod 16)].
Proof.
  unfold is_byte. intros Hb. rewrite <- (Z2Nat.id b) by lia.
  assert (Hn : (Z.to_nat b < 256)%nat) by lia. revert Hn. generalize (Z.to_nat b) as n.
  assert (Hall : forallb (λ n, bool_decide (setw 2 (hex (Z.of_nat n)) =
    [digit_char (Z.of_nat n / 16); digit_char (Z.of_nat n mod 16)])) (seq 0 256) = true)
    by (vm_compute; reflexivity).
  intros n Hn. rewrite forallb_forall in Hall. eapply bool_decide_eq_true_1, Hall.
  apply in_seq. lia.
Qed.

Lemma hexVal_digit_char d : 0 ≤ d < 16 → hexVal (digit_char d) = d.
Proof. intros Hd. unfold digit_char. destruct (d <? 10) eqn:?; unfold hexVal; repeat split_if; lia. Qed.

Lemma digit_char_not_colon d : 0 ≤ d < 16 → digit_char d ≠ 58.
Proof. intros Hd. unfold digit_char. split_if; lia. Qed.

(** A group is read whole when no hexadecimal digit follows it. *)
Definition ends (rest : bytes) : Prop := match rest with [] => True | c :: _ => hexVal c < 0 end.

Lemma hexDigits_hexpair a b rest :
  is_byte a → is_byte b → ends rest →
  hexDigits (hexpair a b ++ rest) 0 0 = Some (rest, 256 * a + b, 4).
Proof.
  unfold hexpair. intros Ha Hb Hr. rewrite !setw_hex_byte by done. unfold is_byte in *.
  cbn [app hexDigits]. rewrite !hexVal_digit_char by (Z.div_mod_to_equations; lia).
  rewrite !(proj2 (Z.leb_le _ _)) by (Z.div_mod_to_equations; lia).
  cbn [Z.add Pos.add Z.ltb Z.compare Pos.compare Pos.compare_cont Pos.succ].
  match goal with |- context [hexDigits rest ?v _] => replace v with (256 * a + b) end.
  - destruct rest as [|c rest]; cbn [hexDigits ends] in *; [done|].
    by rewrite (proj2 (Z.leb_gt _ _)) by done.
  - assert (0 ≤ a / 16 < 16 ∧ 0 ≤ b / 16 < 16) as [??] by (Z.div_mod_to_equations; lia).
    assert (0 ≤ a mod 16 < 16 ∧ 0 ≤ b mod 16 < 16) as [??] by (Z.div_mod_to_equations; lia).
    rewrite (u32_small (0 * _ + _)), (u32_small ((0 * _ + _) * _ + _)) by lia.
    rewrite (u32_small (_ * _ + b / 16)), (u32_small (_ * _ + b mod 16)) by lia.
    Z.div_mod_to_equations; lia.
Qed.

(** The four ways a group is followed: by one more, by a gap and one more, by
    the end, by a gap and the end. *)
Section groups_steps.
Context (a b : Z) (Ha : is_byte a) (Hb : is_byte b) (n : nat) (gs : list Z)
        (Hgs : len gs < 8).

Lemma groups_head rest : ∃ c t, hexpair a b ++ rest = c :: t ∧ c ≠ 58 ∧ len t = 3 + len rest.
Proof using Ha Hb.
  unfold hexpair. rewrite !setw_hex_byte by done. unfold is_byte in *. cbn [app].
  do 2 eexists. split; [done|]. split; [|rewrite !len_cons; lia].
  apply digit_char_not_colon. Z.div_mod_to_equations; lia.
Qed.

Lemma groups_step rest gap :
  ends rest →
  loop (S n) groups_body (hexpair a b ++ rest, gs, gap) =
  (c ← (let groups := gs ++ [256 * a + b] in
        match rest with
        | [] => Ret (Stop (Some (groups, gap)))
        | c :: rest =>
            if negb (c =? 58) then Ret (Stop None) else
            match rest with
            | [] => Ret (Stop None)
            | c :: rest' =>
                if c =? 58 then
                  if negb (gap =? -1) then Ret (Stop None) else
                  match rest' with
                  | [] => Ret (Stop (Some (groups, len groups)))
                  | _ => Ret (Next (rest', groups, len groups))
                  end
                else Ret (Next (rest, groups, gap))
            end
        end);
   match c with Next s => loop n groups_body s | Stop r => Ret r end).
Proof using Ha Hb Hgs.
  intros Hr. destruct (groups_head rest) as (c & t & Ht & _ & _).
  cbn [loop groups_body]. rewrite Ht. rewrite <- Ht, hexDigits_hexpair by done.
  cbn [Z.eqb orb]. rewrite (proj2 (Z.leb_gt _ _)) by done. cbn zeta.
  unfold is_byte in *. by rewrite u16_small by lia.
Qed.
End groups_steps.

(** The run [printIp] compresses is a run of zero groups inside the address. *)
Definition zeros (ip : bytes) (i j : Z) : Prop := ∀ k, i ≤ k < j → ip !! Z.to_nat k = Some 0.

Definition run (ip : bytes) (s l : Z) : Prop :=
  0 ≤ s ∧ 0 ≤ l ∧ s mod 2 = 0 ∧ l mod 2 = 0 ∧ s + l ≤ 14 ∧ zeros ip s (s + l + 2).

Lemma wp_zeroGroup ip i :
  0 ≤ i → i + 2 ≤ len ip → wp (zeroGroup ip i) (λ z, (z : bool) = true → zeros ip i (i + 2)).
Proof.
  intros Hi Hl. unfold zeroGroup. wp_step. apply wp_at; [lia|]. intros a Ha.
  split_if; [by apply wp_ret|]. wp_step. apply wp_at; [lia|]. intros b Hb. apply wp_ret.
  intros Hz k Hk. destruct (Z.eq_dec k i) as [->|]; [rewrite Ha; f_equal; lia|].
  replace k with (i + 1) by lia. rewrite Hb. f_equal. lia.
Qed.

Lemma wp_zeroRun ip i :
  len ip = 16 → 0 ≤ i ≤ 14 → i mod 2 = 0 → zeros ip i (i + 2) →
  wp (loop 9 (zeroRun_body ip) i) (λ j, i ≤ j ≤ 14 ∧ run ip i (j - i)).
Proof.
  intros Hl Hi Hev Hz.
  eapply (wp_loop (λ j, i ≤ j ≤ 14 ∧ j mod 2 = 0 ∧ zeros ip i (j + 2)) _ (λ j, (14 - j) / 2));
    [|split_and!; auto; lia|].
  - intros j (Hj & Hjev & Hjz). unfold zeroRun_body.
    assert (i ≤ j ≤ 14 ∧ run ip i (j - i)).
    { unfold run. replace (i + (j - i) + 2) with (j + 2) by lia.
      split_and!; try lia; [|done]. Z.div_mod_to_equations; lia. }
    split_if; [|by apply wp_ret]. wp_step.
    assert (j + 4 ≤ 16) by (Z.div_mod_to_equations; lia).
    eapply wp_mono; [apply wp_zeroGroup; lia|]. intros [|] Hzz; apply wp_ret; [|done].
    split; [|Z.div_mod_to_equations; lia]. split; [Z.div_mod_to_equations; lia|].
    split; [Z.div_mod_to_equations; lia|]. intros k Hk.
    destruct (Z.lt_ge_cases k (j + 2)); [apply Hjz; lia|apply Hzz; [done|lia]].
  - Z.div_mod_to_equations; lia.
Qed.

Lemma wp_bestRun ip :
  len ip = 16 → wp (bestRun ip) (λ '(s, l), s = -1 ∨ (2 ≤ l ∧ run ip s l)).
Proof.
  intros Hl. unfold bestRun. wp_step.
  eapply wp_mono; [eapply (wp_loop (λ '(i, s, l), 0 ≤ i ≤ 16 ∧ i mod 2 = 0 ∧
    ((s = -1 ∧ l = 0) ∨ run ip s l)) (λ '(s, l), (s = -1 ∧ l = 0) ∨ run ip s l)
    (λ '(i, _, _), (16 - i) / 2)); [|split_and!; auto; lia|done]|].
  2: { intros [s l] H. apply wp_ret. split_if; [by left|]. right.
       destruct H as [[_ ->]|H]; [done|split; [lia|done]]. }
  intros [[i s] l] (Hi & Hev & Hr). unfold bestRun_body. split_if; [|by apply wp_ret].
  assert (i ≤ 14) by (Z.div_mod_to_equations; lia).
  wp_step. eapply wp_mono; [apply wp_zeroGroup; lia|]. intros z Hz.
  split_if; [apply wp_ret; split_and!; auto; Z.div_mod_to_equations; lia|].
  wp_step. eapply wp_mono; [apply wp_zeroRun; auto; [lia|by apply Hz; destruct z]|].
  intros j (Hj & Hrun). assert (j mod 2 = 0) by (destruct Hrun; Z.div_mod_to_equations; lia).
  cbn zeta. split_if; apply wp_ret; (split; [|Z.div_mod_to_equations; lia]); (split; [lia|]);
    (split; [Z.div_mod_to_equations; lia|]); auto.
Qed.

Lemma wp_printIp_ipv6 ip : len ip = 16 → wp (printIp ip) (λ _, True).
Proof.
  intros Hl. unfold printIp. wp_step. eapply wp_mono; [by apply wp_bestRun|].
  intros [s l] Hrun.
  eapply (wp_loop (λ '(i, _), 0 ≤ i ≤ 16 ∧ i mod 2 = 0) _ (λ '(i, _), (16 - i) / 2)); [|done|done].
  intros [i os] [Hi Hev]. unfold printIp_body. split_if; [|by apply wp_ret].
  assert (i ≤ 14) by (Z.div_mod_to_equations; lia). split_if.
  - apply wp_ret. destruct Hrun as [->|(? & ? & ? & ? & ? & ? & _)]; [lia|].
    split; [split; [lia|Z.div_mod_to_equations; lia]|Z.div_mod_to_equations; lia].
  - cbn zeta. wp_step. apply wp_at; [lia|]. intros a _. wp_step. apply wp_at; [lia|]. intros b _.
    apply wp_ret. split; [split; [lia|Z.div_mod_to_equations; lia]|Z.div_mod_to_equations; lia].
Qed.

(** [addressFromString] on the three ways a printed address starts. *)
Definition parseFrom (fuel : nat) (rest : bytes) (gap : Z) : outcome (option bytes) :=
  r ← loop fuel groups_body (rest, [], gap);
  Ret ('(groups, gap) ← r; fill groups gap).

Lemma parseFrom_enough fuel rest gap (text : bytes) r :
  gap = -1 ∨ gap = 0 → parseFrom fuel rest gap = Ret r → len rest ≤ len text →
  parseFrom (S (length text)) rest gap = Ret r.
Proof.
  unfold parseFrom. intros Hgap (x & Hx & Hr)%bind_Ret_inv Hle.
  assert (Hok : groups_ok [] gap) by (split; rewrite (@len_nil Z); lia).
  destruct (wp_returns _ _ (wp_groups (S (length text)) rest [] gap ltac:(unfold len in *; lia) Hok))
    as (y & Hy & _).
  rewrite Hy. by rewrite (loop_unique _ _ _ _ _ _ Hy Hx).
Qed.

Lemma addressFromString_group a b rest r :
  is_byte a → is_byte b → parseFrom 9 (hexpair a b ++ rest) (-1) = Ret r →
  addressFromString (hexpair a b ++ rest) = Ret r.
Proof.
  intros Ha Hb Hr. apply (parseFrom_enough _ _ _ (hexpair a b ++ rest)) in Hr; [|by left|done].
  destruct (groups_head a b Ha Hb rest) as (c & t & Ht & Hc & _). rewrite Ht in *.
  unfold addressFromString. fold (parseFrom (S (length (c :: t))) (c :: t) (-1)). rewrite <- Hr.
  repeat (done || case_match).
Qed.

Lemma addressFromString_gap a b rest r :
  is_byte a → is_byte b → parseFrom 9 (hexpair a b ++ rest) 0 = Ret r →
  addressFromString (58 :: 58 :: hexpair a b ++ rest) = Ret r.
Proof.
  intros Ha Hb Hr.
  apply (parseFrom_enough _ _ _ (58 :: 58 :: hexpair a b ++ rest)) in Hr; [|by right|zlen].
  destruct (groups_head a b Ha Hb rest) as (c & t & Ht & _ & _). rewrite Ht in *. done.
Qed.

Lemma assign_groups l k :
  Forall (λ '(a, b), is_byte a ∧ is_byte b) l → k = (l ≫= λ '(a, b), [a; b]) →
  assign ((λ '(a, b), 256 * a + b) <$> l) = k.
Proof.
  intros Hl ->. induction Hl as [|[a b] l [Ha Hb] Hl IH]; [done|].
  unfold assign in *. cbn [fmap list_fmap mbind list_bind app]. rewrite IH.
  unfold is_byte in *. change 0xFF with (Z.ones 8).
  rewrite Z.land_ones, Z.shiftr_div_pow2 by lia. unfold u8.
  f_equal; [Z.div_mod_to_equations; lia|]. f_equal. Z.div_mod_to_equations; lia.
Qed.

(** What the printed text parses to, one group at a time. *)
Section groups_read.
Context (a b : Z) (Ha : is_byte a) (Hb : is_byte b) (n : nat) (gs : list Z)
        (Hgs : len gs < 8).

Lemma groups_end gap :
  loop (S n) groups_body (hexpair a b ++ [], gs, gap) = Ret (Some (gs ++ [256 * a + b], gap)).
Proof using Ha Hb Hgs. by rewrite groups_step. Qed.

Lemma groups_sep c d rest gap :
  is_byte c → is_byte d →
  loop (S n) groups_body (hexpair a b ++ 58 :: hexpair c d ++ rest, gs, gap) =
  loop n groups_body (hexpair c d ++ rest, gs ++ [256 * a + b], gap).
Proof using Ha Hb Hgs.
  intros Hc Hd. rewrite groups_step by done.
  destruct (groups_head c d Hc Hd rest) as (x & t & -> & Hx & _). cbn [Z.eqb Pos.eqb negb].
  by rewrite (proj2 (Z.eqb_neq x 58)).
Qed.

Lemma groups_gap_end :
  loop (S n) groups_body (hexpair a b ++ [58; 58], gs, -1) =
  Ret (Some (gs ++ [256 * a + b], len gs + 1)).
Proof using Ha Hb Hgs. rewrite groups_step by done. cbn. by rewrite len_app. Qed.

Lemma groups_gap c d rest :
  is_byte c → is_byte d →
  loop (S n) groups_body (hexpair a b ++ 58 :: 58 :: hexpair c d ++ rest, gs, -1) =
  loop n groups_body (hexpair c d ++ rest, gs ++ [256 * a + b], len gs + 1).
Proof using Ha Hb Hgs.
  intros Hc Hd. rewrite groups_step by done.
  destruct (groups_head c d Hc Hd rest) as (x & t & -> & _ & _). cbn. by rewrite len_app.
Qed.
End groups_read.


Lemma run_cases ip s l :
  2 ≤ l → run ip s l →
  (s = 0 ∨ s = 2 ∨ s = 4 ∨ s = 6 ∨ s = 8 ∨ s = 10 ∨ s = 12) ∧
  (l = 2 ∨ l = 4 ∨ l = 6 ∨ l = 8 ∨ l = 10 ∨ l = 12 ∨ l = 14) ∧ s + l ≤ 14 ∧
  zeros ip s (s + l + 2).
Proof.
  intros Hl (? & ? & ? & ? & ? & ?). split_and!; [..|done|done]; Z.div_mod_to_equations; lia.
Qed.

Lemma list_16 {A} (l : list A) :
  len l = 16 → ∃ a0 a1 a2 a3 a4 a5 a6 a7 a8 a9 a10 a11 a12 a13 a14 a15,
    l = [a0; a1; a2; a3; a4; a5; a6; a7; a8; a9; a10; a11; a12; a13; a14; a15].
Proof.
  unfold len. intros Hl. do 16 (destruct l as [|? l]; [cbn in Hl; lia|]).
  destruct l; [|cbn in Hl; lia]. by repeat eexists.
Qed.

#[local] Opaque hexpair.

(** The bytes of a run of zeros are zeros. *)
Ltac zero_at Hz k :=
  try (let H := fresh in
       assert (H := Hz k ltac:(lia)); cbn in H; injection H as ->).
Ltac zero_bytes Hz :=
  zero_at Hz 0; zero_at Hz 1; zero_at Hz 2; zero_at Hz 3; zero_at Hz 4; zero_at Hz 5;
  zero_at Hz 6; zero_at Hz 7; zero_at Hz 8; zero_at Hz 9; zero_at Hz 10; zero_at Hz 11;
  zero_at Hz 12; zero_at Hz 13; zero_at Hz 14; zero_at Hz 15.

Ltac read_groups :=
  repeat first
    [ rewrite groups_end by (assumption || reflexivity)
    | rewrite groups_gap_end by (assumption || reflexivity)
    | rewrite groups_sep by (assumption || reflexivity)
    | rewrite groups_gap by (assumption || reflexivity) ].

(** Reads the printed groups back and stores them. *)
Ltac address_read :=
  unfold parseFrom; read_groups; rewrite bind_ret;
  match goal with
  | |- _ = Ret (Some [?a0; ?a1; ?a2; ?a3; ?a4; ?a5; ?a6; ?a7; ?a8; ?a9; ?a10; ?a11; ?a12; ?a13;
                      ?a14; ?a15]) =>
      refine (f_equal (λ x, Ret (Some x))
        (assign_groups [(a0, a1); (a2, a3); (a4, a5); (a6, a7); (a8, a9); (a10, a11); (a12, a13);
                        (a14, a15)] _ _ eq_refl));
      repeat (apply Forall_cons_2; [split; (assumption || done)|]); by apply Forall_nil_2
  end.

Lemma printIp_parses (ip : bytes) :
  len ip = 16 → bytes_ok ip →
  ∃ text, printIp ip = Ret text ∧ addressFromString text = Ret (Some ip).
Proof.
  intros Hlen Hok. destruct (wp_returns _ _ (wp_bestRun ip Hlen)) as ([s l] & Hbest & Hrun).
  unfold printIp. rewrite Hbest, bind_ret. clear Hbest.
  apply list_16 in Hlen as (a0&a1&a2&a3&a4&a5&a6&a7&a8&a9&a10&a11&a12&a13&a14&a15&->).
  repeat apply Forall_cons in Hok as [? Hok]. 
  destruct Hrun as [->|[Hl Hrun]].
  - eexists. split; [lazy -[hexpair app]; reflexivity|].
    rewrite <- !app_assoc. cbn [app].
    rewrite <- (app_nil_r (hexpair a14 a15)).
    apply addressFromString_group; [done..|]. address_read.
  - apply run_cases in Hrun as (Hs & Hls & Hsl & Hz); [|done]. clear Hl.
    repeat destruct Hs as [->|Hs]; [..|subst s];
      (repeat destruct Hls as [->|Hls]; [..|subst l]); try lia; zero_bytes Hz; clear Hz;
      (eexists; split; [lazy -[hexpair app]; reflexivity|]);
      rewrite <- !app_assoc; cbn [app];
      try rewrite <- (app_nil_r (hexpair a14 a15)).
    all: first [ reflexivity
               | apply addressFromString_group; [done..|]; address_read
               | apply addressFromString_gap; [done..|]; address_read ].
Qed.

(** An IPv6 address printed by [printIp], with its longest run of zero
    groups compressed, is read back by [addressFromString] as the same sixteen
    bytes. *)
Theorem address6_roundtrip (ip : bytes) :
  len ip = 16 → bytes_ok ip →
  ∃ text, printIp ip = Ret text ∧ addressFromString text = Ret (Some ip).
Proof. apply printIp_parses. Qed.

Lemma address6_roundtrip_witness :
  ∃ text, printIp ([0x20; 1; 0xd; 0xb8] ++ replicate 11 0 ++ [1]) = Ret text ∧
          addressFromString text = Ret (Some ([0x20; 1; 0xd; 0xb8] ++ replicate 11 0 ++ [1])).
Proof. apply address6_roundtrip; [reflexivity|]. repeat constructor; done. Defined.
