(* ===== verification/Arp.v ===== *)
(** ARP: [include/net/protocols/arp.h], [src/net/protocols/arp.cpp].

    The four address fields are pointers into the packet: each is the list of
    the bytes from it to the end of the buffer, and [[]] for a null pointer. *)
From S2P Require Import Prelude Endian ParseError Text.
From S2P Require Ethernet Ipv4.

Definition MIN_HEADER_LEN : Z := 8.
Definition HTYPE_ETHERNET : Z := 1.
Definition OPER_REQUEST : Z := 1.
Definition OPER_REPLY : Z := 2.

Record Header := mkHeader {
  htype : Z;
  ptype : Z;
  hlen : Z;
  plen : Z;
  oper : Z;
  sha : bytes;
  spa : bytes;
  tha : bytes;
  tpa : bytes;
}.

Definition zeroHeader : Header := mkHeader 0 0 0 0 0 [] [] [] [].

(** The [memcpy] of the fixed part leaves the pointers alone. *)
Definition Header_of (b : bytes) (h : Header) : Header :=
  mkHeader (field b 0 2) (field b 2 2) (field b 4 1) (field b 5 1) (field b 6 2)
           h.(sha) h.(spa) h.(tha) h.(tpa).

Definition toHost (h : Header) (endian : Endian) : Header :=
  mkHeader (toHost16 h.(htype) endian) (toHost16 h.(ptype) endian) h.(hlen) h.(plen)
           (toHost16 h.(oper) endian) h.(sha) h.(spa) h.(tha) h.(tpa).

Definition set_addresses (h : Header) (sha spa tha tpa : bytes) : Header :=
  mkHeader h.(htype) h.(ptype) h.(hlen) h.(plen) h.(oper) sha spa tha tpa.

Definition parse (span : bytes) (header : Header) (endian : Endian)
    : outcome (ParseError * (bytes * Header)) :=
  if len span <? MIN_HEADER_LEN then Ret (UnexpectedEof, (span, header)) else
  b ← memcpy span MIN_HEADER_LEN;
  let header := toHost (Header_of b header) endian in
  if (header.(hlen) =? 0) || (header.(plen) =? 0) then Ret (InvalidFieldValue, (span, header)) else
  let header_len := MIN_HEADER_LEN + 2 * header.(hlen) + 2 * header.(plen) in
  if len span <? header_len then Ret (UnexpectedEof, (span, header)) else
  sha ← subspan span MIN_HEADER_LEN;
  spa ← subspan span (MIN_HEADER_LEN + header.(hlen));
  tha ← subspan span (MIN_HEADER_LEN + (header.(hlen) + header.(plen)));
  tpa ← subspan span (MIN_HEADER_LEN + (2 * header.(hlen) + header.(plen)));
  let header := set_addresses header sha spa tha tpa in
  span ← subspan span header_len;
  Ret (NoError, (span, header)).

(** ** Printing: the three lambdas of [toString] and [toJson] *)

Definition printHex_body (p : bytes) (n : Z) (st : Z * bytes)
    : outcome (control (Z * bytes) bytes) :=
  let '(i, os) := st in
  if i <? n then
    let os := if i =? 0 then os else os ++ chars "-" in
    b ← at_ p i;
    Ret (Next (i + 1, os ++ setw 2 (hex b)))
  else Ret (Stop os).
Definition printHex (p : bytes) (n : Z) : outcome bytes :=
  loop (S (Z.to_nat n)) (printHex_body p n) (0, []).

Definition printHw (h : Header) (p : bytes) : outcome bytes :=
  if (h.(htype) =? HTYPE_ETHERNET) && (h.(hlen) =? 6) then Ethernet.printMac p
  else printHex p h.(hlen).

Definition printProto (h : Header) (p : bytes) : outcome bytes :=
  if (h.(ptype) =? Ethernet.ETHERTYPE_IPV4) && (h.(plen) =? 4) then Ipv4.printIp p
  else printHex p h.(plen).

Definition toString (h : Header) : outcome bytes :=
  s1 ← printHw h h.(sha);
  s2 ← printProto h h.(spa);
  s3 ← printHw h h.(tha);
  s4 ← printProto h h.(tpa);
  Ret (chars "ArpHeader {" ++ [newline] ++
       chars "  htype: " ++ dec h.(htype) ++
         when (h.(htype) =? HTYPE_ETHERNET) (chars " (Ethernet)") ++ [newline] ++
       chars "  ptype: 0x" ++ setw 4 (hex h.(ptype)) ++
         when (h.(ptype) =? Ethernet.ETHERTYPE_IPV4) (chars " (IPv4)") ++ [newline] ++
       chars "  oper: " ++ dec h.(oper) ++
         (if h.(oper) =? OPER_REQUEST then chars " (request)"
          else when (h.(oper) =? OPER_REPLY) (chars " (reply)")) ++ [newline] ++
       chars "  sha: " ++ s1 ++ [newline] ++
       chars "  spa: " ++ s2 ++ [newline] ++
       chars "  tha: " ++ s3 ++ [newline] ++
       chars "  tpa: " ++ s4 ++ [newline] ++
       chars "}").

Definition toJson (h : Header) : outcome bytes :=
  s1 ← printHw h h.(sha);
  s2 ← printProto h h.(spa);
  s3 ← printHw h h.(tha);
  s4 ← printProto h h.(tpa);
  Ret (jstr "`arp`: {" ++ [newline] ++
       jstr "  `htype`: " ++ dec h.(htype) ++ chars "," ++ [newline] ++
       jstr "  `ptype`: `0x" ++ setw 4 (hex h.(ptype)) ++ jstr "`," ++ [newline] ++
       jstr "  `oper`: " ++ dec h.(oper) ++ chars "," ++ [newline] ++
       jstr "  `sha`: `" ++ s1 ++ jstr "`," ++ [newline] ++
       jstr "  `spa`: `" ++ s2 ++ jstr "`," ++ [newline] ++
       jstr "  `tha`: `" ++ s3 ++ jstr "`," ++ [newline] ++
       jstr "  `tpa`: `" ++ s4 ++ jstr "`" ++ [newline] ++
       chars "}").

(** ** Reference encoder *)

Definition encode (htype ptype hlen plen oper : Z) (sha spa tha tpa : bytes) : bytes :=
  enc Big 2 htype ++ enc Big 2 ptype ++ [hlen] ++ [plen] ++ enc Big 2 oper ++
  sha ++ spa ++ tha ++ tpa.

(** ** Lemmas *)

(** Every pointer has the bytes its length field promises behind it. *)
Record addressed (h : Header) : Prop := {
  ok_lens : 0 < h.(hlen) < 256 ∧ 0 < h.(plen) < 256;
  ok_sha : h.(hlen) ≤ len h.(sha);
  ok_spa : h.(plen) ≤ len h.(spa);
  ok_tha : h.(hlen) ≤ len h.(tha);
  ok_tpa : h.(plen) ≤ len h.(tpa);
}.

Lemma wp_parse_arp span h e :
  bytes_ok span →
  wp (parse span h e) (λ '(err, (span', h')),
    match err with
    | NoError => addressed h' ∧ slice span' span
    | _ => span' = span
    end).
Proof.
  intros Hok. unfold parse, MIN_HEADER_LEN. split_if; [by wp_steps|].
  assert (8 ≤ len span) by lia. do 2 wp_step.
  set (hd := toHost _ e). cbn zeta.
  assert (is_byte hd.(hlen) ∧ is_byte hd.(plen)) as [Hhl Hpl]
    by (subst hd; cbn; auto with pcap).
  unfold is_byte in *. do 2 (split_if; [by wp_steps|]).
  wp_steps. split; [|auto with pcap].
  split; cbn [set_addresses hlen plen sha spa tha tpa]; [lia|rewrite len_zdrop; lia..].
Qed.

Lemma wp_printHex p n : 0 ≤ n ≤ len p → wp (printHex p n) (λ _, True).
Proof.
  intros Hn. unfold printHex.
  eapply (wp_loop (λ '(i, _), 0 ≤ i ≤ n) _ (λ '(i, _), n - i)); [|lia..].
  intros [i os] Hi. unfold printHex_body. split_if; [|by wp_steps].
  wp_step. apply wp_at; [lia|]. intros b _. apply wp_ret. lia.
Qed.

Lemma wp_printHw h p : 0 ≤ h.(hlen) ≤ len p → wp (printHw h p) (λ _, True).
Proof.
  intros Hp. unfold printHw.
  split_if; [apply Ethernet.wp_printMac; lia|by apply wp_printHex].
Qed.
Lemma wp_printProto h p : 0 ≤ h.(plen) ≤ len p → wp (printProto h p) (λ _, True).
Proof.
  intros Hp. unfold printProto.
  split_if; [apply Ipv4.wp_printIp_ipv4; lia|by apply wp_printHex].
Qed.

Lemma wp_print_arp h : addressed h → wp (toString h) (λ _, True) ∧ wp (toJson h) (λ _, True).
Proof.
  intros [[] ? ? ? ?].
  split; do 4 (apply wp_bind; eapply wp_mono;
    [first [apply wp_printHw; lia | apply wp_printProto; lia]|]; intros ? _); by apply wp_ret.
Qed.
