(* ===== verification/Ipv6Ext.v ===== *)
(** IPv6 extension headers: [include/net/protocols/ipv6_ext.h],
    [src/net/protocols/ipv6_ext.cpp].  The union of [WireHeader] is the bytes
    behind it, read at the offset of the member in use. *)
From S2P Require Import Prelude Endian ParseError Text Ip.
From S2P Require Ipv6.

Definition MIN_HEADER_LEN : Z := 8.
Definition AH_MIN_LEN : Z := 12.
Definition MAX_HEADERS : Z := 8.

Definition ROUTING_TYPE_0 : Z := 0.
Definition ROUTING_TYPE_2 : Z := 2.
Definition ROUTING_TYPE_SRH : Z := 4.
Definition ROUTING_ADDRESS_OFFSET : Z := 8.

Definition isExtension (next_header : Z) : bool :=
  (next_header =? PROTOCOL_HOPOPT) || (next_header =? PROTOCOL_IPV6_ROUTE) ||
  (next_header =? PROTOCOL_IPV6_FRAG) || (next_header =? PROTOCOL_AH) ||
  (next_header =? PROTOCOL_IPV6_OPTS) || (next_header =? PROTOCOL_MOBILITY) ||
  (next_header =? PROTOCOL_HIP) || (next_header =? PROTOCOL_SHIM6).

Record WireHeader := mkWireHeader {
  wire_next_header : Z;
  wire_hdr_ext_len : Z;
  wire_data : bytes;
}.
Definition WireHeader_of (b : bytes) : WireHeader :=
  mkWireHeader (field b 0 1) (field b 1 1) (field_bytes b 2 6).

Definition routing_type_of (w : WireHeader) : Z := field w.(wire_data) 0 1.
Definition segments_left_of (w : WireHeader) : Z := field w.(wire_data) 1 1.
Definition offset_flags_of (w : WireHeader) : Z := field w.(wire_data) 0 2.
Definition identification_of (w : WireHeader) : Z := field w.(wire_data) 2 4.
Definition spi_of (w : WireHeader) : Z := field w.(wire_data) 2 4.

Record Header := mkHeader {
  type : Z;
  next_header : Z;
  length_ : Z;
  routing_type : Z;
  segments_left : Z;
  has_final_dst : bool;
  final_dst : bytes;
  fragment_offset : Z;
  more_fragments : bool;
  identification : Z;
  spi : Z;
}.

Definition zeroHeader : Header := mkHeader 0 0 0 0 0 false (replicate 16 0) 0 false 0 0.

Definition isFragment (h : Header) : bool :=
  (h.(type) =? PROTOCOL_IPV6_FRAG) && (negb (h.(fragment_offset) =? 0) || h.(more_fragments)).
Definition isAtomicFragment (h : Header) : bool :=
  (h.(type) =? PROTOCOL_IPV6_FRAG) && (h.(fragment_offset) =? 0) && negb h.(more_fragments).

(** [header = Header{}] and the three stores after it. *)
Definition start (type next_header length : Z) : Header :=
  mkHeader type next_header length 0 0 false (replicate 16 0) 0 false 0 0.
Definition set_routing (h : Header) (rt sl : Z) : Header :=
  mkHeader h.(type) h.(next_header) h.(length_) rt sl h.(has_final_dst) h.(final_dst)
           h.(fragment_offset) h.(more_fragments) h.(identification) h.(spi).
Definition set_final_dst (h : Header) (d : bytes) : Header :=
  mkHeader h.(type) h.(next_header) h.(length_) h.(routing_type) h.(segments_left) true d
           h.(fragment_offset) h.(more_fragments) h.(identification) h.(spi).
Definition set_fragment (h : Header) (off : Z) (mf : bool) (id : Z) : Header :=
  mkHeader h.(type) h.(next_header) h.(length_) h.(routing_type) h.(segments_left)
           h.(has_final_dst) h.(final_dst) off mf id h.(spi).
Definition set_spi (h : Header) (spi : Z) : Header :=
  mkHeader h.(type) h.(next_header) h.(length_) h.(routing_type) h.(segments_left)
           h.(has_final_dst) h.(final_dst) h.(fragment_offset) h.(more_fragments)
           h.(identification) spi.

Definition length_of (wire : WireHeader) (type : Z) : Z :=
  if type =? PROTOCOL_IPV6_FRAG then MIN_HEADER_LEN
  else if type =? PROTOCOL_AH then (wire.(wire_hdr_ext_len) + 2) * 4
  else (wire.(wire_hdr_ext_len) + 1) * MIN_HEADER_LEN.

(** The [case PROTOCOL_IPV6_ROUTE] of the second [switch]. *)
Definition parseRouting (span : bytes) (wire : WireHeader) (header : Header)
    : outcome (ParseError * Header) :=
  let header := set_routing header (routing_type_of wire) (segments_left_of wire) in
  let addressed := (header.(routing_type) =? ROUTING_TYPE_0)
                   || (header.(routing_type) =? ROUTING_TYPE_2)
                   || (header.(routing_type) =? ROUTING_TYPE_SRH) in
  if negb addressed || (header.(segments_left) =? 0) then Ret (NoError, header) else
  if (wire.(wire_hdr_ext_len) <? 2) || negb (wire.(wire_hdr_ext_len) mod 2 =? 0)
  then Ret (MalformedHeader, header) else
  let addresses := wire.(wire_hdr_ext_len) / 2 in
  let offset := ROUTING_ADDRESS_OFFSET in
  let offset := if negb (header.(routing_type) =? ROUTING_TYPE_SRH)
                then offset + 16 * (addresses - 1) else offset in
  dst ← subspan span offset;
  dst ← memcpy dst 16;
  Ret (NoError, set_final_dst header dst).

Definition parse (span : bytes) (header : Header) (type : Z) (endian : Endian)
    : outcome (ParseError * (bytes * Header)) :=
  if len span <? MIN_HEADER_LEN then Ret (UnexpectedEof, (span, header)) else
  b ← memcpy span MIN_HEADER_LEN;
  let wire := WireHeader_of b in
  let length := length_of wire type in
  if (type =? PROTOCOL_AH) && (length <? AH_MIN_LEN) then Ret (MalformedHeader, (span, header)) else
  if len span <? length then Ret (UnexpectedEof, (span, header)) else
  let header := start type wire.(wire_next_header) (u16 length) in
  '(err, header) ←
    (if type =? PROTOCOL_IPV6_ROUTE then parseRouting span wire header
     else if type =? PROTOCOL_IPV6_FRAG then
       let offset_flags := toHost16 (offset_flags_of wire) endian in
       Ret (NoError, set_fragment header (Z.shiftr offset_flags 3)
                       (negb (Z.land offset_flags 0x1 =? 0))
                       (toHost32 (identification_of wire) endian))
     else if type =? PROTOCOL_AH then
       Ret (NoError, set_spi header (toHost32 (spi_of wire) endian))
     else Ret (NoError, header));
  if failed err then Ret (err, (span, header)) else
  span ← subspan span length;
  Ret (NoError, (span, header)).

(** The upper layer's view of the fixed header: the length and protocol behind
    the extension headers, and the final destination of the last routing
    header. *)
Definition set_dst (h : Ipv6.Header) (d : bytes) : Ipv6.Header :=
  Ipv6.mkHeader h.(Ipv6.version_tc_fl) h.(Ipv6.payload_length) h.(Ipv6.next_header)
                h.(Ipv6.hop_limit) h.(Ipv6.src_ip) d.
Definition pseudoHeader (ip_header : Ipv6.Header) (exts : list Header) (upper_len : Z)
    : Ipv6.Header :=
  let out := Ipv6.mkHeader ip_header.(Ipv6.version_tc_fl) (u16 upper_len)
               (match last exts with
                | Some e => e.(next_header)
                | None => ip_header.(Ipv6.next_header)
                end)
               ip_header.(Ipv6.hop_limit) ip_header.(Ipv6.src_ip) ip_header.(Ipv6.dst_ip) in
  foldl (λ out ext, if ext.(has_final_dst) then set_dst out ext.(final_dst) else out) out exts.

(** ** Printing *)

Definition printBool (b : bool) : bytes := if b then chars "true" else chars "false".

Definition toString (h : Header) : outcome bytes :=
  body ←
    (if h.(type) =? PROTOCOL_IPV6_ROUTE then
       dst ← (if h.(has_final_dst) then
                ip ← Ipv6.printIp h.(final_dst);
                Ret (chars "  final_dst: " ++ ip ++ [newline])
              else Ret []);
       Ret (chars "  routing_type: " ++ dec h.(routing_type) ++ [newline] ++
            chars "  segments_left: " ++ dec h.(segments_left) ++ [newline] ++ dst)
     else if h.(type) =? PROTOCOL_IPV6_FRAG then
       Ret (chars "  fragment_offset: " ++ dec h.(fragment_offset) ++ [newline] ++
            chars "  more_fragments: " ++ printBool h.(more_fragments) ++ [newline] ++
            chars "  identification: 0x" ++ setw 8 (hex h.(identification)) ++ [newline])
     else if h.(type) =? PROTOCOL_AH then
       Ret (chars "  spi: 0x" ++ setw 8 (hex h.(spi)) ++ [newline])
     else Ret []);
  Ret (chars "IPv6ExtHeader {" ++ [newline] ++
       chars "  type: " ++ dec h.(type) ++ chars " (" ++ protocolName h.(type) ++
         chars ")" ++ [newline] ++
       chars "  next_header: " ++ dec h.(next_header) ++ chars " (" ++
         protocolName h.(next_header) ++ chars ")" ++ [newline] ++
       chars "  length: " ++ dec h.(length_) ++ [newline] ++ body ++
       chars "}").

Definition toJson (h : Header) : outcome bytes :=
  body ←
    (if h.(type) =? PROTOCOL_IPV6_ROUTE then
       dst ← (if h.(has_final_dst) then
                ip ← Ipv6.printIp h.(final_dst);
                Ret (chars "," ++ [newline] ++ jstr "  `final_dst`: `" ++ ip ++ jstr "`")
              else Ret []);
       Ret (chars "," ++ [newline] ++
            jstr "  `routing_type`: " ++ dec h.(routing_type) ++ chars "," ++ [newline] ++
            jstr "  `segments_left`: " ++ dec h.(segments_left) ++ dst)
     else if h.(type) =? PROTOCOL_IPV6_FRAG then
       Ret (chars "," ++ [newline] ++
            jstr "  `fragment_offset`: " ++ dec h.(fragment_offset) ++ chars "," ++ [newline] ++
            jstr "  `more_fragments`: " ++ printBool h.(more_fragments) ++ chars "," ++ [newline] ++
            jstr "  `identification`: `0x" ++ setw 8 (hex h.(identification)) ++ jstr "`")
     else if h.(type) =? PROTOCOL_AH then
       Ret (chars "," ++ [newline] ++ jstr "  `spi`: `0x" ++ setw 8 (hex h.(spi)) ++ jstr "`")
     else Ret []);
  Ret (jstr "`ipv6_ext`: {" ++ [newline] ++
       jstr "  `type`: " ++ dec h.(type) ++ chars "," ++ [newline] ++
       jstr "  `name`: `" ++ protocolName h.(type) ++ jstr "`," ++ [newline] ++
       jstr "  `next_header`: " ++ dec h.(next_header) ++ chars "," ++ [newline] ++
       jstr "  `length`: " ++ dec h.(length_) ++ body ++ [newline] ++
       chars "}").

(** ** Lemmas *)

(** What a parsed extension header satisfies: its length is a positive multiple
    of four octets, the final destination is a whole address. *)
Record Header_typed (h : Header) : Prop := {
  ty_type : is_byte h.(type);
  ty_next : is_byte h.(next_header);
  ty_length : 8 ≤ h.(length_) < 65536;
  ty_final : len h.(final_dst) = 16 ∧ bytes_ok h.(final_dst);
}.

Lemma wp_parseRouting span wire h :
  bytes_ok span → is_byte wire.(wire_hdr_ext_len) →
  (wire.(wire_hdr_ext_len) + 1) * MIN_HEADER_LEN ≤ len span → Header_typed h →
  wp (parseRouting span wire h) (λ '(err, h'), (err = NoError ∨ err = MalformedHeader) ∧
    Header_typed h' ∧ h'.(length_) = h.(length_) ∧ h'.(type) = h.(type)).
Proof.
  unfold MIN_HEADER_LEN, is_byte. intros Hok Hb Hl [Ht Hn Hle Hf].
  unfold parseRouting, ROUTING_ADDRESS_OFFSET.
  assert (Hset : ∀ rt sl, Header_typed (set_routing h rt sl)) by (by split).
  cbn zeta. split_if; [apply wp_ret; auto|]. split_if; [apply wp_ret; auto|].
  set (off := if negb _ then _ else 8).
  apply orb_false_iff in Hc0 as [H1%Z.ltb_ge H2%negb_false_iff%Z.eqb_eq]. clear Hc.
  assert (8 ≤ off ∧ off + 16 ≤ len span)
    by (subst off; destruct (negb _); Z.div_mod_to_equations; lia).
  wp_step. wp_step. wp_step. wp_step. { rewrite len_zdrop; lia. }
  apply wp_ret. split; [by left|]. split; [|done].
  split; cbn [set_final_dst type next_header length_ final_dst]; [done..|].
  split; [rewrite len_ztake; [done|rewrite len_zdrop; lia]|auto with pcap].
Qed.

Lemma wp_parse_ipv6ext span h ty e :
  bytes_ok span → is_byte ty →
  wp (parse span h ty e) (λ '(err, (span', h')),
    match err with
    | NoError => Header_typed h' ∧ h'.(type) = ty ∧ h'.(length_) ≤ len span ∧
                 span' = zdrop h'.(length_) span
    | _ => span' = span
    end).
Proof.
  intros Hok Hty. unfold parse. unfold MIN_HEADER_LEN at 1 2. split_if; [by wp_steps|].
  assert (8 ≤ len span) by lia. do 2 wp_step.
  set (wire := WireHeader_of _).
  assert (is_byte wire.(wire_hdr_ext_len) ∧ is_byte wire.(wire_next_header)) as [He Hn]
    by (subst wire; cbn; auto with pcap).
  cbn zeta. split_if; [by wp_steps|]. split_if; [by wp_steps|].
  set (l := length_of wire ty) in *.
  assert (8 ≤ l < 65536) as Hl.
  { subst l. unfold length_of, MIN_HEADER_LEN, is_byte in *. repeat split_if; lia. }
  assert (Hst : Header_typed (start ty (wire_next_header wire) (u16 l))).
  { split; cbn; try done; [rewrite u16_small; lia|].
    split; [done|]. repeat constructor; done. }
  assert (Hstl : (start ty (wire_next_header wire) (u16 l)).(length_) = l)
    by (cbn; apply u16_small; lia).
  wp_step. eapply (wp_mono _ (λ '(err, h'), Header_typed h' ∧ h'.(type) = ty ∧ h'.(length_) = l)).
  - split_if; [|repeat split_if; apply wp_ret; by destruct Hst].
    eapply wp_mono; [apply wp_parseRouting; auto|].
    + subst l. unfold length_of in *.
      rewrite (proj1 (Z.eqb_eq _ _) Hc2) in *. cbn in *. lia.
    + intros [err h'] (_ & ? & Heq & Heqt). by rewrite Heq, Heqt.
  - intros [err h'] (Hh & Hht & Hhl). split_if; [by destruct err; wp_steps|].
    apply failed_false in Hc2 as ->. wp_step. wp_step. apply wp_ret.
    rewrite Hhl. split_and!; [done|done|lia|done].
Qed.

Lemma wp_print_ipv6ext h : len h.(final_dst) = 16 →
  wp (toString h) (λ _, True) ∧ wp (toJson h) (λ _, True).
Proof.
  intros Hf. split; unfold toString, toJson;
    (apply wp_bind; eapply (wp_mono _ (λ _, True)); [|intros; by apply wp_ret]);
    repeat split_if; try (by apply wp_ret);
    (do 2 apply wp_bind; eapply wp_mono; [by apply Ipv6.wp_printIp_ipv6|]; intros; by apply wp_ret).
Qed.

(** The fold over the routing headers, from any header. *)
Lemma fold_dst out exts :
  let fold := foldl (λ out ext, if ext.(has_final_dst) then set_dst out ext.(final_dst) else out) in
  Ipv6.dst_ip (fold out exts) =
    default (Ipv6.dst_ip out) (final_dst <$> last (filter (λ e, has_final_dst e = true) exts)) ∧
  Ipv6.payload_length (fold out exts) = Ipv6.payload_length out ∧
  Ipv6.next_header (fold out exts) = Ipv6.next_header out ∧
  Ipv6.src_ip (fold out exts) = Ipv6.src_ip out.
Proof.
  cbn zeta. induction exts as [|e exts (IHd & IHp & IHn & IHs)] using rev_ind; [done|].
  rewrite foldl_app, filter_app. cbn [foldl]. rewrite filter_cons.
  destruct (has_final_dst e) eqn:E.
  - rewrite decide_True by done. cbn [set_dst Ipv6.dst_ip Ipv6.payload_length Ipv6.next_header
      Ipv6.src_ip]. by rewrite filter_nil, last_snoc.
  - rewrite decide_False by done. by rewrite filter_nil, app_nil_r.
Qed.

(** The pseudo-header of an upper layer behind extension headers has the
    length of that layer, the protocol of the last extension header, and as
    destination the final destination of the last routing header that has one
    (RFC 8200, section 8.1). *)
Theorem pseudoHeader_correct (ip : Ipv6.Header) (exts : list Header) (n : Z) :
  0 ≤ n < 65536 →
  let out := pseudoHeader ip exts n in
  out.(Ipv6.payload_length) = n ∧
  out.(Ipv6.next_header) = default ip.(Ipv6.next_header) (next_header <$> last exts) ∧
  out.(Ipv6.src_ip) = ip.(Ipv6.src_ip) ∧
  out.(Ipv6.dst_ip) =
    default ip.(Ipv6.dst_ip) (final_dst <$> last (filter (λ e, has_final_dst e = true) exts)).
Proof.
  intros Hn. cbn zeta. unfold pseudoHeader.
  match goal with |- context [foldl _ ?o exts] => destruct (fold_dst o exts) as (-> & -> & -> & ->) end.
  cbn [Ipv6.payload_length Ipv6.next_header Ipv6.src_ip Ipv6.dst_ip].
  rewrite u16_small by done. by destruct (last exts).
Qed.

Definition sample_route : Header :=
  mkHeader PROTOCOL_IPV6_ROUTE PROTOCOL_TCP 24 0 1 true (replicate 15 0 ++ [9]) 0 false 0 0.

Lemma pseudoHeader_correct_witness :
  let out := pseudoHeader Ipv6.zeroHeader [sample_route] 100 in
  out.(Ipv6.payload_length) = 100 ∧
  out.(Ipv6.next_header) =
    default (Ipv6.next_header Ipv6.zeroHeader) (next_header <$> last [sample_route]) ∧
  out.(Ipv6.src_ip) = Ipv6.src_ip Ipv6.zeroHeader ∧
  out.(Ipv6.dst_ip) = default (Ipv6.dst_ip Ipv6.zeroHeader)
    (final_dst <$> last (filter (λ e, has_final_dst e = true) [sample_route])).
Proof. apply pseudoHeader_correct. lia. Defined.
