(* ===== verification/Icmp.v ===== *)
(** ICMP: [include/net/protocols/icmp.h], [src/net/protocols/icmp.cpp].  The
    union of the header is its four bytes; a member is read and stored in
    them. *)
From S2P Require Import Prelude Endian ParseError Checksum Text.
From S2P Require Ipv4.

Definition HEADER_LEN : Z := 8.

Definition TYPE_ECHO_REPLY : Z := 0.
Definition TYPE_UNREACHABLE : Z := 3.
Definition TYPE_SOURCE_QUENCH : Z := 4.
Definition TYPE_REDIRECT : Z := 5.
Definition TYPE_ECHO_REQUEST : Z := 8.
Definition TYPE_TTL_EXCEEDED : Z := 11.
Definition TYPE_PARAM_PROBLEM : Z := 12.
Definition TYPE_TIMESTAMP : Z := 13.
Definition TYPE_TIMESTAMP_REPLY : Z := 14.
Definition TYPE_INFO_REQUEST : Z := 15.
Definition TYPE_INFO_REPLY : Z := 16.

Definition CODE_NET_UNREACHABLE : Z := 0.
Definition CODE_HOST_UNREACHABLE : Z := 1.
Definition CODE_PORT_UNREACHABLE : Z := 3.
Definition CODE_TTL_IN_TRANSIT : Z := 0.
Definition CODE_TTL_REASSEMBLY : Z := 1.
Definition CODE_PARAM_BAD_HEADER : Z := 0.
Definition CODE_PARAM_MISSING_OPT : Z := 1.
Definition CODE_REDIRECT_NET : Z := 0.
Definition CODE_REDIRECT_HOST : Z := 1.
Definition CODE_REDIRECT_TOS_NET : Z := 2.
Definition CODE_REDIRECT_TOS_HOST : Z := 3.

Record Header := mkHeader {
  type : Z;
  code : Z;
  checksum : Z;
  union_ : bytes;
}.

Definition zeroHeader : Header := mkHeader 0 0 0 (replicate 4 0).

Definition Header_of (b : bytes) : Header :=
  mkHeader (field b 0 1) (field b 1 1) (field b 2 2) (field_bytes b 4 4).

Definition gateway (h : Header) : Z := field h.(union_) 0 4.
Definition echo_id (h : Header) : Z := field h.(union_) 0 2.
Definition echo_seq (h : Header) : Z := field h.(union_) 2 2.
Definition param_pointer (h : Header) : Z := field h.(union_) 0 1.

Definition set_union (h : Header) (u : bytes) : Header := mkHeader h.(type) h.(code) h.(checksum) u.
Definition set_gateway (h : Header) (v : Z) : Header := set_union h (le_bytes 4 v).
Definition set_echo_id (h : Header) (v : Z) : Header :=
  set_union h (le_bytes 2 v ++ field_bytes h.(union_) 2 2).
Definition set_echo_seq (h : Header) (v : Z) : Header :=
  set_union h (field_bytes h.(union_) 0 2 ++ le_bytes 2 v).
Definition set_checksum (h : Header) (v : Z) : Header := mkHeader h.(type) h.(code) v h.(union_).

(** The [switch] that checks the code of the types it knows. *)
Definition codeInvalid (h : Header) : bool :=
  if (h.(type) =? TYPE_ECHO_REQUEST) || (h.(type) =? TYPE_ECHO_REPLY) ||
     (h.(type) =? TYPE_SOURCE_QUENCH) || (h.(type) =? TYPE_TIMESTAMP) ||
     (h.(type) =? TYPE_TIMESTAMP_REPLY) || (h.(type) =? TYPE_INFO_REQUEST) ||
     (h.(type) =? TYPE_INFO_REPLY) then negb (h.(code) =? 0)
  else if h.(type) =? TYPE_UNREACHABLE then 15 <? h.(code)
  else if h.(type) =? TYPE_REDIRECT then CODE_REDIRECT_TOS_HOST <? h.(code)
  else if h.(type) =? TYPE_TTL_EXCEEDED then CODE_TTL_REASSEMBLY <? h.(code)
  else if h.(type) =? TYPE_PARAM_PROBLEM then CODE_PARAM_MISSING_OPT <? h.(code)
  else false.

Definition unionToHost (h : Header) (endian : Endian) : Header :=
  if h.(type) =? TYPE_REDIRECT then set_gateway h (toHost32 (gateway h) endian)
  else if (h.(type) =? TYPE_ECHO_REQUEST) || (h.(type) =? TYPE_ECHO_REPLY) then
    let h := set_echo_id h (toHost16 (echo_id h) endian) in
    set_echo_seq h (toHost16 (echo_seq h) endian)
  else h.

Definition parse (span : bytes) (header : Header) (endian : Endian) (verify_checksum : bool)
    : outcome (ParseError * (bytes * Header)) :=
  if len span <? HEADER_LEN then Ret (UnexpectedEof, (span, header)) else
  b ← memcpy span HEADER_LEN;
  let header := Header_of b in
  if codeInvalid header then Ret (InvalidFieldValue, (span, header)) else
  let header := unionToHost header endian in
  ok ← (if verify_checksum then verifyChecksum span (len span) 0 else Ret true);
  if negb ok then Ret (ChecksumMismatch, (span, header)) else
  let header := set_checksum header (toHost16 header.(checksum) endian) in
  span ← subspan span HEADER_LEN;
  Ret (NoError, (span, header)).

(** ** Printing *)

Definition typeName (t : Z) : bytes :=
  if t =? TYPE_ECHO_REPLY then chars "echo reply"
  else if t =? TYPE_UNREACHABLE then chars "unreachable"
  else if t =? TYPE_SOURCE_QUENCH then chars "source quench"
  else if t =? TYPE_REDIRECT then chars "redirect"
  else if t =? TYPE_ECHO_REQUEST then chars "echo request"
  else if t =? TYPE_TTL_EXCEEDED then chars "TTL exceeded"
  else if t =? TYPE_PARAM_PROBLEM then chars "param problem"
  else if t =? TYPE_TIMESTAMP then chars "timestamp"
  else if t =? TYPE_TIMESTAMP_REPLY then chars "timestamp reply"
  else if t =? TYPE_INFO_REQUEST then chars "info request"
  else if t =? TYPE_INFO_REPLY then chars "info reply"
  else chars "unknown".

Definition codeLine (h : Header) (name : bytes) : bytes :=
  chars "  code: " ++ dec h.(code) ++ name ++ [newline].

Definition details (h : Header) : bytes :=
  let c := h.(code) in
  if h.(type) =? TYPE_UNREACHABLE then
    codeLine h (if c =? CODE_NET_UNREACHABLE then chars " (net unreachable)"
                else if c =? CODE_HOST_UNREACHABLE then chars " (host unreachable)"
                else if c =? CODE_PORT_UNREACHABLE then chars " (port unreachable)" else [])
  else if h.(type) =? TYPE_REDIRECT then
    codeLine h (if c =? CODE_REDIRECT_NET then chars " (redirect for network)"
                else if c =? CODE_REDIRECT_HOST then chars " (redirect for host)"
                else if c =? CODE_REDIRECT_TOS_NET then chars " (redirect for TOS and network)"
                else if c =? CODE_REDIRECT_TOS_HOST then chars " (redirect for TOS and host)"
                else []) ++
    chars "  gateway: " ++ Ipv4.printIp32 (gateway h) ++ [newline]
  else if h.(type) =? TYPE_TTL_EXCEEDED then
    codeLine h (if c =? CODE_TTL_IN_TRANSIT then chars " (TTL exceeded in transit)"
                else if c =? CODE_TTL_REASSEMBLY then chars " (fragment reassembly exceeded)"
                else [])
  else if h.(type) =? TYPE_PARAM_PROBLEM then
    codeLine h (if c =? CODE_PARAM_BAD_HEADER then chars " (bad header)"
                else if c =? CODE_PARAM_MISSING_OPT then chars " (missing option)" else []) ++
    chars "  pointer: " ++ dec (param_pointer h) ++ [newline]
  else if (h.(type) =? TYPE_ECHO_REQUEST) || (h.(type) =? TYPE_ECHO_REPLY) then
    chars "  id: " ++ dec (echo_id h) ++ [newline] ++
    chars "  seq: " ++ dec (echo_seq h) ++ [newline]
  else [].

Definition toString (h : Header) : bytes :=
  chars "ICMPHeader {" ++ [newline] ++
  chars "  type: " ++ dec h.(type) ++ chars " (" ++ typeName h.(type) ++ chars ")" ++ [newline] ++
  details h ++
  chars "  checksum: 0x" ++ setw 4 (hex h.(checksum)) ++ [newline] ++
  chars "}".

Definition toJson (h : Header) : bytes :=
  jstr "`icmp`: {" ++ [newline] ++
  jstr "  `type`: " ++ dec h.(type) ++ chars "," ++ [newline] ++
  jstr "  `code`: " ++ dec h.(code) ++ chars "," ++ [newline] ++
  (if h.(type) =? TYPE_REDIRECT then
     jstr "  `gateway`: `" ++ Ipv4.printIp32 (gateway h) ++ jstr "`," ++ [newline]
   else if h.(type) =? TYPE_PARAM_PROBLEM then
     jstr "  `pointer`: " ++ dec (param_pointer h) ++ chars "," ++ [newline]
   else if (h.(type) =? TYPE_ECHO_REQUEST) || (h.(type) =? TYPE_ECHO_REPLY) then
     jstr "  `id`: " ++ dec (echo_id h) ++ chars "," ++ [newline] ++
     jstr "  `seq`: " ++ dec (echo_seq h) ++ chars "," ++ [newline]
   else []) ++
  jstr "  `checksum`: `0x" ++ setw 4 (hex h.(checksum)) ++ jstr "`" ++ [newline] ++
  chars "}".

(** ** Lemmas *)

Lemma wp_parse_icmp span h e verify :
  bytes_ok span → len span < 2 ^ 32 →
  wp (parse span h e verify) (λ '(err, (span', h')),
    match err with
    | NoError => HEADER_LEN ≤ len span ∧ span' = zdrop HEADER_LEN span ∧ codeInvalid h' = false
    | _ => span' = span
    end).
Proof.
  intros Hok Hmax. unfold parse. split_if; [by wp_steps|].
  unfold HEADER_LEN in *. do 2 wp_step. set (hd := Header_of _). cbn zeta.
  split_if; [by wp_steps|].
  wp_step. eapply (wp_mono _ (λ _, True)).
  { destruct verify; [|by wp_steps]. apply wp_verifyChecksum; auto; lia. }
  intros ok _. split_if; [by wp_steps|]. wp_steps. split_and!; [lia|done|].
  unfold unionToHost. by repeat split_if.
Qed.

(** An echo message keeps its identifier and sequence number. *)
Lemma echo_fields h i s e :
  0 ≤ i < 65536 → 0 ≤ s < 65536 →
  h.(type) = TYPE_ECHO_REQUEST ∨ h.(type) = TYPE_ECHO_REPLY →
  h.(union_) = enc e 2 i ++ enc e 2 s →
  echo_id (unionToHost h e) = i ∧ echo_seq (unionToHost h e) = s.
Proof.
  intros Hi Hs Ht Hu. unfold unionToHost.
  assert ((type h =? TYPE_REDIRECT) = false) as -> by (destruct Ht as [-> | ->]; done).
  assert ((type h =? TYPE_ECHO_REQUEST) || (type h =? TYPE_ECHO_REPLY) = true) as ->
    by (destruct Ht as [-> | ->]; done).
  unfold set_echo_seq, set_echo_id, echo_id, echo_seq, set_union; cbn [union_].
  rewrite Hu. read_fields. rewrite !toHost16_enc by done.
  rewrite !le_val_le_bytes. split; by apply Z.mod_small.
Qed.
