(* ===== verification/Icmpv6.v ===== *)
(** ICMPv6: [include/net/protocols/icmpv6.h], [src/net/protocols/icmpv6.cpp]. *)
From S2P Require Import Prelude Endian ParseError Checksum Text.
From S2P Require Ipv6.

Definition HEADER_LEN : Z := 8.
Definition MIN_MTU : Z := 1280.

Definition TYPE_UNREACHABLE : Z := 1.
Definition TYPE_PACKET_TOO_BIG : Z := 2.
Definition TYPE_TTL_EXCEEDED : Z := 3.
Definition TYPE_PARAM_PROBLEM : Z := 4.
Definition TYPE_ECHO_REQUEST : Z := 128.
Definition TYPE_ECHO_REPLY : Z := 129.
Definition TYPE_ROUTER_SOLICIT : Z := 133.
Definition TYPE_ROUTER_ADVERT : Z := 134.
Definition TYPE_NEIGHBOR_SOLICIT : Z := 135.
Definition TYPE_NEIGHBOR_ADVERT : Z := 136.

Definition CODE_UNREACH_NO_ROUTE : Z := 0.
Definition CODE_UNREACH_ADMIN : Z := 1.
Definition CODE_UNREACH_BEYOND_SCOPE : Z := 2.
Definition CODE_UNREACH_ADDR : Z := 3.
Definition CODE_UNREACH_PORT : Z := 4.
Definition CODE_TTL_IN_TRANSIT : Z := 0.
Definition CODE_TTL_REASSEMBLY : Z := 1.
Definition CODE_PARAM_BAD_HEADER : Z := 0.
Definition CODE_PARAM_UNKNOWN_NEXT : Z := 1.
Definition CODE_PARAM_UNKNOWN_OPTION : Z := 2.

Record Header := mkHeader {
  type : Z;
  code : Z;
  checksum : Z;
  union_ : bytes;
}.

Definition zeroHeader : Header := mkHeader 0 0 0 (replicate 4 0).

Definition Header_of (b : bytes) : Header :=
  mkHeader (field b 0 1) (field b 1 1) (field b 2 2) (field_bytes b 4 4).

Definition mtu (h : Header) : Z := field h.(union_) 0 4.
Definition pointer (h : Header) : Z := field h.(union_) 0 4.
Definition echo_id (h : Header) : Z := field h.(union_) 0 2.
Definition echo_seq (h : Header) : Z := field h.(union_) 2 2.

Definition set_union (h : Header) (u : bytes) : Header := mkHeader h.(type) h.(code) h.(checksum) u.
Definition set_mtu (h : Header) (v : Z) : Header := set_union h (le_bytes 4 v).
Definition set_pointer (h : Header) (v : Z) : Header := set_union h (le_bytes 4 v).
Definition set_echo_id (h : Header) (v : Z) : Header :=
  set_union h (le_bytes 2 v ++ field_bytes h.(union_) 2 2).
Definition set_echo_seq (h : Header) (v : Z) : Header :=
  set_union h (field_bytes h.(union_) 0 2 ++ le_bytes 2 v).
Definition set_checksum (h : Header) (v : Z) : Header := mkHeader h.(type) h.(code) v h.(union_).

Definition codeInvalid (h : Header) : bool :=
  if (h.(type) =? TYPE_ECHO_REQUEST) || (h.(type) =? TYPE_ECHO_REPLY) ||
     (h.(type) =? TYPE_PACKET_TOO_BIG) || (h.(type) =? TYPE_ROUTER_SOLICIT) ||
     (h.(type) =? TYPE_ROUTER_ADVERT) || (h.(type) =? TYPE_NEIGHBOR_SOLICIT) ||
     (h.(type) =? TYPE_NEIGHBOR_ADVERT) then negb (h.(code) =? 0)
  else if h.(type) =? TYPE_UNREACHABLE then CODE_UNREACH_PORT <? h.(code)
  else if h.(type) =? TYPE_TTL_EXCEEDED then CODE_TTL_REASSEMBLY <? h.(code)
  else if h.(type) =? TYPE_PARAM_PROBLEM then CODE_PARAM_UNKNOWN_OPTION <? h.(code)
  else false.

(** The chain over the message types, and whether it rejects the message. *)
Definition unionToHost (h : Header) (endian : Endian) : bool * Header :=
  if h.(type) =? TYPE_PACKET_TOO_BIG then
    let h := set_mtu h (toHost32 (mtu h) endian) in
    (mtu h <? MIN_MTU, h)
  else if h.(type) =? TYPE_PARAM_PROBLEM then (false, set_pointer h (toHost32 (pointer h) endian))
  else if (h.(type) =? TYPE_ECHO_REQUEST) || (h.(type) =? TYPE_ECHO_REPLY) then
    let h := set_echo_id h (toHost16 (echo_id h) endian) in
    (false, set_echo_seq h (toHost16 (echo_seq h) endian))
  else (false, h).

Definition parse (span : bytes) (header : Header) (ip_header : Ipv6.Header) (endian : Endian)
    (verify_checksum : bool) : outcome (ParseError * (bytes * Header)) :=
  if len span <? HEADER_LEN then Ret (UnexpectedEof, (span, header)) else
  b ← memcpy span HEADER_LEN;
  let header := Header_of b in
  if len span <? ip_header.(Ipv6.payload_length) then Ret (MalformedHeader, (span, header)) else
  let header := set_checksum header (toHost16 header.(checksum) endian) in
  if codeInvalid header then Ret (InvalidFieldValue, (span, header)) else
  let '(small, header) := unionToHost header endian in
  if small : bool then Ret (InvalidFieldValue, (span, header)) else
  ok ← (if verify_checksum
        then verifyChecksum span ip_header.(Ipv6.payload_length)
               (Ipv6.computePseudoHeaderSum ip_header)
        else Ret true);
  if negb ok then Ret (ChecksumMismatch, (span, header)) else
  span ← subspan span HEADER_LEN;
  Ret (NoError, (span, header)).

(** ** Printing *)

Definition typeName (t : Z) : bytes :=
  if t =? TYPE_UNREACHABLE then chars "unreachable"
  else if t =? TYPE_PACKET_TOO_BIG then chars "packet too big"
  else if t =? TYPE_TTL_EXCEEDED then chars "TTL exceeded"
  else if t =? TYPE_PARAM_PROBLEM then chars "param problem"
  else if t =? TYPE_ECHO_REQUEST then chars "echo request"
  else if t =? TYPE_ECHO_REPLY then chars "echo reply"
  else chars "unknown".

Definition codeLine (h : Header) (name : bytes) : bytes :=
  chars "  code: " ++ dec h.(code) ++ name ++ [newline].

Definition details (h : Header) : bytes :=
  let c := h.(code) in
  if h.(type) =? TYPE_UNREACHABLE then
    codeLine h (if c =? CODE_UNREACH_NO_ROUTE then chars " (no route to destination)"
                else if c =? CODE_UNREACH_ADMIN then chars " (admin prohibited)"
                else if c =? CODE_UNREACH_BEYOND_SCOPE
                     then chars " (beyond scope of source address)"
                else if c =? CODE_UNREACH_ADDR then chars " (address unreachable)"
                else if c =? CODE_UNREACH_PORT then chars " (port unreachable)" else [])
  else if h.(type) =? TYPE_PACKET_TOO_BIG then chars "  mtu: " ++ dec (mtu h) ++ [newline]
  else if h.(type) =? TYPE_TTL_EXCEEDED then
    codeLine h (if c =? CODE_TTL_IN_TRANSIT then chars " (hop limit exceeded in transit)"
                else if c =? CODE_TTL_REASSEMBLY then chars " (fragment reassembly time exceeded)"
                else [])
  else if h.(type) =? TYPE_PARAM_PROBLEM then
    codeLine h (if c =? CODE_PARAM_BAD_HEADER then chars " (erroneous header field)"
                else if c =? CODE_PARAM_UNKNOWN_NEXT then chars " (unrecognized next header)"
                else if c =? CODE_PARAM_UNKNOWN_OPTION then chars " (unrecognized option)"
                else []) ++
    chars "  pointer: " ++ dec (pointer h) ++ [newline]
  else if (h.(type) =? TYPE_ECHO_REQUEST) || (h.(type) =? TYPE_ECHO_REPLY) then
    chars "  id: " ++ dec (echo_id h) ++ [newline] ++
    chars "  seq: " ++ dec (echo_seq h) ++ [newline]
  else [].

Definition toString (h : Header) : bytes :=
  chars "ICMPv6Header {" ++ [newline] ++
  chars "  type: " ++ dec h.(type) ++ chars " (" ++ typeName h.(type) ++ chars ")" ++ [newline] ++
  details h ++
  chars "  checksum: 0x" ++ setw 4 (hex h.(checksum)) ++ [newline] ++
  chars "}".

Definition toJson (h : Header) : bytes :=
  jstr "`icmpv6`: {" ++ [newline] ++
  jstr "  `type`: " ++ dec h.(type) ++ chars "," ++ [newline] ++
  jstr "  `code`: " ++ dec h.(code) ++ chars "," ++ [newline] ++
  (if h.(type) =? TYPE_PACKET_TOO_BIG then
     jstr "  `mtu`: " ++ dec (mtu h) ++ chars "," ++ [newline]
   else if h.(type) =? TYPE_PARAM_PROBLEM then
     jstr "  `pointer`: " ++ dec (pointer h) ++ chars "," ++ [newline]
   else if (h.(type) =? TYPE_ECHO_REQUEST) || (h.(type) =? TYPE_ECHO_REPLY) then
     jstr "  `id`: " ++ dec (echo_id h) ++ chars "," ++ [newline] ++
     jstr "  `seq`: " ++ dec (echo_seq h) ++ chars "," ++ [newline]
   else []) ++
  jstr "  `checksum`: `0x" ++ setw 4 (hex h.(checksum)) ++ jstr "`" ++ [newline] ++
  chars "}".

(** ** Lemmas *)

Lemma wp_parse_icmpv6 span h ip e verify :
  bytes_ok span → Ipv6.Header_typed ip →
  wp (parse span h ip e verify) (λ '(err, (span', h')),
    match err with
    | NoError => HEADER_LEN ≤ len span ∧ span' = zdrop HEADER_LEN span
    | _ => span' = span
    end).
Proof.
  intros Hok Hip. unfold parse. split_if; [by wp_steps|].
  unfold HEADER_LEN in *. do 2 wp_step. cbn zeta.
  do 2 (split_if; [by wp_steps|]). destruct (unionToHost _ e) as [small hd].
  split_if; [by wp_steps|].
  wp_step. eapply (wp_mono _ (λ _, True)).
  { destruct verify; [|by wp_steps]. destruct Hip as [Hp ? ? ?] eqn:?.
    apply wp_verifyChecksum; auto; [lia..|by apply Ipv6.pseudo_range_ipv6]. }
  intros ok _. split_if; [by wp_steps|]. wp_steps. split; [lia|done].
Qed.
