(* ===== verification/Tcp.v ===== *)
(** TCP headers: [include/net/protocols/tcp.h], [src/net/protocols/tcp.cpp].
    [parse] leaves [checksum] in wire order, as the code does. *)
From S2P Require Import Prelude Endian ParseError Checksum Text.
From S2P Require Ipv4 Ipv6.

Definition MIN_DATA_OFFSET : Z := 5.
Definition MAX_DATA_OFFSET : Z := 15.
Definition MIN_HEADER_LEN : Z := 4 * MIN_DATA_OFFSET.
Definition MAX_HEADER_LEN : Z := 4 * MAX_DATA_OFFSET.

Record Header := mkHeader {
  src_port : Z;
  dst_port : Z;
  seq_number : Z;
  ack_number : Z;
  data_offset_reserved : Z;
  flags : Z;
  window_size : Z;
  checksum : Z;
  urgent_pointer : Z;
}.

Definition zeroHeader : Header := mkHeader 0 0 0 0 0 0 0 0 0.

Definition Header_of (b : bytes) : Header :=
  mkHeader (field b 0 2) (field b 2 2) (field b 4 4) (field b 8 4) (field b 12 1) (field b 13 1)
           (field b 14 2) (field b 16 2) (field b 18 2).

Definition data_offset (h : Header) : Z := Z.shiftr h.(data_offset_reserved) 4.
Definition header_length (h : Header) : Z := 4 * data_offset h.
Definition flag (h : Header) (mask : Z) : bool := negb (Z.land h.(flags) mask =? 0).
Definition cwr (h : Header) : bool := flag h 0x80.
Definition ece (h : Header) : bool := flag h 0x40.
Definition urg (h : Header) : bool := flag h 0x20.
Definition ack (h : Header) : bool := flag h 0x10.
Definition psh (h : Header) : bool := flag h 0x08.
Definition rst (h : Header) : bool := flag h 0x04.
Definition syn (h : Header) : bool := flag h 0x02.
Definition fin (h : Header) : bool := flag h 0x01.

Definition toHost (h : Header) (endian : Endian) : Header := {|
  src_port := toHost16 h.(src_port) endian;
  dst_port := toHost16 h.(dst_port) endian;
  seq_number := toHost32 h.(seq_number) endian;
  ack_number := toHost32 h.(ack_number) endian;
  data_offset_reserved := h.(data_offset_reserved);
  flags := h.(flags);
  window_size := toHost16 h.(window_size) endian;
  checksum := h.(checksum);
  urgent_pointer := toHost16 h.(urgent_pointer) endian;
|}.

Definition parse (span : bytes) (header : Header) (length pseudo_header_sum : Z) (endian : Endian)
    (verify_checksum : bool) : outcome (ParseError * (bytes * Header)) :=
  if len span <? MIN_HEADER_LEN then Ret (UnexpectedEof, (span, header)) else
  b ← memcpy span MIN_HEADER_LEN;
  let header := Header_of b in
  if (header_length header <? MIN_HEADER_LEN) || (MAX_HEADER_LEN <? header_length header)
     || (length <? header_length header) || (len span <? length)
  then Ret (MalformedHeader, (span, header))
  else if len span <? header_length header then Ret (UnexpectedEof, (span, header))
  else
    ok ← (if verify_checksum then verifyChecksum span length pseudo_header_sum else Ret true);
    if negb ok then Ret (ChecksumMismatch, (span, header)) else
    let header := toHost header endian in
    span ← subspan span (header_length header);
    Ret (NoError, (span, header)).

Definition parse4 (span : bytes) (header : Header) (ip_header : Ipv4.Header) (endian : Endian)
    (verify_checksum : bool) : outcome (ParseError * (bytes * Header)) :=
  let length := u64 (ip_header.(Ipv4.total_length) - Ipv4.header_length ip_header) in
  parse span header length (Ipv4.computePseudoHeaderSum ip_header) endian verify_checksum.
Definition parse6 (span : bytes) (header : Header) (ip_header : Ipv6.Header) (endian : Endian)
    (verify_checksum : bool) : outcome (ParseError * (bytes * Header)) :=
  parse span header ip_header.(Ipv6.payload_length) (Ipv6.computePseudoHeaderSum ip_header)
        endian verify_checksum.

Definition toString (h : Header) : bytes :=
  chars "TCPHeader {" ++ [newline] ++
  chars "  src_port: " ++ dec h.(src_port) ++ [newline] ++
  chars "  dst_port: " ++ dec h.(dst_port) ++ [newline] ++
  chars "  seq_number: " ++ dec h.(seq_number) ++ [newline] ++
  chars "  ack_number: " ++ dec h.(ack_number) ++ [newline] ++
  chars "  data_offset: 0x" ++ hex (data_offset h) ++ [newline] ++
  chars "  flags: " ++ when (cwr h) (chars "CWR ") ++ when (ece h) (chars "ECE ") ++
    when (urg h) (chars "URG ") ++ when (ack h) (chars "ACK ") ++ when (psh h) (chars "PSH ") ++
    when (rst h) (chars "RST ") ++ when (syn h) (chars "SYN ") ++ when (fin h) (chars "FIN ") ++
    when (h.(flags) =? 0) (chars "none ") ++
    chars "(0x" ++ setw 2 (hex h.(flags)) ++ chars ")" ++ [newline] ++
  chars "  window_size: " ++ dec h.(window_size) ++ [newline] ++
  chars "  checksum: 0x" ++ setw 4 (hex h.(checksum)) ++ [newline] ++
  chars "  urgent_pointer: " ++ dec h.(urgent_pointer) ++ [newline] ++
  chars "}".

Definition toJson (h : Header) : bytes :=
  jstr "`tcp`: {" ++ [newline] ++
  jstr "  `src_port`: " ++ dec h.(src_port) ++ chars "," ++ [newline] ++
  jstr "  `dst_port`: " ++ dec h.(dst_port) ++ chars "," ++ [newline] ++
  jstr "  `seq_number`: " ++ dec h.(seq_number) ++ chars "," ++ [newline] ++
  jstr "  `ack_number`: " ++ dec h.(ack_number) ++ chars "," ++ [newline] ++
  jstr "  `data_offset`: " ++ dec (data_offset h) ++ chars "," ++ [newline] ++
  jstr "  `flags`: `0x" ++ setw 2 (hex h.(flags)) ++ jstr "`," ++ [newline] ++
  jstr "  `window_size`: " ++ dec h.(window_size) ++ chars "," ++ [newline] ++
  jstr "  `checksum`: `0x" ++ setw 4 (hex h.(checksum)) ++ jstr "`," ++ [newline] ++
  jstr "  `urgent_pointer`: " ++ dec h.(urgent_pointer) ++ [newline] ++
  chars "}".

(** ** Reference encoder

    [checksum] is the value as it lies in the packet. *)

Definition encode (h : Header) (options : bytes) : bytes :=
  enc Big 2 h.(src_port) ++ enc Big 2 h.(dst_port) ++ enc Big 4 h.(seq_number) ++
  enc Big 4 h.(ack_number) ++ [h.(data_offset_reserved)] ++ [h.(flags)] ++
  enc Big 2 h.(window_size) ++ enc Little 2 h.(checksum) ++ enc Big 2 h.(urgent_pointer) ++
  options.

Record Header_ok (h : Header) (options : bytes) : Prop := {
  ok_offset : MIN_DATA_OFFSET ≤ data_offset h;
  ok_dor : is_byte h.(data_offset_reserved);
  ok_options : len options = 4 * (data_offset h - MIN_DATA_OFFSET);
  ok_src : 0 ≤ h.(src_port) < 65536;
  ok_dst : 0 ≤ h.(dst_port) < 65536;
  ok_seq : 0 ≤ h.(seq_number) < 4294967296;
  ok_ack : 0 ≤ h.(ack_number) < 4294967296;
  ok_flags : is_byte h.(flags);
  ok_window : 0 ≤ h.(window_size) < 65536;
  ok_checksum : 0 ≤ h.(checksum) < 65536;
  ok_urgent : 0 ≤ h.(urgent_pointer) < 65536;
}.

(** ** Lemmas *)

Record Header_typed (h : Header) : Prop := {
  ty_src : 0 ≤ h.(src_port) < 65536;
  ty_dst : 0 ≤ h.(dst_port) < 65536;
  ty_seq : 0 ≤ h.(seq_number) < 4294967296;
  ty_ack : 0 ≤ h.(ack_number) < 4294967296;
}.

Lemma wp_parse_tcp span h length pseudo e verify :
  bytes_ok span → 0 ≤ pseudo < 2 ^ 63 → length < 65536 →
  wp (parse span h length pseudo e verify) (λ '(err, (span', h')),
    match err with
    | NoError => MIN_HEADER_LEN ≤ header_length h' ≤ MAX_HEADER_LEN ∧
                 header_length h' ≤ length ≤ len span ∧ Header_typed h' ∧
                 span' = zdrop (header_length h') span
    | _ => span' = span
    end).
Proof.
  intros Hok Hps Hlen. unfold parse. split_if; [by wp_steps|].
  unfold MIN_HEADER_LEN, MAX_HEADER_LEN, MIN_DATA_OFFSET, MAX_DATA_OFFSET in *. do 2 wp_step.
  assert (Hb : bytes_ok (ztake (4 * 5) span)) by auto with pcap.
  assert (Hty : Header_typed (toHost (Header_of (ztake (4 * 5) span)) e))
    by (split; cbn [toHost src_port dst_port seq_number ack_number Header_of]; auto with pcap).
  set (hd := Header_of _) in *. cbn zeta. do 2 (split_if; [by wp_steps|]).
  wp_step. eapply (wp_mono _ (λ _, True)).
  { destruct verify; [|by wp_steps]. apply wp_verifyChecksum; auto; lia. }
  intros ok _. split_if; [by wp_steps|].
  change (header_length (toHost hd e)) with (header_length hd).
  wp_steps. change (header_length (toHost hd e)) with (header_length hd).
  split_and!; [lia..|done|done].
Qed.

Lemma parse_encode_tcp h h0 options payload pseudo verify :
  Header_ok h options →
  (verify = true →
   verifyChecksum (encode h options ++ payload) (header_length h + len payload) pseudo = Ret true) →
  parse (encode h options ++ payload) h0 (header_length h + len payload) pseudo Big verify =
  Ret (NoError, (payload, h)).
Proof.
  intros [] Hck. unfold MIN_DATA_OFFSET in *.
  assert (Hhl : header_length h ≤ 60).
  { unfold header_length, data_offset, is_byte in *. rewrite Z.shiftr_div_pow2 by lia.
    Z.div_mod_to_equations; lia. }
  assert (Hlen : len (encode h options) = header_length h).
  { unfold encode. rewrite !len_app, !len_enc, ok_options0. unfold len, header_length in *.
    cbn [length]. lia. }
  pose proof (len_nonneg payload). unfold header_length in *.
  assert (Hraw : ∀ b, b = ztake MIN_HEADER_LEN (encode h options ++ payload) →
    toHost (Header_of b) Big = h ∧ data_offset (Header_of b) = data_offset h).
  { intros b ->. unfold encode, MIN_HEADER_LEN, MIN_DATA_OFFSET.
    rewrite !app_assoc. rewrite <- (app_assoc _ options).
    rewrite ztake_app_exact by (rewrite !len_app, !len_enc; reflexivity).
    rewrite <- !app_assoc. unfold Header_of. read_fields. cbn [le_val].
    unfold toHost; cbn [src_port dst_port seq_number ack_number data_offset_reserved flags
      window_size checksum urgent_pointer]. rewrite !toHost16_enc, !toHost32_enc by lia.
    unfold enc. rewrite le_val_le_bytes, (Z.mod_small (checksum h)) by done.
    unfold data_offset; cbn [data_offset_reserved]. rewrite !Z.mul_0_r, !Z.add_0_r.
    by destruct h. }
  unfold parse, memcpy, first. rewrite len_app, Hlen.
  rewrite (proj2 (Z.ltb_ge _ _)), (proj2 (Z.leb_le 0 _)), (proj2 (Z.leb_le MIN_HEADER_LEN _))
    by (unfold MIN_HEADER_LEN, MIN_DATA_OFFSET; lia).
  cbn [andb]. rewrite bind_ret. destruct (Hraw _ eq_refl) as [-> Hoff].
  unfold header_length. rewrite Hoff.
  unfold MIN_HEADER_LEN, MAX_HEADER_LEN, MIN_DATA_OFFSET, MAX_DATA_OFFSET.
  rewrite !(proj2 (Z.ltb_ge _ _)) by lia. cbn [orb].
  replace (if verify then _ else Ret true) with (Ret true : outcome bool)
    by (destruct verify; [by rewrite Hck|done]).
  rewrite bind_ret. cbn [negb]. by rewrite subspan_app_exact by done.
Qed.
