(* ===== verification/Udp.v ===== *)
(** UDP: [include/net/protocols/udp.h], [src/net/protocols/udp.cpp]. *)
From S2P Require Import Prelude Endian ParseError Checksum Text.
From S2P Require Ipv4 Ipv6.

Definition HEADER_LEN : Z := 8.

Record Header := mkHeader {
  src_port : Z;
  dst_port : Z;
  length_ : Z;
  checksum : Z;
}.

Definition zeroHeader : Header := mkHeader 0 0 0 0.

Definition Header_of (b : bytes) : Header :=
  mkHeader (field b 0 2) (field b 2 2) (field b 4 2) (field b 6 2).

Definition toHost (h : Header) (endian : Endian) : Header :=
  mkHeader (toHost16 h.(src_port) endian) (toHost16 h.(dst_port) endian)
           (toHost16 h.(length_) endian) (toHost16 h.(checksum) endian).

Definition parse (span : bytes) (header : Header) (pseudo_header_sum : Z) (endian : Endian)
    (accept_zero_checksum verify_checksum : bool)
    : outcome (ParseError * (bytes * Header)) :=
  if len span <? HEADER_LEN then Ret (UnexpectedEof, (span, header)) else
  b ← memcpy span HEADER_LEN;
  let header := Header_of b in
  if (toHost16 header.(length_) endian <? HEADER_LEN)
     || (len span <? toHost16 header.(length_) endian)
  then Ret (MalformedHeader, (span, header)) else
  ok ← (if verify_checksum && (negb (header.(checksum) =? 0) || negb accept_zero_checksum)
        then verifyChecksum span (toHost16 header.(length_) endian) pseudo_header_sum
        else Ret true);
  if negb ok then Ret (ChecksumMismatch, (span, header)) else
  let header := toHost header endian in
  span ← subspan_n span HEADER_LEN (header.(length_) - HEADER_LEN);
  Ret (NoError, (span, header)).

Definition parse4 (span : bytes) (header : Header) (ip_header : Ipv4.Header) (endian : Endian)
    (verify_checksum : bool) : outcome (ParseError * (bytes * Header)) :=
  parse span header (Ipv4.computePseudoHeaderSum ip_header) endian true verify_checksum.
Definition parse6 (span : bytes) (header : Header) (ip_header : Ipv6.Header) (endian : Endian)
    (verify_checksum : bool) : outcome (ParseError * (bytes * Header)) :=
  parse span header (Ipv6.computePseudoHeaderSum ip_header) endian false verify_checksum.

Definition toString (h : Header) : bytes :=
  chars "UDPHeader {" ++ [newline] ++
  chars "  src_port: " ++ dec h.(src_port) ++ [newline] ++
  chars "  dst_port: " ++ dec h.(dst_port) ++ [newline] ++
  chars "  length: " ++ dec h.(length_) ++ [newline] ++
  chars "  checksum: 0x" ++ setw 4 (hex h.(checksum)) ++ [newline] ++
  chars "}".

Definition toJson (h : Header) : bytes :=
  jstr "`udp`: {" ++ [newline] ++
  jstr "  `src_port`: " ++ dec h.(src_port) ++ chars "," ++ [newline] ++
  jstr "  `dst_port`: " ++ dec h.(dst_port) ++ chars "," ++ [newline] ++
  jstr "  `length`: " ++ dec h.(length_) ++ chars "," ++ [newline] ++
  jstr "  `checksum`: `0x" ++ setw 4 (hex h.(checksum)) ++ jstr "`" ++ [newline] ++
  chars "}".

(** ** Reference encoder *)

Definition encode (h : Header) : bytes :=
  enc Big 2 h.(src_port) ++ enc Big 2 h.(dst_port) ++ enc Big 2 h.(length_) ++
  enc Big 2 h.(checksum).

Definition Header_ok (h : Header) : Prop :=
  0 ≤ h.(src_port) < 65536 ∧ 0 ≤ h.(dst_port) < 65536 ∧ HEADER_LEN ≤ h.(length_) < 65536 ∧
  0 ≤ h.(checksum) < 65536.

(** ** Lemmas *)

Definition Header_typed (h : Header) : Prop :=
  0 ≤ h.(src_port) < 65536 ∧ 0 ≤ h.(dst_port) < 65536.

Lemma wp_parse_udp span h pseudo e zero verify :
  bytes_ok span → 0 ≤ pseudo < 2 ^ 63 →
  wp (parse span h pseudo e zero verify) (λ '(err, (span', h')),
    match err with
    | NoError => HEADER_LEN ≤ h'.(length_) ≤ len span ∧ Header_typed h' ∧
                 span' = ztake (h'.(length_) - HEADER_LEN) (zdrop HEADER_LEN span)
    | _ => span' = span
    end).
Proof.
  intros Hok Hps. unfold parse. split_if; [by wp_steps|].
  unfold HEADER_LEN in *. do 2 wp_step.
  assert (Hb : bytes_ok (ztake 8 span)) by auto with pcap.
  assert (Hl : 0 ≤ toHost16 (length_ (Header_of (ztake 8 span))) e < 65536)
    by (apply field_word; done).
  assert (Hty : Header_typed (toHost (Header_of (ztake 8 span)) e))
    by (split; apply field_word; done).
  set (hd := Header_of _) in *. cbn zeta. split_if; [by wp_steps|].
  wp_step. eapply (wp_mono _ (λ _, True)).
  { split_if; [|by wp_steps]. apply wp_verifyChecksum; auto; lia. }
  intros ok _. split_if; [by wp_steps|]. cbn [length_ toHost].
  do 2 wp_step; [lia..|]. apply wp_ret. cbn [length_ toHost]. split; [lia|done].
Qed.

Lemma parse_encode_udp h h0 payload padding pseudo zero verify :
  Header_ok h → len payload = h.(length_) - HEADER_LEN →
  (verify = true → zero = true ∧ h.(checksum) = 0 ∨
   verifyChecksum (encode h ++ payload ++ padding) h.(length_) pseudo = Ret true) →
  parse (encode h ++ payload ++ padding) h0 pseudo Big zero verify = Ret (NoError, (payload, h)).
Proof.
  intros (Hs & Hd & Hl & Hc) Hpay Hck.
  assert (Hlen : len (encode h) = HEADER_LEN)
    by (unfold encode; rewrite !len_app, !len_enc; reflexivity).
  unfold parse. rewrite ltb_app_exact, memcpy_app_exact, bind_ret by done.
  assert (Hraw : toHost (Header_of (encode h)) Big = h).
  { unfold encode, Header_of. read_fields. unfold toHost; cbn [src_port dst_port length_ checksum].
    unfold HEADER_LEN in *. rewrite !toHost16_enc by lia. by destruct h. }
  assert (Hcz : checksum (Header_of (encode h)) = 0 ↔ h.(checksum) = 0).
  { unfold encode, Header_of. read_fields. cbn [checksum]. split; intros Hz.
    - rewrite <- (toHost16_enc Big (checksum h)) by done. by rewrite Hz.
    - by rewrite Hz. }
  change (toHost16 (length_ (Header_of (encode h))) Big)
    with (length_ (toHost (Header_of (encode h)) Big)).
  rewrite Hraw. pose proof (len_nonneg padding).
  rewrite !len_app, Hpay, Hlen, !(proj2 (Z.ltb_ge _ _)) by lia. cbn [orb].
  match goal with |- ((if ?c then ?x else _) ≫= _) = _ =>
    assert ((if c then x else Ret true) = Ret true) as -> end.
  { split_if; [|done]. apply andb_true_iff in Hc0 as [-> Hz].
    destruct (Hck eq_refl) as [[-> Hc0]|]; [|done].
    apply Hcz in Hc0. rewrite Hc0 in Hz. done. }
  rewrite bind_ret. cbn [negb]. unfold subspan_n. rewrite subspan_app_exact, bind_ret by done.
  by rewrite first_app_exact by done.
Qed.
