(* ===== verification/Dns.v ===== *)
(** DNS messages: [include/net/protocols/dns.h], [src/net/protocols/dns.cpp].

    [dns_base] is the whole message, from the pointer the code carries to the
    end of the span; the span being parsed is a suffix of it, and a pointer
    into the message is its offset from the base.  The last part states what a
    name in a message is (RFC 1035, sections 3.1 and 4.1.4) and what parsing
    one does. *)
From S2P Require Import Prelude Endian ParseError Text.
From S2P Require Ipv4 Ipv6.

Definition HEADER_LEN : Z := 12.
Definition PORT : Z := 53.
Definition QUESTION_HEADER_LEN : Z := 4.
Definition RESOURCE_HEADER_LEN : Z := 10.

Definition TYPE_A : Z := 1.
Definition TYPE_NS : Z := 2.
Definition TYPE_CNAME : Z := 5.
Definition TYPE_SOA : Z := 6.
Definition TYPE_PTR : Z := 12.
Definition TYPE_MX : Z := 15.
Definition TYPE_TXT : Z := 16.
Definition TYPE_AAAA : Z := 28.
Definition TYPE_SRV : Z := 33.

Definition MaxDnsCompressionJumps : Z := 10.
Definition DnsCompressionPointerMask : Z := 0xC0.
Definition MaxDnsNameOctets : Z := 255.

Record WireHeader := mkWireHeader {
  wire_id : Z;
  wire_flags : Z;
  wire_qdcount : Z;
  wire_ancount : Z;
  wire_nscount : Z;
  wire_arcount : Z;
}.
Definition WireHeader_of (b : bytes) : WireHeader :=
  mkWireHeader (field b 0 2) (field b 2 2) (field b 4 2) (field b 6 2) (field b 8 2) (field b 10 2).

Record WireQuestion := mkWireQuestion { wire_qtype : Z; wire_qclass : Z }.
Definition WireQuestion_of (b : bytes) : WireQuestion :=
  mkWireQuestion (field b 0 2) (field b 2 2).

Record WireResourceHeader := mkWireResourceHeader {
  wire_type : Z;
  wire_rclass : Z;
  wire_ttl : Z;
  wire_rdlength : Z;
}.
Definition WireResourceHeader_of (b : bytes) : WireResourceHeader :=
  mkWireResourceHeader (field b 0 2) (field b 2 2) (field b 4 4) (field b 8 2).

Record Question := mkQuestion { qname : bytes; qtype : Z; qclass : Z }.
Record ResourceRecord := mkResourceRecord {
  rname : bytes;
  type : Z;
  rclass : Z;
  ttl : Z;
  rdata : bytes;
}.
Definition zeroQuestion : Question := mkQuestion [] 0 0.
Definition zeroRecord : ResourceRecord := mkResourceRecord [] 0 0 0 [].

Record Header := mkHeader {
  id : Z;
  flags : Z;
  qdcount : Z;
  ancount : Z;
  nscount : Z;
  arcount : Z;
  questions : list Question;
  answers : list ResourceRecord;
  authority : list ResourceRecord;
  additional : list ResourceRecord;
}.
Definition zeroHeader : Header := mkHeader 0 0 0 0 0 0 [] [] [] [].

Definition isResponse (h : Header) : bool := negb (Z.land h.(flags) 0x8000 =? 0).
Definition opcode (h : Header) : Z := Z.shiftr (Z.land h.(flags) 0x7800) 11.
Definition isAA (h : Header) : bool := negb (Z.land h.(flags) 0x0400 =? 0).
Definition isTC (h : Header) : bool := negb (Z.land h.(flags) 0x0200 =? 0).
Definition isRD (h : Header) : bool := negb (Z.land h.(flags) 0x0100 =? 0).
Definition isRA (h : Header) : bool := negb (Z.land h.(flags) 0x0080 =? 0).
Definition rcode (h : Header) : Z := Z.land h.(flags) 0x000F.

(** ** Names *)

(** The variables of the loop of [parseName]. *)
Record NameState := mkNameState {
  name_span : bytes;
  cur : Z;
  name : bytes;
  jumps : Z;
  name_octets : Z;
  ptr_ceiling : Z;
}.

Definition parseName_body (dns_base : bytes) (st : NameState)
    : outcome (control NameState (ParseError * (bytes * bytes))) :=
  let '(mkNameState span cur name jumps name_octets ptr_ceiling) := st in
  let dns_end := len dns_base in
  let span_data := dns_end - len span in
  if cur <? dns_end then
    c ← at_ dns_base cur;
    if c =? 0 then
      span ← (if jumps =? 0 then subspan span (cur - span_data + 1) else Ret span);
      Ret (Stop (NoError, (span, name)))
    else if Z.land c DnsCompressionPointerMask =? DnsCompressionPointerMask then
      if dns_end <=? cur + 1 then Ret (Stop (UnexpectedEof, (span, name))) else
      let jumps := jumps + 1 in
      if MaxDnsCompressionJumps <? jumps then Ret (Stop (MalformedHeader, (span, name))) else
      span ← (if jumps =? 1 then subspan span (cur - span_data + 2) else Ret span);
      c' ← at_ dns_base (cur + 1);
      let target := Z.lor (Z.shiftl (Z.land c 0x3F) 8) c' in
      let limit := if jumps =? 1 then cur else ptr_ceiling in
      if limit <=? target then Ret (Stop (MalformedHeader, (span, name))) else
      Ret (Next (mkNameState span target name jumps name_octets target))
    else if negb (Z.land c DnsCompressionPointerMask =? 0)
    then Ret (Stop (MalformedHeader, (span, name)))
    else
      let cur := cur + 1 in
      if dns_end <? cur + c then Ret (Stop (UnexpectedEof, (span, name))) else
      let name_octets := name_octets + (c + 1) in
      if MaxDnsNameOctets <? name_octets then Ret (Stop (MalformedHeader, (span, name))) else
      let name := name ++ when (negb (bool_decide (name = []))) [46] in
      label ← subspan_n dns_base cur c;
      Ret (Next (mkNameState span (cur + c) (name ++ label) jumps name_octets ptr_ceiling))
  else Ret (Stop (UnexpectedEof, (span, name))).

(** Each of at most ten jumps is followed by a walk that never goes back. *)
Definition name_fuel (dns_base : bytes) : nat := (11 * S (length dns_base))%nat.

Definition parseName (span dns_base : bytes) : outcome (ParseError * (bytes * bytes)) :=
  loop (name_fuel dns_base) (parseName_body dns_base)
       (mkNameState span (len dns_base - len span) [] 0 0 (-1)).

(** ** Questions, records, messages *)

Definition parseQuestion (dns_base : bytes) (endian : Endian) (span : bytes) (q : Question)
    : outcome (ParseError * (bytes * Question)) :=
  '(err, (span, name)) ← parseName span dns_base;
  let q := mkQuestion name q.(qtype) q.(qclass) in
  if failed err then Ret (err, (span, q)) else
  if len span <? QUESTION_HEADER_LEN then Ret (UnexpectedEof, (span, q)) else
  b ← memcpy span QUESTION_HEADER_LEN;
  let wq := WireQuestion_of b in
  let q := mkQuestion name (toHost16 wq.(wire_qtype) endian) (toHost16 wq.(wire_qclass) endian) in
  span ← subspan span QUESTION_HEADER_LEN;
  Ret (NoError, (span, q)).

Definition parseResourceRecord (dns_base : bytes) (endian : Endian) (span : bytes)
    (rr : ResourceRecord) : outcome (ParseError * (bytes * ResourceRecord)) :=
  '(err, (span, name)) ← parseName span dns_base;
  let rr := mkResourceRecord name rr.(type) rr.(rclass) rr.(ttl) rr.(rdata) in
  if failed err then Ret (err, (span, rr)) else
  if len span <? RESOURCE_HEADER_LEN then Ret (UnexpectedEof, (span, rr)) else
  b ← memcpy span RESOURCE_HEADER_LEN;
  let wrr := WireResourceHeader_of b in
  let rr := mkResourceRecord name (toHost16 wrr.(wire_type) endian)
              (toHost16 wrr.(wire_rclass) endian) (toHost32 wrr.(wire_ttl) endian) rr.(rdata) in
  let rdlength := toHost16 wrr.(wire_rdlength) endian in
  span ← subspan span RESOURCE_HEADER_LEN;
  if len span <? rdlength then Ret (UnexpectedEof, (span, rr)) else
  d ← first rdlength span;
  let rr := mkResourceRecord name rr.(type) rr.(rclass) rr.(ttl) d in
  span ← subspan span rdlength;
  Ret (NoError, (span, rr)).

(** A [for] over the elements of a vector, each parsed in place; the rest keep
    what they had when one fails. *)
Fixpoint parseEach {A} (parse1 : bytes → A → outcome (ParseError * (bytes * A)))
    (span : bytes) (l : list A) : outcome (ParseError * (bytes * list A)) :=
  match l with
  | [] => Ret (NoError, (span, []))
  | x :: l =>
      '(err, (span, x)) ← parse1 span x;
      if failed err then Ret (err, (span, x :: l)) else
      '(err, (span, l)) ← parseEach parse1 span l;
      Ret (err, (span, x :: l))
  end.

Definition set_questions (h : Header) (l : list Question) : Header :=
  mkHeader h.(id) h.(flags) h.(qdcount) h.(ancount) h.(nscount) h.(arcount)
           l h.(answers) h.(authority) h.(additional).
Definition set_answers (h : Header) (l : list ResourceRecord) : Header :=
  mkHeader h.(id) h.(flags) h.(qdcount) h.(ancount) h.(nscount) h.(arcount)
           h.(questions) l h.(authority) h.(additional).
Definition set_authority (h : Header) (l : list ResourceRecord) : Header :=
  mkHeader h.(id) h.(flags) h.(qdcount) h.(ancount) h.(nscount) h.(arcount)
           h.(questions) h.(answers) l h.(additional).
Definition set_additional (h : Header) (l : list ResourceRecord) : Header :=
  mkHeader h.(id) h.(flags) h.(qdcount) h.(ancount) h.(nscount) h.(arcount)
           h.(questions) h.(answers) h.(authority) l.

Definition min_bytes (h : Header) : Z :=
  h.(qdcount) * (1 + QUESTION_HEADER_LEN) +
  (h.(ancount) + h.(nscount) + h.(arcount)) * (1 + RESOURCE_HEADER_LEN).

Definition parse (span : bytes) (header : Header) (endian : Endian)
    : outcome (ParseError * (bytes * Header)) :=
  if len span <? HEADER_LEN then Ret (UnexpectedEof, (span, header)) else
  b ← memcpy span HEADER_LEN;
  let wire := WireHeader_of b in
  let header := mkHeader (toHost16 wire.(wire_id) endian) (toHost16 wire.(wire_flags) endian)
                  (toHost16 wire.(wire_qdcount) endian) (toHost16 wire.(wire_ancount) endian)
                  (toHost16 wire.(wire_nscount) endian) (toHost16 wire.(wire_arcount) endian)
                  header.(questions) header.(answers) header.(authority) header.(additional) in
  let dns_base := span in
  span ← subspan span HEADER_LEN;
  if len span <? min_bytes header then Ret (UnexpectedEof, (span, header)) else
  '(err, (span, qs)) ← parseEach (parseQuestion dns_base endian) span
    (resize (Z.to_nat header.(qdcount)) zeroQuestion header.(questions));
  let header := set_questions header qs in
  if failed err then Ret (err, (span, header)) else
  '(err, (span, rrs)) ← parseEach (parseResourceRecord dns_base endian) span
    (resize (Z.to_nat header.(ancount)) zeroRecord header.(answers));
  let header := set_answers header rrs in
  if failed err then Ret (err, (span, header)) else
  '(err, (span, rrs)) ← parseEach (parseResourceRecord dns_base endian) span
    (resize (Z.to_nat header.(nscount)) zeroRecord header.(authority));
  let header := set_authority header rrs in
  if failed err then Ret (err, (span, header)) else
  '(err, (span, rrs)) ← parseEach (parseResourceRecord dns_base endian) span
    (resize (Z.to_nat header.(arcount)) zeroRecord header.(additional));
  let header := set_additional header rrs in
  Ret (err, (span, header)).

(** ** Printing *)

Definition typeName (type : Z) : bytes :=
  if type =? TYPE_A then chars "A"
  else if type =? TYPE_NS then chars "NS"
  else if type =? TYPE_CNAME then chars "CNAME"
  else if type =? TYPE_SOA then chars "SOA"
  else if type =? TYPE_PTR then chars "PTR"
  else if type =? TYPE_MX then chars "MX"
  else if type =? TYPE_TXT then chars "TXT"
  else if type =? TYPE_AAAA then chars "AAAA"
  else if type =? TYPE_SRV then chars "SRV"
  else chars "?".

Definition hexBytes (l : bytes) : bytes := l ≫= λ b, setw 2 (hex b).

(** The data of a record; a TXT record's first string is quoted, in the text
    form only. *)
Definition printRdata (txt : bool) (rr : ResourceRecord) : outcome bytes :=
  if (rr.(type) =? TYPE_A) && (len rr.(rdata) =? 4) then Ipv4.printIp rr.(rdata)
  else if (rr.(type) =? TYPE_AAAA) && (len rr.(rdata) =? 16) then Ipv6.printIp rr.(rdata)
  else if txt && (rr.(type) =? TYPE_TXT) && negb (bool_decide (rr.(rdata) = [])) then
    l ← at_ rr.(rdata) 0;
    s ← subspan_n rr.(rdata) 1 (Z.min l (len rr.(rdata) - 1));
    Ret ([quote] ++ s ++ [quote])
  else Ret (hexBytes rr.(rdata)).

Definition printAnswer (rr : ResourceRecord) : outcome bytes :=
  d ← printRdata true rr;
  Ret (chars "  " ++ typeName rr.(type) ++ chars " " ++ rr.(rname) ++ chars " ttl=" ++
       dec rr.(ttl) ++ chars " " ++ d ++ [newline]).

Fixpoint printEach {A} (print : A → outcome bytes) (l : list A) : outcome bytes :=
  match l with
  | [] => Ret []
  | x :: l => s ← print x; rest ← printEach print l; Ret (s ++ rest)
  end.

Definition toString (h : Header) : outcome bytes :=
  body ← printEach printAnswer h.(answers);
  Ret (chars "DNSHeader {" ++ [newline] ++
       chars "  id: " ++ dec h.(id) ++ [newline] ++
       chars "  flags: " ++ (if isResponse h then chars "response" else chars "query") ++
       when (isAA h) (chars " AA") ++ when (isTC h) (chars " TC") ++
       when (isRD h) (chars " RD") ++ when (isRA h) (chars " RA") ++
       chars "  rcode=" ++ dec (rcode h) ++ [newline] ++
       (h.(questions) ≫= λ q,
          chars "  ? " ++ q.(qname) ++ chars " " ++ typeName q.(qtype) ++ [newline]) ++
       body ++ chars "}").

(** The elements of a JSON array, each behind a comma but the first. *)
Fixpoint separated (l : list bytes) (first : bool) : bytes :=
  match l with
  | [] => []
  | s :: l => when (negb first) (chars "," ++ [newline]) ++ s ++ separated l false
  end.

Definition jsonQuestion (q : Question) : bytes :=
  chars "    {" ++ [newline] ++
  jstr "      `name`: `" ++ q.(qname) ++ jstr "`," ++ [newline] ++
  jstr "      `type`: `" ++ typeName q.(qtype) ++ jstr "`" ++ [newline] ++
  chars "    }".

Definition jsonAnswer (rr : ResourceRecord) : outcome bytes :=
  d ← printRdata false rr;
  Ret (chars "    {" ++ [newline] ++
       jstr "      `type`: `" ++ typeName rr.(type) ++ jstr "`," ++ [newline] ++
       jstr "      `name`: `" ++ rr.(rname) ++ jstr "`," ++ [newline] ++
       jstr "      `ttl`: " ++ dec rr.(ttl) ++ chars "," ++ [newline] ++
       jstr "      `rdata`: `" ++ d ++
       jstr "`" ++ [newline] ++ chars "    }").

Fixpoint mapEach {A B} (f : A → outcome B) (l : list A) : outcome (list B) :=
  match l with
  | [] => Ret []
  | x :: l => y ← f x; r ← mapEach f l; Ret (y :: r)
  end.

Definition toJson (h : Header) : outcome bytes :=
  rrs ← mapEach jsonAnswer h.(answers);
  Ret (jstr "`dns`: {" ++ [newline] ++
       jstr "  `id`: " ++ dec h.(id) ++ chars "," ++ [newline] ++
       jstr "  `flags`: [" ++
       [quote] ++ (if isResponse h then chars "response" else chars "query") ++ [quote] ++
       when (isAA h) (jstr ", `AA`") ++ when (isTC h) (jstr ", `TC`") ++
       when (isRD h) (jstr ", `RD`") ++ when (isRA h) (jstr ", `RA`") ++
       chars "]," ++ [newline] ++
       jstr "  `rcode`: " ++ dec (rcode h) ++ chars "," ++ [newline] ++
       (if bool_decide (h.(questions) = []) then jstr "  `questions`: []," ++ [newline]
        else jstr "  `questions`: [" ++ [newline] ++
             separated (jsonQuestion <$> h.(questions)) true ++
             [newline] ++ chars "  ]," ++ [newline]) ++
       (if bool_decide (h.(answers) = []) then jstr "  `answers`: []" ++ [newline]
        else jstr "  `answers`: [" ++ [newline] ++ separated rrs true ++
             [newline] ++ chars "  ]" ++ [newline]) ++
       chars "}").

(** ** What a name is

    [name_at msg j c p ls stop]: reading at offset [p] of the message, with [j]
    jumps left and only pointers below [c] allowed ([None] before the first
    pointer, which may point anywhere before itself), the labels [ls] are found
    and the part of the message that holds the name ends at [stop]. *)

Inductive name_at (msg : bytes) : Z → option Z → Z → list bytes → Z → Prop :=
| name_root j c p :
    msg !! Z.to_nat p = Some 0 →
    name_at msg j c p [] (p + 1)
| name_label j c p l ls stop :
    msg !! Z.to_nat p = Some (len l) → 0 < len l < 64 →
    ztake (len l) (zdrop (p + 1) msg) = l →
    name_at msg j c (p + 1 + len l) ls stop →
    name_at msg j c p (l :: ls) stop
| name_pointer j c p hi lo ls stop :
    msg !! Z.to_nat p = Some (192 + hi) → 0 ≤ hi < 64 →
    msg !! Z.to_nat (p + 1) = Some lo →
    0 < j → hi * 256 + lo < default p c →
    name_at msg (j - 1) (Some (hi * 256 + lo)) (hi * 256 + lo) ls stop →
    name_at msg j c p ls (p + 2).

(** The octets of a name's labels, each with its length octet, without the octet of
    the root: what [name_octets] counts.  On the wire the name has one more. *)
Fixpoint octets (ls : list bytes) : Z :=
  match ls with [] => 0 | l :: ls => len l + 1 + octets ls end.

(** The text of a name: its labels with dots between them. *)
Definition dotted (ls : list bytes) : bytes :=
  match ls with [] => [] | l :: ls => l ++ (ls ≫= λ l, 46 :: l) end.

(** The labels [ls] added to what has been read of a name. *)
Definition extend (name : bytes) (ls : list bytes) : bytes :=
  foldl (λ name l, name ++ when (negb (bool_decide (name = []))) [46] ++ l) name ls.

Lemma extend_nonempty name ls : name ≠ [] → extend name ls = name ++ (ls ≫= λ l, 46 :: l).
Proof.
  unfold extend. revert name. induction ls as [|l ls IH]; intros name Hn; cbn; [by rewrite app_nil_r|].
  rewrite bool_decide_eq_false_2 by done. cbn [negb when]. rewrite IH by (by destruct name).
  by rewrite <- !app_assoc.
Qed.
Lemma extend_dotted ls : Forall (λ l, 0 < len l) ls → extend [] ls = dotted ls.
Proof.
  destruct ls as [|l ls]; [done|]. intros [Hl _]%Forall_cons_iff. cbn [dotted].
  change (extend [] (l :: ls)) with (extend l ls). apply extend_nonempty. by intros ->.
Qed.

(** ** Lemmas: names *)

Lemma pointer_bits c : is_byte c → (Z.land c 0xC0 =? 0xC0) = (192 <=? c) ∧ (Z.land c 0xC0 =? 0) = (c <? 64).
Proof.
  intros Hc. unfold is_byte in Hc.
  assert (E : Z.land c 0xC0 = 64 * (c / 64)).
  { change 0xC0 with (Z.shiftl (Z.ones 2) 6). rewrite land_ones_shift by lia.
    rewrite Z.shiftl_mul_pow2 by lia. change (2 ^ 6) with 64. change (2 ^ 2) with 4.
    rewrite (Z.mod_small (c / 64)) by (Z.div_mod_to_equations; lia). lia. }
  rewrite E. split; apply eq_true_iff_eq; rewrite !Z.eqb_eq, ?Z.leb_le, ?Z.ltb_lt;
    Z.div_mod_to_equations; lia.
Qed.

Lemma target_eq c c' :
  192 ≤ c < 256 → is_byte c' → Z.lor (Z.shiftl (Z.land c 0x3F) 8) c' = (c - 192) * 256 + c'.
Proof.
  intros Hc Hc'. change 0x3F with (Z.ones 6). rewrite Z.land_ones by lia. rewrite Z.lor_comm.
  rewrite (lor_disjoint c' _ 8) by (unfold is_byte in *; lia).
  change (2 ^ 6) with 64. change (2 ^ 8) with 256.
  assert (c mod 64 = c - 192) as -> by (Z.div_mod_to_equations; lia). lia.
Qed.

(** The loop's state between two rounds. *)
Record name_inv (msg span0 : bytes) (st : NameState) : Prop := {
  ni_cur : 0 ≤ st.(cur);
  ni_jumps : 0 ≤ st.(jumps) ≤ 10;
  ni_octets : 0 ≤ st.(name_octets) ≤ 255;
  ni_name : len st.(name) ≤ Z.max 0 (st.(name_octets) - 1);
  ni_span : st.(jumps) = 0 → st.(name_span) = span0 ∧ len msg - len span0 ≤ st.(cur);
  ni_part : ∃ k, 0 ≤ k ∧ st.(name_span) = zdrop k span0;
}.

Definition name_measure (msg : bytes) (st : NameState) : Z :=
  (10 - st.(jumps)) * (len msg + 1) + Z.max 0 (len msg - st.(cur)).

(** A round that goes on read a label or followed a pointer. *)
Definition ceiling (st : NameState) : option Z :=
  if st.(jumps) =? 0 then None else Some st.(ptr_ceiling).
Definition jump_span (msg span0 : bytes) (st : NameState) (stop : Z) : bytes :=
  if st.(jumps) =? 0 then zdrop stop msg else st.(name_span).

Inductive round_next (msg span0 : bytes) (st st' : NameState) : Prop :=
| round_label l :
    msg !! Z.to_nat st.(cur) = Some (len l) → 0 < len l < 64 →
    ztake (len l) (zdrop (st.(cur) + 1) msg) = l →
    st.(name_octets) + (len l + 1) ≤ 255 →
    st' = mkNameState st.(name_span) (st.(cur) + 1 + len l)
            (st.(name) ++ when (negb (bool_decide (st.(name) = []))) [46] ++ l) st.(jumps)
            (st.(name_octets) + (len l + 1)) st.(ptr_ceiling) →
    round_next msg span0 st st'
| round_pointer hi lo :
    msg !! Z.to_nat st.(cur) = Some (192 + hi) → 0 ≤ hi < 64 →
    msg !! Z.to_nat (st.(cur) + 1) = Some lo →
    st.(jumps) < 10 → hi * 256 + lo < default st.(cur) (ceiling st) →
    st' = mkNameState (jump_span msg span0 st (st.(cur) + 2)) (hi * 256 + lo) st.(name)
            (st.(jumps) + 1) st.(name_octets) (hi * 256 + lo) →
    round_next msg span0 st st'.

Section name_loop.
Context (msg span0 : bytes) (Hmsg : bytes_ok msg) (Hspan : ∃ k, 0 ≤ k ≤ len msg ∧ span0 = zdrop k msg).

Lemma span0_start : zdrop (len msg - len span0) msg = span0 ∧ 0 ≤ len msg - len span0.
Proof.
  destruct Hspan as (k & Hk & ->). rewrite len_zdrop by done.
  split; [f_equal|]; lia.
Qed.

Lemma lookup_lt_len i x : 0 ≤ i → msg !! Z.to_nat i = Some x → i < len msg ∧ at_ msg i = Ret x.
Proof.
  intros Hi Hx. split; [apply lookup_lt_Some in Hx; unfold len; lia|].
  unfold at_. rewrite (proj2 (Z.leb_le _ _)) by lia. by rewrite Hx.
Qed.

Lemma jump_span_eq st n :
  name_inv msg span0 st → 0 ≤ n → st.(cur) + n ≤ len msg →
  (if st.(jumps) =? 0
   then subspan st.(name_span) (st.(cur) - (len msg - len st.(name_span)) + n)
   else Ret st.(name_span)) = Ret (jump_span msg span0 st (st.(cur) + n)).
Proof.
  intros Hi Hn Hle. unfold jump_span. destruct (Z.eqb_spec st.(jumps) 0) as [Hj|]; [|done].
  destruct (ni_span _ _ _ Hi Hj) as [-> Hc]. destruct span0_start as [Hs H0].
  pose proof (len_nonneg span0). unfold subspan.
  rewrite (proj2 (Z.leb_le _ _)), (proj2 (Z.leb_le _ _)) by lia. cbn [andb]. f_equal.
  transitivity (zdrop (st.(cur) - (len msg - len span0) + n) (zdrop (len msg - len span0) msg));
    [by rewrite Hs|]. rewrite zdrop_zdrop by lia. f_equal. lia.
Qed.

Lemma jump_span_part st n :
  name_inv msg span0 st → 0 ≤ n → ∃ k, 0 ≤ k ∧ jump_span msg span0 st (st.(cur) + n) = zdrop k span0.
Proof.
  intros Hi Hn. unfold jump_span. destruct (Z.eqb_spec st.(jumps) 0) as [Hj|]; [|by apply (ni_part _ _ _ Hi)].
  destruct (ni_span _ _ _ Hi Hj) as [_ Hc]. destruct span0_start as [Hs H0].
  exists (st.(cur) + n - (len msg - len span0)). split; [lia|].
  symmetry. etransitivity; [rewrite <- Hs at 2; reflexivity|].
  rewrite zdrop_zdrop by lia. f_equal. lia.
Qed.

Lemma body_root st :
  name_inv msg span0 st → msg !! Z.to_nat st.(cur) = Some 0 →
  parseName_body msg st = Ret (Stop (NoError, (jump_span msg span0 st (st.(cur) + 1), st.(name)))).
Proof.
  intros Hi Hc. pose proof (jump_span_eq st 1 Hi) as Hjs. pose proof (ni_cur _ _ _ Hi) as H0.
  destruct (lookup_lt_len _ _ H0 Hc) as [Hlt Hat].
  destruct st as [sp cu nm ju oc ce]; cbn [cur jumps name_span name] in *.
  unfold parseName_body. rewrite (proj2 (Z.ltb_lt _ _)), Hat, bind_ret by lia. cbn [Z.eqb].
  by rewrite Hjs by lia.
Qed.

Lemma body_next st st' :
  name_inv msg span0 st → round_next msg span0 st st' → parseName_body msg st = Ret (Next st').
Proof.
  intros Hi Hr. pose proof (jump_span_eq st 2 Hi) as Hjs. pose proof (ni_cur _ _ _ Hi) as H0.
  pose proof (ni_jumps _ _ _ Hi) as Hju.
  destruct st as [sp cu nm ju oc ce]; cbn [cur jumps name_span name name_octets] in *.
  destruct Hr as [l Hl Hlen Htk Hoc ->|hi lo Hhi Hhr Hlo Hj Hlt ->];
    cbn [cur jumps name_span name name_octets ptr_ceiling] in *; unfold parseName_body.
  - destruct (lookup_lt_len _ _ H0 Hl) as [Hcu ->]. rewrite (proj2 (Z.ltb_lt _ _)), bind_ret by lia.
    destruct (pointer_bits (len l)) as [Hp1 Hp2]; [unfold is_byte; lia|].
    change DnsCompressionPointerMask with 0xC0. rewrite Hp1, Hp2.
    rewrite (proj2 (Z.eqb_neq _ _)), (proj2 (Z.leb_gt _ _)), (proj2 (Z.ltb_lt (len l) 64)) by lia.
    cbn [negb]. assert (Hin : cu + 1 + len l ≤ len msg).
    { pose proof (len_ztake_le (len l) (zdrop (cu + 1) msg)) as Hle. rewrite Htk, len_zdrop in Hle; lia. }
    unfold MaxDnsNameOctets.
    rewrite (proj2 (Z.ltb_ge _ _)), (proj2 (Z.ltb_ge _ _)) by lia. unfold subspan_n, subspan, first.
    rewrite !(proj2 (Z.leb_le _ _)) by lia. cbn [andb]. rewrite bind_ret.
    rewrite len_zdrop, !(proj2 (Z.leb_le _ _)) by lia. cbn [andb]. rewrite bind_ret, Htk.
    do 3 f_equal. by rewrite <- app_assoc.
  - destruct (lookup_lt_len _ _ H0 Hhi) as [Hcu ->]. rewrite (proj2 (Z.ltb_lt _ _)), bind_ret by lia.
    destruct (lookup_lt_len (cu + 1) _ ltac:(lia) Hlo) as [Hcu1 Hat].
    destruct (pointer_bits (192 + hi)) as [Hp1 _]; [unfold is_byte; lia|].
    change DnsCompressionPointerMask with 0xC0. rewrite Hp1.
    rewrite (proj2 (Z.eqb_neq _ _)), (proj2 (Z.leb_le _ _)), (proj2 (Z.leb_gt _ _)) by lia.
    unfold MaxDnsCompressionJumps. rewrite (proj2 (Z.ltb_ge _ _)) by lia.
    replace (ju + 1 =? 1) with (ju =? 0) by lia.
    rewrite Hjs, bind_ret, Hat, bind_ret by lia.
    rewrite target_eq by (try lia; by apply (bytes_ok_lookup msg (Z.to_nat (cu + 1)))).
    replace (192 + hi - 192) with hi by lia. unfold ceiling in Hlt; cbn [jumps ptr_ceiling] in Hlt.
    rewrite (proj2 (Z.leb_gt _ _)); [done|]. destruct (ju =? 0); cbn in Hlt; lia.
Qed.

(** A round that is none of these stops with an error, and nothing was read
    outside the message. *)
Lemma body_cases st :
  name_inv msg span0 st →
  msg !! Z.to_nat st.(cur) = Some 0 ∨ (∃ st', round_next msg span0 st st') ∨
  ∃ err span', parseName_body msg st = Ret (Stop (err, (span', st.(name)))) ∧ err ≠ NoError ∧
    ∃ k, 0 ≤ k ∧ span' = zdrop k span0.
Proof.
  intros Hi. destruct (decide (msg !! Z.to_nat st.(cur) = Some 0)) as [|Hroot]; [by left|right]. pose proof (jump_span_eq st 2 Hi) as Hjs. pose proof (ni_cur _ _ _ Hi) as H0.
  pose proof (ni_jumps _ _ _ Hi) as Hju. pose proof (ni_part _ _ _ Hi) as Hpart.
  destruct st as [sp cu nm ju oc ce]; cbn [cur jumps name_span name name_octets] in *.
  unfold parseName_body. split_if; [|right; by eexists _, _].
  apply Z.ltb_lt in Hc. destruct (msg !! Z.to_nat cu) as [c|] eqn:Ec.
  2: { apply lookup_ge_None in Ec. unfold len in Hc. lia. }
  destruct (lookup_lt_len _ _ H0 Ec) as [_ ->]. rewrite bind_ret.
  pose proof (bytes_ok_lookup _ _ _ Hmsg Ec) as Hcb. destruct (pointer_bits c Hcb) as [Hp1 Hp2].
  rewrite (proj2 (Z.eqb_neq _ _)) by congruence.
  change DnsCompressionPointerMask with 0xC0. rewrite Hp1, Hp2. unfold is_byte in Hcb.
  destruct (Z.leb_spec 192 c) as [Hge|Hlt].
  - split_if; [right; by eexists _, _|]. apply Z.leb_gt in Hc0.
    unfold MaxDnsCompressionJumps. split_if; [right; by eexists _, _|]. apply Z.ltb_ge in Hc1.
    replace (ju + 1 =? 1) with (ju =? 0) by lia. rewrite Hjs, bind_ret by lia.
    destruct (msg !! Z.to_nat (cu + 1)) as [c'|] eqn:Ec'.
    2: { apply lookup_ge_None in Ec'. unfold len in Hc0. lia. }
    destruct (lookup_lt_len (cu + 1) c' ltac:(lia) Ec') as [_ ->]. rewrite bind_ret.
    rewrite target_eq by (try lia; by apply (bytes_ok_lookup msg (Z.to_nat (cu + 1)))).
    split_if; [right; eexists _, _; split; [done|]; split; [done|]; by apply (jump_span_part _ 2 Hi)|].
    apply Z.leb_gt in Hc2. left. eexists. eapply (round_pointer _ _ _ _ (c - 192) c');
      cbn [cur jumps ceiling ptr_ceiling]; [rewrite Ec; f_equal; lia|lia|done|lia| |reflexivity].
    unfold ceiling; cbn [jumps ptr_ceiling]. destruct (ju =? 0); cbn; lia.
  - destruct (Z.ltb_spec c 64); cbn [negb]; [|right; by eexists _, _].
    split_if; [right; by eexists _, _|]. apply Z.ltb_ge in Hc0.
    unfold MaxDnsNameOctets. split_if; [right; by eexists _, _|]. apply Z.ltb_ge in Hc1.
    assert (Hl : len (ztake c (zdrop (cu + 1) msg)) = c) by (apply len_ztake; rewrite len_zdrop; lia).
    assert (c ≠ 0) by congruence.
    left. eexists. eapply (round_label _ _ _ _ (ztake c (zdrop (cu + 1) msg)));
      cbn [cur name_octets]; rewrite ?Hl; [done|lia|done|lia|reflexivity].
Qed.

Lemma next_inv st st' :
  name_inv msg span0 st → round_next msg span0 st st' →
  name_inv msg span0 st' ∧ 0 ≤ name_measure msg st' < name_measure msg st.
Proof.
  intros Hi Hr. pose proof (jump_span_part st 2 Hi) as Hpart.
  destruct Hi as [Hc [Hj0 Hj] Ho Hn Hs Hp]. pose proof (len_nonneg msg).
  destruct Hr as [l Hl Hlen Htk Hoc ->|hi lo Hhi Hhr Hlo Hjj Hlt ->]; unfold name_measure;
    cbn [cur jumps name_span name name_octets].
  - apply lookup_lt_len in Hl as [Hlt _]; [|done]. split; [|nia]. split; cbn [cur jumps name_span name name_octets]; try done; try lia.
    + rewrite !len_app. case_bool_decide as E; cbn [negb when]; [rewrite E, !(@len_nil Z) in *; lia|].
      rewrite len_cons, (@len_nil Z).
      assert (0 < len (name st)) by (destruct (name st); [done|rewrite len_cons; pose proof (len_nonneg l0); lia]). lia.
    + intros Hz. destruct (Hs Hz). split; [done|lia].
  - pose proof (lookup_lt_len _ _ Hc Hhi) as [Hlt' _].
    pose proof (bytes_ok_lookup _ _ _ Hmsg Hlo) as Hlob. unfold is_byte in Hlob.
    split; [|nia]. split; cbn [cur jumps name_span name name_octets]; try done; try lia.
    apply Hpart. lia.
Qed.

Lemma initial_inv : name_inv msg span0 (mkNameState span0 (len msg - len span0) [] 0 0 (-1)).
Proof.
  destruct span0_start. split; cbn; try done; try lia. exists 0. by rewrite zdrop_0.
Qed.

(** Parsing a name always ends, inside the message. *)
Lemma wp_parseName :
  wp (parseName span0 msg) (λ '(err, (span', name)),
    len name ≤ 254 ∧ ∃ k, 0 ≤ k ∧ span' = zdrop k span0).
Proof.
  unfold parseName. eapply (wp_loop (name_inv msg span0) _ (name_measure msg)).
  - intros st Hi. pose proof (ni_name _ _ _ Hi). pose proof (ni_octets _ _ _ Hi).
    destruct (body_cases st Hi) as [Hroot|[[st' Hr]|(err & span' & -> & _ & Hk)]].
    + rewrite body_root by done. cbn. split; [lia|]. by apply jump_span_part.
    + rewrite (body_next st st') by done. cbn. by apply next_inv.
    + cbn. split; [lia|done].
  - apply initial_inv.
  - unfold name_measure, name_fuel; cbn [jumps cur]. destruct span0_start. pose proof (len_nonneg msg).
    pose proof (len_nonneg span0). unfold len in *. lia.
Qed.

(** The loop against the specification, both ways. *)
Lemma name_loop_sound fuel st span' name' :
  name_inv msg span0 st → loop fuel (parseName_body msg) st = Ret (NoError, (span', name')) →
  ∃ ls stop, name_at msg (10 - st.(jumps)) (ceiling st) st.(cur) ls stop ∧
    st.(name_octets) + octets ls ≤ 255 ∧ Forall (λ l, 0 < len l) ls ∧
    span' = jump_span msg span0 st stop ∧ name' = extend st.(name) ls.
Proof.
  revert st. induction fuel as [|fuel IH]; intros st Hi Hl; [done|]. cbn [loop] in Hl.
  pose proof (ni_octets _ _ _ Hi).
  destruct (body_cases st Hi) as [Hroot|[[st' Hr]|(err & sp & E & Hne & _)]].
  - rewrite body_root, bind_ret in Hl by done. injection Hl as <- <-.
    exists [], (st.(cur) + 1). split; [by constructor|]. cbn [octets]. split; [lia|done].
  - rewrite (body_next st st'), bind_ret in Hl by done.
    destruct (IH st') as (ls & stop & Hat & Ho & Hls & -> & ->); [by apply (next_inv st)|done|].
    destruct Hr as [l Hlk Hlen Htk Hoc ->|hi lo Hhi Hhr Hlo Hj Hlt ->];
      cbn [jumps cur name_octets name] in *.
    + exists (l :: ls), stop. split; [by eapply name_label|]. cbn [octets].
      split; [lia|]. split; [constructor; [lia|done]|]. done.
    + exists ls, (st.(cur) + 2). split; [|split; [done|]].
      * eapply name_pointer; [done|done|done|lia|done|].
        revert Hat. unfold ceiling; cbn [jumps ptr_ceiling].
        pose proof (ni_jumps _ _ _ Hi). rewrite (proj2 (Z.eqb_neq (st.(jumps) + 1) 0)) by lia.
        by replace (10 - (jumps st + 1)) with (10 - jumps st - 1) by lia.
      * split; [done|]. unfold jump_span at 1; cbn [jumps name_span].
        pose proof (ni_jumps _ _ _ Hi). by rewrite (proj2 (Z.eqb_neq (st.(jumps) + 1) 0)) by lia.
  - rewrite E, bind_ret in Hl. by injection Hl.
Qed.

Lemma name_loop_complete j c p ls stop :
  name_at msg j c p ls stop → ∀ st,
  name_inv msg span0 st → j = 10 - st.(jumps) → c = ceiling st → p = st.(cur) →
  st.(name_octets) + octets ls ≤ 255 →
  ∃ fuel, loop fuel (parseName_body msg) st =
    Ret (NoError, (jump_span msg span0 st stop, extend st.(name) ls)).
Proof.
  induction 1 as [j c p Hroot|j c p l ls stop Hl Hlen Htk Hat IH|j c p hi lo ls stop Hhi Hhr Hlo Hj Hlt Hat IH];
    intros st Hi -> -> -> Ho; pose proof (ni_jumps _ _ _ Hi) as Hju.
  - exists 1%nat. cbn [loop]. by rewrite body_root by done.
  - cbn [octets] in Ho. assert (0 ≤ octets ls) by (clear; induction ls as [|l ls]; cbn; [lia|pose proof (len_nonneg l); lia]).
    assert (Hr : round_next msg span0 st _) by (eapply round_label; [exact Hl|done|done|lia|reflexivity]).
    edestruct IH as [fuel Hf]; [by apply (next_inv _ _ Hi Hr)|reflexivity|reflexivity|reflexivity|cbn [name_octets]; lia|].
    exists (S fuel). cbn [loop]. rewrite (body_next _ _ Hi Hr), bind_ret. exact Hf.
  - assert (Hr : round_next msg span0 st _) by (eapply round_pointer; [exact Hhi|done|exact Hlo|lia|exact Hlt|reflexivity]).
    assert (Hc : (st.(jumps) + 1 =? 0) = false) by lia.
    edestruct IH as [fuel Hf]; [by apply (next_inv _ _ Hi Hr)|cbn [jumps]; lia| |reflexivity|cbn [name_octets]; lia|].
    { unfold ceiling; cbn [jumps ptr_ceiling]. by rewrite Hc. }
    exists (S fuel). cbn [loop]. rewrite (body_next _ _ Hi Hr), bind_ret, Hf.
    unfold jump_span at 1; cbn [jumps name_span name]. by rewrite Hc.
Qed.
End name_loop.

(** ** Lemmas: messages *)

(** A suffix of the message: what the span being parsed always is. *)
Definition suffix_of (msg span : bytes) : Prop := ∃ k, 0 ≤ k ≤ len msg ∧ span = zdrop k msg.

Lemma suffix_zdrop msg span k : suffix_of msg span → 0 ≤ k → suffix_of msg (zdrop k span).
Proof.
  intros (i & Hi & ->) Hk. rewrite zdrop_zdrop by lia. destruct (Z.le_gt_cases (i + k) (len msg)).
  - by exists (i + k); split; [lia|].
  - exists (len msg). split; [lia|]. by rewrite !zdrop_ge by lia.
Qed.
Lemma suffix_refl msg : suffix_of msg msg.
Proof. exists 0. pose proof (len_nonneg msg). by split; [lia|]. Qed.
Lemma suffix_slice msg span : suffix_of msg span → slice span msg.
Proof. intros (k & _ & ->). apply slice_zdrop. Qed.

Definition question_ok (q : Question) : Prop := len q.(qname) ≤ 254.
Definition record_ok (msg : bytes) (rr : ResourceRecord) : Prop :=
  len rr.(rname) ≤ 254 ∧ slice rr.(rdata) msg ∧ len rr.(rdata) < 65536.

Lemma wp_parseQuestion msg e span q :
  bytes_ok msg → suffix_of msg span →
  wp (parseQuestion msg e span q) (λ '(err, (span', q')),
    suffix_of msg span' ∧ (err = NoError → question_ok q')).
Proof.
  intros Hm Hs. unfold parseQuestion. apply wp_bind.
  eapply wp_mono; [by apply wp_parseName|]. intros [err [sp nm]] [Hn (k & Hk & ->)].
  pose proof (suffix_zdrop _ _ k Hs Hk).
  split_if; [apply wp_ret; split; [done|by intros ->]|]. unfold QUESTION_HEADER_LEN.
  split_if; [by apply wp_ret|]. wp_step. wp_step. wp_step. wp_step. apply wp_ret.
  split; [by apply suffix_zdrop|done].
Qed.

Lemma wp_parseResourceRecord msg e span rr :
  bytes_ok msg → suffix_of msg span →
  wp (parseResourceRecord msg e span rr) (λ '(err, (span', rr')),
    suffix_of msg span' ∧ (err = NoError → record_ok msg rr')).
Proof.
  intros Hm Hs. unfold parseResourceRecord. apply wp_bind.
  eapply wp_mono; [by apply wp_parseName|]. intros [err [sp nm]] [Hn (k & Hk & ->)].
  pose proof (suffix_zdrop _ _ k Hs Hk) as Hs1.
  assert (bytes_ok (zdrop k span)) by (eapply slice_bytes_ok, Hm; by apply suffix_slice).
  split_if; [apply wp_ret; split; [done|by intros ->]|]. unfold RESOURCE_HEADER_LEN.
  split_if; [by apply wp_ret|]. do 4 wp_step. cbn zeta.
  pose proof (suffix_zdrop _ _ 10 Hs1 ltac:(lia)) as Hs2.
  assert (Hr : 0 ≤ toHost16 (wire_rdlength (WireResourceHeader_of (ztake 10 (zdrop k span)))) e < 65536)
    by (apply field_word; auto with pcap).
  set (rd := toHost16 _ e) in *. split_if; [by apply wp_ret|].
  wp_step. wp_step. do 2 wp_step. apply wp_ret. split; [by apply suffix_zdrop; [|lia]|].
  intros _. split; [done|]. split; cbn [rdata].
  - eapply slice_trans; [apply slice_ztake|by apply suffix_slice].
  - rewrite len_ztake; lia.
Qed.

Lemma wp_parseEach {A} (msg : bytes) (parse1 : bytes → A → outcome (ParseError * (bytes * A)))
    (P : A → Prop) span l :
  (∀ span x, suffix_of msg span → wp (parse1 span x) (λ '(err, (span', x')),
     suffix_of msg span' ∧ (err = NoError → P x'))) →
  suffix_of msg span →
  wp (parseEach parse1 span l) (λ '(err, (span', l')),
    suffix_of msg span' ∧ len l' = len l ∧ (err = NoError → Forall P l')).
Proof.
  intros H1. revert span. induction l as [|x l IH]; intros span Hs; cbn [parseEach].
  - apply wp_ret. split_and!; [done|done|by constructor].
  - apply wp_bind. eapply wp_mono; [by apply H1|]. intros [err [sp x']] [Hs' Hx].
    split_if; [apply wp_ret; rewrite !len_cons; split_and!; [done|done|by intros ->]|].
    apply failed_false in Hc as ->. apply wp_bind. eapply wp_mono; [by apply IH|].
    intros [err [sp' l']] (Hs'' & Hl & Hall). apply wp_ret. rewrite !len_cons.
    split_and!; [done|lia|]. intros ->. constructor; auto.
Qed.

(** Every list has as many elements as its count says. *)
Record counted (h : Header) : Prop := {
  co_questions : len h.(questions) = h.(qdcount);
  co_answers : len h.(answers) = h.(ancount);
  co_authority : len h.(authority) = h.(nscount);
  co_additional : len h.(additional) = h.(arcount);
}.
Record contents_ok (msg : bytes) (h : Header) : Prop := {
  ct_questions : Forall question_ok h.(questions);
  ct_answers : Forall (record_ok msg) h.(answers);
  ct_authority : Forall (record_ok msg) h.(authority);
  ct_additional : Forall (record_ok msg) h.(additional);
}.

Lemma len_resize {A} n (x : A) l : 0 ≤ n → len (resize (Z.to_nat n) x l) = n.
Proof. intros. unfold len. rewrite length_resize. lia. Qed.

Lemma wp_parse_dns span h e :
  bytes_ok span →
  wp (parse span h e) (λ '(err, (span', h')),
    suffix_of span span' ∧ (err = NoError → counted h' ∧ contents_ok span h')).
Proof.
  intros Hok. unfold parse, HEADER_LEN. split_if; [apply wp_ret; split; [apply suffix_refl|done]|].
  wp_step. wp_step. cbn zeta. do 2 wp_step.
  pose proof (suffix_zdrop span span 12 (suffix_refl span) ltac:(lia)) as Hs.
  assert (Hb : bytes_ok (ztake 12 span)) by auto with pcap.
  set (w := WireHeader_of _) in *.
  assert (Hq : 0 ≤ toHost16 (wire_qdcount w) e) by (apply field_word; done).
  assert (Ha : 0 ≤ toHost16 (wire_ancount w) e) by (apply field_word; done).
  assert (Hn : 0 ≤ toHost16 (wire_nscount w) e) by (apply field_word; done).
  assert (Hr : 0 ≤ toHost16 (wire_arcount w) e) by (apply field_word; done).
  cbn [qdcount ancount nscount arcount questions answers authority additional
       set_questions set_answers set_authority set_additional id flags].
  split_if; [by apply wp_ret|].
  apply wp_bind. eapply wp_mono;
    [apply (wp_parseEach span _ question_ok); [intros; by apply wp_parseQuestion|done]|].
  intros [err [sp1 qs]] (Hs1 & Hl1 & Hf1).
  split_if; [apply wp_ret; split; [done|by intros ->]|]. apply failed_false in Hc1 as ->.
  apply wp_bind. eapply wp_mono;
    [apply (wp_parseEach span _ (record_ok span)); [intros; by apply wp_parseResourceRecord|done]|].
  intros [err [sp2 an]] (Hs2 & Hl2 & Hf2).
  split_if; [apply wp_ret; split; [done|by intros ->]|]. apply failed_false in Hc1 as ->.
  apply wp_bind. eapply wp_mono;
    [apply (wp_parseEach span _ (record_ok span)); [intros; by apply wp_parseResourceRecord|done]|].
  intros [err [sp3 ns]] (Hs3 & Hl3 & Hf3).
  split_if; [apply wp_ret; split; [done|by intros ->]|]. apply failed_false in Hc1 as ->.
  apply wp_bind. eapply wp_mono;
    [apply (wp_parseEach span _ (record_ok span)); [intros; by apply wp_parseResourceRecord|done]|].
  intros [err [sp4 ar]] (Hs4 & Hl4 & Hf4).
  apply wp_ret. split; [done|]. intros ->.
  cbn [ancount nscount arcount set_questions set_answers set_authority] in Hl2, Hl3, Hl4.
  rewrite len_resize in Hl1 by done. rewrite len_resize in Hl2 by done.
  rewrite len_resize in Hl3 by done. rewrite len_resize in Hl4 by done.
  split; split; cbn [qdcount ancount nscount arcount questions answers authority additional]; auto.
Qed.

Lemma wp_printRdata msg txt rr :
  bytes_ok msg → record_ok msg rr → wp (printRdata txt rr) (λ _, True).
Proof.
  intros Hm (_ & Hs & _). unfold printRdata.
  split_if; [apply Ipv4.wp_printIp_ipv4; lia|]. split_if; [apply Ipv6.wp_printIp_ipv6; lia|].
  split_if; [|by apply wp_ret].
  assert (Hne : rdata rr ≠ []) by (case_bool_decide; [by rewrite andb_false_r in Hc1|done]).
  assert (0 < len (rdata rr)) by (destruct (rdata rr) as [|x l]; [done|rewrite len_cons; pose proof (len_nonneg l); lia]).
  wp_step. apply wp_at; [lia|]. intros b Hb.
  assert (is_byte b) as Hbb by (eapply bytes_ok_lookup, Hb; eapply slice_bytes_ok; eauto).
  unfold is_byte in Hbb. wp_step. wp_step; [lia..|]. by apply wp_ret.
Qed.

Lemma wp_printEach {A} (print : A → outcome bytes) l :
  Forall (λ x, wp (print x) (λ _, True)) l → wp (printEach print l) (λ _, True).
Proof.
  induction 1 as [|x l Hx _ IH]; cbn [printEach]; [by apply wp_ret|].
  wp_step. eapply wp_mono; [done|]. intros s _. wp_step. eapply wp_mono; [done|].
  intros r _. by apply wp_ret.
Qed.
Lemma wp_mapEach {A B} (f : A → outcome B) l :
  Forall (λ x, wp (f x) (λ _, True)) l → wp (mapEach f l) (λ _, True).
Proof.
  induction 1 as [|x l Hx _ IH]; cbn [mapEach]; [by apply wp_ret|].
  wp_step. eapply wp_mono; [done|]. intros s _. wp_step. eapply wp_mono; [done|].
  intros r _. by apply wp_ret.
Qed.

Lemma wp_print_dns msg h :
  bytes_ok msg → contents_ok msg h →
  wp (toString h) (λ _, True) ∧ wp (toJson h) (λ _, True).
Proof.
  intros Hm Hc. unfold toString, toJson.
  assert (∀ txt, Forall (λ rr, wp (printRdata txt rr) (λ _, True)) h.(answers)) as Hp.
  { intros txt. eapply Forall_impl; [apply (ct_answers _ _ Hc)|]. intros rr. by apply wp_printRdata. }
  split; wp_step.
  - eapply wp_mono; [apply wp_printEach|intros; by apply wp_ret].
    eapply Forall_impl; [apply (Hp true)|]. intros rr Hrr. unfold printAnswer. wp_step.
    eapply wp_mono; [exact Hrr|]. intros; by apply wp_ret.
  - eapply wp_mono; [apply wp_mapEach|intros; by apply wp_ret].
    eapply Forall_impl; [apply (Hp false)|]. intros rr Hrr. unfold jsonAnswer. wp_step.
    eapply wp_mono; [exact Hrr|]. intros; by apply wp_ret.
Qed.

(** ** Reference encoder, without compression *)

Definition encode_name (ls : list bytes) : bytes := (ls ≫= λ l, len l :: l) ++ [0].
Definition encodeQuestion (ls : list bytes) (q : Question) : bytes :=
  encode_name ls ++ enc Big 2 q.(qtype) ++ enc Big 2 q.(qclass).
Definition encodeRecord (ls : list bytes) (rr : ResourceRecord) : bytes :=
  encode_name ls ++ enc Big 2 rr.(type) ++ enc Big 2 rr.(rclass) ++ enc Big 4 rr.(ttl) ++
  enc Big 2 (len rr.(rdata)) ++ rr.(rdata).
Fixpoint encodeEach {A} (encode1 : list bytes → A → bytes) (names : list (list bytes)) (l : list A)
    : bytes :=
  match names, l with
  | ls :: names, x :: l => encode1 ls x ++ encodeEach encode1 names l
  | _, _ => []
  end.

Record Names := mkNames {
  n_questions : list (list bytes);
  n_answers : list (list bytes);
  n_authority : list (list bytes);
  n_additional : list (list bytes);
}.
Definition encodeHeader (h : Header) : bytes :=
  enc Big 2 h.(id) ++ enc Big 2 h.(flags) ++ enc Big 2 h.(qdcount) ++ enc Big 2 h.(ancount) ++
  enc Big 2 h.(nscount) ++ enc Big 2 h.(arcount).
Definition encode (h : Header) (n : Names) : bytes :=
  encodeHeader h ++
  encodeEach encodeQuestion n.(n_questions) h.(questions) ++
  encodeEach encodeRecord n.(n_answers) h.(answers) ++
  encodeEach encodeRecord n.(n_authority) h.(authority) ++
  encodeEach encodeRecord n.(n_additional) h.(additional).

(** A name of the wire: labels of 1 to 63 bytes, and the octets the code
    allows. *)
Record labels_ok (ls : list bytes) : Prop := {
  lo_labels : Forall (λ l, 0 < len l < 64) ls;
  lo_bytes : Forall bytes_ok ls;
  lo_octets : octets ls ≤ MaxDnsNameOctets;
}.
Definition is_u16 (z : Z) : Prop := 0 ≤ z < 65536.
Record question_enc (ls : list bytes) (q : Question) : Prop := {
  qe_labels : labels_ok ls;
  qe_name : q.(qname) = dotted ls;
  qe_type : is_u16 q.(qtype);
  qe_class : is_u16 q.(qclass);
}.
Record record_enc (ls : list bytes) (rr : ResourceRecord) : Prop := {
  re_labels : labels_ok ls;
  re_name : rr.(rname) = dotted ls;
  re_type : is_u16 rr.(type);
  re_class : is_u16 rr.(rclass);
  re_ttl : 0 ≤ rr.(ttl) < 4294967296;
  re_rdata : bytes_ok rr.(rdata);
  re_len : is_u16 (len rr.(rdata));
}.
Record Header_enc (h : Header) (n : Names) : Prop := {
  he_id : is_u16 h.(id);
  he_flags : is_u16 h.(flags);
  he_counted : counted h;
  he_counts : is_u16 h.(qdcount) ∧ is_u16 h.(ancount) ∧ is_u16 h.(nscount) ∧ is_u16 h.(arcount);
  he_questions : Forall2 question_enc n.(n_questions) h.(questions);
  he_answers : Forall2 record_enc n.(n_answers) h.(answers);
  he_authority : Forall2 record_enc n.(n_authority) h.(authority);
  he_additional : Forall2 record_enc n.(n_additional) h.(additional);
}.

Lemma lookup_app_exact {A} (pre : list A) x post : (pre ++ x :: post) !! Z.to_nat (len pre) = Some x.
Proof. unfold len. rewrite Nat2Z.id. by apply list_lookup_middle. Qed.

Lemma octets_nonneg ls : 0 ≤ octets ls.
Proof. induction ls as [|l ls IH]; cbn [octets]; [done|]. pose proof (len_nonneg l). lia. Qed.

Lemma len_encode_name ls : len (encode_name ls) = octets ls + 1.
Proof.
  unfold encode_name. rewrite len_app. change (len [0]) with 1. f_equal.
  induction ls as [|l ls IH]; [done|]. cbn [octets mbind list_bind].
  rewrite len_app, len_cons. rewrite IH. lia.
Qed.

Lemma name_at_encode j c pre ls post :
  Forall (λ l, 0 < len l < 64) ls →
  name_at (pre ++ encode_name ls ++ post) j c (len pre) ls (len pre + (octets ls + 1)).
Proof.
  intros Hls. revert pre. induction Hls as [|l ls Hl _ IH]; intros pre.
  - cbn [octets]. replace (len pre + (0 + 1)) with (len pre + 1) by lia.
    apply name_root, lookup_app_exact.
  - change (encode_name (l :: ls)) with ((len l :: l) ++ (ls ≫= λ l, len l :: l) ++ [0]) || idtac.
    assert (pre ++ encode_name (l :: ls) ++ post = pre ++ len l :: (l ++ encode_name ls ++ post)) as ->.
    { unfold encode_name. cbn [mbind list_bind]. by rewrite <- !app_assoc. }
    assert (Hpre : len (pre ++ [len l]) = len pre + 1) by (by rewrite len_app).
    apply name_label; [apply lookup_app_exact|done| |].
    + rewrite cons_middle, app_assoc, zdrop_app_exact by done. by apply ztake_app_exact.
    + specialize (IH ((pre ++ [len l]) ++ l)). rewrite len_app, Hpre in IH.
      cbn [octets]. replace (len pre + (len l + 1 + octets ls + 1)) with (len pre + 1 + len l + (octets ls + 1)) by lia.
      by rewrite <- !app_assoc in IH.
Qed.

Lemma name_at_labels msg j c p ls stop : name_at msg j c p ls stop → Forall (λ l, 0 < len l) ls.
Proof. induction 1; [constructor|constructor; [lia|done]|done]. Qed.

Lemma parseName_sound msg span span' name :
  bytes_ok msg → suffix_of msg span → parseName span msg = Ret (NoError, (span', name)) →
  ∃ ls stop, name_at msg 10 None (len msg - len span) ls stop ∧ octets ls ≤ MaxDnsNameOctets ∧
    span' = zdrop stop msg ∧ name = dotted ls.
Proof.
  intros Hm Hs Hp.
  destruct (name_loop_sound msg span Hm Hs _ _ _ _ (initial_inv msg span Hs) Hp)
    as (ls & stop & Hat & Ho & Hls & -> & ->). cbn in *.
  exists ls, stop. split_and!; [done|unfold MaxDnsNameOctets; lia|done|by apply extend_dotted].
Qed.
Lemma parseName_complete msg span ls stop :
  bytes_ok msg → suffix_of msg span → name_at msg 10 None (len msg - len span) ls stop →
  octets ls ≤ MaxDnsNameOctets → parseName span msg = Ret (NoError, (zdrop stop msg, dotted ls)).
Proof.
  intros Hm Hs Hat Ho.
  destruct (name_loop_complete msg span Hm Hs _ _ _ _ _ Hat _ (initial_inv msg span Hs))
    as [fuel Hf]; [done..|].
  destruct (wp_returns _ _ (wp_parseName msg span Hm Hs)) as ([err [sp nm]] & Hr & _).
  unfold parseName in *. rewrite Hr. pose proof (loop_unique _ _ _ _ _ _ Hr Hf) as ->.
  cbn [name]. rewrite extend_dotted by (by eapply name_at_labels). done.
Qed.

Lemma parseName_encode pre ls post :
  bytes_ok (pre ++ encode_name ls ++ post) → labels_ok ls →
  parseName (encode_name ls ++ post) (pre ++ encode_name ls ++ post) = Ret (NoError, (post, dotted ls)).
Proof.
  intros Hm [Hls _ Ho]. rewrite (parseName_complete _ _ ls (len pre + (octets ls + 1))); try done.
  - do 3 f_equal. rewrite app_assoc. apply zdrop_app_exact. rewrite len_app, len_encode_name. lia.
  - exists (len pre). rewrite len_app. pose proof (len_nonneg pre). pose proof (len_nonneg (encode_name ls ++ post)).
    split; [lia|]. by rewrite zdrop_app_exact.
  - rewrite (len_app pre). replace (len pre + len _ - len _) with (len pre) by lia.
    by apply name_at_encode.
Qed.

Lemma parseQuestion_encode pre ls q q0 post :
  bytes_ok (pre ++ encodeQuestion ls q ++ post) → question_enc ls q →
  parseQuestion (pre ++ encodeQuestion ls q ++ post) Big (encodeQuestion ls q ++ post) q0 =
  Ret (NoError, (post, q)).
Proof.
  unfold encodeQuestion. rewrite <- !app_assoc. intros Hm [Hls Hn Ht Hc].
  unfold parseQuestion. rewrite parseName_encode, bind_ret by done. cbn [failed].
  unfold QUESTION_HEADER_LEN. rewrite app_assoc.
  assert (Hl : len (enc Big 2 q.(qtype) ++ enc Big 2 q.(qclass)) = 4) by (by rewrite len_app, !len_enc).
  rewrite ltb_app_exact, memcpy_app_exact, bind_ret, subspan_app_exact, bind_ret by done.
  unfold WireQuestion_of. read_fields. cbn [wire_qtype wire_qclass].
  unfold is_u16 in *. rewrite !toHost16_enc by lia. rewrite <- Hn. by destruct q.
Qed.

Lemma parseResourceRecord_encode pre ls rr rr0 post :
  bytes_ok (pre ++ encodeRecord ls rr ++ post) → record_enc ls rr →
  parseResourceRecord (pre ++ encodeRecord ls rr ++ post) Big (encodeRecord ls rr ++ post) rr0 =
  Ret (NoError, (post, rr)).
Proof.
  unfold encodeRecord. rewrite <- !app_assoc. intros Hm [Hls Hn Ht Hc Htt Hrd Hl].
  unfold parseResourceRecord. rewrite parseName_encode, bind_ret by done. cbn [failed].
  unfold RESOURCE_HEADER_LEN.
  assert (Hw : enc Big 2 (type rr) ++ enc Big 2 (rclass rr) ++ enc Big 4 (ttl rr) ++
    enc Big 2 (len (rdata rr)) ++ rdata rr ++ post =
    (enc Big 2 (type rr) ++ enc Big 2 (rclass rr) ++ enc Big 4 (ttl rr) ++ enc Big 2 (len (rdata rr)))
    ++ rdata rr ++ post) by (by rewrite <- !app_assoc).
  rewrite Hw. clear Hw. set (w := enc Big 2 (type rr) ++ _ ++ _ ++ enc Big 2 (len (rdata rr))).
  assert (Hlw : len w = 10) by (unfold w; by rewrite !len_app, !len_enc).
  rewrite ltb_app_exact, memcpy_app_exact, bind_ret, subspan_app_exact, bind_ret by done.
  unfold WireResourceHeader_of, w. read_fields. cbn [wire_type wire_rclass wire_ttl wire_rdlength].
  unfold is_u16 in *. rewrite !toHost16_enc, toHost32_enc by lia.
  rewrite ltb_app_exact, first_app_exact, bind_ret, subspan_app_exact, bind_ret by done.
  cbn [type rclass ttl]. rewrite <- Hn. by destruct rr.
Qed.

Lemma parseEach_encode {A} (encode1 : list bytes → A → bytes)
    (parse1 : bytes → A → outcome (ParseError * (bytes * A))) (ok : list bytes → A → Prop) msg
    pre names xs x0s post :
  (∀ pre ls x x0 post, msg = pre ++ encode1 ls x ++ post → ok ls x →
     parse1 (encode1 ls x ++ post) x0 = Ret (NoError, (post, x))) →
  Forall2 ok names xs → length x0s = length xs →
  msg = pre ++ encodeEach encode1 names xs ++ post →
  parseEach parse1 (encodeEach encode1 names xs ++ post) x0s = Ret (NoError, (post, xs)).
Proof.
  intros H1 Hall. revert pre x0s. induction Hall as [|ls x names xs Hx _ IH]; intros pre x0s Hl Hmsg.
  - by destruct x0s.
  - destruct x0s as [|x0 x0s]; [done|]. cbn [encodeEach parseEach] in *. rewrite <- app_assoc in *.
    rewrite (H1 pre), bind_ret by done. cbn [failed].
    rewrite (IH (pre ++ encode1 ls x)), bind_ret; [done|cbn in Hl; lia|].
    by rewrite Hmsg, <- app_assoc.
Qed.

Lemma encodeEach_len {A} (encode1 : list bytes → A → bytes) (ok : list bytes → A → Prop) n names xs :
  (∀ ls x, ok ls x → n ≤ len (encode1 ls x)) → Forall2 ok names xs →
  len xs * n ≤ len (encodeEach encode1 names xs).
Proof.
  intros Hn. induction 1 as [|ls x names xs Hx _ IH]; cbn [encodeEach]; [done|].
  rewrite len_app, len_cons. specialize (Hn _ _ Hx). lia.
Qed.
Lemma encodeEach_ok {A} (encode1 : list bytes → A → bytes) (ok : list bytes → A → Prop) names xs :
  (∀ ls x, ok ls x → bytes_ok (encode1 ls x)) → Forall2 ok names xs →
  bytes_ok (encodeEach encode1 names xs).
Proof.
  intros Hn. induction 1 as [|ls x names xs Hx _ IH]; cbn [encodeEach]; [by constructor|].
  apply bytes_ok_app. split; [by eapply Hn|done].
Qed.

Lemma encode_name_ok ls : labels_ok ls → bytes_ok (encode_name ls).
Proof.
  intros [Hl Hb _]. apply bytes_ok_app. split; [|by repeat constructor].
  induction Hl as [|l ls Hl _ IH]; [by constructor|]. apply Forall_cons_iff in Hb as [Hb1 Hb2].
  cbn [mbind list_bind]. apply bytes_ok_app. split; [|by apply IH].
  constructor; [unfold is_byte; lia|done].
Qed.
Lemma question_enc_ok ls q : question_enc ls q → bytes_ok (encodeQuestion ls q) ∧ 5 ≤ len (encodeQuestion ls q).
Proof.
  intros [Hl _ _ _]. unfold encodeQuestion. rewrite !len_app, len_encode_name, !len_enc.
  pose proof (octets_nonneg ls). split; [|lia]. rewrite !bytes_ok_app. split_and!; auto using encode_name_ok, enc_ok.
Qed.
Lemma record_enc_ok ls rr : record_enc ls rr → bytes_ok (encodeRecord ls rr) ∧ 11 ≤ len (encodeRecord ls rr).
Proof.
  intros [Hl _ _ _ _ Hd _]. unfold encodeRecord. rewrite !len_app, len_encode_name, !len_enc.
  pose proof (octets_nonneg ls). pose proof (len_nonneg rr.(rdata)).
  split; [|lia]. rewrite !bytes_ok_app. split_and!; auto using encode_name_ok, enc_ok.
Qed.

Lemma resize_length {A} n (x : A) (l k : list A) : len k = n → length (resize (Z.to_nat n) x l) = length k.
Proof. intros <-. rewrite length_resize. unfold len. lia. Qed.

(** The sections of a message whose encoding stands in it. *)
Lemma parseQuestions_encode msg pre names qs q0s post :
  bytes_ok msg → Forall2 question_enc names qs → length q0s = length qs →
  msg = pre ++ encodeEach encodeQuestion names qs ++ post →
  parseEach (parseQuestion msg Big) (encodeEach encodeQuestion names qs ++ post) q0s =
  Ret (NoError, (post, qs)).
Proof.
  intros Hm Hf Hl. apply (parseEach_encode _ _ question_enc); [|done..].
  intros pre' ls x x0 post' -> Hx. by apply parseQuestion_encode.
Qed.
Lemma parseRecords_encode msg pre names rrs rr0s post :
  bytes_ok msg → Forall2 record_enc names rrs → length rr0s = length rrs →
  msg = pre ++ encodeEach encodeRecord names rrs ++ post →
  parseEach (parseResourceRecord msg Big) (encodeEach encodeRecord names rrs ++ post) rr0s =
  Ret (NoError, (post, rrs)).
Proof.
  intros Hm Hf Hl. apply (parseEach_encode _ _ record_enc); [|done..].
  intros pre' ls x x0 post' -> Hx. by apply parseResourceRecord_encode.
Qed.

(** An encoded message has the bytes its counts demand. *)
Lemma encode_layout h n rest :
  Header_enc h n → bytes_ok rest →
  bytes_ok (encode h n ++ rest) ∧ len (encodeHeader h) = 12 ∧
  12 + min_bytes h ≤ len (encode h n ++ rest).
Proof.
  intros [Hid Hfl [Cq Ca Cn Cr] (Rq & Ra & Rn & Rr) Fq Fa Fn Fr] Hrest.
  assert (Hlh : len (encodeHeader h) = 12) by (unfold encodeHeader; by rewrite !len_app, !len_enc).
  split_and!; [|done|].
  - unfold encode, encodeHeader. rewrite !bytes_ok_app.
    split_and!; auto using enc_ok; (eapply encodeEach_ok; [|done]);
      intros; first [by apply question_enc_ok|by apply record_enc_ok].
  - unfold min_bytes, encode, QUESTION_HEADER_LEN, RESOURCE_HEADER_LEN. rewrite !len_app, Hlh.
    pose proof (len_nonneg rest).
    pose proof (encodeEach_len encodeQuestion _ 5 _ _ (λ ls q H, proj2 (question_enc_ok ls q H)) Fq).
    pose proof (encodeEach_len encodeRecord _ 11 _ _ (λ ls r H, proj2 (record_enc_ok ls r H)) Fa).
    pose proof (encodeEach_len encodeRecord _ 11 _ _ (λ ls r H, proj2 (record_enc_ok ls r H)) Fn).
    pose proof (encodeEach_len encodeRecord _ 11 _ _ (λ ls r H, proj2 (record_enc_ok ls r H)) Fr).
    lia.
Qed.

(** ** Properties *)

(** C34: names: [parseName] succeeds exactly on names in the format of RFC 1035, a
    sequence of labels of at most 63 bytes ended by the root or continued by a
    pointer, where each pointer points before itself and before where the
    previous one pointed, with at most ten pointers, and which written without
    pointers take at most 256 octets, the root's included: one more than the RFC
    allows.  It returns the labels joined by dots, and the span continues behind
    the part of the name that stood there. *)
Theorem parseName_spec (msg span span' name : bytes) :
  bytes_ok msg → suffix_of msg span →
  parseName span msg = Ret (NoError, (span', name)) ↔
  ∃ ls stop, name_at msg 10 None (len msg - len span) ls stop ∧ len (encode_name ls) ≤ 256 ∧
    span' = zdrop stop msg ∧ name = dotted ls.
Proof.
  intros Hm Hs. split.
  - intros (ls & stop & Hat & Ho & H)%parseName_sound; [|done..]. exists ls, stop. rewrite len_encode_name.
    split; [done|]. unfold MaxDnsNameOctets in Ho. split; [lia|done].
  - intros (ls & stop & Hat & Ho & -> & ->). rewrite len_encode_name in Ho. apply parseName_complete; try done.
    unfold MaxDnsNameOctets. lia.
Qed.

(** A name of 256 octets is accepted. *)
Definition long_name : list bytes := replicate 3 (replicate 63 97) ++ [replicate 62 97].
Example long_name_accepted :
  len (encode_name long_name) = 256 ∧
  match parseName (encode_name long_name) (encode_name long_name) with
  | Ret (NoError, (rest, name)) => len name =? 254
  | _ => false
  end = true.
Proof. split; [apply Z.eqb_eq|]; vm_compute; reflexivity. Qed.

(** C35: whatever the bytes, parsing a message never reads outside it, never
    loops on compression pointers and always returns; when it succeeds every
    section has as many elements as its count says, names have at most 254
    characters, record data are parts of the message, and the result can be
    printed both ways. *)
Theorem parse_dns_safe (span : bytes) (h : Header) (e : Endian) :
  bytes_ok span →
  ∃ err span' h', parse span h e = Ret (err, (span', h')) ∧ suffix_of span span' ∧
    (err = NoError → counted h' ∧ contents_ok span h' ∧
       ∃ s j, toString h' = Ret s ∧ toJson h' = Ret j).
Proof.
  intros Hok. destruct (wp_returns _ _ (wp_parse_dns span h e Hok)) as ([err [sp h']] & Hp & Hs & Hc).
  exists err, sp, h'. split_and!; [done..|]. intros E. destruct (Hc E) as [Hco Hct].
  destruct (wp_print_dns span h' Hok Hct) as [Ht Hj].
  apply wp_returns in Ht as (s & Hts & _). apply wp_returns in Hj as (j & Htj & _).
  split_and!; [done..|by eauto].
Qed.

(** C36: a message written by the reference encoder, with any number of questions
    and records, parses back to exactly itself, whatever the header structure
    held before, and the span continues behind it. *)
Theorem parse_encode_dns (h h0 : Header) (n : Names) (rest : bytes) :
  Header_enc h n → bytes_ok rest →
  parse (encode h n ++ rest) h0 Big = Ret (NoError, (rest, h)).
Proof.
  intros He Hrest. destruct (encode_layout h n rest He Hrest) as (Hok & Hlh & Hmin).
  destruct He as [Hid Hfl [Cq Ca Cn Cr] (Rq & Ra & Rn & Rr) Fq Fa Fn Fr]. unfold is_u16 in *.
  set (q := encodeEach encodeQuestion n.(n_questions) h.(questions)).
  set (a := encodeEach encodeRecord n.(n_answers) h.(answers)).
  set (u := encodeEach encodeRecord n.(n_authority) h.(authority)).
  set (d := encodeEach encodeRecord n.(n_additional) h.(additional)).
  assert (Hmsg : encode h n ++ rest = encodeHeader h ++ q ++ a ++ u ++ d ++ rest)
    by (unfold encode; by rewrite <- !app_assoc).
  set (msg := encode h n ++ rest) in *.
  assert (H1 : (len msg <? 12) = false) by (rewrite Hmsg; by apply ltb_app_exact).
  assert (H2 : memcpy msg 12 = Ret (encodeHeader h)) by (rewrite Hmsg; by apply memcpy_app_exact).
  assert (H3 : subspan msg 12 = Ret (q ++ a ++ u ++ d ++ rest))
    by (rewrite Hmsg; by apply subspan_app_exact).
  unfold parse, HEADER_LEN. rewrite H1, H2, bind_ret, H3, bind_ret.
  unfold WireHeader_of, encodeHeader. read_fields.
  cbn [wire_id wire_flags wire_qdcount wire_ancount wire_nscount wire_arcount].
  rewrite !toHost16_enc by lia.
  change (min_bytes _) with (min_bytes h).
  rewrite (proj2 (Z.ltb_ge _ _)) by (rewrite Hmsg, len_app in Hmin; lia).
  cbn [questions answers authority additional].
  unfold q at 1. rewrite (parseQuestions_encode msg (encodeHeader h)), bind_ret by (by try apply resize_length).
  cbn [failed ancount answers set_questions]. unfold a at 1.
  rewrite (parseRecords_encode msg (encodeHeader h ++ q)), bind_ret
    by (try apply resize_length; try rewrite <- !app_assoc; done).
  cbn [failed nscount authority set_questions set_answers]. unfold u at 1.
  rewrite (parseRecords_encode msg (encodeHeader h ++ q ++ a)), bind_ret
    by (try apply resize_length; try rewrite <- !app_assoc; done).
  cbn [failed arcount additional set_questions set_answers set_authority]. unfold d at 1.
  rewrite (parseRecords_encode msg (encodeHeader h ++ q ++ a ++ u)), bind_ret
    by (try apply resize_length; try rewrite <- !app_assoc; done).
  by destruct h.
Qed.

(** ** Witnesses *)

(** A query for www.example.com, answered: the answer's name is a pointer to the
    question's. *)
Definition sample_labels : list bytes := [chars "www"; chars "example"; chars "com"].
Definition sample_question : Question := mkQuestion (chars "www.example.com") TYPE_A 1.
Definition sample_record : ResourceRecord :=
  mkResourceRecord (chars "www.example.com") TYPE_A 1 300 [93; 184; 216; 34].
Definition sample_message : Header :=
  mkHeader 0x1234 0x8180 1 1 0 0 [sample_question] [sample_record] [] [].
Definition sample_names : Names := mkNames [sample_labels] [sample_labels] [] [].

Example compressed_example :
  let msg := encodeHeader sample_message ++ encodeQuestion sample_labels sample_question ++
             [0xC0; 12; 0; 1; 0; 1; 0; 0; 1; 44; 0; 4; 93; 184; 216; 34] in
  parse msg zeroHeader Big = Ret (NoError, ([], sample_message)).
Proof. vm_compute. reflexivity. Qed.

Lemma sample_labels_ok : labels_ok sample_labels.
Proof. split; [repeat constructor| |done]; repeat constructor; vm_compute; done. Qed.

Lemma parseName_spec_witness :
  parseName (encode_name sample_labels ++ [7]) (encode_name sample_labels ++ [7]) =
    Ret (NoError, ([7], chars "www.example.com")) ↔
  ∃ ls stop, name_at (encode_name sample_labels ++ [7]) 10 None 0 ls stop ∧
    len (encode_name ls) ≤ 256 ∧ [7] = zdrop stop (encode_name sample_labels ++ [7]) ∧
    chars "www.example.com" = dotted ls.
Proof.
  apply (parseName_spec (encode_name sample_labels ++ [7])).
  - vm_compute. repeat constructor; discriminate.
  - apply suffix_refl.
Defined.

Lemma parse_dns_safe_witness :
  ∃ err span' h', parse (encode sample_message sample_names) zeroHeader Big = Ret (err, (span', h')) ∧
    suffix_of (encode sample_message sample_names) span' ∧
    (err = NoError → counted h' ∧ contents_ok (encode sample_message sample_names) h' ∧
       ∃ s j, toString h' = Ret s ∧ toJson h' = Ret j).
Proof. apply parse_dns_safe. vm_compute. repeat constructor; discriminate. Defined.

Lemma parse_encode_dns_witness :
  parse (encode sample_message sample_names ++ [1; 2]) zeroHeader Big =
  Ret (NoError, ([1; 2], sample_message)).
Proof.
  pose proof sample_labels_ok.
  apply parse_encode_dns; [|repeat constructor; discriminate].
  split; try (vm_compute; by split); by repeat constructor.
Defined.
