(* ===== verification/Http.v ===== *)
(** HTTP/1 messages: [include/net/protocols/http.h], [src/net/protocols/http.cpp].

    A [std::string_view] into the buffer is its bytes.  The digits of a status
    code and of a Content-Length are looked at with [std::isdigit] of a plain
    [char], which is undefined for a byte from 0x80 on ([Text.isdigit]); [plain]
    is the text that has no such byte there. *)
From S2P Require Import Prelude ParseError Text.

Definition PORT : Z := 80.

Inductive MessageType := Unknown | Request | Response.
#[export] Instance MessageType_eq_dec : EqDecision MessageType.
Proof. solve_decision. Defined.

Record Field := mkField { fname : bytes; fvalue : bytes }.

Record Header := mkHeader {
  type : MessageType;
  method : bytes;
  target : bytes;
  version : bytes;
  status_code : Z;
  reason_phrase : bytes;
  fields : list Field;
  has_content_length : bool;
  content_length : Z;
  chunked : bool;
}.
Definition zeroHeader : Header := mkHeader Unknown [] [] [] 0 [] [] false 0 false.

Definition isRequest (h : Header) : bool := bool_decide (h.(type) = Request).
Definition isResponse (h : Header) : bool := bool_decide (h.(type) = Response).

Definition CR : Z := 13.
Definition LF : Z := 10.
Definition SP : Z := 32.
Definition HTAB : Z := 9.

(** ** Lines and tokens *)

(** [readLineCRLF]: the line comes back with the span; it is [out] as it was
    on an error. *)
Definition readLineCRLF (span out : bytes) : outcome (ParseError * (bytes * bytes)) :=
  match find span CR 0 with
  | None => Ret (UnexpectedEof, (span, out))
  | Some r =>
      if len span <=? r + 1 then Ret (UnexpectedEof, (span, out)) else
      c ← at_ span (r + 1);
      if negb (c =? LF) then Ret (MalformedHeader, (span, out)) else
      let out := ztake r span in
      span ← subspan span (r + 2);
      Ret (NoError, (span, out))
  end.

Definition isTokenChar (u : Z) : bool :=
  ((97 <=? u) && (u <=? 122)) || ((65 <=? u) && (u <=? 90)) || ((48 <=? u) && (u <=? 57)) ||
  bool_decide (u ∈ chars "!#$%&'*+-.^_`|~").
Definition isToken (s : bytes) : bool :=
  match s with [] => false | _ => forallb isTokenChar s end.

Definition isOws (c : Z) : bool := (c =? SP) || (c =? HTAB).
Fixpoint trim_front (s : bytes) : bytes :=
  match s with c :: s' => if isOws c then trim_front s' else s | [] => [] end.
Definition trim_back (s : bytes) : bytes := rev (trim_front (rev s)).
Definition trimOws (s : bytes) : bytes := trim_back (trim_front s).

(** [parseDecimal]: [Some value] where the code stores [out] and answers
    [ParseError::None], [None] where it answers [MalformedHeader]. *)
Fixpoint parseDecimal_loop (s : bytes) (value : Z) : outcome (option Z) :=
  match s with
  | [] => Ret (Some value)
  | c :: s =>
      d ← isdigit c;
      if negb d then Ret None else
      let digit := c - 48 in
      if (2 ^ 64 - 1 - digit) / 10 <? value then Ret None
      else parseDecimal_loop s (u64 (u64 (value * 10) + digit))
  end.
Definition parseDecimal (s : bytes) : outcome (option Z) :=
  match s with [] => Ret None | _ => parseDecimal_loop s 0 end.

(** [std::from_chars(first, last, out, 16)] for an unsigned 64-bit integer:
    the longest run of hexadecimal digits, its value unless there is none or it
    is too large, and what follows it. *)
Definition hex_digit_value (c : Z) : option Z :=
  if (48 <=? c) && (c <=? 57) then Some (c - 48)
  else if (97 <=? c) && (c <=? 102) then Some (c - 87)
  else if (65 <=? c) && (c <=? 70) then Some (c - 55)
  else None.
Fixpoint hex_run (s : bytes) (value : Z) : Z * bytes :=
  match s with
  | [] => (value, [])
  | c :: s' =>
      match hex_digit_value c with
      | Some d => hex_run s' (value * 16 + d)
      | None => (value, s)
      end
  end.
Definition from_chars16 (s : bytes) : option Z * bytes :=
  let '(value, rest) := hex_run s 0 in
  if (len rest =? len s) || (2 ^ 64 <=? value) then (None, rest) else (Some value, rest).

Definition parseChunkSize (line : bytes) : option Z :=
  let digits := match find line 59 0 with Some ext => ztake ext line | None => line end in
  let digits := trim_back digits in
  if bool_decide (digits = []) then None else
  match from_chars16 digits with
  | (Some v, []) => Some v
  | _ => None
  end.

(** ** The start line, the fields, the framing *)

Definition set_response (h : Header) (version : bytes) (status : Z) (reason : bytes) : Header :=
  mkHeader Response h.(method) h.(target) version status reason h.(fields)
           h.(has_content_length) h.(content_length) h.(chunked).
Definition set_request (h : Header) (method target version : bytes) : Header :=
  mkHeader Request method target version h.(status_code) h.(reason_phrase) h.(fields)
           h.(has_content_length) h.(content_length) h.(chunked).
Definition set_fields (h : Header) (l : list Field) : Header :=
  mkHeader h.(type) h.(method) h.(target) h.(version) h.(status_code) h.(reason_phrase) l
           h.(has_content_length) h.(content_length) h.(chunked).
Definition set_chunked (h : Header) : Header :=
  mkHeader h.(type) h.(method) h.(target) h.(version) h.(status_code) h.(reason_phrase) h.(fields)
           h.(has_content_length) h.(content_length) true.
Definition set_length (h : Header) (n : Z) : Header :=
  mkHeader h.(type) h.(method) h.(target) h.(version) h.(status_code) h.(reason_phrase) h.(fields)
           true n h.(chunked).

Definition contains (s : bytes) (c : Z) : bool :=
  match find s c 0 with Some _ => true | None => false end.

(** The three parts of a start line: the last is missing without a second
    space. *)
Definition splitStart (line : bytes) : option (bytes * bytes * option bytes) :=
  match find line SP 0 with
  | None => None
  | Some space1 =>
      let first := ztake space1 line in
      match find line SP (space1 + 1) with
      | None => Some (first, zdrop (space1 + 1) line, None)
      | Some space2 =>
          Some (first, ztake (space2 - space1 - 1) (zdrop (space1 + 1) line),
                Some (zdrop (space2 + 1) line))
      end
  end.

(** The status code of three digits; the first that is none ends the tests. *)
Definition statusCode (second : bytes) : outcome (option Z) :=
  match second with
  | [a; b; c] =>
      d ← isdigit a; if negb d then Ret None else
      d ← isdigit b; if negb d then Ret None else
      d ← isdigit c; if negb d then Ret None else
      Ret (Some (u16 ((a - 48) * 100 + (b - 48) * 10 + (c - 48))))
  | _ => Ret None
  end.

Definition versionError (h : Header) : ParseError :=
  if bool_decide (h.(version) ≠ chars "HTTP/1.0") && bool_decide (h.(version) ≠ chars "HTTP/1.1")
  then UnsupportedVersion else NoError.

Definition startLine (line : bytes) (header : Header) : outcome (ParseError * Header) :=
  if bool_decide (line = []) || contains line LF then Ret (MalformedHeader, header) else
  match splitStart line with
  | None => Ret (MalformedHeader, header)
  | Some (first, second, third) =>
      if starts_with first (chars "HTTP/") then
        code ← statusCode second;
        match code with
        | None => Ret (MalformedHeader, header)
        | Some status =>
            let header := set_response header first status (default [] third) in
            Ret (versionError header, header)
        end
      else
        match third with
        | None => Ret (MalformedHeader, header)
        | Some third =>
            if negb (isToken first) || bool_decide (second = []) then Ret (MalformedHeader, header) else
            let header := set_request header first second third in
            Ret (versionError header, header)
        end
  end.

Definition parseStartLine (span : bytes) (header : Header)
    : outcome (ParseError * (bytes * Header)) :=
  '(err, (span, start_line)) ← readLineCRLF span [];
  if failed err then Ret (err, (span, header)) else
  '(err, header) ← startLine start_line header;
  Ret (err, (span, header)).

(** A field line, after the test for the empty one. *)
Definition fieldLine (line : bytes) : outcome (option Field) :=
  c ← at_ line 0;
  if isOws c then Ret None else
  match find line 58 0 with
  | None => Ret None
  | Some colon =>
      if colon =? 0 then Ret None else
      c ← at_ line (colon - 1);
      if isOws c then Ret None else
      let field := mkField (ztake colon line) (trimOws (zdrop (colon + 1) line)) in
      if negb (isToken field.(fname)) then Ret None else
      if contains field.(fvalue) LF || contains field.(fvalue) 0 then Ret None else
      Ret (Some field)
  end.

Definition parseFields_body (keep : bool) (st : bytes * list Field)
    : outcome (control (bytes * list Field) (ParseError * (bytes * list Field))) :=
  let '(span, fields) := st in
  '(err, (span, line)) ← readLineCRLF span [];
  if failed err then Ret (Stop (err, (span, fields))) else
  if bool_decide (line = []) then Ret (Stop (NoError, (span, fields))) else
  f ← fieldLine line;
  match f with
  | None => Ret (Stop (MalformedHeader, (span, fields)))
  | Some field => Ret (Next (span, if keep then fields ++ [field] else fields))
  end.

(** [parseFields]: [keep] is false for the null pointer of a trailer. *)
Definition parseFields (span : bytes) (keep : bool) (fields : list Field)
    : outcome (ParseError * (bytes * list Field)) :=
  loop (S (length span)) (parseFields_body keep) (span, fields).

(** The variables of the loop of [parseFraming]; [None] is its early return. *)
Fixpoint framing_loop (fields : list Field) (encodings : list bytes) (content_length : option bytes)
    : option (list bytes * option bytes) :=
  match fields with
  | [] => Some (encodings, content_length)
  | f :: fields =>
      if isEquals f.(fname) (chars "Transfer-Encoding")
      then framing_loop fields (encodings ++ [trimOws f.(fvalue)]) content_length
      else if isEquals f.(fname) (chars "Content-Length") then
        match content_length with
        | None => framing_loop fields encodings (Some f.(fvalue))
        | Some v => if bool_decide (f.(fvalue) = v) then framing_loop fields encodings content_length
                    else None
        end
      else framing_loop fields encodings content_length
  end.

Definition parseFraming (header : Header) : outcome (ParseError * Header) :=
  match framing_loop header.(fields) [] None with
  | None => Ret (MalformedHeader, header)
  | Some (encodings, content_length) =>
      match last encodings, content_length with
      | Some _, Some _ => Ret (MalformedHeader, header)
      | Some back, None =>
          if isEquals back (chars "chunked") then Ret (NoError, set_chunked header)
          else Ret (MalformedHeader, header)
      | None, Some v =>
          value ← parseDecimal v;
          match value with
          | None => Ret (MalformedHeader, header)
          | Some value => Ret (NoError, set_length header value)
          end
      | None, None => Ret (NoError, header)
      end
  end.

Definition parse (span : bytes) (header : Header) : outcome (ParseError * (bytes * Header)) :=
  let span_copy := span in
  '(err, (span, header)) ← parseStartLine span header;
  if failed err then Ret (err, (span_copy, header)) else
  '(err, (span, l)) ← parseFields span true header.(fields);
  let header := set_fields header l in
  if failed err then Ret (err, (span_copy, header)) else
  '(err, header) ← parseFraming header;
  if failed err then Ret (err, (span_copy, header)) else
  Ret (NoError, (span, header)).

(** ** Chunked bodies *)

(** The variables of the loop: the span, the output, the last boundary.  The
    loop stops with an error, or behind the last chunk. *)
Definition chunk_body (span_copy : bytes) (st : bytes * bytes * Z)
    : outcome (control (bytes * bytes * Z) (ParseError * (bytes * bytes * Z))) :=
  let '(span, out, boundary) := st in
  '(err, (span, size_line)) ← readLineCRLF span [];
  if failed err then Ret (Stop (err, (span, out, boundary))) else
  match parseChunkSize size_line with
  | None => Ret (Stop (MalformedHeader, (span, out, boundary)))
  | Some chunk_size =>
      if chunk_size =? 0 then Ret (Stop (NoError, (span, out, boundary))) else
      if len span <? chunk_size then Ret (Stop (UnexpectedEof, (span, out, boundary))) else
      d ← first chunk_size span;
      let out := out ++ d in
      span ← subspan span chunk_size;
      '(err, (span, terminator)) ← readLineCRLF span [];
      if failed err then Ret (Stop (err, (span, out, boundary))) else
      if negb (bool_decide (terminator = []))
      then Ret (Stop (MalformedHeader, (span, out, boundary)))
      else Ret (Next (span, out, len span_copy - len span))
  end.

(** [parseChunkedBody]: the answer comes with the span, the output vector ([out]
    as it was on an error) and [*complete_prefix]. *)
Definition parseChunkedBody (span out : bytes) : outcome (ParseError * (bytes * bytes * Z)) :=
  let span_copy := span in
  '(err, (span, out', boundary)) ←
    loop (S (length span)) (chunk_body span_copy) (span, out, 0);
  if failed err then Ret (err, (span_copy, out, boundary)) else
  '(err, (span, _)) ← parseFields span false [];
  if failed err then Ret (err, (span_copy, out, boundary)) else
  Ret (NoError, (span, out', 0)).

(** ** The header's methods *)

Fixpoint fieldValue_loop (fields : list Field) (name : bytes) : option bytes :=
  match fields with
  | [] => None
  | f :: fields => if isEquals f.(fname) name then Some f.(fvalue) else fieldValue_loop fields name
  end.
Definition fieldValue (h : Header) (name : bytes) : option bytes := fieldValue_loop h.(fields) name.

Definition bodyForbidden (h : Header) : bool :=
  isResponse h && (((100 <=? h.(status_code)) && (h.(status_code) <? 200)) ||
                   (h.(status_code) =? 204) || (h.(status_code) =? 304)).

Definition toString (h : Header) : bytes :=
  chars "HTTPHeader {" ++ [newline] ++
  match h.(type) with
  | Request => chars "  " ++ h.(method) ++ chars " " ++ h.(target) ++ chars " " ++ h.(version) ++ [newline]
  | Response => chars "  " ++ h.(version) ++ chars " " ++ dec h.(status_code) ++ chars " " ++
                h.(reason_phrase) ++ [newline]
  | Unknown => []
  end ++
  (h.(fields) ≫= λ f, chars "  " ++ f.(fname) ++ chars ": " ++ f.(fvalue) ++ [newline]) ++
  chars "}".

Fixpoint jsonFields (l : list Field) : bytes :=
  match l with
  | [] => []
  | f :: l =>
      jstr "    `" ++ f.(fname) ++ jstr "`: `" ++ f.(fvalue) ++ jstr "`" ++
      when (negb (bool_decide (l = []))) (chars ",") ++ [newline] ++ jsonFields l
  end.

Definition toJson (h : Header) : bytes :=
  jstr "`http`: {" ++ [newline] ++
  jstr "  `type`: " ++
  match h.(type) with
  | Request =>
      jstr "`request`," ++ [newline] ++
      jstr "  `method`: `" ++ h.(method) ++ jstr "`," ++ [newline] ++
      jstr "  `target`: `" ++ h.(target) ++ jstr "`," ++ [newline] ++
      jstr "  `version`: `" ++ h.(version) ++ jstr "`," ++ [newline]
  | Response =>
      jstr "`response`," ++ [newline] ++
      jstr "  `version`: `" ++ h.(version) ++ jstr "`," ++ [newline] ++
      jstr "  `status_code`: " ++ dec h.(status_code) ++ chars "," ++ [newline] ++
      jstr "  `reason_phrase`: `" ++ h.(reason_phrase) ++ jstr "`," ++ [newline]
  | Unknown => []
  end ++
  jstr "  `fields`: {" ++ [newline] ++ jsonFields h.(fields) ++
  chars "  }" ++ [newline] ++ chars "}".

Example parse_example :
  parse (chars "GET /x HTTP/1.1" ++ [13; 10] ++ chars "Host: a" ++ [13; 10; 13; 10; 65]) zeroHeader =
  Ret (NoError, ([65], mkHeader Request (chars "GET") (chars "/x") (chars "HTTP/1.1") 0 []
    [mkField (chars "Host") (chars "a")] false 0 false)).
Proof. vm_compute. reflexivity. Qed.
Example chunk_example :
  parseChunkedBody (chars "3 ;x" ++ [13; 10] ++ chars "abc" ++ [13; 10] ++ chars "0" ++ [13; 10; 13; 10; 7]) [1] =
  Ret (NoError, ([7], [1] ++ chars "abc", 0)).
Proof. vm_compute. reflexivity. Qed.

(** ** Text without a negative digit *)

(** All below 0x80. *)
Definition low (s : bytes) : bool := forallb (λ c, c <? 128) s.
(** As a start line: the three characters of a status code. *)
Definition plain_start (line : bytes) : bool :=
  match splitStart line with
  | Some (first, second, _) => negb (starts_with first (chars "HTTP/")) || negb (len second =? 3) || low second
  | None => true
  end.
(** As a field: the value of a Content-Length. *)
Definition plain_field (line : bytes) : bool :=
  match find line 58 0 with
  | Some colon => negb (isEquals (ztake colon line) (chars "Content-Length")) || low (zdrop (colon + 1) line)
  | None => true
  end.
(** No line of [s], wherever it is taken to begin, has such a byte there. *)
Definition plain (s : bytes) : Prop :=
  ∀ pre line rest, s = pre ++ line ++ CR :: LF :: rest → (CR ∉ line) → plain_start line && plain_field line = true.

(** A check of [plain] that runs, on the safe side. *)
Fixpoint plain_check (s : bytes) : bool :=
  match s with
  | [] => true
  | _ :: s' =>
      match find s CR 0 with
      | Some r => plain_start (ztake r s) && plain_field (ztake r s)
      | None => true
      end && plain_check s'
  end.

(** ** Lemmas: lines

    What a line is: the bytes before the first CR, when an LF follows it.  Once
    a read has answered anything but [UnexpectedEof], more bytes behind the
    span change nothing. *)

Inductive line_view (s : bytes) : Prop :=
| lv_line line rest :
    s = line ++ CR :: LF :: rest → CR ∉ line →
    (∀ out t, readLineCRLF (s ++ t) out = Ret (NoError, (rest ++ t, line))) → line_view s
| lv_bad : (∀ out t, readLineCRLF (s ++ t) out = Ret (MalformedHeader, (s ++ t, out))) → line_view s
| lv_eof : (∀ out, readLineCRLF s out = Ret (UnexpectedEof, (s, out))) → line_view s.

Lemma find_app_CR line rest : CR ∉ line → find (line ++ CR :: rest) CR 0 = Some (len line).
Proof.
  intros Hni. unfold find. pose proof (len_nonneg (line ++ CR :: rest)).
  rewrite (proj2 (Z.leb_le _ _)) by done. rewrite zdrop_0, index_of_app by done. done.
Qed.

Lemma readLine_line line rest out :
  CR ∉ line → readLineCRLF (line ++ CR :: LF :: rest) out = Ret (NoError, (rest, line)).
Proof.
  intros Hni. unfold readLineCRLF. rewrite find_app_CR by done.
  pose proof (len_nonneg rest). pose proof (len_nonneg line).
  rewrite (proj2 (Z.leb_gt _ _)) by (rewrite len_app, !len_cons; lia).
  unfold at_. rewrite (proj2 (Z.leb_le _ _)) by lia.
  rewrite (cons_middle CR), app_assoc.
  replace (len line + 1) with (len (line ++ [CR])) by (by rewrite len_app).
  rewrite lookup_app_r by (unfold len; lia).
  replace (Z.to_nat (len (line ++ [CR])) - length (line ++ [CR]))%nat with 0%nat by (unfold len; lia).
  cbn [lookup list_lookup mbind outcome_bind]. rewrite Z.eqb_refl. cbn [negb].
  replace (len line + 2) with (len ((line ++ [CR]) ++ [LF])) by (rewrite !len_app; change (len [CR]) with 1; change (len [LF]) with 1; lia).
  rewrite (cons_middle LF), (app_assoc (line ++ [CR])), subspan_app_exact by done.
  rewrite bind_ret, <- !app_assoc. do 2 f_equal. by rewrite ztake_app_exact.
Qed.

Lemma readLine_bad line c rest out :
  CR ∉ line → c ≠ LF →
  readLineCRLF (line ++ CR :: c :: rest) out = Ret (MalformedHeader, (line ++ CR :: c :: rest, out)).
Proof.
  intros Hni Hc. unfold readLineCRLF. rewrite find_app_CR by done.
  pose proof (len_nonneg rest). pose proof (len_nonneg line).
  rewrite (proj2 (Z.leb_gt _ _)) by (rewrite len_app, !len_cons; lia).
  unfold at_. rewrite (proj2 (Z.leb_le _ _)) by lia.
  assert ((line ++ CR :: c :: rest) !! Z.to_nat (len line + 1) = Some c) as ->.
  { rewrite lookup_app_r by (unfold len; lia).
    by replace (Z.to_nat (len line + 1) - length line)%nat with 1%nat by (unfold len; lia). }
  rewrite bind_ret, (proj2 (Z.eqb_neq _ _)) by done. done.
Qed.

Lemma line_cases s : line_view s.
Proof.
  destruct (find s CR 0) as [r|] eqn:E.
  2: { apply lv_eof. intros out. unfold readLineCRLF. by rewrite E. }
  pose proof E as E'. apply find_Some in E' as (line & rest & Hs & -> & Hni & _); [|lia].
  rewrite zdrop_0 in Hs. subst s. destruct rest as [|c rest].
  - apply lv_eof. intros out. unfold readLineCRLF. rewrite E.
    rewrite (proj2 (Z.leb_le _ _)); [done|]. rewrite len_app, len_cons, (@len_nil Z). lia.
  - destruct (decide (c = LF)) as [->|Hc].
    + eapply lv_line; [done|done|]. intros out t. rewrite <- app_assoc. by apply readLine_line.
    + apply lv_bad. intros out t. rewrite <- app_assoc. by apply readLine_bad.
Qed.

Lemma wp_readLine s out :
  wp (readLineCRLF s out) (λ '(err, (s', line)),
    match err with
    | NoError => s = line ++ CR :: LF :: s' ∧ (CR ∉ line) ∧ len line + 2 + len s' = len s
    | _ => s' = s ∧ line = out
    end).
Proof.
  destruct (line_cases s) as [line rest E Hni H|H|H].
  - specialize (H out []). rewrite !app_nil_r in H. rewrite H. apply wp_ret.
    split; [done|]. split; [done|]. rewrite E, len_app, !len_cons. lia.
  - specialize (H out []). rewrite !app_nil_r in H. by rewrite H.
  - by rewrite H.
Qed.

Lemma wp_fieldLine line : line ≠ [] → wp (fieldLine line) (λ _, True).
Proof.
  intros Hne. assert (0 < len line) by (destruct line as [|x l]; [done|rewrite len_cons; pose proof (len_nonneg l); lia]).
  unfold fieldLine. wp_step. apply wp_at; [lia|]. intros c _. split_if; [by apply wp_ret|].
  destruct (find line 58 0) as [colon|] eqn:E; [|by apply wp_ret].
  apply find_Some in E as (_ & _ & _ & _ & _ & Hr); [|lia].
  split_if; [by apply wp_ret|]. apply Z.eqb_neq in Hc0.
  wp_step. apply wp_at; [lia|]. intros c' _. cbn zeta.
  repeat (split_if; [by apply wp_ret|]). by apply wp_ret.
Qed.

Lemma wp_parseFields s keep l :
  wp (parseFields s keep l) (λ '(err, (s', l')),
    slice s' s ∧ len s' ≤ len s ∧ (err = NoError → len s' + 2 ≤ len s) ∧
    (keep = false → l' = l)).
Proof.
  unfold parseFields.
  eapply (wp_loop (λ '(s', l'), slice s' s ∧ (keep = false → l' = l)) _ (λ '(s', _), len s'));
    [|split; [apply slice_refl|done]|pose proof (len_nonneg s); unfold len in *; lia].
  intros [s1 l1] [Hs Hk]. unfold parseFields_body. wp_step. eapply wp_mono; [apply wp_readLine|].
  intros [err [s2 line]] Hl. pose proof (slice_len _ _ Hs) as Hle.
  split_if.
  { apply failed_true in Hc. apply wp_ret. destruct err; try done; destruct Hl as [-> _]; by split_and!. }
  apply failed_false in Hc as ->. destruct Hl as (E & _ & El). pose proof (len_nonneg line).
  pose proof (len_nonneg s2).
  assert (Hs2 : slice s2 s).
  { eapply slice_trans, Hs. rewrite E. exists (line ++ [CR; LF]), []. by rewrite app_nil_r, <- app_assoc. }
  split_if; [apply wp_ret; split_and!; [done|lia|lia|done]|].
  wp_step. eapply wp_mono; [apply wp_fieldLine; by case_bool_decide|]. intros [f|] _; apply wp_ret.
  - split; [split; [done|]|lia]. intros ->. by apply Hk.
  - split_and!; [done|lia|done|done].
Qed.

(** ** Lemmas: more bytes behind the span *)

Lemma readLine_app s out t err s' line :
  readLineCRLF s out = Ret (err, (s', line)) → err ≠ UnexpectedEof →
  readLineCRLF (s ++ t) out = Ret (err, (s' ++ t, line)).
Proof.
  destruct (line_cases s) as [l rest E Hni H|H|H]; intros Hr Hne.
  - pose proof (H out []) as H0. rewrite !app_nil_r, Hr in H0. injection H0 as -> -> ->. apply H.
  - pose proof (H out []) as H0. rewrite !app_nil_r, Hr in H0. injection H0 as -> -> ->. apply H.
  - rewrite H in Hr. by injection Hr as <-.
Qed.

Definition add_rest {A} (t : bytes) (r : ParseError * (bytes * A)) : ParseError * (bytes * A) :=
  (r.1, (r.2.1 ++ t, r.2.2)).

Lemma parseFields_app s keep l t r :
  parseFields s keep l = Ret r → r.1 ≠ UnexpectedEof →
  parseFields (s ++ t) keep l = Ret (add_rest t r).
Proof.
  unfold parseFields. intros Hp Hne.
  apply (loop_fuel_le _ (S (length s))); [rewrite length_app; lia|].
  refine (loop_map _ _ (λ st : bytes * list Field, (st.1 ++ t, st.2)) (add_rest t)
    (λ r, r.1 ≠ UnexpectedEof) _ _ _ _ _ Hp Hne); clear.
  - intros [s l] [s' l']. unfold parseFields_body.
    destruct (readLineCRLF s []) as [[err [s1 line]]| |] eqn:E; try done. cbn [fst snd].
    rewrite bind_ret. destruct (failed err) eqn:F; [done|]. apply failed_false in F as ->.
    rewrite (readLine_app _ _ t _ _ _ E), bind_ret by done. cbn [failed].
    case_bool_decide; [done|].
    destruct (fieldLine line) as [[f|]| |]; [|done..]. rewrite !bind_ret. by intros [= <- <-].
  - intros [s l] [err0 [s' l']]. unfold parseFields_body.
    destruct (readLineCRLF s []) as [[err [s1 line]]| |] eqn:E; try done. cbn [fst snd].
    rewrite bind_ret. destruct (failed err) eqn:F.
    + intros [= <- <- <-] Hne. rewrite (readLine_app _ _ t _ _ _ E), bind_ret by done. by rewrite F.
    + apply failed_false in F as ->. rewrite (readLine_app _ _ t _ _ _ E), bind_ret by done. cbn [failed].
      case_bool_decide; [by intros [= <- <- <-]|].
      destruct (fieldLine line) as [[f|]| |]; [done| |done..]. rewrite !bind_ret. by intros [= <- <- <-].
Qed.

Lemma parse_app s h t r :
  parse s h = Ret r → r.1 ≠ UnexpectedEof → parse (s ++ t) h = Ret (add_rest t r).
Proof.
  unfold parse, parseStartLine.
  destruct (readLineCRLF s []) as [[err [s1 line]]| |] eqn:E; try done. rewrite bind_ret.
  destruct (failed err) eqn:F.
  { rewrite bind_ret, F. intros [= <-] Hne. rewrite (readLine_app _ _ t _ _ _ E) by done.
    rewrite bind_ret, F, bind_ret. by rewrite F. }
  apply failed_false in F as ->. rewrite (readLine_app _ _ t _ _ _ E), bind_ret by done. cbn [failed].
  destruct (startLine line h) as [[err h1]| |]; [|done..]. rewrite !bind_ret.
  destruct (failed err) eqn:F; [by intros [= <-] _|].
  destruct (parseFields s1 true (fields h1)) as [[err' [s2 l]]| |] eqn:E'; try done. rewrite bind_ret.
  intros Hr Hne.
  assert (err' ≠ UnexpectedEof) as Hne'.
  { intros ->. cbn [failed] in Hr. by injection Hr as <-. }
  rewrite (parseFields_app _ _ _ t _ E' Hne'), bind_ret. cbn [add_rest fst snd].
  destruct (failed err'); [by injection Hr as <-|].
  destruct (parseFraming (set_fields h1 l)) as [[err2 h2]| |]; [|done..]. rewrite bind_ret in Hr |- *.
  destruct (failed err2); by injection Hr as <-.
Qed.

(** Neither do more bytes take undefined behaviour back. *)
Lemma parse_app_ub s h t : parse s h = UB → parse (s ++ t) h = UB.
Proof.
  unfold parse, parseStartLine. pose proof (wp_readLine s []) as Hw.
  destruct (readLineCRLF s []) as [[err [s1 line]]| |] eqn:E; [|done..]. rewrite bind_ret.
  destruct (failed err) eqn:F; [by rewrite bind_ret, F|].
  apply failed_false in F as ->. rewrite (readLine_app _ _ t _ _ _ E), bind_ret by done. cbn [failed].
  destruct (startLine line h) as [[err h1]| |]; [|done..]. rewrite !bind_ret.
  destruct (failed err) eqn:F; [done|].
  pose proof (wp_parseFields s1 true (fields h1)) as Hf.
  destruct (parseFields s1 true (fields h1)) as [[err' [s2 l]]| |] eqn:E'; [|done..]. rewrite bind_ret.
  destruct (failed err') eqn:F'; [done|]. apply failed_false in F' as ->.
  rewrite (parseFields_app _ _ _ t _ E') by done. rewrite bind_ret. cbn [add_rest fst snd failed].
  destruct (parseFraming (set_fields h1 l)) as [[err2 h2]| |]; [|done..]. rewrite bind_ret. by destruct (failed err2).
Qed.

(** ** Lemmas: chunked bodies *)

(** A state between two chunks: the span is what follows the boundary. *)
Definition chunk_inv (s out0 : bytes) (st : bytes * bytes * Z) : Prop :=
  let '(span, out, boundary) := st in
  0 ≤ boundary ≤ len s ∧ span = zdrop boundary s ∧ ∃ d, out = out0 ++ d.

(** What one round reads when it goes on. *)
Lemma chunk_round s span out b span' out' b' :
  chunk_body s (span, out, b) = Ret (Next (span', out', b')) →
  ∃ size_line n d,
    parseChunkSize size_line = Some n ∧ 0 < n ∧ len d = n ∧ (CR ∉ size_line) ∧
    span = size_line ++ CR :: LF :: d ++ CR :: LF :: span' ∧ out' = out ++ d ∧
    b' = len s - len span'.
Proof.
  unfold chunk_body.
  pose proof (wp_readLine span []) as H1.
  destruct (readLineCRLF span []) as [[err [s1 line]]| |]; [|done..]. rewrite bind_ret.
  destruct (failed err) eqn:F; [done|]. apply failed_false in F as ->. destruct H1 as (E1 & Hni1 & El1).
  destruct (parseChunkSize line) as [n|] eqn:En; [|done].
  destruct (Z.eqb_spec n 0); [done|]. destruct (Z.ltb_spec (len s1) n); [done|].
  unfold first, subspan. destruct (Z.leb_spec 0 n); [|done]. rewrite (proj2 (Z.leb_le _ _)) by done.
  cbn [andb]. rewrite !bind_ret.
  pose proof (wp_readLine (zdrop n s1) []) as H2.
  destruct (readLineCRLF (zdrop n s1) []) as [[err [s2 term]]| |]; [|done..]. rewrite bind_ret.
  destruct (failed err) eqn:F; [done|]. apply failed_false in F as ->. destruct H2 as (E2 & _ & _).
  case_bool_decide as Ht; [|done]. subst term. intros [= <- <- <-].
  exists line, n, (ztake n s1). split_and!; [done|lia|by apply len_ztake; lia|done| |done|done].
  rewrite E1. do 3 f_equal. rewrite <- (ztake_zdrop n s1) at 1. by rewrite E2.
Qed.

Lemma chunk_round_back s size_line n d span' out b :
  parseChunkSize size_line = Some n → 0 < n → len d = n → CR ∉ size_line →
  chunk_body s (size_line ++ CR :: LF :: d ++ CR :: LF :: span', out, b) =
  Ret (Next (span', out ++ d, len s - len span')).
Proof.
  intros Hn Hp Hd Hni. unfold chunk_body. rewrite readLine_line, bind_ret by done. cbn [failed].
  rewrite Hn, (proj2 (Z.eqb_neq _ _)) by lia. rewrite ltb_app_exact by done.
  rewrite first_app_exact, bind_ret, subspan_app_exact, bind_ret by done.
  pose proof (readLine_line [] span' [] (not_elem_of_nil CR)) as Hr. cbn [app] in Hr.
  by rewrite Hr.
Qed.

Lemma chunk_inv_next s out0 st st' :
  chunk_inv s out0 st → chunk_body s st = Ret (Next st') →
  chunk_inv s out0 st' ∧ 0 ≤ len st'.1.1 < len st.1.1.
Proof.
  destruct st as [[span out] b], st' as [[span' out'] b'].
  intros (Hb & Hs & d0 & ->) (line & n & d & _ & Hn & Hd & _ & E & -> & ->)%chunk_round.
  pose proof (len_nonneg span'). pose proof (len_nonneg line). pose proof (len_nonneg d). cbn [fst].
  assert (El : len span = len line + (2 + (len d + (2 + len span')))).
  { rewrite E, len_app, !len_cons, len_app, !len_cons. lia. }
  assert (Hls : len span = len s - b) by (rewrite Hs; by apply len_zdrop).
  split; [|lia]. split; [lia|]. split; [|exists (d0 ++ d); by rewrite app_assoc].
  replace (len s - len span') with (b + (len span - len span')) by lia.
  rewrite <- zdrop_zdrop, <- Hs by lia. symmetry.
  assert (Hk : len span - len span' = len line + 2 + len d + 2) by lia. rewrite Hk. clear Hk El Hls Hs.
  replace span with ((line ++ CR :: LF :: d ++ [CR; LF]) ++ span').
  2: { rewrite E. by rewrite <- app_assoc, <- !app_comm_cons, <- app_assoc. }
  apply zdrop_app_exact. rewrite len_app, !len_cons, len_app. change (len [CR; LF]) with 2. lia.
Qed.

(** A round that stops keeps the boundary. *)
Lemma chunk_stop s span out b err span' out' b' :
  chunk_body s (span, out, b) = Ret (Stop (err, (span', out', b'))) → b' = b.
Proof.
  unfold chunk_body.
  destruct (readLineCRLF span []) as [[err1 [s1 line]]| |]; [|done..]. rewrite bind_ret.
  destruct (failed err1); [by intros [= _ _ _ <-]|].
  destruct (parseChunkSize line) as [n|]; [|by intros [= _ _ _ <-]].
  destruct (n =? 0); [by intros [= _ _ _ <-]|]. destruct (len s1 <? n); [by intros [= _ _ _ <-]|].
  destruct (first n s1); [|done..]. rewrite bind_ret. destruct (subspan s1 n) as [s2| |]; [|done..].
  rewrite bind_ret. destruct (readLineCRLF s2 []) as [[err2 [s3 term]]| |]; [|done..]. rewrite bind_ret.
  destruct (failed err2); [by intros [= _ _ _ <-]|].
  destruct (negb (bool_decide (term = []))); [by intros [= _ _ _ <-]|done].
Qed.

Lemma parseChunkSize_nonneg line n : parseChunkSize line = Some n → 0 ≤ n < 2 ^ 64.
Proof.
  unfold parseChunkSize. case_bool_decide; [done|]. unfold from_chars16.
  assert (Hr : ∀ s v, 0 ≤ v → 0 ≤ (hex_run s v).1).
  { clear. induction s as [|c s IH]; intros v Hv; cbn; [done|].
    destruct (hex_digit_value c) as [d|] eqn:E; [|done]. apply IH.
    unfold hex_digit_value in E. repeat split_if_in E; injection E as <-; lia. }
  specialize (Hr (trim_back (match find line 59 0 with Some ext => ztake ext line | None => line end)) 0 ltac:(lia)).
  destruct (hex_run _ 0) as [v rest]. cbn [fst] in Hr.
  destruct ((len rest =? _) || (2 ^ 64 <=? v)) eqn:E; [done|]. destruct rest; [|done].
  intros [= <-]. apply orb_false_iff in E as [_ E%Z.leb_gt]. lia.
Qed.

Lemma wp_chunk_body s st :
  wp (chunk_body s st) (λ c,
    match c with
    | Next _ => True
    | Stop (err, (span', out', b')) => b' = st.2 ∧ len span' ≤ len st.1.1 ∧
        (err = NoError → out' = st.1.2)
    end).
Proof.
  destruct st as [[span out] b]. unfold chunk_body. cbn [fst snd].
  wp_step. eapply wp_mono; [apply wp_readLine|]. intros [err [s1 line]] Hr1. len_facts.
  split_if; [apply wp_ret; split_and!; [done|destruct err; try lia; by destruct Hr1 as [-> _]|by intros ->]|].
  apply failed_false in Hc as ->. destruct Hr1 as (_ & _ & El).
  destruct (parseChunkSize line) as [n|] eqn:En; [|apply wp_ret; split_and!; [done|lia|done]].
  apply parseChunkSize_nonneg in En.
  split_if; [apply wp_ret; split_and!; [done|lia|done]|].
  split_if; [apply wp_ret; split_and!; [done|lia|done]|].
  do 4 wp_step. wp_step. eapply wp_mono; [apply wp_readLine|]. intros [err [s2 term]] Hr2.
  rewrite len_zdrop in Hr2 by lia.
  split_if; [apply wp_ret; split_and!; [done| |by intros ->]|].
  { destruct err; try (destruct Hr2 as [-> _]; rewrite len_zdrop; lia). pose proof (len_nonneg term). lia. }
  split_if; apply wp_ret; [|done]. apply failed_false in Hc1 as ->. destruct Hr2 as (_ & _ & E2). pose proof (len_nonneg term).
  split_and!; [done|lia|done].
Qed.

Lemma chunk_start s out : chunk_inv s out (s, out, 0).
Proof. pose proof (len_nonneg s). split; [lia|]. split; [by rewrite zdrop_0|]. exists []. by rewrite app_nil_r. Qed.

Lemma wp_chunk_loop s out :
  wp (loop (S (length s)) (chunk_body s) (s, out, 0)) (λ '(err, (span', out', b')),
    0 ≤ b' ≤ len s ∧ len span' ≤ len s ∧ (err = NoError → ∃ d, out' = out ++ d)).
Proof.
  eapply (wp_loop (chunk_inv s out) _ (λ st, len st.1.1)); [|apply chunk_start|unfold len; cbn; lia].
  intros st Hi. pose proof (wp_chunk_body s st) as Hw.
  destruct (chunk_body s st) as [[st'|[err [[sp o] b]]]| |] eqn:E; try done; cbn in *.
  - split; [by eapply chunk_inv_next|]. by eapply chunk_inv_next.
  - destruct Hw as (-> & Hle & Ho). destruct st as [[sp0 o0] b0]. destruct Hi as (Hb & -> & d & ->).
    cbn in *. rewrite len_zdrop in Hle by lia. split_and!; [lia|lia|lia|]. intros E'. exists d. by apply Ho.
Qed.

Lemma wp_parseChunkedBody s out :
  wp (parseChunkedBody s out) (λ '(err, (s', out', p)),
    0 ≤ p ≤ len s ∧ len s' ≤ len s ∧
    match err with
    | NoError => p = 0 ∧ len s' + 2 ≤ len s ∧ ∃ d, out' = out ++ d
    | _ => s' = s ∧ out' = out
    end).
Proof.
  unfold parseChunkedBody. wp_step. eapply wp_mono; [apply wp_chunk_loop|].
  intros [err [[sp o] b]] (Hb & Hl & Ho). cbn zeta. split_if.
  { apply failed_true in Hc. apply wp_ret. split_and!; [lia|lia|lia|]. by destruct err. }
  apply failed_false in Hc as ->. wp_step. eapply wp_mono; [apply wp_parseFields|].
  intros [err [s2 l]] (_ & Hle & Hlt & _). pose proof (len_nonneg s). split_if.
  { apply failed_true in Hc. apply wp_ret. split_and!; [lia|lia|lia|]. by destruct err. }
  apply failed_false in Hc as ->. specialize (Hlt eq_refl). apply wp_ret. split_and!; [lia|lia|lia|done|lia|auto].
Qed.

(** What is left behind a body is a part of what was there. *)
Lemma readLine_slice s out err s' line : readLineCRLF s out = Ret (err, (s', line)) → slice s' s.
Proof.
  intros H. pose proof (wp_readLine s out) as Hw. rewrite H in Hw.
  destruct err; try (destruct Hw as [-> _]; apply slice_refl). destruct Hw as (-> & _ & _).
  exists (line ++ [CR; LF]), []. by rewrite app_nil_r, <- app_assoc.
Qed.
Lemma chunk_slice s st c :
  chunk_body s st = Ret c →
  slice match c with Next (sp, _, _) | Stop (_, (sp, _, _)) => sp end st.1.1.
Proof.
  destruct st as [[span out] b]. unfold chunk_body. cbn [fst].
  intros ([err [s1 line]] & H1%readLine_slice & H)%bind_Ret_inv. cbn iota in H.
  destruct (failed err); [by injection H as <-|].
  destruct (parseChunkSize line) as [n|]; [|by injection H as <-].
  destruct (n =? 0); [by injection H as <-|]. destruct (len s1 <? n); [by injection H as <-|].
  apply bind_Ret_inv in H as (d & _ & H). apply bind_Ret_inv in H as (s2 & H2 & H).
  assert (slice s2 s1) as Hs2.
  { unfold subspan in H2. destruct (_ && _); [|done]. injection H2 as <-. apply slice_zdrop. }
  apply bind_Ret_inv in H as ([err2 [s3 term]] & H3%readLine_slice & H). cbn iota in H.
  assert (slice s3 span) by (eapply slice_trans; [exact H3|]; by eapply slice_trans).
  destruct (failed err2); [by injection H as <-|]. destruct (negb _); by injection H as <-.
Qed.
Lemma parseChunkedBody_slice s out err s' o p : parseChunkedBody s out = Ret (err, (s', o, p)) → slice s' s.
Proof.
  unfold parseChunkedBody. intros ([e1 [[s1 o1] b1]] & Hl & H)%bind_Ret_inv.
  apply loop_reaches in Hl as (st & Hre & Hst%chunk_slice).
  assert (Hs : slice st.1.1 s).
  { assert (∀ st st', reaches (chunk_body s) st st' → slice st'.1.1 st.1.1) as Hr.
    { clear. induction 1 as [st|st [[sp o] b] st' H%chunk_slice _ IH]; [apply slice_refl|]. by eapply slice_trans. }
    exact (Hr _ _ Hre). }
  destruct (failed e1); [injection H as _ <- _ _; apply slice_refl|].
  apply bind_Ret_inv in H as ([e2 [s2 l]] & Hf & H). pose proof (wp_parseFields s1 false []) as Hw. rewrite Hf in Hw.
  destruct Hw as [Hw _]. destruct (failed e2); injection H as _ <- _ _; [apply slice_refl|].
  eapply slice_trans; [exact Hw|]. by eapply slice_trans.
Qed.

(** Rounds that went on go on in the same way with more bytes behind. *)
Lemma chunk_reaches_app s t st st' :
  reaches (chunk_body s) st st' →
  reaches (chunk_body (s ++ t)) (st.1.1 ++ t, st.1.2, st.2) (st'.1.1 ++ t, st'.1.2, st'.2).
Proof.
  induction 1 as [st|[[sp o] b] [[sp1 o1] b1] st' Hb _ IH]; [constructor|].
  eapply reaches_step; [|exact IH]. cbn [fst snd].
  apply chunk_round in Hb as (line & n & d & Hn & Hp & Hd & Hni & -> & -> & ->).
  replace ((line ++ CR :: LF :: d ++ CR :: LF :: sp1) ++ t)
    with (line ++ CR :: LF :: d ++ CR :: LF :: (sp1 ++ t)).
  2: { by rewrite <- app_assoc, <- !app_comm_cons, <- app_assoc, <- !app_comm_cons. }
  rewrite (chunk_round_back _ line n d) by done. do 3 f_equal. rewrite !len_app. lia.
Qed.
Lemma chunk_reaches_inv s out st st' :
  reaches (chunk_body s) st st' → chunk_inv s out st → chunk_inv s out st'.
Proof. induction 1 as [|st st1 st' Hb _ IH]; [done|]. intros Hi. apply IH. by eapply chunk_inv_next. Qed.

(** Resuming at a boundary: the loop of the whole span, shifted. *)
Lemma chunk_shift s k fuel span out err span' out' b b' :
  0 ≤ k ≤ len s →
  loop fuel (chunk_body (zdrop k s)) (span, out, b) = Ret (err, (span', out', b')) →
  loop fuel (chunk_body s) (span, out, k + b) = Ret (err, (span', out', k + b')).
Proof.
  intros Hk Hl.
  refine (loop_map _ _ (λ st : bytes * bytes * Z, (st.1.1, st.1.2, k + st.2))
    (λ r : ParseError * (bytes * bytes * Z), (r.1, (r.2.1.1, r.2.1.2, k + r.2.2)))
    (λ _, True) _ _ _ _ _ Hl I); clear Hl.
  - intros [[sp o] b0] [[sp' o'] b1] (line & n & d & Hn & Hp & Hd & Hni & -> & -> & ->)%chunk_round.
    cbn [fst snd]. rewrite (chunk_round_back _ line n d) by done. do 3 f_equal.
    rewrite len_zdrop by done. lia.
  - intros [[sp o] b0] [e [[sp' o'] b1]] Hs _. cbn [fst snd]. revert Hs. unfold chunk_body.
    destruct (readLineCRLF sp []) as [[err1 [s1 line]]| |]; [|done..]. rewrite !bind_ret.
    destruct (failed err1); [by intros [= <- <- <- <-]|].
    destruct (parseChunkSize line) as [n|]; [|by intros [= <- <- <- <-]].
    destruct (n =? 0); [by intros [= <- <- <- <-]|].
    destruct (len s1 <? n); [by intros [= <- <- <- <-]|].
    destruct (first n s1); [|done..]. rewrite !bind_ret. destruct (subspan s1 n) as [s2| |]; [|done..].
    rewrite !bind_ret. destruct (readLineCRLF s2 []) as [[err2 [s3 term]]| |]; [|done..]. rewrite !bind_ret.
    destruct (failed err2); [by intros [= <- <- <- <-]|].
    destruct (negb (bool_decide (term = []))); [by intros [= <- <- <- <-]|done].
Qed.

(** An incomplete body: the loop stopped at the boundary it reports. *)
Lemma chunk_incomplete s out b :
  parseChunkedBody s out = Ret (UnexpectedEof, (s, out, b)) →
  ∃ d, reaches (chunk_body s) (s, out, 0) (zdrop b s, out ++ d, b) ∧ 0 ≤ b ≤ len s.
Proof.
  unfold parseChunkedBody. intros (r & Hl & Hr)%bind_Ret_inv. destruct r as [err [[sp o] b1]].
  assert (b1 = b) as ->.
  { destruct (failed err); [by injection Hr|].
    apply bind_Ret_inv in Hr as ([e2 [s2 l2]] & _ & Hr). destruct (failed e2) eqn:F; by injection Hr. }
  apply loop_reaches in Hl as ([[sp0 o0] b0] & Hre & Hs). apply chunk_stop in Hs as ->.
  destruct (chunk_reaches_inv _ _ _ _ Hre (chunk_start s out)) as (Hb & -> & d & ->).
  by exists d.
Qed.

Lemma chunk_resume_eq s t b out :
  parseChunkedBody s out = Ret (UnexpectedEof, (s, out, b)) →
  ∃ d, ∀ err s2 o2 p, parseChunkedBody (zdrop b s ++ t) (out ++ d) = Ret (err, (s2, o2, p)) →
    parseChunkedBody (s ++ t) out =
    Ret (err, if failed err then (s ++ t, out, b + p) else (s2, o2, 0)).
Proof.
  intros (d & Hre & Hb)%chunk_incomplete. exists d. intros err s2 o2 p.
  apply (chunk_reaches_app _ t) in Hre. cbn [fst snd] in Hre.
  assert (Hz : zdrop b s ++ t = zdrop b (s ++ t)).
  { unfold zdrop. rewrite drop_app_le; [done|]. unfold len in Hb. lia. }
  unfold parseChunkedBody. rewrite Hz. intros ([err1 [[sp1 o1] b1]] & Hl & Hr)%bind_Ret_inv.
  rewrite Hz in Hre. pose proof (len_nonneg t).
  apply (chunk_shift (s ++ t) b) in Hl; [|rewrite len_app; lia]. rewrite Z.add_0_r in Hl.
  destruct (reaches_loop _ _ _ _ _ Hre Hl) as [fuel Hf].
  destruct (wp_returns _ _ (wp_chunk_loop (s ++ t) out)) as (r & Hw & _).
  rewrite Hw, (loop_unique _ _ _ _ _ _ Hw Hf), bind_ret.
  destruct (failed err1) eqn:F; [injection Hr as <- <- <- <-; by rewrite F|].
  apply bind_Ret_inv in Hr as ([e2 [sp2 l2]] & -> & Hr). rewrite bind_ret.
  destruct (failed e2) eqn:F2; [injection Hr as <- <- <- <-; by rewrite F2|].
  by injection Hr as <- <- <- <-.
Qed.

(** ** Lemmas: framing *)

(** The values of the fields of a name. *)
Definition values (name : bytes) (l : list Field) : list bytes :=
  fvalue <$> filter (λ f, isEquals f.(fname) name = true) l.

Lemma isEquals_names name :
  isEquals name (chars "Transfer-Encoding") = true → isEquals name (chars "Content-Length") = true → False.
Proof.
  unfold isEquals. destruct (len name =? len (chars "Transfer-Encoding")) eqn:E; [|done].
  apply Z.eqb_eq in E. rewrite E. done.
Qed.

Lemma framing_loop_spec l encs cl encs' cl' :
  framing_loop l encs cl = Some (encs', cl') →
  encs' = encs ++ (trimOws <$> values (chars "Transfer-Encoding") l) ∧
  (∀ v, v ∈ values (chars "Content-Length") l → cl' = Some v) ∧
  (∀ v, cl = Some v → cl' = Some v) ∧
  (cl' = None ↔ cl = None ∧ values (chars "Content-Length") l = []).
Proof.
  revert encs cl. induction l as [|f l IH]; intros encs cl; cbn [framing_loop].
  - intros [= <- <-]. cbn. rewrite app_nil_r. split_and!; [done| |done|naive_solver].
    intros v Hv. by apply elem_of_nil in Hv.
  - unfold values in *. rewrite !filter_cons.
    destruct (isEquals (fname f) (chars "Transfer-Encoding")) eqn:ET.
    + intros (-> & Hv & Hc & Hn)%IH. rewrite decide_True by done.
      rewrite decide_False by (by intros H; eapply isEquals_names). cbn [fmap list_fmap].
      split_and!; [|done..]. by rewrite <- app_assoc.
    + rewrite (decide_False (P := false = true)) by done.
      destruct (isEquals (fname f) (chars "Content-Length")) eqn:EC.
      * rewrite decide_True by done. cbn [fmap list_fmap].
        assert (Hgo : ∀ v, fvalue f = v → framing_loop l encs (Some v) = Some (encs', cl') →
          encs' = encs ++ (trimOws <$> (fvalue <$> filter (λ f, isEquals (fname f) (chars "Transfer-Encoding") = true) l)) ∧
          (∀ w, w ∈ fvalue f :: (fvalue <$> filter (λ f, isEquals (fname f) (chars "Content-Length") = true) l) → cl' = Some w) ∧
          cl' = Some v).
        { intros v <- (-> & Hv & Hc & _)%IH. split_and!; [done| |by apply Hc].
          intros w [->|Hw]%elem_of_cons; [by apply Hc|by apply Hv]. }
        destruct cl as [v|]; [case_bool_decide as Ev; [|done]|]; intros Hl;
          destruct (Hgo _ ltac:(first [exact Ev|reflexivity]) Hl) as (-> & Hv & ->);
          split_and!; try done; naive_solver.
      * rewrite decide_False by done. apply IH.
Qed.

Lemma parseDecimal_loop_spec s value v :
  0 ≤ value < 2 ^ 64 →
  parseDecimal_loop s value = Ret (Some v) ↔
  Forall (λ c, 48 ≤ c ≤ 57) s ∧
  foldl (λ v d, v * 10 + d) value ((λ c, c - 48) <$> s) = v ∧ v < 2 ^ 64.
Proof.
  revert value. induction s as [|c s IH]; intros value Hv.
  { cbn. split; [intros [= <-]; split; [constructor|lia]|by intros (_ & <- & _)]. }
  cbn [parseDecimal_loop fmap list_fmap foldl]. unfold isdigit at 1.
  destruct (Z.ltb_spec c 128).
  2: { split; [done|]. intros (Hall & _). apply Forall_cons_iff in Hall as [? _]. lia. }
  rewrite bind_ret. destruct ((48 <=? c) && (c <=? 57)) eqn:Hc; cbn [negb].
  2: { split; [done|]. intros (Hall & _). apply Forall_cons_iff in Hall as [? _]. lia. }
  assert (Hd : 48 ≤ c ≤ 57) by lia. clear Hc.
  destruct (Z.ltb_spec ((2 ^ 64 - 1 - (c - 48)) / 10) value) as [Hbig|Hsmall].
  - split; [done|]. intros ([_ Hall]%Forall_cons_iff & Hval & Hlt).
    pose proof (foldl_digits_ge s (value * 10 + (c - 48)) ltac:(lia) Hall).
    assert (2 ^ 64 - 1 - (c - 48) < value * 10) by (Z.div_mod_to_equations; lia). cbn in *. lia.
  - assert (value * 10 + (c - 48) < 2 ^ 64) by (Z.div_mod_to_equations; lia).
    rewrite (u64_small (value * 10)), u64_small by lia. rewrite IH by lia.
    rewrite Forall_cons_iff. naive_solver.
Qed.
Lemma parseDecimal_spec s v :
  parseDecimal s = Ret (Some v) ↔
  s ≠ [] ∧ Forall (λ c, 48 ≤ c ≤ 57) s ∧ decimal_value s = v ∧ v < 2 ^ 64.
Proof.
  unfold parseDecimal, decimal_value, of_digits. destruct s as [|c s]; [naive_solver|].
  rewrite parseDecimal_loop_spec by lia. naive_solver.
Qed.

(** What the framing of a message says about its fields. *)
Record framed (h : Header) : Prop := {
  fr_exclusive : ¬ (h.(chunked) = true ∧ h.(has_content_length) = true);
  fr_chunked : h.(chunked) = true ↔ values (chars "Transfer-Encoding") h.(fields) ≠ [];
  fr_last : h.(chunked) = true →
    ∃ te, last (values (chars "Transfer-Encoding") h.(fields)) = Some te ∧
          isEquals (trimOws te) (chars "chunked") = true;
  fr_length : h.(has_content_length) = true ↔ values (chars "Content-Length") h.(fields) ≠ [];
  fr_value : ∀ v, v ∈ values (chars "Content-Length") h.(fields) →
    v ≠ [] ∧ Forall (λ c, 48 ≤ c ≤ 57) v ∧ decimal_value v = h.(content_length);
}.

Lemma parseFraming_ok h h' :
  parseFraming h = Ret (NoError, h') → h.(chunked) = false → h.(has_content_length) = false →
  h'.(fields) = h.(fields) ∧ framed h'.
Proof.
  unfold parseFraming. intros Hp Hc Hl.
  destruct (framing_loop (fields h) [] None) as [[encs cl]|] eqn:E; [|done].
  apply framing_loop_spec in E as (-> & Hv & _ & Hn). cbn [app] in *. rewrite fmap_last in Hp.
  destruct (last (values (chars "Transfer-Encoding") (fields h))) as [te|] eqn:El;
    cbn [fmap option_fmap option_map] in Hp.
  - destruct cl as [v|]; [done|]. destruct (isEquals (trimOws te) (chars "chunked")) eqn:Ec; [|done].
    injection Hp as <-. split; [done|]. destruct (proj1 Hn eq_refl) as [_ Hnil].
    split; cbn [fields chunked has_content_length set_chunked content_length].
    + by rewrite Hl; intros [_ ?].
    + split; [|done]. intros _ Hnil'. by rewrite Hnil' in El.
    + by exists te.
    + rewrite Hl, Hnil. done.
    + intros v Hin. rewrite Hnil in Hin. by apply elem_of_nil in Hin.
  - apply last_None in El. destruct cl as [v|].
    + destruct (parseDecimal v) as [[n|]| |] eqn:Ed; [|done..]. injection Hp as <-.
      apply parseDecimal_spec in Ed as (Hne & Hd & Hval & _).
      split; [done|]. split; cbn [fields chunked has_content_length set_length content_length]; rewrite ?Hc, ?El.
      * by intros [? _].
      * by split.
      * done.
      * split; [|done]. intros _ Hnil. discriminate (proj2 Hn (conj eq_refl Hnil)).
      * intros w Hw. apply Hv in Hw as [= ->]. done.
    + injection Hp as <-. destruct (proj1 Hn eq_refl) as [_ Hnil].
      split; [done|]. split; rewrite ?Hc, ?Hl, ?El, ?Hnil.
      * by intros [? _].
      * by split.
      * done.
      * by split.
      * intros v Hin. by apply elem_of_nil in Hin.
Qed.

Lemma startLine_flags line h err h' :
  startLine line h = Ret (err, h') →
  h'.(fields) = h.(fields) ∧ h'.(chunked) = h.(chunked) ∧ h'.(has_content_length) = h.(has_content_length).
Proof.
  unfold startLine. case_bool_decide; cbn [orb]; [by intros [= _ <-]|].
  destruct (contains line LF); [by intros [= _ <-]|].
  destruct (splitStart line) as [[[a b] c]|]; [|by intros [= _ <-]].
  destruct (starts_with a (chars "HTTP/")).
  - destruct (statusCode b) as [[code|]| |]; [by intros [= _ <-]..|done|done].
  - destruct c; [|by intros [= _ <-]]. destruct (negb (isToken a) || _); by intros [= _ <-].
Qed.

(** The method of an accepted request is a token. *)
Lemma startLine_method line h h' :
  startLine line h = Ret (NoError, h') → isResponse h' = false → isToken h'.(method) = true.
Proof.
  unfold startLine. case_bool_decide; cbn [orb]; [done|]. destruct (contains line LF); [done|].
  destruct (splitStart line) as [[[a b] c]|]; [|done]. destruct (starts_with a (chars "HTTP/")).
  - destruct (statusCode b) as [[code|]| |]; [|done..]. by intros [= _ <-].
  - destruct c; [|done]. destruct (isToken a) eqn:Et; cbn [negb orb]; [|done].
    case_bool_decide; [done|]. by intros [= _ <-].
Qed.

Lemma parseFraming_start h e h' :
  parseFraming h = Ret (e, h') → h'.(type) = h.(type) ∧ h'.(method) = h.(method).
Proof.
  unfold parseFraming. destruct (framing_loop _ _ _) as [[encodings l]|]; [|by intros [= _ <-]].
  destruct (last encodings), l as [v|]; try destruct (isEquals _ _);
    try destruct (parseDecimal v) as [[n|]| |]; try done; by intros [= _ <-].
Qed.

Lemma parse_method s h s' h' :
  parse s h = Ret (NoError, (s', h')) → isResponse h' = false → isToken h'.(method) = true.
Proof.
  unfold parse, parseStartLine. intros ([e1 [s1 h1]] & H1 & H)%bind_Ret_inv.
  apply bind_Ret_inv in H1 as ([e0 [s0 line]] & _ & H1).
  assert (H2 : e1 = NoError → isResponse h1 = false → isToken h1.(method) = true).
  { intros ->. destruct (failed e0) eqn:F; [injection H1 as -> _ _; done|].
    apply bind_Ret_inv in H1 as ([e2 h2] & Es & H1). injection H1 as -> _ ->. by eapply startLine_method. }
  split_if_in H; [injection H as -> _ _; done|]. apply failed_false in Hc as ->.
  apply bind_Ret_inv in H as ([e3 [s3 l]] & _ & H). cbn zeta in H.
  split_if_in H; [injection H as -> _ _; done|].
  apply bind_Ret_inv in H as ([e4 h4] & Ef & H). split_if_in H; [injection H as -> _ _; done|].
  injection H as _ <-.
  apply parseFraming_start in Ef as [Et Em]. cbn in Et, Em. unfold isResponse in *. rewrite Et, Em. by apply H2.
Qed.

(** ** Lemmas: plain text *)

Lemma plain_slice s t : slice s t → plain t → plain s.
Proof.
  intros (l & r & ->) Ht pre line rest ->. apply (Ht (l ++ pre) line (rest ++ r)).
  by rewrite <- !app_assoc, <- !app_comm_cons.
Qed.
Lemma plain_suffix s t : s `suffix_of` t → plain t → plain s.
Proof. intros [l ->]. apply plain_slice. exists l, []. by rewrite app_nil_r. Qed.

Lemma plain_checked s : plain_check s = true → plain s.
Proof.
  intros H pre line rest ->. revert H. induction pre as [|c pre IH]; cbn [app]; intros H Hni.
  - replace (plain_check _) with
      (match find (line ++ CR :: LF :: rest) CR 0 with
       | Some r => plain_start (ztake r (line ++ CR :: LF :: rest)) && plain_field (ztake r (line ++ CR :: LF :: rest))
       | None => true end && plain_check (tail (line ++ CR :: LF :: rest))) in H by (by destruct line).
    rewrite find_app_CR, ztake_app_exact in H by done. by apply andb_true_iff in H as [H _].
  - cbn [plain_check] in H. apply andb_true_iff in H as [_ H]. by apply IH.
Qed.

Lemma low_slice s t : slice s t → low t = true → low s = true.
Proof. intros (l & r & ->). unfold low. rewrite !forallb_app. by intros [_ [H _]%andb_true_iff]%andb_true_iff. Qed.

Lemma isdigit_low c : c < 128 → ∃ d, isdigit c = Ret d.
Proof. intros Hc. unfold isdigit. rewrite (proj2 (Z.ltb_lt _ _)) by done. by eexists. Qed.
Lemma wp_statusCode second : (len second = 3 → low second = true) → wp (statusCode second) (λ _, True).
Proof.
  intros Hl. unfold statusCode. destruct second as [|a [|b [|c [|]]]]; try done. specialize (Hl eq_refl).
  cbn in Hl. destruct (isdigit_low a ltac:(lia)) as [da ->], (isdigit_low b ltac:(lia)) as [db ->],
    (isdigit_low c ltac:(lia)) as [dc ->]. rewrite !bind_ret. by repeat (split_if; [done|]).
Qed.
Lemma wp_parseDecimal s : low s = true → wp (parseDecimal s) (λ _, True).
Proof.
  unfold parseDecimal. destruct s as [|c s]; [done|]. generalize 0. revert c. induction s as [|x s IH]; intros c v Hl;
    cbn [low forallb] in Hl; cbn [parseDecimal_loop]; destruct (isdigit_low c ltac:(lia)) as [d ->]; rewrite bind_ret;
    split_if; [done| |done|]; cbn zeta; split_if; [done|done|done|]. apply IH. cbn. lia.
Qed.

Lemma wp_startLine line h :
  wp_if (plain_start line = true) (startLine line h) (λ '(err, h'),
    h'.(fields) = h.(fields) ∧ h'.(chunked) = h.(chunked) ∧ h'.(has_content_length) = h.(has_content_length)).
Proof.
  destruct (startLine line h) as [[err h']| |] eqn:E; [by apply startLine_flags in E| |].
  - intros Hp. revert E. unfold startLine, plain_start in *. destruct (_ || _); [done|].
    destruct (splitStart line) as [[[a b] c]|]; [|done].
    destruct (starts_with a _); [|by repeat case_match].
    assert (wp (statusCode b) (λ _, True)) as Hw.
    { apply wp_statusCode. intros Hl. rewrite Hl in Hp. exact Hp. }
    by destruct (statusCode b) as [[]| |].
  - revert E. unfold startLine. destruct (_ || _); [done|]. destruct (splitStart line) as [[[a b] c]|]; [|done].
    destruct (starts_with a _); [|by repeat case_match].
    unfold statusCode, isdigit. destruct b as [|x [|y [|z [|]]]]; try done. by repeat (split_if; cbn [mbind outcome_bind]).
Qed.

(** The values of Content-Length fields are low. *)
Definition field_plain (f : Field) : Prop := isEquals f.(fname) (chars "Content-Length") = true → low f.(fvalue) = true.

Lemma trim_front_slice s : slice (trim_front s) s.
Proof.
  induction s as [|c s (l & r & IH)]; [apply slice_refl|]. cbn. destruct (isOws c); [|apply slice_refl].
  exists (c :: l), r. cbn. by rewrite <- IH.
Qed.
Lemma slice_rev {A} (s t : list A) : slice s t → slice (rev s) (rev t).
Proof. intros (l & r & ->). exists (rev r), (rev l). by rewrite !rev_app_distr, <- app_assoc. Qed.
Lemma trimOws_slice s : slice (trimOws s) s.
Proof.
  unfold trimOws, trim_back. eapply slice_trans, trim_front_slice.
  rewrite <- (rev_involutive (trim_front s)) at 2. apply slice_rev, trim_front_slice.
Qed.

Lemma fieldLine_plain line f : plain_field line = true → fieldLine line = Ret (Some f) → field_plain f.
Proof.
  unfold plain_field, fieldLine, field_plain. intros Hp (c & _ & H)%bind_Ret_inv. split_if_in H.
  destruct (find line 58 0) as [colon|]; [|done]. split_if_in H.
  apply bind_Ret_inv in H as (c' & _ & H). cbn zeta in H. repeat split_if_in H. injection H as <-.
  cbn [fname fvalue]. intros He. rewrite He in Hp. cbn in Hp. eapply low_slice, Hp. apply trimOws_slice.
Qed.

Lemma parseFields_plain s keep l err s' l' :
  plain s → Forall field_plain l → parseFields s keep l = Ret (err, (s', l')) → Forall field_plain l'.
Proof.
  intros Hp Hl Hr. enough (wp (parseFields s keep l) (λ '(_, (_, l')), Forall field_plain l')) as Hw
    by (by rewrite Hr in Hw). unfold parseFields.
  eapply (wp_loop (λ '(s', l'), slice s' s ∧ Forall field_plain l') _ (λ '(s', _), len s'));
    [|split; [apply slice_refl|done]|pose proof (len_nonneg s); unfold len in *; lia].
  intros [s1 l1] [Hs Hk]. unfold parseFields_body. wp_step. eapply wp_mono; [apply wp_readLine|].
  intros [e [s2 line]] Hln. split_if; [by apply wp_ret|].
  apply failed_false in Hc as ->. destruct Hln as (E & Hni & El). pose proof (len_nonneg line). pose proof (len_nonneg s2).
  assert (Hs2 : slice s2 s1) by (rewrite E; exists (line ++ [CR; LF]), []; by rewrite app_nil_r, <- app_assoc).
  split_if; [by apply wp_ret|]. wp_step.
  pose proof (wp_fieldLine line ltac:(by case_bool_decide)) as Hf.
  destruct (fieldLine line) as [[f|]| |] eqn:Ef; [|done..]. apply wp_ret, wp_ret.
  split; [split; [by eapply slice_trans|]|lia]. destruct keep; [|done]. apply Forall_app. split; [done|].
  apply Forall_singleton. eapply fieldLine_plain, Ef. pose proof (plain_slice _ _ Hs Hp [] line s2) as H1.
  apply H1 in Hni; [|done]. by apply andb_true_iff in Hni as [_ ?].
Qed.

Lemma wp_parseFraming h : Forall field_plain h.(fields) → wp (parseFraming h) (λ _, True).
Proof.
  intros Hf. unfold parseFraming. destruct (framing_loop (fields h) [] None) as [[encs cl]|] eqn:E; [|done].
  apply framing_loop_spec in E as (_ & Hv & _ & Hn). destruct (last encs); [by repeat case_match|].
  destruct cl as [v|]; [|done].
  destruct (values (chars "Content-Length") (fields h)) as [|w ws] eqn:Ew; [discriminate (proj2 Hn (conj eq_refl eq_refl))|].
  assert (w = v) as -> by (injection (Hv w ltac:(left)); done).
  assert (v ∈ values (chars "Content-Length") (fields h)) as Hin by (rewrite Ew; left).
  unfold values in Hin. apply list_elem_of_fmap in Hin as (f & -> & [He Hin]%list_elem_of_filter).
  rewrite Forall_forall in Hf. apply wp_bind. eapply wp_mono; [by apply wp_parseDecimal, Hf|]. by intros [].
Qed.

Lemma parseFraming_fuel h : parseFraming h ≠ NoFuel.
Proof.
  unfold parseFraming. destruct (framing_loop _ _ _) as [[encs cl]|]; [|done].
  destruct (last encs); [by repeat case_match|]. destruct cl as [v|]; [|done].
  assert (∀ n, parseDecimal_loop v n ≠ NoFuel) as Hd.
  { induction v as [|c v IH]; intros n; [done|]. cbn. unfold isdigit. destruct (c <? 128); [|done]. rewrite bind_ret.
    destruct (negb _); [done|]. destruct (_ <? n); [done|apply IH]. }
  unfold parseDecimal. destruct v as [|c v]; [done|]. specialize (Hd 0). by destruct (parseDecimal_loop (c :: v) 0) as [[n|]| |].
Qed.

(** [parse] in a fresh header: where it stops, and what an accepted message
    looks like. *)
Definition parse_post (s : bytes) (h : Header) (r : ParseError * (bytes * Header)) : Prop :=
  let '(err, (s', h')) := r in
  len s' ≤ len s ∧
  match err with
  | NoError => slice s' s ∧ len s' + 4 ≤ len s ∧
      (h.(chunked) = false → h.(has_content_length) = false → framed h')
  | _ => s' = s
  end.

Lemma wp_if_parse s h : wp_if (plain s ∧ h.(fields) = []) (parse s h) (parse_post s h).
Proof.
  unfold parse, parseStartLine. apply wp_if_bind, wp_if_bind. apply wp_if_of_wp.
  eapply wp_mono; [apply wp_readLine|]. intros [err [s1 line]] Hr1. split_if.
  { cbn. rewrite Hc. apply failed_true in Hc. split; [lia|]. by destruct err. }
  apply failed_false in Hc as ->. destruct Hr1 as (E1 & Hni & El1). pose proof (len_nonneg line).
  assert (Hsl : slice s1 s) by (rewrite E1; exists (line ++ [CR; LF]), []; by rewrite app_nil_r, <- app_assoc).
  apply wp_if_bind. eapply wp_if_mono; [apply wp_startLine| |].
  { intros [Hp _]. specialize (Hp [] line s1 E1 Hni). by apply andb_true_iff in Hp as [? _]. }
  intros [err h1] (Ef & Ec & El). cbn [wp_if].
  split_if; [apply failed_true in Hc; split; [lia|]; by destruct err|].
  apply wp_if_bind, wp_if_of_wp. pose proof (wp_parseFields s1 true (fields h1)) as Hw.
  destruct (parseFields s1 true (fields h1)) as [[err' [s2 l]]| |] eqn:Epf; [|done..].
  destruct Hw as (Hs2 & Hle & Hlt & _). apply wp_ret. cbn zeta. split_if.
  { apply failed_true in Hc0. split; [lia|]. by destruct err'. }
  apply failed_false in Hc0 as ->. specialize (Hlt eq_refl). apply wp_if_bind.
  destruct (parseFraming (set_fields h1 l)) as [[err2 h2]| |] eqn:Efr.
  - cbn. split_if; [apply failed_true in Hc0; split; [lia|]; by destruct err2|].
    apply failed_false in Hc0 as ->. split; [lia|]. split; [by eapply slice_trans|].
    split; [lia|]. intros H1 H2. eapply parseFraming_ok in Efr; [|cbn; congruence..]. apply Efr.
  - intros [Hp Hf0]. assert (wp (parseFraming (set_fields h1 l)) (λ _, True)) as Hw; [|by rewrite Efr in Hw].
    apply wp_parseFraming. cbn [fields set_fields]. eapply parseFields_plain; [| |exact Epf].
    + by eapply plain_slice.
    + rewrite Ef, Hf0. apply Forall_nil_2.
  - by apply parseFraming_fuel in Efr.
Qed.

Lemma wp_parse_http s : plain s → wp (parse s zeroHeader) (parse_post s zeroHeader).
Proof. intros Hp. by eapply wp_if_wp, wp_if_parse. Qed.
Lemma parse_posted s h r : parse s h = Ret r → parse_post s h r.
Proof. intros Hr. eapply wp_if_inv; [exact Hr|apply wp_if_parse]. Qed.

(** ** Reference encoder *)

Definition CRLF : bytes := [CR; LF].
Definition encodeField (f : Field) : bytes := f.(fname) ++ [58; SP] ++ f.(fvalue) ++ CRLF.
Definition encodeFields (l : list Field) : bytes := (l ≫= encodeField) ++ CRLF.

Definition statusText (n : Z) : bytes := [48 + n / 100; 48 + n / 10 mod 10; 48 + n mod 10].
Definition encodeStart (h : Header) : bytes :=
  match h.(type) with
  | Response => h.(version) ++ SP :: statusText h.(status_code) ++ SP :: h.(reason_phrase)
  | _ => h.(method) ++ SP :: h.(target) ++ SP :: h.(version)
  end.
Definition encode (h : Header) : bytes := encodeStart h ++ CRLF ++ encodeFields h.(fields).

(** A chunk with an optional extension, and a chunked body with its trailer. *)
Definition encodeChunk (c : bytes * bytes) : bytes := hex (len c.2) ++ c.1 ++ CRLF ++ c.2 ++ CRLF.
Definition encodeChunked (l : list (bytes * bytes)) (trailer : list Field) : bytes :=
  (l ≫= encodeChunk) ++ hex 0 ++ CRLF ++ encodeFields trailer.

Definition is_version (v : bytes) : Prop := v = chars "HTTP/1.0" ∨ v = chars "HTTP/1.1".
Record field_ok (f : Field) : Prop := {
  fo_name : isToken f.(fname) = true;
  fo_trim : trimOws f.(fvalue) = f.(fvalue);
  fo_chars : (CR ∉ f.(fvalue)) ∧ (LF ∉ f.(fvalue)) ∧ 0 ∉ f.(fvalue);
}.
Definition chunk_ok (c : bytes * bytes) : Prop :=
  (c.1 = [] ∨ ∃ e, c.1 = 59 :: e ∧ CR ∉ e) ∧ 0 < len c.2 < 2 ^ 64.

Definition start_ok (h : Header) : Prop :=
  is_version h.(version) ∧
  match h.(type) with
  | Request => isToken h.(method) = true ∧ h.(target) ≠ [] ∧
      (SP ∉ h.(target)) ∧ (CR ∉ h.(target)) ∧ (LF ∉ h.(target)) ∧
      h.(status_code) = 0 ∧ h.(reason_phrase) = []
  | Response => h.(method) = [] ∧ h.(target) = [] ∧ 0 ≤ h.(status_code) < 1000 ∧
      (CR ∉ h.(reason_phrase)) ∧ LF ∉ h.(reason_phrase)
  | Unknown => False
  end.
(** The header before its fields were looked at. *)
Definition unframed (h : Header) : Header :=
  mkHeader h.(type) h.(method) h.(target) h.(version) h.(status_code) h.(reason_phrase) h.(fields)
           false 0 false.
Definition message_ok (h : Header) : Prop :=
  start_ok h ∧ Forall field_ok h.(fields) ∧ parseFraming (unframed h) = Ret (NoError, h).

(** ** Lemmas: tokens and fields *)

Lemma token_chars s c : isToken s = true → isTokenChar c = false → c ∉ s.
Proof.
  unfold isToken. destruct s as [|x s]; [done|]. intros Hs Hc Hin.
  apply list_elem_of_In in Hin. rewrite forallb_forall in Hs. by rewrite (Hs c Hin) in Hc.
Qed.
Lemma token_nonempty s : isToken s = true → ∃ c s', s = c :: s' ∧ isTokenChar c = true.
Proof.
  unfold isToken. destruct s as [|c s]; [done|]. cbn. intros [Hc _]%andb_true_iff. by exists c, s.
Qed.
Lemma token_not_ows c : isTokenChar c = true → isOws c = false.
Proof.
  intros Hc. unfold isOws. apply orb_false_iff. split; apply Z.eqb_neq; intros ->; by vm_compute in Hc.
Qed.

Lemma fieldLine_encode f :
  field_ok f → fieldLine (f.(fname) ++ 58 :: SP :: f.(fvalue)) = Ret (Some f).
Proof.
  intros [Hn Ht (Hcr & Hlf & H0)]. unfold fieldLine.
  assert (H58 : 58 ∉ f.(fname)) by (by apply token_chars).
  assert (Hfind : find (fname f ++ 58 :: SP :: fvalue f) 58 0 = Some (len (fname f))).
  { unfold find. rewrite (proj2 (Z.leb_le _ _)) by apply len_nonneg. by rewrite zdrop_0, index_of_app. }
  rewrite Hfind. destruct (token_nonempty _ Hn) as (c & s' & Hf & Hc).
  assert (Hat : ∀ k, 0 ≤ k < len (fname f) → ∃ x, at_ (fname f ++ 58 :: SP :: fvalue f) k = Ret x ∧ isOws x = false).
  { intros k Hk. unfold at_. rewrite (proj2 (Z.leb_le _ _)) by lia.
    rewrite lookup_app_l by (unfold len in Hk; lia).
    destruct (lookup_lt_is_Some_2 (fname f) (Z.to_nat k)) as [x Hx]; [unfold len in Hk; lia|].
    rewrite Hx. exists x. split; [done|]. apply token_not_ows.
    apply list_elem_of_lookup_2 in Hx. destruct (isTokenChar x) eqn:E; [done|].
    by destruct (token_chars _ _ Hn E). }
  assert (Hl : 0 < len (fname f)) by (rewrite Hf, len_cons; pose proof (len_nonneg s'); lia).
  destruct (Hat 0 ltac:(lia)) as (x & -> & Hx). rewrite bind_ret, Hx.
  rewrite (proj2 (Z.eqb_neq _ _)) by lia.
  destruct (Hat (len (fname f) - 1) ltac:(lia)) as (y & -> & Hy). rewrite bind_ret, Hy.
  rewrite ztake_app_exact by done.
  assert (zdrop (len (fname f) + 1) (fname f ++ 58 :: SP :: fvalue f) = SP :: fvalue f) as ->.
  { rewrite (cons_middle 58), app_assoc. apply zdrop_app_exact. by rewrite len_app. }
  cbn [fname fvalue]. rewrite Hn. cbn [negb].
  change (trimOws (SP :: fvalue f)) with (trimOws (fvalue f)). rewrite Ht.
  assert (Hno : ∀ c, c ∉ fvalue f → contains (fvalue f) c = false).
  { intros z Hz. unfold contains, find. rewrite (proj2 (Z.leb_le _ _)) by apply len_nonneg.
    rewrite zdrop_0. by rewrite (proj2 (index_of_None _ _) Hz). }
  rewrite !Hno by done. cbn [orb]. by destruct f.
Qed.

Lemma parseFields_encode l keep l0 rest :
  Forall field_ok l →
  parseFields (encodeFields l ++ rest) keep l0 = Ret (NoError, (rest, if keep then l0 ++ l else l0)).
Proof.
  intros Hl.
  assert (∃ fuel, loop fuel (parseFields_body keep) (encodeFields l ++ rest, l0) =
    Ret (NoError, (rest, if keep then l0 ++ l else l0))) as [fuel Hf].
  { revert l0. induction Hl as [|f l Hf _ IH]; intros l0.
    - exists 1%nat. cbn [loop]. unfold parseFields_body.
      pose proof (readLine_line [] rest [] (not_elem_of_nil CR)) as Hr. cbn [app] in Hr.
      change (encodeFields [] ++ rest) with (CR :: LF :: rest). rewrite Hr, bind_ret. cbn.
      destruct keep; by rewrite ?app_nil_r.
    - destruct (IH (if keep then l0 ++ [f] else l0)) as [fuel Hfu]. exists (S fuel). cbn [loop].
      assert (Hs : encodeFields (f :: l) ++ rest =
        (fname f ++ 58 :: SP :: fvalue f) ++ CR :: LF :: (encodeFields l ++ rest)).
      { unfold encodeFields, encodeField, CRLF. cbn [mbind list_bind]. by rewrite <- !app_assoc. }
      assert (parseFields_body keep (encodeFields (f :: l) ++ rest, l0) =
        Ret (Next (encodeFields l ++ rest, if keep then l0 ++ [f] else l0))) as ->.
      { rewrite Hs. unfold parseFields_body. rewrite readLine_line, bind_ret.
        2: { destruct Hf as [Hn _ (Hcr & _ & _)]. rewrite not_elem_of_app, !not_elem_of_cons.
             split_and!; [by apply token_chars|done|done|done]. }
        cbn [failed]. rewrite bool_decide_eq_false_2 by (by destruct (fname f)).
        by rewrite fieldLine_encode. }
      rewrite bind_ret, Hfu.
      destruct keep; by rewrite <- ?app_assoc. }
  destruct (wp_returns _ _ (wp_parseFields (encodeFields l ++ rest) keep l0)) as (r & Hw & _).
  rewrite Hw. f_equal. eapply loop_unique; [exact Hw|exact Hf].
Qed.

(** ** Lemmas: start lines *)

Lemma find_first a c b : c ∉ a → find (a ++ c :: b) c 0 = Some (len a).
Proof.
  intros Hc. unfold find. rewrite (proj2 (Z.leb_le _ _)) by apply len_nonneg.
  by rewrite zdrop_0, index_of_app.
Qed.

Lemma splitStart_encode a b c :
  SP ∉ a → SP ∉ b → splitStart (a ++ SP :: b ++ SP :: c) = Some (a, b, Some c).
Proof.
  intros Ha Hb. unfold splitStart. rewrite find_first by done.
  assert (Hz : zdrop (len a + 1) (a ++ SP :: b ++ SP :: c) = b ++ SP :: c).
  { rewrite (cons_middle SP), app_assoc. apply zdrop_app_exact. by rewrite len_app. }
  unfold find. len_facts.
  rewrite (proj2 (Z.leb_le _ _)) by (rewrite len_app, len_cons, len_app, len_cons; lia).
  rewrite Hz, index_of_app by done. cbn [fmap option_fmap option_map].
  rewrite ztake_app_exact by done.
  replace (len a + 1 + len b - len a - 1) with (len b) by lia. rewrite ztake_app_exact by done.
  do 3 f_equal. replace (len a + 1 + len b + 1) with ((len a + 1) + (len b + 1)) by lia.
  rewrite <- zdrop_zdrop, Hz by lia. rewrite (cons_middle SP), app_assoc.
  apply zdrop_app_exact. by rewrite len_app.
Qed.

Lemma starts_with_in s p c : starts_with s p = true → c ∈ p → c ∈ s.
Proof.
  revert s. induction p as [|x p IH]; intros s Hs Hc; [by apply elem_of_nil in Hc|].
  destruct s as [|y s]; [done|]. cbn in Hs. apply andb_true_iff in Hs as [->%Z.eqb_eq Hs].
  apply elem_of_cons in Hc as [->|Hc]; [by left|right; by apply IH].
Qed.
Lemma token_not_http s : isToken s = true → starts_with s (chars "HTTP/") = false.
Proof.
  intros Ht. apply not_true_iff_false. intros Hs.
  apply (token_chars s 47 Ht); [done|]. apply (starts_with_in _ _ _ Hs). cbn. do 4 right. left.
Qed.

Lemma contains_false s c : c ∉ s → contains s c = false.
Proof.
  intros Hz. unfold contains, find. rewrite (proj2 (Z.leb_le _ _)) by apply len_nonneg.
  rewrite zdrop_0. by rewrite (proj2 (index_of_None _ _) Hz).
Qed.

Lemma version_chars v c : is_version v → c = CR ∨ c = LF ∨ c = SP → c ∉ v.
Proof.
  intros Hv Hc Hin. apply list_elem_of_In in Hin.
  destruct Hv as [->| ->], Hc as [->|[->| ->]]; vm_compute in Hin; intuition discriminate.
Qed.
Lemma version_ok h : is_version h.(version) → versionError h = NoError.
Proof. unfold versionError. by intros [->| ->]. Qed.
Lemma version_http v : is_version v → starts_with v (chars "HTTP/") = true.
Proof. by intros [->| ->]. Qed.

Lemma statusText_ok n : 0 ≤ n < 1000 →
  statusCode (statusText n) = Ret (Some n) ∧ Forall (λ c, 48 ≤ c ≤ 57) (statusText n).
Proof.
  intros Hn.
  assert (0 ≤ n / 100 ≤ 9 ∧ 0 ≤ n / 10 mod 10 ≤ 9 ∧ 0 ≤ n mod 10 ≤ 9 ∧
          n = n / 100 * 100 + n / 10 mod 10 * 10 + n mod 10) as (Ha & Hb & Hc & Heq)
    by (Z.div_mod_to_equations; lia).
  unfold statusText, statusCode, isdigit. split; [|repeat constructor; lia].
  assert (∀ d, 0 ≤ d ≤ 9 → (48 + d <? 128) = true ∧ (48 <=? 48 + d) && (48 + d <=? 57) = true) as Hd by (intros; lia).
  destruct (Hd _ Ha) as [A1 A2], (Hd _ Hb) as [B1 B2], (Hd _ Hc) as [C1 C2].
  rewrite A1, A2, bind_ret. cbn [negb]. rewrite B1, B2, bind_ret. cbn [negb]. rewrite C1, C2, bind_ret. cbn [negb].
  do 2 f_equal. rewrite u16_small; lia.
Qed.
Lemma digits_chars s c : Forall (λ c, 48 ≤ c ≤ 57) s → c < 48 → c ∉ s.
Proof. intros Hs Hc Hin. rewrite Forall_forall in Hs. specialize (Hs c Hin). cbn in Hs. lia. Qed.

(** The start line of a message, read into a fresh header. *)
Definition started (h : Header) : Header :=
  mkHeader h.(type) h.(method) h.(target) h.(version) h.(status_code) h.(reason_phrase) [] false 0 false.

Lemma startLine_encode h :
  start_ok h → startLine (encodeStart h) zeroHeader = Ret (NoError, started h) ∧ CR ∉ encodeStart h.
Proof.
  intros [Hv Hs]. unfold encodeStart, startLine.
  assert (Hne : ∀ (a b : bytes), bool_decide (a ++ SP :: b = []) = false)
    by (intros; apply bool_decide_eq_false_2; by destruct a).
  destruct h as [ty me ta ve st re fi hc cl ch]; cbn [type method target version status_code reason_phrase] in *.
  destruct ty; [done| |].
  - destruct Hs as (Hm & Ht & Hsp & Hcr & Hlf & -> & ->).
    assert (∀ c, c = CR ∨ c = LF ∨ c = SP → c ∉ me) as Hmc
      by (intros c Hc; apply token_chars; [done|]; by destruct Hc as [->|[->| ->]]).
    assert (∀ c, c = CR ∨ c = LF → c ∉ ta → c ∉ me ++ SP :: ta ++ SP :: ve) as Hline.
    { intros c Hc Hta. rewrite !not_elem_of_app, !not_elem_of_cons, not_elem_of_app, not_elem_of_cons.
      split_and!; [apply Hmc; tauto|by destruct Hc as [->| ->]|done|by destruct Hc as [->| ->]|].
      apply version_chars; [done|tauto]. }
    split; [|apply Hline; auto].
    rewrite Hne, contains_false by auto. cbn [orb].
    rewrite splitStart_encode, token_not_http by auto. rewrite Hm. cbn [negb orb].
    rewrite bool_decide_eq_false_2 by done. by rewrite version_ok.
  - destruct Hs as (-> & -> & Hst & Hcr & Hlf). destruct (statusText_ok st Hst) as [Hco Hdi].
    assert (∀ c, c = CR ∨ c = LF → c ∉ re → c ∉ ve ++ SP :: statusText st ++ SP :: re) as Hline.
    { intros c Hc Hta. rewrite !not_elem_of_app, !not_elem_of_cons, not_elem_of_app, not_elem_of_cons.
      split_and!; [apply version_chars; tauto|by destruct Hc as [->| ->]| |by destruct Hc as [->| ->]|done].
      apply digits_chars; [done|by destruct Hc as [->| ->]]. }
    split; [|apply Hline; auto].
    rewrite Hne, contains_false by auto. cbn [orb].
    rewrite splitStart_encode; [|apply version_chars; tauto|by apply digits_chars].
    rewrite version_http, Hco, bind_ret by done. cbn [default]. by rewrite version_ok.
Qed.

(** ** Lemmas: chunk sizes *)

Lemma hex_run_digits ds v rest :
  Forall (λ d, 0 ≤ d < 16) ds →
  (∀ c rest', rest = c :: rest' → hex_digit_value c = None) →
  hex_run ((digit_char <$> ds) ++ rest) v = (foldl (λ v d, v * 16 + d) v ds, rest).
Proof.
  intros Hds Hrest. revert v. induction Hds as [|d ds Hd _ IH]; intros v; cbn.
  - destruct rest as [|c rest]; cbn; [done|]. by rewrite (Hrest c rest eq_refl).
  - assert (hex_digit_value (digit_char d) = Some d) as ->; [|apply IH].
    unfold digit_char, hex_digit_value. destruct (Z.ltb_spec d 10).
    + assert ((48 <=? 48 + d) && (48 + d <=? 57) = true) as -> by lia. f_equal. lia.
    + assert ((48 <=? 87 + d) && (87 + d <=? 57) = false) as -> by lia.
      assert ((97 <=? 87 + d) && (87 + d <=? 102) = true) as -> by lia. f_equal. lia.
Qed.

Lemma hex_spec n : 0 ≤ n → ∃ ds, hex n = digit_char <$> ds ∧ ds ≠ [] ∧
  Forall (λ d, 0 ≤ d < 16) ds ∧ foldl (λ v d, v * 16 + d) 0 ds = n.
Proof.
  intros Hn. destruct (digits_value (S (Z.to_nat (Z.log2 n))) 16 n) as [Hval Hall];
    [lia|split; [done|apply digits_fuel; lia]|].
  exists (rev (digits (S (Z.to_nat (Z.log2 n))) 16 n)). split_and!; [done| |by apply Forall_rev|].
  - intros Hnil. apply (digits_nonempty (Z.to_nat (Z.log2 n)) 16 n).
    rewrite <- (rev_involutive (digits _ _ _)). by rewrite Hnil.
  - by rewrite <- (of_digits_rev 16) in Hval.
Qed.

Lemma digit_char_range d : 0 ≤ d < 16 → 48 ≤ digit_char d ≤ 57 ∨ 97 ≤ digit_char d ≤ 102.
Proof. intros. unfold digit_char. destruct (Z.ltb_spec d 10); lia. Qed.

Lemma hex_chars n c : 0 ≤ n → c < 48 ∨ 57 < c < 97 → c ∉ hex n.
Proof.
  intros Hn Hc. destruct (hex_spec n Hn) as (ds & -> & _ & Hall & _).
  intros (d & -> & Hd)%list_elem_of_fmap. rewrite Forall_forall in Hall.
  pose proof (digit_char_range d (Hall d Hd)). lia.
Qed.

Lemma trim_back_id s : (∀ c, c ∈ s → isOws c = false) → trim_back s = s.
Proof.
  intros Hs. unfold trim_back. rewrite <- (rev_involutive s) at 2. f_equal.
  destruct (rev s) as [|c l] eqn:E; [done|]. cbn. rewrite Hs; [done|].
  apply list_elem_of_In. rewrite in_rev, E. by left.
Qed.

Lemma parseChunkSize_hex n ext :
  0 ≤ n < 2 ^ 64 → ext = [] ∨ (∃ e, ext = 59 :: e ∧ CR ∉ e) → parseChunkSize (hex n ++ ext) = Some n.
Proof.
  intros Hn Hext. unfold parseChunkSize.
  assert (H59 : 59 ∉ hex n) by (apply hex_chars; lia).
  assert (match find (hex n ++ ext) 59 0 with Some e => ztake e (hex n ++ ext) | None => hex n ++ ext end
          = hex n) as ->.
  { destruct Hext as [->|(e & -> & _)].
    - rewrite app_nil_r. unfold find. rewrite (proj2 (Z.leb_le _ _)) by apply len_nonneg.
      rewrite zdrop_0. by rewrite (proj2 (index_of_None _ _) H59).
    - rewrite find_first by done. by apply ztake_app_exact. }
  rewrite trim_back_id.
  2: { intros c Hc. unfold isOws. apply orb_false_iff. split; apply Z.eqb_neq; intros ->;
       revert Hc; apply hex_chars; unfold SP, HTAB; lia. }
  destruct (hex_spec n ltac:(lia)) as (ds & -> & Hne & Hall & Hval).
  rewrite bool_decide_eq_false_2 by (by destruct ds). unfold from_chars16.
  pose proof (hex_run_digits ds 0 [] Hall ltac:(done)) as Hrun. rewrite app_nil_r in Hrun.
  rewrite Hrun, Hval. rewrite (proj2 (Z.leb_gt _ _)), orb_false_r by lia.
  destruct ds as [|d ds]; [done|]. cbn [fmap list_fmap]. rewrite len_cons.
  rewrite (proj2 (Z.eqb_neq _ _)) by (rewrite (@len_nil Z); pose proof (len_nonneg (digit_char <$> ds)); lia).
  done.
Qed.

Lemma chunk_round_encode s c span out b :
  chunk_ok c → chunk_body s (encodeChunk c ++ span, out, b) = Ret (Next (span, out ++ c.2, len s - len span)).
Proof.
  destruct c as [ext d]. intros [He Hd]. cbn [fst snd] in *. unfold encodeChunk, CRLF. cbn [fst snd].
  assert ((hex (len d) ++ ext ++ [CR; LF] ++ d ++ [CR; LF]) ++ span =
          (hex (len d) ++ ext) ++ CR :: LF :: d ++ CR :: LF :: span) as ->
    by (by rewrite <- !app_assoc).
  apply (chunk_round_back _ _ (len d)); [by apply parseChunkSize_hex; [lia|]|lia|done|].
  rewrite not_elem_of_app. split; [apply hex_chars; unfold CR; lia|].
  destruct He as [->|(e & -> & He)]; [apply not_elem_of_nil|]. by apply not_elem_of_cons.
Qed.

Lemma chunk_loop_encode s l trailer rest out b :
  Forall chunk_ok l →
  ∃ fuel b', loop fuel (chunk_body s) (encodeChunked l trailer ++ rest, out, b) =
    Ret (NoError, (encodeFields trailer ++ rest, out ++ concat (l.*2), b')).
Proof.
  intros Hl. revert out b. induction Hl as [|c l Hc _ IH]; intros out b.
  - exists 1%nat, b. cbn [loop]. unfold encodeChunked, chunk_body. cbn [mbind list_bind].
    assert (([] ++ hex 0 ++ CRLF ++ encodeFields trailer) ++ rest =
            hex 0 ++ CR :: LF :: (encodeFields trailer ++ rest)) as -> by (cbn [app]; by rewrite <- !app_assoc).
    rewrite readLine_line, bind_ret by (apply hex_chars; unfold CR; lia). cbn [failed].
    rewrite <- (app_nil_r (hex 0)), parseChunkSize_hex by (lia || by left).
    rewrite Z.eqb_refl, bind_ret. cbn [fmap list_fmap concat]. by rewrite app_nil_r.
  - destruct (IH (out ++ c.2) (len s - len (encodeChunked l trailer ++ rest))) as (fuel & b' & Hf).
    exists (S fuel), b'. cbn [loop].
    assert (encodeChunked (c :: l) trailer ++ rest = encodeChunk c ++ (encodeChunked l trailer ++ rest)) as ->
      by (unfold encodeChunked; cbn [mbind list_bind]; by rewrite <- !app_assoc).
    rewrite chunk_round_encode, bind_ret, Hf by done. cbn [fmap list_fmap concat]. by rewrite app_assoc.
Qed.

(** ** Lemmas: messages that have not arrived in full *)

Lemma framed_length h : framed h → h.(has_content_length) = true → 0 ≤ h.(content_length).
Proof.
  intros Hf Hl. apply (fr_length _ Hf) in Hl.
  destruct (values (chars "Content-Length") (fields h)) as [|v l] eqn:E; [done|].
  destruct (fr_value _ Hf v) as (_ & Hd & <-); [rewrite E; left|].
  pose proof (foldl_digits_ge v 0 ltac:(lia) Hd) as Hge. unfold decimal_value, of_digits in *. lia.
Qed.

Lemma parse_encoded h rest : message_ok h → parse (encode h ++ rest) zeroHeader = Ret (NoError, (rest, h)).
Proof.
  intros (Hs & Hf & Hfr). destruct (startLine_encode h Hs) as [Hst Hcr].
  unfold encode, CRLF. rewrite <- app_assoc. cbn [app]. unfold parse, parseStartLine.
  rewrite readLine_line, bind_ret by done. cbn [failed]. rewrite Hst, !bind_ret. cbn [failed fields started].
  rewrite parseFields_encode, bind_ret by done. cbn [failed app].
  change (set_fields (started h) (fields h)) with (unframed h). by rewrite Hfr.
Qed.

Lemma app_not_nil {A} (s t : list A) : t ≠ [] → s ++ t = [] → False.
Proof. intros Ht [_ E]%app_eq_nil. done. Qed.

(** A header cut short asks for more. *)
Lemma parse_partial h q t :
  message_ok h → encode h = q ++ t → t ≠ [] →
  ∃ h', parse q zeroHeader = Ret (UnexpectedEof, (q, h')).
Proof.
  intros Hm E Ht. pose proof (parse_encoded h [] Hm) as Hp. rewrite app_nil_r, E in Hp.
  pose proof (wp_if_parse q zeroHeader) as Hw.
  destruct (parse q zeroHeader) as [[err [s' h']]| |] eqn:Hq; [|by rewrite (parse_app_ub _ _ t Hq) in Hp|done].
  destruct Hw as [_ Hs]. destruct (decide (err = UnexpectedEof)) as [->|Hne]; [exists h'; by rewrite Hs|].
  pose proof (parse_app _ _ t _ Hq Hne) as Ha. rewrite Hp in Ha. injection Ha as _ Hnil _.
  symmetry in Hnil. by apply app_not_nil in Hnil.
Qed.

Lemma parseFields_partial l q t :
  Forall field_ok l → encodeFields l = q ++ t → t ≠ [] →
  ∃ s' l', parseFields q false [] = Ret (UnexpectedEof, (s', l')).
Proof.
  intros Hf E Ht. pose proof (parseFields_encode l false [] [] Hf) as Hp. rewrite app_nil_r, E in Hp.
  destruct (wp_returns _ _ (wp_parseFields q false [])) as ([err [s' l']] & Hq & _).
  destruct (decide (err = UnexpectedEof)) as [->|Hne]; [by exists s', l'|].
  pose proof (parseFields_app _ _ _ t _ Hq Hne) as Ha. rewrite Hp in Ha. injection Ha as _ Hnil _.
  symmetry in Hnil. by apply app_not_nil in Hnil.
Qed.

(** One round of the chunk loop with more bytes behind. *)
Lemma chunk_stop_app s s2 span t out b b2 err span' out' b' :
  chunk_body s (span, out, b) = Ret (Stop (err, (span', out', b'))) → err ≠ UnexpectedEof →
  chunk_body s2 (span ++ t, out, b2) = Ret (Stop (err, (span' ++ t, out', b2))).
Proof.
  unfold chunk_body.
  destruct (readLineCRLF span []) as [[err1 [s1 line]]| |] eqn:E1; [|done..]. rewrite bind_ret.
  destruct (failed err1) eqn:F.
  { intros [= <- <- <- _] Hne. rewrite (readLine_app _ _ t _ _ _ E1), bind_ret by done. by rewrite F. }
  apply failed_false in F as ->. rewrite (readLine_app _ _ t _ _ _ E1), bind_ret by done. cbn [failed].
  destruct (parseChunkSize line) as [n|] eqn:En; [|by intros [= <- <- <- _]].
  destruct (n =? 0); [by intros [= <- <- <- _]|].
  destruct (Z.ltb_spec (len s1) n); [by intros [= <- _ _ _]|].
  unfold first, subspan. apply parseChunkSize_nonneg in En. pose proof (len_nonneg t).
  rewrite len_app. rewrite !(proj2 (Z.leb_le _ _)), (proj2 (Z.ltb_ge _ _)) by lia. cbn [andb].
  rewrite !bind_ret.
  assert (Hz : zdrop n (s1 ++ t) = zdrop n s1 ++ t) by (unfold zdrop; apply drop_app_le; unfold len in *; lia).
  assert (Ht : ztake n (s1 ++ t) = ztake n s1) by (unfold ztake; apply take_app_le; unfold len in *; lia).
  rewrite Hz, Ht.
  destruct (readLineCRLF (zdrop n s1) []) as [[err2 [s2' term]]| |] eqn:E2; [|done..]. rewrite bind_ret.
  destruct (failed err2) eqn:F.
  { intros [= <- <- <- _] Hne. rewrite (readLine_app _ _ t _ _ _ E2), bind_ret by done. by rewrite F. }
  apply failed_false in F as ->. rewrite (readLine_app _ _ t _ _ _ E2), bind_ret by done. cbn [failed].
  destruct (negb (bool_decide (term = []))); [by intros [= <- <- <- _]|done].
Qed.

Lemma chunk_next_app s s2 span t out b b2 span' out' b' :
  chunk_body s (span, out, b) = Ret (Next (span', out', b')) →
  chunk_body s2 (span ++ t, out, b2) = Ret (Next (span' ++ t, out', len s2 - len (span' ++ t))).
Proof.
  intros (line & n & d & Hn & Hp & Hd & Hni & -> & -> & ->)%chunk_round.
  rewrite <- app_assoc, <- !app_comm_cons, <- app_assoc, <- !app_comm_cons.
  by rewrite (chunk_round_back _ line n d).
Qed.

Definition chunk_bytes (l : list (bytes * bytes)) : bytes := l ≫= encodeChunk.

Lemma last_chunk_round s rest out b :
  chunk_body s (hex 0 ++ CRLF ++ rest, out, b) = Ret (Stop (NoError, (rest, out, b))).
Proof.
  unfold chunk_body, CRLF. cbn [app].
  rewrite readLine_line, bind_ret by (apply hex_chars; unfold CR; lia). cbn [failed].
  rewrite <- (app_nil_r (hex 0)), parseChunkSize_hex by (lia || by left). done.
Qed.

Lemma last_chunk_partial s q t trailer out b :
  hex 0 ++ CRLF ++ encodeFields trailer = q ++ t →
  ∃ err sp o, chunk_body s (q, out, b) = Ret (Stop (err, (sp, o, b))) ∧
    (err = UnexpectedEof ∨ err = NoError ∧ sp ++ t = encodeFields trailer).
Proof.
  intros E. pose proof (last_chunk_round s (encodeFields trailer) out b) as Hl. rewrite E in Hl.
  destruct (wp_returns _ _ (wp_chunk_body s (q, out, b))) as ([[[sp o] b']|[err [[sp o] b']]] & Hq & Hw).
  - apply (chunk_next_app s s q t out b b) in Hq. by rewrite Hl in Hq.
  - destruct Hw as (-> & _ & _). cbn [snd] in *. exists err, sp, o. split; [done|].
    destruct (decide (err = UnexpectedEof)) as [->|Hne]; [by left|right].
    apply (chunk_stop_app s s q t out b b) in Hq; [|done]. rewrite Hl in Hq.
    by injection Hq as <- <- _.
Qed.

Lemma chunk_partial s c q k out b :
  chunk_ok c → encodeChunk c = q ++ k → k ≠ [] →
  ∃ sp o, chunk_body s (q, out, b) = Ret (Stop (UnexpectedEof, (sp, o, b))).
Proof.
  intros Hc E Hk. pose proof (chunk_round_encode s c [] out b Hc) as Hl.
  rewrite app_nil_r, E in Hl.
  destruct (wp_returns _ _ (wp_chunk_body s (q, out, b))) as ([[[sp o] b']|[err [[sp o] b']]] & Hq & Hw).
  - apply (chunk_next_app s s q k out b b) in Hq. rewrite Hl in Hq. injection Hq as Hn _ _.
    symmetry in Hn. by apply app_not_nil in Hn.
  - destruct Hw as (-> & _ & _). cbn [snd] in *. exists sp, o.
    destruct (decide (err = UnexpectedEof)) as [->|Hne]; [done|].
    apply (chunk_stop_app s s q k out b b) in Hq; [|done]. by rewrite Hl in Hq.
Qed.

(** A chunked body cut short: the loop passes the chunks [l1] that are there in
    full, and stops in what follows. *)
Lemma chunk_loop_partial s trailer l q t out b :
  Forall chunk_ok l → encodeChunked l trailer = q ++ t → b = len s - len q →
  ∃ fuel err sp o l1 l2 q', l = l1 ++ l2 ∧ q = chunk_bytes l1 ++ q' ∧
    loop fuel (chunk_body s) (q, out, b) = Ret (err, (sp, o, b + len (chunk_bytes l1))) ∧
    (err = UnexpectedEof ∨ err = NoError ∧ sp ++ t = encodeFields trailer).
Proof.
  intros Hl. revert q out b. induction Hl as [|c l Hc Hl IH]; intros q out b E Hb.
  { destruct (last_chunk_partial s q t trailer out b E) as (err & sp & o & Hq & Hr).
    exists 1%nat, err, sp, o, [], [], q. cbn [loop]. rewrite Hq, bind_ret.
    unfold chunk_bytes. cbn [mbind list_bind app]. by rewrite (@len_nil Z), Z.add_0_r. }
  assert (E' : encodeChunk c ++ encodeChunked l trailer = q ++ t).
  { rewrite <- E. unfold encodeChunked. cbn [mbind list_bind]. by rewrite <- !app_assoc. }
  assert ((∃ k, q = encodeChunk c ++ k ∧ encodeChunked l trailer = k ++ t) ∨
          (∃ k, k ≠ [] ∧ encodeChunk c = q ++ k)) as [(k & -> & E2)|(k & Hk & Ec)].
  { apply app_eq_inv in E' as [(k & E1 & E2)|(k & E1 & E2)]; [|left; by exists k].
    destruct (decide (k = [])) as [->|Hk]; [|right; by exists k].
    left. exists []. rewrite app_nil_r in *. by subst. }
  - destruct (IH k (out ++ c.2) (len s - len k) E2 eq_refl) as (fuel & err & sp & o & l1 & l2 & q' & -> & -> & Hf & Hr).
    exists (Datatypes.S fuel), err, sp, o, (c :: l1), l2, q'. split; [done|].
    unfold chunk_bytes. cbn [mbind list_bind loop]. fold (chunk_bytes l1).
    split; [by rewrite app_assoc|]. split; [|done].
    rewrite chunk_round_encode, bind_ret, Hf by done. do 3 f_equal.
    subst b. rewrite !len_app. unfold chunk_bytes. lia.
  - destruct (chunk_partial s c q k out b Hc Ec Hk) as (sp & o & Hq).
    exists 1%nat, UnexpectedEof, sp, o, [], (c :: l), q. cbn [loop]. rewrite Hq, bind_ret.
    unfold chunk_bytes. cbn [mbind list_bind app]. rewrite (@len_nil Z), Z.add_0_r.
    split_and!; [done..|by left].
Qed.

Lemma parseChunkedBody_encoded l trailer rest out :
  Forall chunk_ok l → Forall field_ok trailer →
  parseChunkedBody (encodeChunked l trailer ++ rest) out = Ret (NoError, (rest, out ++ concat (l.*2), 0)).
Proof.
  intros Hl Ht. unfold parseChunkedBody. set (s := encodeChunked l trailer ++ rest).
  destruct (chunk_loop_encode s l trailer rest out 0 Hl) as (fuel & b' & Hf).
  destruct (wp_returns _ _ (wp_chunk_loop s out)) as (r & Hw & _).
  rewrite Hw, (loop_unique _ _ _ _ _ _ Hw Hf), bind_ret. cbn [failed].
  by rewrite parseFields_encode.
Qed.

Lemma parseChunkedBody_partial l trailer q t out :
  Forall chunk_ok l → Forall field_ok trailer → encodeChunked l trailer = q ++ t → t ≠ [] →
  ∃ l1 l2 q', l = l1 ++ l2 ∧ q = chunk_bytes l1 ++ q' ∧
    parseChunkedBody q out = Ret (UnexpectedEof, (q, out, len (chunk_bytes l1))).
Proof.
  intros Hl Htr E Ht. unfold parseChunkedBody.
  destruct (chunk_loop_partial q trailer l q t out 0 Hl E ltac:(lia))
    as (fuel & err & sp & o & l1 & l2 & q' & -> & Eq & Hf & Hr).
  exists l1, l2, q'. split; [done|]. split; [done|].
  destruct (wp_returns _ _ (wp_chunk_loop q out)) as (r & Hw & _).
  rewrite Hw, (loop_unique _ _ _ _ _ _ Hw Hf), bind_ret. destruct Hr as [->|[-> Hsp]]; [done|].
  cbn [failed]. destruct (parseFields_partial trailer sp t Htr (eq_sym Hsp) Ht) as (s' & l' & Hp).
  rewrite Hp, bind_ret. done.
Qed.

(** ** Properties *)

(** Parsing a message of plain text ends and never reads outside the span; when
    it fails the span is put back where it was, and when it succeeds it stands
    behind at least two line ends, on a part of the input. *)
Theorem parse_http_safe (s : bytes) :
  plain s →
  ∃ err s' h', parse s zeroHeader = Ret (err, (s', h')) ∧
    (err ≠ NoError → s' = s) ∧ (err = NoError → slice s' s ∧ len s' + 4 ≤ len s).
Proof.
  intros Hpl. destruct (wp_returns _ _ (wp_parse_http s Hpl)) as ([err [s' h']] & Hp & _ & Hs).
  exists err, s', h'. split; [done|]. split; [by destruct err|]. intros ->. by destruct Hs as (? & ? & _).
Qed.

(** The condition is needed: a status code with a byte from 0x80 on is undefined
    behaviour, whatever follows. *)
Theorem negative_digit (t : bytes) (h : Header) :
  parse ((chars "HTTP/1.1 " ++ [0xB2] ++ chars "00" ++ [CR; LF]) ++ t) h = UB.
Proof. apply parse_app_ub. vm_compute. reflexivity. Qed.

(** C37: the framing of an accepted message is unambiguous (RFC 9112, section
    6): it is chunked exactly when it has Transfer-Encoding fields, and then the
    last of them says chunked and there is no Content-Length; it has a length
    exactly when it has Content-Length fields, and then every one of them is the
    decimal of that length. *)
Theorem parse_framing (s s' : bytes) (h : Header) :
  parse s zeroHeader = Ret (NoError, (s', h)) → framed h.
Proof.
  intros (_ & _ & _ & Hf)%parse_posted. by apply Hf.
Qed.

(** Once a message has been accepted or rejected, more bytes behind it
    change nothing: only [UnexpectedEof] asks for more. *)
Theorem parse_extends (s t : bytes) (h : Header) (err : ParseError) (s' : bytes) (h' : Header) :
  parse s h = Ret (err, (s', h')) → err ≠ UnexpectedEof →
  parse (s ++ t) h = Ret (err, (s' ++ t, h')).
Proof. intros Hp Hne. by apply (parse_app s h t (err, (s', h'))). Qed.

(** C38: a request or response written by the reference encoder parses back to
    exactly itself, and the span continues at the body. *)
Theorem parse_encode_http (h : Header) (rest : bytes) :
  message_ok h → parse (encode h ++ rest) zeroHeader = Ret (NoError, (rest, h)).
Proof. apply parse_encoded. Qed.

(** A chunked body written by the reference encoder, with any chunk
    extensions and trailer fields, is read back as the concatenation of its
    chunks, appended to the output, and the span continues behind it. *)
Theorem parseChunkedBody_encode (l : list (bytes * bytes)) (trailer : list Field) (rest out : bytes) :
  Forall chunk_ok l → Forall field_ok trailer →
  parseChunkedBody (encodeChunked l trailer ++ rest) out = Ret (NoError, (rest, out ++ concat (l.*2), 0)).
Proof. apply parseChunkedBody_encoded. Qed.

(** C39: parsing a chunked body in instalments is parsing it at once: when the
    bytes so far end inside the body, resuming at the reported prefix once more
    bytes are there gives the answer that parsing all of them from the start
    gives. *)
Theorem parseChunkedBody_resume (s t out : bytes) (b : Z) :
  parseChunkedBody s out = Ret (UnexpectedEof, (s, out, b)) →
  ∃ d, ∀ err s' o p, parseChunkedBody (zdrop b s ++ t) (out ++ d) = Ret (err, (s', o, p)) →
    parseChunkedBody (s ++ t) out = Ret (err, if failed err then (s ++ t, out, b + p) else (s', o, 0)).
Proof. apply chunk_resume_eq. Qed.

(** ** Witnesses *)

Definition sample_request : Header :=
  mkHeader Request (chars "POST") (chars "/a?b") (chars "HTTP/1.1") 0 []
    [mkField (chars "Host") (chars "x"); mkField (chars "content-length") (chars "0005")] true 5 false.
Definition sample_bytes : bytes := encode sample_request ++ chars "hello".

Lemma sample_request_ok : message_ok sample_request.
Proof.
  split; [|split; [|by vm_compute]].
  - split; [by right|]. split_and!; try done; cbn; rewrite !not_elem_of_cons; split_and!; try done; apply not_elem_of_nil.
  - repeat constructor; try done; cbn; rewrite !not_elem_of_cons; split_and!; try done; apply not_elem_of_nil.
Qed.

Lemma parse_framing_witness : framed sample_request.
Proof. apply (parse_framing sample_bytes (chars "hello")). vm_compute. reflexivity. Defined.

Lemma parse_extends_witness :
  parse ((chars "nonsense" ++ [13; 10]) ++ [1]) zeroHeader =
  Ret (MalformedHeader, ((chars "nonsense" ++ [13; 10]) ++ [1], zeroHeader)).
Proof.
  apply (parse_extends (chars "nonsense" ++ [13; 10]) [1]); [vm_compute; reflexivity|done].
Defined.

Lemma parse_encode_http_witness :
  parse (encode sample_request ++ chars "hello") zeroHeader = Ret (NoError, (chars "hello", sample_request)).
Proof. apply parse_encode_http, sample_request_ok. Defined.

Lemma parseChunkedBody_encode_witness :
  parseChunkedBody (encodeChunked [([], chars "hello"); (chars ";x=1", chars " world")]
                      [mkField (chars "A") (chars "b")] ++ [9]) [] =
  Ret (NoError, ([9], chars "hello world", 0)).
Proof.
  apply (parseChunkedBody_encode [([], chars "hello"); (chars ";x=1", chars " world")]).
  - constructor; [split; [by left|done]|]. constructor; [|constructor].
    split; [|done]. right. exists (chars "x=1"). split; [done|]. cbn.
    rewrite !not_elem_of_cons. split_and!; try done. apply not_elem_of_nil.
  - repeat constructor; try done; cbn; rewrite !not_elem_of_cons; split_and!; try done; apply not_elem_of_nil.
Defined.

Lemma parseChunkedBody_resume_witness :
  ∃ d, ∀ err s' o p,
    parseChunkedBody (chars "7" ++ [13; 10] ++ chars "xyz") ([] ++ d) = Ret (err, (s', o, p)) →
    parseChunkedBody ((chars "2" ++ [13; 10] ++ chars "ab" ++ [13; 10] ++ chars "7" ++ [13; 10]) ++ chars "xyz") [] =
    Ret (err, if failed err
              then ((chars "2" ++ [13; 10] ++ chars "ab" ++ [13; 10] ++ chars "7" ++ [13; 10]) ++ chars "xyz", [], 7 + p)
              else (s', o, 0)).
Proof.
  apply (parseChunkedBody_resume (chars "2" ++ [13; 10] ++ chars "ab" ++ [13; 10] ++ chars "7" ++ [13; 10])
           (chars "xyz") [] 7).
  vm_compute. reflexivity.
Defined.
