(* ===== verification/DnsTable.v ===== *)
(** The table of names by address: [include/net/analysis/dns_table.h],
    [src/net/analysis/dns_table.cpp]. *)
From S2P Require Import Prelude.
From S2P Require Dns.
From stdpp Require Import gmap countable.
#[local] Open Scope Z_scope.

Record IpKey := mkIpKey { isIpv4 : bool; ip : bytes }.
#[global] Instance IpKey_eq_dec : EqDecision IpKey.
Proof. solve_decision. Defined.
#[global] Instance IpKey_countable : Countable IpKey.
Proof.
  refine (inj_countable' (λ k, (k.(isIpv4), k.(ip))) (λ '(a, b), mkIpKey a b) _).
  by intros [].
Defined.

(** [IpKeyHash]: FNV over the bytes of the key. *)
Definition hash_byte (h b : Z) : Z := u64 (Z.lxor h b * 1099511628211).
Definition IpKeyHash (k : IpKey) : Z :=
  foldl hash_byte (hash_byte 14695981039346656037 (if k.(isIpv4) then 1 else 0)) k.(ip).

Abbreviation DnsTable := (gmap IpKey (list bytes)).

Definition zero_ip : bytes := replicate 16 0.

(** The key of a record, [None] where the code continues with the next. *)
Definition recordKey (rr : Dns.ResourceRecord) : option IpKey :=
  if (rr.(Dns.type) =? Dns.TYPE_A) && (len rr.(Dns.rdata) =? 4)
  then Some (mkIpKey true (rr.(Dns.rdata) ++ zdrop 4 zero_ip))
  else if (rr.(Dns.type) =? Dns.TYPE_AAAA) && (len rr.(Dns.rdata) =? 16)
  then Some (mkIpKey false rr.(Dns.rdata))
  else None.

(** [names.push_back(name)] unless it is there. *)
Definition push_new (names : list bytes) (name : bytes) : list bytes :=
  if decide (name ∈ names) then names else names ++ [name].

Definition recordOne (t : DnsTable) (rr : Dns.ResourceRecord) : DnsTable :=
  match recordKey rr with
  | None => t
  | Some key => <[key := push_new (default [] (t !! key)) rr.(Dns.rname)]> t
  end.
Definition recordRecords (t : DnsTable) (records : list Dns.ResourceRecord) : DnsTable :=
  foldl recordOne t records.

Definition record (t : DnsTable) (message : Dns.Header) : DnsTable :=
  if negb (Dns.isResponse message) then t
  else recordRecords (recordRecords t message.(Dns.answers)) message.(Dns.additional).

Definition domainsFor (t : DnsTable) (ip : bytes) (isIpv4 : bool) : option (list bytes) :=
  t !! mkIpKey isIpv4 ip.
Definition table_size (t : DnsTable) : Z := Z.of_nat (size t).

(** ** Lemmas *)

(** What a message says of an address: the owners of its address records, in
    the order of the answer and additional sections. *)
Definition claims (key : IpKey) (rrs : list Dns.ResourceRecord) : list bytes :=
  Dns.rname <$> filter (λ rr, recordKey rr = Some key) rrs.

(** A list extended by what it does not have yet, in order. *)
Definition extend (names new : list bytes) : list bytes := foldl push_new names new.

Lemma recordRecords_lookup t rrs key :
  recordRecords t rrs !! key =
  match claims key rrs with
  | [] => t !! key
  | l => Some (extend (default [] (t !! key)) l)
  end.
Proof.
  unfold recordRecords, claims. revert t. induction rrs as [|rr rrs IH]; intros t; cbn [foldl]; [done|].
  rewrite IH, filter_cons. unfold recordOne.
  destruct (recordKey rr) as [k|] eqn:E.
  - destruct (decide (k = key)) as [->|Hne].
    + rewrite lookup_insert_eq, decide_True by done. cbn [fmap list_fmap].
      by destruct (Dns.rname <$> _).
    + rewrite lookup_insert_ne, decide_False by congruence. done.
  - by rewrite decide_False.
Qed.

Lemma recordRecords_names t rrs key :
  default [] (recordRecords t rrs !! key) = extend (default [] (t !! key)) (claims key rrs).
Proof. rewrite recordRecords_lookup. by destruct (claims key rrs). Qed.

Lemma push_new_nodup names name : NoDup names → NoDup (push_new names name).
Proof.
  intros Hn. unfold push_new. case_decide; [done|]. apply list.NoDup_app. split_and!; [done| |].
  - intros x Hx ->%list_elem_of_singleton. done.
  - apply NoDup_singleton.
Qed.
Lemma extend_nodup names new : NoDup names → NoDup (extend names new).
Proof.
  unfold extend. revert names. induction new as [|n new IH]; intros names Hn; cbn; [done|].
  by apply IH, push_new_nodup.
Qed.
Lemma extend_elem names new x : x ∈ extend names new ↔ x ∈ names ∨ x ∈ new.
Proof.
  unfold extend. revert names. induction new as [|n new IH]; intros names; cbn [foldl].
  - split; [by left|]. intros [|H%elem_of_nil]; done.
  - rewrite IH, elem_of_cons. unfold push_new. case_decide.
    + naive_solver.
    + rewrite elem_of_app, list_elem_of_singleton. naive_solver.
Qed.
Lemma extend_prefix names new : ∃ l, extend names new = names ++ l.
Proof.
  unfold extend. revert names. induction new as [|n new IH]; intros names; cbn [foldl].
  - exists []. by rewrite app_nil_r.
  - destruct (decide (n ∈ names)) as [Hin|Hin].
    + assert (push_new names n = names) as -> by (unfold push_new; by rewrite decide_True). apply IH.
    + assert (push_new names n = names ++ [n]) as -> by (unfold push_new; by rewrite decide_False).
      destruct (IH (names ++ [n])) as [l ->]. exists (n :: l). by rewrite <- app_assoc.
Qed.

(** The names of every address are there once. *)
Definition table_ok (t : DnsTable) : Prop := ∀ key names, t !! key = Some names → NoDup names.

Lemma record_ok t m : table_ok t → table_ok (record t m).
Proof.
  assert (H : ∀ t rrs, table_ok t → table_ok (recordRecords t rrs)).
  { intros t' rrs Ht key names. rewrite recordRecords_lookup.
    destruct (claims key rrs) as [|l l0]; [apply Ht|]. intros [= <-]. apply (extend_nodup _ (l :: l0)).
    destruct (t' !! key) as [l1|] eqn:E; [exact (Ht key l1 E)|apply NoDup_nil_2]. }
  intros Ht. unfold record. destruct (negb _); [done|]. by apply H, H.
Qed.

(** The addresses of a table that has grown: those it had, and whole ones. *)
Definition widened (t t' : DnsTable) : Prop :=
  ∀ key, is_Some (t' !! key) → is_Some (t !! key) ∨ len key.(ip) = 16.
#[global] Instance widened_preorder : PreOrder widened.
Proof.
  split; [by left|]. intros a b c H1 H2 key [H|H]%H2; [by apply H1|by right].
Qed.

Lemma recordKey_len rr key : recordKey rr = Some key → len key.(ip) = 16.
Proof.
  unfold recordKey. split_if; [intros [= <-]; cbn [ip]|split_if; [intros [= <-]; cbn [ip]|done]].
  - apply andb_true_iff in Hc as [_ ?%Z.eqb_eq]. rewrite len_app. change (len (zdrop 4 zero_ip)) with 12. lia.
  - by apply andb_true_iff in Hc0 as [_ ?%Z.eqb_eq].
Qed.

Lemma record_widened t m : widened t (record t m).
Proof.
  assert (H : ∀ rrs t, widened t (recordRecords t rrs)).
  { unfold recordRecords. induction rrs as [|rr rrs IH]; intros t0; [done|]. cbn [foldl].
    etrans; [|apply IH]. unfold recordOne. destruct (recordKey rr) as [k|] eqn:E; [|done].
    intros key Hk. destruct (decide (key = k)) as [->|Hne]; [right; by eapply recordKey_len|].
    rewrite lookup_insert_ne in Hk by done. by left. }
  unfold record. destruct (negb _); [done|]. etrans; apply H.
Qed.

(** ** Properties *)

(** Recording a message: a query changes nothing; a response adds to the
    names of an address exactly the owners of its address records for it, in
    the answer and additional sections; the names known before keep their
    place, and no name is there twice. *)
Theorem record_correct (t : DnsTable) (m : Dns.Header) (ip : bytes) (v4 : bool) :
  table_ok t →
  let rrs := if Dns.isResponse m then m.(Dns.answers) ++ m.(Dns.additional) else [] in
  let before := default [] (domainsFor t ip v4) in
  let after := default [] (domainsFor (record t m) ip v4) in
  table_ok (record t m) ∧ (∃ l, after = before ++ l) ∧
  (∀ name, name ∈ after ↔ name ∈ before ∨ name ∈ claims (mkIpKey v4 ip) rrs).
Proof.
  intros Ht. split; [by apply record_ok|]. unfold domainsFor, record, claims.
  destruct (Dns.isResponse m); cbn [negb].
  2: { split; [exists []; by rewrite app_nil_r|]. intros name. cbn. split; [by left|]. intros [|[]%elem_of_nil]; done. }
  rewrite list.filter_app, fmap_app, !recordRecords_names. unfold claims.
  set (a := Dns.rname <$> _). set (b := Dns.rname <$> _). set (n0 := default [] (t !! _)).
  split.
  - destruct (extend_prefix n0 a) as [l ->]. destruct (extend_prefix (n0 ++ l) b) as [l' ->].
    exists (l ++ l'). by rewrite app_assoc.
  - intros name. rewrite !extend_elem, elem_of_app. tauto.
Qed.

(** ** Witnesses *)

Lemma record_correct_witness :
  let key := [93; 184; 216; 34] ++ replicate 12 0 in
  domainsFor (record ∅ Dns.sample_message) key true = Some [(Dns.rname Dns.sample_record)] ∧
  ((Dns.rname Dns.sample_record) ∈ default [] (domainsFor (record ∅ Dns.sample_message) key true) ↔
   (Dns.rname Dns.sample_record) ∈ default [] (domainsFor (∅ : DnsTable) key true) ∨
   (Dns.rname Dns.sample_record) ∈ claims (mkIpKey true key) (Dns.answers Dns.sample_message ++ Dns.additional Dns.sample_message)).
Proof.
  split; [vm_compute; reflexivity|].
  destruct (record_correct ∅ Dns.sample_message ([93; 184; 216; 34] ++ replicate 12 0) true) as (_ & _ & H);
    [intros k n Hk; by rewrite lookup_empty in Hk|]. apply H.
Defined.
