(* ===== verification/Packet.v ===== *)
(** A decoded packet: [include/net/decode/packet.h], [src/net/decode/packet.cpp].
    Each [std::variant] is an inductive type; its [std::monostate] comes
    first. *)
From S2P Require Import Prelude Text.
From S2P Require Pcap Ethernet Vlan Ip Ipv4 Ipv6 Ipv6Ext Arp Tcp Udp Icmp Icmpv6.

Inductive DataLinkHeader :=
| DataLinkNone
| DataLinkEthernet (h : Ethernet.Header).

Inductive NetworkHeader :=
| NetworkNone
| NetworkIpv4 (h : Ipv4.Header)
| NetworkIpv6 (h : Ipv6.Header)
| NetworkArp (h : Arp.Header).

Inductive TransportHeader :=
| TransportNone
| TransportTcp (h : Tcp.Header)
| TransportUdp (h : Udp.Header)
| TransportIcmp (h : Icmp.Header)
| TransportIcmpv6 (h : Icmpv6.Header).

Record Packet := mkPacket {
  datalink : DataLinkHeader;
  vlan_tags : list Vlan.Header;
  network : NetworkHeader;
  ipv6_ext : list Ipv6Ext.Header;
  transport : TransportHeader;
  payload : bytes;
}.

Definition zeroPacket : Packet := mkPacket DataLinkNone [] NetworkNone [] TransportNone [].

Definition set_datalink (p : Packet) (d : DataLinkHeader) : Packet :=
  mkPacket d p.(vlan_tags) p.(network) p.(ipv6_ext) p.(transport) p.(payload).
Definition set_vlan_tags (p : Packet) (v : list Vlan.Header) : Packet :=
  mkPacket p.(datalink) v p.(network) p.(ipv6_ext) p.(transport) p.(payload).
Definition set_network (p : Packet) (n : NetworkHeader) : Packet :=
  mkPacket p.(datalink) p.(vlan_tags) n p.(ipv6_ext) p.(transport) p.(payload).
Definition set_ipv6_ext (p : Packet) (e : list Ipv6Ext.Header) : Packet :=
  mkPacket p.(datalink) p.(vlan_tags) p.(network) e p.(transport) p.(payload).
Definition set_transport (p : Packet) (t : TransportHeader) : Packet :=
  mkPacket p.(datalink) p.(vlan_tags) p.(network) p.(ipv6_ext) t p.(payload).
Definition set_payload (p : Packet) (s : bytes) : Packet :=
  mkPacket p.(datalink) p.(vlan_tags) p.(network) p.(ipv6_ext) p.(transport) s.

(** The accessors ([std::get_if]). *)
Definition ethernet (p : Packet) : option Ethernet.Header :=
  match p.(datalink) with DataLinkEthernet h => Some h | _ => None end.
Definition ipv4 (p : Packet) : option Ipv4.Header :=
  match p.(network) with NetworkIpv4 h => Some h | _ => None end.
Definition ipv6 (p : Packet) : option Ipv6.Header :=
  match p.(network) with NetworkIpv6 h => Some h | _ => None end.
Definition arp (p : Packet) : option Arp.Header :=
  match p.(network) with NetworkArp h => Some h | _ => None end.
Definition tcp (p : Packet) : option Tcp.Header :=
  match p.(transport) with TransportTcp h => Some h | _ => None end.
Definition udp (p : Packet) : option Udp.Header :=
  match p.(transport) with TransportUdp h => Some h | _ => None end.
Definition icmp (p : Packet) : option Icmp.Header :=
  match p.(transport) with TransportIcmp h => Some h | _ => None end.
Definition icmpv6 (p : Packet) : option Icmpv6.Header :=
  match p.(transport) with TransportIcmpv6 h => Some h | _ => None end.

Definition is_Some_b {A} (o : option A) : bool := match o with Some _ => true | None => false end.
Definition isArp (p : Packet) : bool := is_Some_b (arp p).
Definition isTcp (p : Packet) : bool := is_Some_b (tcp p).
Definition isUdp (p : Packet) : bool := is_Some_b (udp p).
Definition hasIpv6Ext (p : Packet) : bool := negb (bool_decide (p.(ipv6_ext) = [])).

Definition setDatatypeFromLinktype (p : Packet) (linktype : Z) : Packet :=
  set_datalink p
    (if linktype =? Pcap.LINKTYPE_ETHERNET then DataLinkEthernet Ethernet.zeroHeader
     else DataLinkNone).

Definition setNetworkFromEthertype (p : Packet) (ethertype : Z) : Packet :=
  set_network p
    (if ethertype =? Ethernet.ETHERTYPE_IPV4 then NetworkIpv4 Ipv4.zeroHeader
     else if ethertype =? Ethernet.ETHERTYPE_IPV6 then NetworkIpv6 Ipv6.zeroHeader
     else if ethertype =? Ethernet.ETHERTYPE_ARP then NetworkArp Arp.zeroHeader
     else NetworkNone).

Definition setTransportFromProtocol (p : Packet) (protocol : Z) : Packet :=
  set_transport p
    (if protocol =? Ip.PROTOCOL_TCP then TransportTcp Tcp.zeroHeader
     else if protocol =? Ip.PROTOCOL_UDP then TransportUdp Udp.zeroHeader
     else if protocol =? Ip.PROTOCOL_ICMP then TransportIcmp Icmp.zeroHeader
     else if protocol =? Ip.PROTOCOL_ICMPV6 then TransportIcmpv6 Icmpv6.zeroHeader
     else TransportNone).

(** [reset] keeps the link layer and the payload. *)
Definition reset (p : Packet) : Packet :=
  mkPacket p.(datalink) [] NetworkNone [] TransportNone p.(payload).

(** ** Printing *)

(** [if (h) oss << *h << '\n']. *)
Definition printIf {A} (h : option A) (print : A → outcome bytes) : outcome bytes :=
  match h with
  | Some h => s ← print h; Ret (s ++ [newline])
  | None => Ret []
  end.
Definition pure {A} (print : A → bytes) (h : A) : outcome bytes := Ret (print h).

(** A [for] over a vector, each element printed in turn. *)
Fixpoint printAll {A} (print : A → outcome bytes) (l : list A) : outcome bytes :=
  match l with
  | [] => Ret []
  | h :: l => s ← print h; t ← printAll print l; Ret (s ++ [newline] ++ t)
  end.

Definition toString (p : Packet) : outcome bytes :=
  s1 ← printIf (ethernet p) Ethernet.toString;
  s2 ← printAll (pure Vlan.toString) p.(vlan_tags);
  s3 ← printIf (ipv4 p) (pure Ipv4.toString);
  s4 ← printIf (ipv6 p) Ipv6.toString;
  s5 ← printAll Ipv6Ext.toString p.(ipv6_ext);
  s6 ← printIf (arp p) Arp.toString;
  s7 ← printIf (udp p) (pure Udp.toString);
  s8 ← printIf (tcp p) (pure Tcp.toString);
  s9 ← printIf (icmp p) (pure Icmp.toString);
  s10 ← printIf (icmpv6 p) (pure Icmpv6.toString);
  Ret (s1 ++ s2 ++ s3 ++ s4 ++ s5 ++ s6 ++ s7 ++ s8 ++ s9 ++ s10).

(** [printProtocol]: the stream and whether nothing was printed before. *)
Definition printProtocol {A} (h : option A) (toJson : A → outcome bytes) (st : bytes * bool)
    : outcome (bytes * bool) :=
  let '(oss, first) := st in
  match h with
  | Some h =>
      let oss := if first then oss else oss ++ chars "," ++ [newline] in
      j ← toJson h;
      Ret (oss ++ indent j (chars "  "), false)
  | None => Ret (oss, first)
  end.

(** The elements of a JSON array, the member name erased from each. *)
Fixpoint printElements {A} (toJson : A → outcome bytes) (skip : Z) (l : list A) (i : bool)
    : outcome bytes :=
  match l with
  | [] => Ret []
  | h :: l =>
      j ← toJson h;
      t ← printElements toJson skip l true;
      Ret (when i (chars "," ++ [newline]) ++ indent (zdrop skip j) (chars "    ") ++ t)
  end.
Definition printArray {A} (name : bytes) (toJson : A → outcome bytes) (skip : Z) (l : list A)
    (st : bytes * bool) : outcome (bytes * bool) :=
  let '(oss, first) := st in
  match l with
  | [] => Ret (oss, first)
  | _ =>
      let oss := if first then oss else oss ++ chars "," ++ [newline] in
      e ← printElements toJson skip l false;
      Ret (oss ++ name ++ e ++ [newline] ++ chars "  ]", false)
  end.

Definition toJson (p : Packet) : outcome bytes :=
  let oss := jstr "`packet`: {" ++ [newline] in
  st ← printProtocol (ethernet p) Ethernet.toJson (oss, true);
  st ← printArray (jstr "  `vlan`: [" ++ [newline]) (pure Vlan.toJson) 8 p.(vlan_tags) st;
  st ← printProtocol (ipv4 p) (pure Ipv4.toJson) st;
  st ← printProtocol (ipv6 p) Ipv6.toJson st;
  st ← printArray (jstr "  `ipv6_ext`: [" ++ [newline]) Ipv6Ext.toJson 12 p.(ipv6_ext) st;
  st ← printProtocol (arp p) Arp.toJson st;
  st ← printProtocol (udp p) (pure Udp.toJson) st;
  st ← printProtocol (tcp p) (pure Tcp.toJson) st;
  st ← printProtocol (icmp p) (pure Icmp.toJson) st;
  '(oss, first) ← printProtocol (icmpv6 p) (pure Icmpv6.toJson) st;
  Ret (oss ++ when (negb first) [newline] ++ chars "}" ++ [newline]).

(** ** Lemmas *)

(** The parts the printers read through are whole. *)
Record printable (p : Packet) : Prop := {
  pr_eth : ∀ h, p.(datalink) = DataLinkEthernet h →
    len h.(Ethernet.dst_mac) = 6 ∧ len h.(Ethernet.src_mac) = 6;
  pr_ipv6 : ∀ h, p.(network) = NetworkIpv6 h →
    len h.(Ipv6.src_ip) = 16 ∧ len h.(Ipv6.dst_ip) = 16;
  pr_arp : ∀ h, p.(network) = NetworkArp h → Arp.addressed h;
  pr_ext : Forall (λ h, len h.(Ipv6Ext.final_dst) = 16) p.(ipv6_ext);
}.

Lemma Ipv6_wp_print h : len h.(Ipv6.src_ip) = 16 → len h.(Ipv6.dst_ip) = 16 →
  wp (Ipv6.toString h) (λ _, True) ∧ wp (Ipv6.toJson h) (λ _, True).
Proof.
  intros Hs Hd. split; do 2 (apply wp_bind; eapply wp_mono; [by apply Ipv6.wp_printIp_ipv6|]; intros ? _);
    by apply wp_ret.
Qed.

Lemma wp_printIf {A} (h : option A) print :
  (∀ x, h = Some x → wp (print x) (λ _, True)) → wp (printIf h print) (λ _, True).
Proof.
  intros H. destruct h as [x|]; [|by apply wp_ret]. cbn [printIf]. wp_step.
  eapply wp_mono; [by apply H|]. intros. by apply wp_ret.
Qed.
Lemma wp_printAll {A} (print : A → outcome bytes) l :
  Forall (λ x, wp (print x) (λ _, True)) l → wp (printAll print l) (λ _, True).
Proof.
  induction 1 as [|x l Hx Hl IH]; [by apply wp_ret|]. cbn [printAll]. wp_step.
  eapply wp_mono; [apply Hx|]. intros s _. wp_step.
  eapply wp_mono; [apply IH|]. intros. by apply wp_ret.
Qed.
Lemma wp_printProtocol {A} (h : option A) json st :
  (∀ x, h = Some x → wp (json x) (λ _, True)) → wp (printProtocol h json st) (λ _, True).
Proof.
  intros H. destruct st. destruct h as [x|]; [|by apply wp_ret]. cbn [printProtocol]. wp_step.
  eapply wp_mono; [by apply H|]. intros. by apply wp_ret.
Qed.
Lemma wp_printArray {A} name (json : A → outcome bytes) skip l st :
  Forall (λ x, wp (json x) (λ _, True)) l → wp (printArray name json skip l st) (λ _, True).
Proof.
  intros Hl. assert (He : ∀ i, wp (printElements json skip l i) (λ _, True)).
  { induction Hl as [|x l Hx Hl IH]; intros i; [by apply wp_ret|]. cbn [printElements]. wp_step.
    eapply wp_mono; [apply Hx|]. intros s _. wp_step.
    eapply wp_mono; [apply IH|]. intros. by apply wp_ret. }
  destruct st as [oss first]. unfold printArray. destruct l; [by apply wp_ret|].
  cbn zeta. wp_step. eapply wp_mono; [apply He|]. intros. by apply wp_ret.
Qed.

Lemma wp_print_packet p : printable p → wp (toString p) (λ _, True) ∧ wp (toJson p) (λ _, True).
Proof.
  intros [He H6 Ha Hx].
  assert (Hpure : ∀ A (f : A → bytes) l, Forall (λ x, wp (pure f x) (λ _, True)) l)
    by (intros; by apply Forall_true).
  assert (Heth : ∀ h, ethernet p = Some h →
    wp (Ethernet.toString h) (λ _, True) ∧ wp (Ethernet.toJson h) (λ _, True)).
  { unfold ethernet. intros h. destruct (datalink p) eqn:E; [done|]. intros [= ->].
    destruct (He h eq_refl). by apply Ethernet.wp_print_ethernet. }
  assert (Hv6 : ∀ h, ipv6 p = Some h →
    wp (Ipv6.toString h) (λ _, True) ∧ wp (Ipv6.toJson h) (λ _, True)).
  { unfold ipv6. intros h. destruct (network p) eqn:E; try done. intros [= ->].
    destruct (H6 h eq_refl). by apply Ipv6_wp_print. }
  assert (Harp : ∀ h, arp p = Some h →
    wp (Arp.toString h) (λ _, True) ∧ wp (Arp.toJson h) (λ _, True)).
  { unfold arp. intros h. destruct (network p) eqn:E; try done. intros [= ->].
    by apply Arp.wp_print_arp, Ha. }
  assert (Hext : Forall (λ h, wp (Ipv6Ext.toString h) (λ _, True)) p.(ipv6_ext) ∧
                 Forall (λ h, wp (Ipv6Ext.toJson h) (λ _, True)) p.(ipv6_ext)).
  { split; (eapply Forall_impl; [exact Hx|]); intros h Hh; by apply Ipv6Ext.wp_print_ipv6ext. }
  destruct Hext.
  split; unfold toString, toJson; cbn zeta;
    repeat (apply wp_bind; eapply (wp_mono _ (λ _, True));
      [first [ apply wp_printIf | apply wp_printAll | apply wp_printProtocol
             | apply wp_printArray ]; try done; intros ? Hin;
       first [ by apply Heth | by apply Hv6 | by apply Harp ]|]; intros ? _);
    by wp_steps.
Qed.
