(* ===== verification/PacketDecoder.v ===== *)
(** The layer-by-layer decoder: [include/net/decode/packet_decoder.h],
    [src/net/decode/packet_decoder.cpp].  The span and the packet are the
    references the functions take; a header is parsed in place inside its
    variant. *)
From S2P Require Import Prelude Endian ParseError Packet.
From S2P Require Ethernet Vlan Ip Ipv4 Ipv6 Ipv6Ext Arp Tcp Udp Icmp Icmpv6.

Abbreviation result := (ParseError * (bytes * Packet))%type.

(** The [while] over the VLAN tags: it stops with an error, or with the type
    that follows the last tag. *)
Definition isVlanType (ethertype : Z) : bool :=
  (ethertype =? Ethernet.ETHERTYPE_VLAN) || (ethertype =? Ethernet.ETHERTYPE_VLAN_QQ).

Definition vlan_body (st : bytes * Packet * Z)
    : outcome (control (bytes * Packet * Z) (ParseError * (bytes * Packet * Z))) :=
  let '(span, out, ethertype) := st in
  if isVlanType ethertype then
    if Vlan.MAX_TAGS <=? len out.(vlan_tags)
    then Ret (Stop (MalformedHeader, (span, out, ethertype))) else
    '(err, (span, vtag)) ← Vlan.parse span Vlan.zeroHeader Big;
    if failed err then Ret (Stop (err, (span, out, ethertype))) else
    let ethertype := vtag.(Vlan.ethertype) in
    Ret (Next (span, set_vlan_tags out (out.(vlan_tags) ++ [vtag]), ethertype))
  else Ret (Stop (NoError, (span, out, ethertype))).

Definition decodeLayer2 (span : bytes) (out : Packet) : outcome result :=
  match out.(datalink) with
  | DataLinkEthernet eth =>
      '(err, (span, eth)) ← Ethernet.parse span eth Big;
      let out := set_datalink out (DataLinkEthernet eth) in
      if failed err then Ret (err, (span, out)) else
      '(err, (span, out, ethertype)) ←
        loop 6 vlan_body (span, out, eth.(Ethernet.ethertype));
      if failed err then Ret (err, (span, out)) else
      let eth := Ethernet.set_ethertype eth ethertype in
      let out := set_datalink out (DataLinkEthernet eth) in
      Ret (NoError, (span, setNetworkFromEthertype out eth.(Ethernet.ethertype)))
  | DataLinkNone => Ret (UnsupportedLinktype, (span, out))
  end.

(** The [while] over the IPv6 extension headers. *)
Inductive ext_result :=
| ExtError (err : ParseError)
| ExtFragment
| ExtDone (next_header : Z).

Definition ext_body (st : bytes * Packet * Z)
    : outcome (control (bytes * Packet * Z) (ext_result * (bytes * Packet))) :=
  let '(span, out, next_header) := st in
  if Ipv6Ext.isExtension next_header then
    if Ipv6Ext.MAX_HEADERS <=? len out.(ipv6_ext)
    then Ret (Stop (ExtError MalformedHeader, (span, out))) else
    if (next_header =? Ip.PROTOCOL_HOPOPT) && hasIpv6Ext out
    then Ret (Stop (ExtError InvalidFieldValue, (span, out))) else
    '(err, (span, ext)) ← Ipv6Ext.parse span Ipv6Ext.zeroHeader next_header Big;
    if failed err then Ret (Stop (ExtError err, (span, out))) else
    let out := set_ipv6_ext out (out.(ipv6_ext) ++ [ext]) in
    if Ipv6Ext.isFragment ext then Ret (Stop (ExtFragment, (span, out)))
    else Ret (Next (span, out, ext.(Ipv6Ext.next_header)))
  else Ret (Stop (ExtDone next_header, (span, out))).

Definition decodeLayer3 (span : bytes) (out : Packet) (verify_checksum : bool) : outcome result :=
  match out.(network) with
  | NetworkIpv4 v4 =>
      '(err, (span, v4)) ← Ipv4.parse span v4 Big verify_checksum;
      let out := set_network out (NetworkIpv4 v4) in
      if failed err then Ret (err, (span, out)) else
      Ret (NoError, (span, setTransportFromProtocol out v4.(Ipv4.protocol)))
  | NetworkIpv6 v6 =>
      '(err, (span, v6)) ← Ipv6.parse span v6 Big;
      let out := set_network out (NetworkIpv6 v6) in
      if failed err then Ret (err, (span, out)) else
      '(r, (span, out)) ← loop 10 ext_body (span, out, v6.(Ipv6.next_header));
      match r with
      | ExtError err => Ret (err, (span, out))
      | ExtFragment => Ret (NoError, (span, out))
      | ExtDone next_header => Ret (NoError, (span, setTransportFromProtocol out next_header))
      end
  | NetworkArp arp =>
      '(err, (span, arp)) ← Arp.parse span arp Big;
      Ret (err, (span, set_network out (NetworkArp arp)))
  | NetworkNone => Ret (UnsupportedNetworkType, (span, out))
  end.

Definition decodeLayer4 (span : bytes) (out : Packet) (verify_checksum : bool) : outcome result :=
  match out.(network) with
  | NetworkIpv4 ip =>
      match out.(transport) with
      | TransportTcp h =>
          '(err, (span, h)) ← Tcp.parse4 span h ip Big verify_checksum;
          Ret (err, (span, set_transport out (TransportTcp h)))
      | TransportUdp h =>
          '(err, (span, h)) ← Udp.parse4 span h ip Big verify_checksum;
          Ret (err, (span, set_transport out (TransportUdp h)))
      | TransportIcmp h =>
          '(err, (span, h)) ← Icmp.parse span h Big verify_checksum;
          Ret (err, (span, set_transport out (TransportIcmp h)))
      | TransportIcmpv6 _ | TransportNone => Ret (UnsupportedTransportType, (span, out))
      end
  | NetworkIpv6 fixed =>
      let ip := if hasIpv6Ext out then Ipv6Ext.pseudoHeader fixed out.(ipv6_ext) (len span)
                else fixed in
      match out.(transport) with
      | TransportTcp h =>
          '(err, (span, h)) ← Tcp.parse6 span h ip Big verify_checksum;
          Ret (err, (span, set_transport out (TransportTcp h)))
      | TransportUdp h =>
          '(err, (span, h)) ← Udp.parse6 span h ip Big verify_checksum;
          Ret (err, (span, set_transport out (TransportUdp h)))
      | TransportIcmpv6 h =>
          '(err, (span, h)) ← Icmpv6.parse span h ip Big verify_checksum;
          Ret (err, (span, set_transport out (TransportIcmpv6 h)))
      | TransportIcmp _ | TransportNone => Ret (UnsupportedTransportType, (span, out))
      end
  | NetworkArp _ => Ret (NoError, (span, out))
  | NetworkNone => Ret (UnsupportedTransportType, (span, out))
  end.

Definition decodePacket (span : bytes) (out : Packet) (verify_checksum : bool) : outcome result :=
  '(err, (span, out)) ← decodeLayer2 span out;
  if failed err then Ret (err, (span, out)) else
  '(err, (span, out)) ← decodeLayer3 span out verify_checksum;
  if failed err then Ret (err, (span, out)) else
  if isArp out then Ret (NoError, (span, out)) else
  '(err, (span, out)) ← decodeLayer4 span out verify_checksum;
  if failed err then Ret (err, (span, out)) else
  Ret (NoError, (span, set_payload out span)).

(** ** Lemmas: safety of the layers *)

(** The packet [Decoder::decode] hands over: reset, its link layer chosen. *)
Record fresh (p : Packet) : Prop := {
  fr_tags : p.(vlan_tags) = [];
  fr_network : p.(network) = NetworkNone;
  fr_ext : p.(ipv6_ext) = [];
  fr_transport : p.(transport) = TransportNone;
}.

Definition eth_whole (p : Packet) : Prop :=
  match p.(datalink) with
  | DataLinkEthernet h => len h.(Ethernet.dst_mac) = 6 ∧ len h.(Ethernet.src_mac) = 6
  | DataLinkNone => True
  end.

(** The VLAN loop changes the tags and nothing else of the packet. *)
Lemma wp_vlan span out ethertype :
  out.(vlan_tags) = [] →
  wp (loop 6 vlan_body (span, out, ethertype)) (λ '(err, (span', out', t)),
    slice span' span ∧ (∃ tags, out' = set_vlan_tags out tags ∧ len tags ≤ Vlan.MAX_TAGS) ∧
    (err = NoError → isVlanType t = false)).
Proof.
  intros Hv.
  eapply (wp_loop (λ '(s, o, t), slice s span ∧
      ∃ tags, o = set_vlan_tags out tags ∧ len tags ≤ Vlan.MAX_TAGS) _
    (λ '(s, o, t), 4 - len o.(vlan_tags))).
  - intros [[s o] t] (Hs & tags & -> & Ht). unfold vlan_body, Vlan.MAX_TAGS in *.
    cbn [vlan_tags set_vlan_tags].
    split_if; [|apply wp_ret; split_and!; [done|by eexists|done]].
    split_if; [apply wp_ret; split_and!; [done|by eexists|done]|].
    wp_step. eapply wp_mono; [apply Vlan.wp_parse_vlan|]. intros [err [s' vtag]] Hp.
    split_if.
    + apply wp_ret. assert (s' = s) as -> by (destruct err; done).
      split_and!; [done|by eexists|intros ->; done].
    + apply failed_false in Hc1 as ->. destruct Hp as (_ & -> & _). apply wp_ret.
      assert (len (tags ++ [vtag]) = len tags + 1) by (by rewrite len_app).
      cbn [set_vlan_tags vlan_tags]. pose proof (len_nonneg tags).
      split; [|lia]. split; [eauto with pcap|]. eexists. split; [done|lia].
  - split; [auto with pcap|]. exists []. split; [|done]. unfold set_vlan_tags. rewrite <- Hv.
    by destruct out.
  - rewrite Hv. done.
Qed.

Lemma wp_decodeLayer2 span out :
  fresh out → eth_whole out →
  wp (decodeLayer2 span out) (λ '(err, (span', out')),
    slice span' span ∧ len out'.(vlan_tags) ≤ Vlan.MAX_TAGS ∧ eth_whole out' ∧
    out'.(ipv6_ext) = [] ∧ out'.(transport) = TransportNone ∧ out'.(payload) = out.(payload)).
Proof.
  intros [Hv Hn Hx Ht] He. unfold decodeLayer2, eth_whole in *.
  destruct (datalink out) as [|eth] eqn:Ed.
  { apply wp_ret. rewrite Ed, Hv. split_and!; auto with pcap. by rewrite len_nil. }
  wp_step. eapply wp_mono; [apply Ethernet.wp_parse_ethernet|]. intros [err [s eth']] Hp. split_if.
  { apply wp_ret. cbn [datalink set_datalink vlan_tags ipv6_ext transport payload].
    assert (s = span ∧ eth' = eth) as [-> ->] by (destruct err; naive_solver).
    rewrite Hv. split_and!; auto with pcap; [by rewrite len_nil|apply He..]. }
  apply failed_false in Hc as ->. destruct Hp as (_ & -> & Hd & Hs). wp_step.
  eapply wp_mono; [by apply wp_vlan|]. intros [err [[s o] t]] (Hsl & (tags & -> & Hlen) & _).
  assert (slice s span) by (eapply slice_trans; [exact Hsl|auto with pcap]).
  split_if; apply wp_ret; cbn; split_and!; auto.
Qed.

(** The chain of extension headers: each is of the type the one before it
    announced, none but the first is a hop-by-hop header, none is a fragment of
    a larger packet. *)
Fixpoint ext_chain (first : Z) (exts : list Ipv6Ext.Header) (final : Z) : Prop :=
  match exts with
  | [] => first = final
  | e :: exts => Ipv6Ext.isExtension first = true ∧ e.(Ipv6Ext.type) = first ∧
                 ext_chain e.(Ipv6Ext.next_header) exts final
  end.

Record chain_ok (first : Z) (exts : list Ipv6Ext.Header) (final : Z) : Prop := {
  ch_links : ext_chain first exts final;
  ch_whole : Forall (λ e, Ipv6Ext.isFragment e = false) exts;
  ch_hopopt : Forall (λ e, e.(Ipv6Ext.type) ≠ Ip.PROTOCOL_HOPOPT) (tail exts);
}.

Lemma ext_chain_snoc first exts n e :
  ext_chain first exts n → Ipv6Ext.isExtension n = true → e.(Ipv6Ext.type) = n →
  ext_chain first (exts ++ [e]) e.(Ipv6Ext.next_header).
Proof.
  revert first. induction exts as [|x exts IH]; intros first; cbn.
  - by intros ->.
  - intros (? & ? & ?) ? ?. split_and!; auto.
Qed.

Lemma chain_ok_snoc first exts n e :
  chain_ok first exts n → Ipv6Ext.isExtension n = true → e.(Ipv6Ext.type) = n →
  Ipv6Ext.isFragment e = false → (n = Ip.PROTOCOL_HOPOPT → exts = []) →
  chain_ok first (exts ++ [e]) e.(Ipv6Ext.next_header).
Proof.
  intros [Hl Hw Hh] Hn He Hf Hop. split.
  - by eapply ext_chain_snoc.
  - apply Forall_app. auto.
  - destruct exts as [|x exts]; cbn in *; [done|].
    apply Forall_app. split; [done|]. constructor; [|done]. rewrite He. by intros ?%Hop.
Qed.

(** The extension loop keeps the fixed header; behind a fragment the transport
    stays unset. *)
Lemma wp_ext span out next_header :
  bytes_ok span → is_byte next_header → out.(ipv6_ext) = [] →
  wp (loop 10 ext_body (span, out, next_header)) (λ '(r, (span', out')),
    slice span' span ∧ (∃ exts, out' = set_ipv6_ext out exts ∧ len exts ≤ Ipv6Ext.MAX_HEADERS ∧
      Forall Ipv6Ext.Header_typed exts ∧
      match r with
      | ExtError err => err ≠ NoError
      | ExtFragment => True
      | ExtDone final => chain_ok next_header exts final
      end)).
Proof.
  intros Hok Hn Hx.
  eapply (wp_loop (λ '(s, o, n), slice s span ∧ is_byte n ∧
      ∃ exts, o = set_ipv6_ext out exts ∧ len exts ≤ Ipv6Ext.MAX_HEADERS ∧
        Forall Ipv6Ext.Header_typed exts ∧ chain_ok next_header exts n) _
    (λ '(s, o, n), 8 - len o.(ipv6_ext))).
  - intros [[s o] n] (Hs & Hb & exts & -> & He & Hty & Hch). unfold ext_body, Ipv6Ext.MAX_HEADERS in *.
    cbn [ipv6_ext set_ipv6_ext].
    split_if; [|apply wp_ret; split; [done|by eexists]].
    do 2 (split_if; [apply wp_ret; split; [done|by eexists]|]).
    wp_step. eapply wp_mono; [apply Ipv6Ext.wp_parse_ipv6ext; eauto with pcap|].
    intros [err [s' ext]] Hp. split_if.
    + apply wp_ret. assert (s' = s) as -> by (destruct err; done).
      split; [done|]. eexists. split_and!; try done. by apply failed_true.
    + apply failed_false in Hc2 as ->. destruct Hp as (Htx & Hxt & _ & ->).
      assert (slice (zdrop (Ipv6Ext.length_ ext) s) span) by eauto with pcap.
      assert (len (exts ++ [ext]) = len exts + 1) by (by rewrite len_app).
      pose proof (len_nonneg exts).
      assert (Forall Ipv6Ext.Header_typed (exts ++ [ext])) by (apply Forall_app; auto).
      split_if; apply wp_ret.
      * split; [done|]. eexists. split; [done|]. split_and!; [lia|done|done].
      * cbn [ipv6_ext set_ipv6_ext]. split; [|lia]. split_and!; [done|by destruct Htx|].
        eexists. split; [done|]. split_and!; [lia|done|].
        apply (chain_ok_snoc _ _ n); auto. intros ->. cbn [Z.eqb Ip.PROTOCOL_HOPOPT andb] in Hc1.
        unfold hasIpv6Ext in Hc1. cbn [ipv6_ext set_ipv6_ext] in Hc1.
        apply negb_false_iff, bool_decide_eq_true in Hc1. done.
  - split; [auto with pcap|]. split; [done|]. exists []. split_and!; try done.
    unfold set_ipv6_ext. rewrite <- Hx. by destruct out.
  - rewrite Hx. done.
Qed.

(** The transport header is of the kind the last protocol number announced. *)
Definition matches (protocol : Z) (t : TransportHeader) : Prop :=
  match t with
  | TransportNone => True
  | TransportTcp _ => protocol = Ip.PROTOCOL_TCP
  | TransportUdp _ => protocol = Ip.PROTOCOL_UDP
  | TransportIcmp _ => protocol = Ip.PROTOCOL_ICMP
  | TransportIcmpv6 _ => protocol = Ip.PROTOCOL_ICMPV6
  end.

Definition dispatched (p : Packet) : Prop :=
  match p.(network) with
  | NetworkIpv4 ip => matches ip.(Ipv4.protocol) p.(transport)
  | NetworkIpv6 ip => p.(transport) = TransportNone ∨
      ∃ final, chain_ok ip.(Ipv6.next_header) p.(ipv6_ext) final ∧ matches final p.(transport)
  | _ => True
  end.

Lemma matches_set p protocol : matches protocol (setTransportFromProtocol p protocol).(transport).
Proof. cbn. repeat split_if; cbn; lia. Qed.

(** What layer 4 relies on: the network header is whole, and the span is what
    its length field says. *)
Definition network_ok (span : bytes) (p : Packet) : Prop :=
  match p.(network) with
  | NetworkNone => False
  | NetworkIpv4 h => Ipv4.Header_typed h ∧ Ipv4.header_length h ≤ h.(Ipv4.total_length)
  | NetworkIpv6 h => Ipv6.Header_typed h
  | NetworkArp h => Arp.addressed h
  end.

Lemma wp_decodeLayer3 span out verify :
  bytes_ok span → out.(ipv6_ext) = [] →
  wp (decodeLayer3 span out verify) (λ '(err, (span', out')),
    slice span' span ∧ out'.(vlan_tags) = out.(vlan_tags) ∧ out'.(datalink) = out.(datalink) ∧
    out'.(payload) = out.(payload) ∧ len out'.(ipv6_ext) ≤ Ipv6Ext.MAX_HEADERS ∧
    Forall Ipv6Ext.Header_typed out'.(ipv6_ext) ∧
    (isArp out' = true → out'.(transport) = out.(transport)) ∧
    (err = NoError → out.(transport) = TransportNone → dispatched out') ∧
    (err = NoError → network_ok span' out')).
Proof.
  intros Hok Hx. unfold decodeLayer3, network_ok.
  assert (Hnil : len out.(ipv6_ext) ≤ Ipv6Ext.MAX_HEADERS ∧ Forall Ipv6Ext.Header_typed out.(ipv6_ext))
    by (rewrite Hx; split; [done|constructor]).
  destruct Hnil as [Hnil1 Hnil2].
  destruct (network out) as [|h|h|h] eqn:En.
  - apply wp_ret. rewrite En. by split_and!; auto with pcap.
  - wp_step. eapply wp_mono; [by apply Ipv4.wp_parse_ipv4|]. intros [err [s h']] Hp.
    split_if; apply wp_ret.
    + assert (s = span) as -> by (destruct err; done).
      split_and!; auto with pcap; by intros ->.
    + apply failed_false in Hc as ->. destruct Hp as (? & ? & ? & -> & ?).
      split_and!; eauto with pcap; [done| |].
      * intros _ _. apply (matches_set (set_network out (NetworkIpv4 h'))).
      * intros _. cbn [network setTransportFromProtocol set_transport set_network]. split; [done|lia].
  - wp_step. eapply wp_mono; [by apply Ipv6.wp_parse_ipv6|]. intros [err [s h']] [Hs Hp]. split_if.
    { apply wp_ret. split_and!; auto with pcap; by intros ->. }
    apply failed_false in Hc as ->. destruct (Hp eq_refl) as (? & ? & -> & Hty).
    wp_step. eapply wp_mono; [apply wp_ext; [eauto with pcap|by destruct Hty|done]|].
    intros [r [s' out']] (Hs' & exts & -> & Hl & Hf & Hr).
    assert (slice s' span) by (by eapply slice_trans).
    destruct r as [err| |final]; apply wp_ret; split_and!; auto; try done.
    + intros _ Ht. by left.
    + intros _ _. right. exists final. split; [done|].
      apply (matches_set (set_ipv6_ext (set_network out (NetworkIpv6 h')) exts)).
  - wp_step. eapply wp_mono; [by apply Arp.wp_parse_arp|]. intros [err [s h']] Hp. apply wp_ret.
    split_and!; auto; [|done|by intros ->; destruct Hp].
    destruct err; try (subst; auto with pcap). by destruct Hp.
Qed.

(** What a length field of the network header leaves. *)
Lemma wp_layer3_short span out verify :
  bytes_ok span → out.(ipv6_ext) = [] →
  wp (decodeLayer3 span out verify) (λ '(err, (span', out')),
    err = NoError → isArp out' = false → len span' < 65536).
Proof.
  intros Hok Hx. unfold decodeLayer3. destruct (network out) as [|h|h|h] eqn:En.
  - by apply wp_ret.
  - wp_step. eapply wp_mono; [by apply Ipv4.wp_parse_ipv4|]. intros [err [s h']] Hp.
    split_if; apply wp_ret; [by intros ->|]. apply failed_false in Hc as ->.
    destruct Hp as (Hl & Ht & _ & -> & [Htot _ _ _]). intros _ _. unfold Ipv4.MIN_HEADER_LEN, Ipv4.MIN_IHL in Hl.
    rewrite len_ztake; [lia|]. rewrite len_zdrop; lia.
  - wp_step. eapply wp_mono; [by apply Ipv6.wp_parse_ipv6|]. intros [err [s h']] [Hs Hp].
    split_if; [apply wp_ret; by intros ->|]. apply failed_false in Hc as ->.
    destruct (Hp eq_refl) as (Hl & _ & -> & Hty). unfold Ipv6.HEADER_LEN in *.
    wp_step. eapply wp_mono; [apply wp_ext; [eauto with pcap|by destruct Hty|done]|].
    intros [r [s' out']] (Hs' & _). apply slice_len in Hs'. destruct Hty as [Hpl _ _ _].
    rewrite len_ztake in Hs' by (rewrite len_zdrop; lia).
    destruct r; apply wp_ret; intros; lia.
  - wp_step. eapply wp_mono; [by apply Arp.wp_parse_arp|]. intros [err [s h']] _. by apply wp_ret.
Qed.

Lemma pseudoHeader_typed ip exts n :
  Ipv6.Header_typed ip → Forall Ipv6Ext.Header_typed exts →
  Ipv6.Header_typed (Ipv6Ext.pseudoHeader ip exts n).
Proof.
  intros [Hp Hn Hs Hd] Hf. unfold Ipv6Ext.pseudoHeader.
  set (start := Ipv6.mkHeader _ _ _ _ _ _).
  assert (Hst : Ipv6.Header_typed start).
  { split; cbn; auto; [by apply Z.mod_pos_bound|].
    destruct (last exts) as [e|] eqn:El; [|done].
    apply last_Some_elem_of in El. rewrite Forall_forall in Hf. by destruct (Hf _ El). }
  clearbody start. clear Hp Hn Hs Hd. revert start Hst.
  induction Hf as [|e exts He Hf IH]; intros start Hst; cbn [foldl]; [done|].
  apply IH. split_if; [|done]. destruct Hst, He. by split.
Qed.

(** What a transport header promises the flow table. *)
Definition transport_ok (t : TransportHeader) : Prop :=
  match t with
  | TransportTcp h => Tcp.Header_typed h
  | TransportUdp h => Udp.Header_typed h
  | _ => True
  end.

(** Layer 4 replaces the transport header and nothing else. *)
Lemma wp_decodeLayer4 span out verify :
  bytes_ok span → len span < 2 ^ 32 → network_ok span out →
  Forall Ipv6Ext.Header_typed out.(ipv6_ext) →
  wp (decodeLayer4 span out verify) (λ '(err, (span', out')),
    slice span' span ∧ (∃ t, out' = set_transport out t ∧
      (err = NoError → isArp out = false → t ≠ TransportNone ∧ transport_ok t ∧
        out.(transport) ≠ TransportNone ∧ ∀ n, matches n out.(transport) → matches n t))).
Proof.
  intros Hok Hmax Hnet Hx. unfold decodeLayer4, network_ok, isArp, arp in *.
  assert (Hself : out = set_transport out out.(transport)) by (by destruct out).
  destruct (network out) as [|ip|fixed|a] eqn:En; [done|..].
  3: { apply wp_ret. split; [auto with pcap|]. eexists. by split. }
  - destruct Hnet as [Hty Hle]. pose proof (Ipv4.pseudo_range_ipv4 ip Hty Hle) as Hps.
    pose proof (Ipv4.header_length_ihl ip). pose proof (Ipv4.ihl_range ip).
    destruct (transport out) as [|h|h|h|h] eqn:Et;
      try (apply wp_ret; split; [auto with pcap|]; eexists; by split).
    + wp_step. eapply wp_mono; [apply Tcp.wp_parse_tcp; auto|].
      { destruct Hty as [[] ? ? ?]. rewrite u64_small; lia. }
      intros [err [s h']] Hp. apply wp_ret.
      destruct err; try (subst s; split; [auto with pcap|]; eexists; by split).
      destruct Hp as (_ & _ & Hh & ->). split; [auto with pcap|]. eexists. by split.
    + wp_step. eapply wp_mono; [by apply Udp.wp_parse_udp|].
      intros [err [s h']] Hp. apply wp_ret.
      destruct err; try (subst s; split; [auto with pcap|]; eexists; by split).
      destruct Hp as (_ & Hh & ->). split; [eauto with pcap|]. eexists. by split.
    + wp_step. eapply wp_mono; [by apply Icmp.wp_parse_icmp|].
      intros [err [s h']] Hp. apply wp_ret.
      destruct err; try (subst s; split; [auto with pcap|]; eexists; by split).
      destruct Hp as (_ & -> & _). split; [auto with pcap|]. eexists. by split.
  - cbn zeta. set (ip := if hasIpv6Ext out then _ else fixed).
    assert (Hty : Ipv6.Header_typed ip)
      by (subst ip; destruct (hasIpv6Ext out); [by apply pseudoHeader_typed|done]).
    clearbody ip. pose proof (Ipv6.pseudo_range_ipv6 ip Hty) as Hps.
    destruct (transport out) as [|h|h|h|h] eqn:Et;
      try (apply wp_ret; split; [auto with pcap|]; eexists; by split).
    + wp_step. eapply wp_mono; [apply Tcp.wp_parse_tcp; auto; by destruct Hty as [[]]|].
      intros [err [s h']] Hp. apply wp_ret.
      destruct err; try (subst s; split; [auto with pcap|]; eexists; by split).
      destruct Hp as (_ & _ & Hh & ->). split; [auto with pcap|]. eexists. by split.
    + wp_step. eapply wp_mono; [by apply Udp.wp_parse_udp|].
      intros [err [s h']] Hp. apply wp_ret.
      destruct err; try (subst s; split; [auto with pcap|]; eexists; by split).
      destruct Hp as (_ & Hh & ->). split; [eauto with pcap|]. eexists. by split.
    + wp_step. eapply wp_mono; [by apply Icmpv6.wp_parse_icmpv6|].
      intros [err [s h']] Hp. apply wp_ret.
      destruct err; try (subst s; split; [auto with pcap|]; eexists; by split).
      destruct Hp as (_ & ->). split; [auto with pcap|]. eexists. by split.
Qed.

(** A packet the decoder accepted. *)
Record decoded (span' : bytes) (p : Packet) : Prop := {
  de_printable : printable p;
  de_network : p.(network) ≠ NetworkNone;
  de_payload : isArp p = false → p.(payload) = span';
  de_short : isArp p = false → len span' < 65536;
  de_transport : isArp p = false → p.(transport) ≠ TransportNone;
  de_network_typed : match p.(network) with
    | NetworkIpv4 h => Ipv4.Header_typed h
    | NetworkIpv6 h => Ipv6.Header_typed h
    | _ => True
    end;
  de_dispatched : match p.(network) with
    | NetworkIpv4 ip => matches ip.(Ipv4.protocol) p.(transport)
    | NetworkIpv6 ip => ∃ final,
        chain_ok ip.(Ipv6.next_header) p.(ipv6_ext) final ∧ matches final p.(transport)
    | _ => True
    end;
  de_transport_typed : transport_ok p.(transport);
}.

Lemma wp_decodePacket span out verify :
  bytes_ok span → len span < 2 ^ 32 → fresh out → eth_whole out →
  wp (decodePacket span out verify) (λ '(err, (span', out')),
    slice span' span ∧
    len out'.(vlan_tags) ≤ Vlan.MAX_TAGS ∧ len out'.(ipv6_ext) ≤ Ipv6Ext.MAX_HEADERS ∧
    eth_whole out' ∧ (out'.(payload) = out.(payload) ∨ slice out'.(payload) span) ∧
    (err = NoError → decoded span' out')).
Proof.
  intros Hok Hmax Hfr Heth. unfold decodePacket. wp_step.
  eapply wp_mono; [by apply wp_decodeLayer2|]. intros [err [s2 o2]] (Hs2 & Hv2 & He2 & Hx2 & Ht2 & Hp2).
  split_if.
  { apply wp_ret. rewrite Hx2. split_and!; auto; [done|by intros ->]. }
  wp_step. eapply wp_mono; [apply wp_and; [apply wp_decodeLayer3|apply wp_layer3_short]; eauto with pcap|].
  intros [err3 [s3 o3]] [(Hs3 & Hv3 & Hd3 & Hp3 & Hx3 & Hf3 & Ht3 & Hdi3 & Hn3) Hsh3].
  rewrite <- Hv3 in Hv2. rewrite <- Hp3 in Hp2.
  assert (Hs : slice s3 span) by eauto with pcap.
  assert (He3 : eth_whole o3) by (unfold eth_whole; by rewrite Hd3).
  split_if.
  { apply wp_ret. split_and!; auto. by intros ->. }
  apply failed_false in Hc0 as ->. specialize (Hn3 eq_refl).
  assert (Hpr : ∀ t, printable (set_transport o3 t)).
  { intros t. unfold network_ok, eth_whole in *. split; cbn.
    - intros h Hh. by rewrite Hh in He3.
    - intros h Hh. rewrite Hh in Hn3. destruct Hn3 as [? ? [] []]. done.
    - intros h Hh. by rewrite Hh in Hn3.
    - eapply Forall_impl; [exact Hf3|]. by intros h [? ? ? []]. }
  split_if.
  { apply wp_ret. split_and!; auto. intros _. unfold isArp in *.
    assert (Hpr' : printable o3) by (specialize (Hpr o3.(transport)); by destruct o3).
    split; auto; try (unfold isArp; by rewrite Hc0).
    - intros Hnn. unfold arp in Hc0. by rewrite Hnn in Hc0.
    - unfold network_ok in Hn3. destruct (network o3); naive_solver.
    - unfold arp in Hc0. by destruct (network o3).
    - by rewrite Ht3, Ht2. }
  wp_step. eapply wp_mono; [apply wp_decodeLayer4; eauto with pcap|].
  { pose proof (slice_len _ _ Hs). lia. }
  intros [err4 [s4 o4]] (Hs4 & t & -> & Ht).
  assert (slice s4 span) by eauto with pcap.
  split_if; [by apply wp_ret; cbn; split_and!; auto; intros ->|].
  apply failed_false in Hc1 as ->. destruct (Ht eq_refl Hc0) as (Htn & Hto & Hon & Hm).
  assert (Hsh4 : len s4 < 65536) by (apply slice_len in Hs4; specialize (Hsh3 eq_refl eq_refl); lia). clear Hsh3.
  specialize (Hdi3 eq_refl Ht2). unfold dispatched, network_ok, isArp, arp in *.
  apply wp_ret. split_and!; auto. intros _. destruct (Hpr t).
  split; cbn; auto; [by split|..]; destruct (network o3); naive_solver.
Qed.

(** ** Reference frames

    [tag_chain first tags final]: the tags follow each other the way 802.1Q
    stacks them, from the type in the Ethernet header to the type of what the
    frame carries. *)
Fixpoint tag_chain (first : Z) (tags : list Vlan.Header) (final : Z) : Prop :=
  match tags with
  | [] => first = final
  | t :: tags => isVlanType first = true ∧ Vlan.Header_ok t ∧ tag_chain t.(Vlan.ethertype) tags final
  end.

Definition encode_layer2 (eth : Ethernet.Header) (tags : list Vlan.Header) : bytes :=
  Ethernet.encode eth ++ (tags ≫= Vlan.encode).

(** ** Lemmas: decoding what was encoded *)

Lemma vlan_loop_encode fuel tags first final out rest :
  tag_chain first tags final → isVlanType final = false →
  len out.(vlan_tags) + len tags ≤ Vlan.MAX_TAGS → (length tags < fuel)%nat →
  loop fuel vlan_body ((tags ≫= Vlan.encode) ++ rest, out, first) =
  Ret (NoError, (rest, set_vlan_tags out (out.(vlan_tags) ++ tags), final)).
Proof.
  intros Hc Hfin Hlen Hf. unfold Vlan.MAX_TAGS in Hlen.
  revert fuel first out Hc Hlen Hf.
  induction tags as [|t tags IH]; intros [|fuel] first out Hc Hlen Hf; try (cbn in Hf; lia).
  - cbn in Hc. subst first. cbn [loop vlan_body mbind list_bind app]. rewrite Hfin, bind_ret.
    rewrite app_nil_r. by destruct out.
  - destruct Hc as (Hfirst & Ht & Hc). cbn [loop vlan_body mbind list_bind]. rewrite Hfirst.
    rewrite len_cons in Hlen. pose proof (len_nonneg tags). unfold Vlan.MAX_TAGS.
    rewrite (proj2 (Z.leb_gt _ _)) by lia.
    rewrite <- app_assoc, Vlan.parse_encode_vlan by done. rewrite bind_ret. cbn [failed].
    rewrite bind_ret, IH; [|done| |cbn in Hf; lia].
    + cbn [vlan_tags set_vlan_tags]. by rewrite <- app_assoc.
    + cbn [vlan_tags set_vlan_tags]. rewrite len_app. change (len [t]) with 1. lia.
Qed.

Lemma decodeLayer2_encode eth tags final rest out eth0 :
  fresh out → out.(datalink) = DataLinkEthernet eth0 → Ethernet.Header_ok eth →
  tag_chain eth.(Ethernet.ethertype) tags final → isVlanType final = false →
  len tags ≤ Vlan.MAX_TAGS →
  decodeLayer2 (encode_layer2 eth tags ++ rest) out =
  Ret (NoError, (rest, setNetworkFromEthertype
    (set_vlan_tags (set_datalink out (DataLinkEthernet (Ethernet.set_ethertype eth final))) tags)
    final)).
Proof.
  intros [Hv Hn Hx Ht] Hd Heth Hc Hfin Hlen. unfold decodeLayer2, encode_layer2. rewrite Hd.
  rewrite <- app_assoc, Ethernet.parse_encode_ethernet by done. rewrite bind_ret. cbn [failed].
  unfold Vlan.MAX_TAGS, len in Hlen.
  erewrite vlan_loop_encode; [|done|done| |lia].
  - rewrite bind_ret. cbn [failed set_datalink vlan_tags]. by rewrite Hv.
  - cbn [set_datalink vlan_tags]. rewrite Hv. unfold len, Vlan.MAX_TAGS. cbn. lia.
Qed.

(** Runs the steps that have returned. *)
Ltac step_ret := repeat (rewrite bind_ret; cbn [failed]).

(** The packet a frame decodes to. *)
Definition packet_of (eth : Ethernet.Header) (tags : list Vlan.Header) (final : Z)
    (network : NetworkHeader) (transport : TransportHeader) (payload : bytes) : Packet :=
  mkPacket (DataLinkEthernet (Ethernet.set_ethertype eth final)) tags network [] transport payload.

Record frame_ok (eth : Ethernet.Header) (tags : list Vlan.Header) (final : Z) : Prop := {
  fo_eth : Ethernet.Header_ok eth;
  fo_tags : len tags ≤ Vlan.MAX_TAGS;
  fo_chain : tag_chain eth.(Ethernet.ethertype) tags final;
}.

(** A TCP segment in an IPv4 datagram: the lengths and the checksums agree. *)
Record tcp4_ok (ip : Ipv4.Header) (ipopts : bytes) (tcp : Tcp.Header) (tcpopts payload padding : bytes)
    (verify : bool) : Prop := {
  t4_ip : Ipv4.Header_ok ip ipopts;
  t4_tcp : Tcp.Header_ok tcp tcpopts;
  t4_protocol : ip.(Ipv4.protocol) = Ip.PROTOCOL_TCP;
  t4_length : ip.(Ipv4.total_length) =
              Ipv4.header_length ip + Tcp.header_length tcp + len payload;
  t4_ip_checksum : verify = true →
    Checksum.verifyChecksum (Ipv4.encode ip ipopts ++ (Tcp.encode tcp tcpopts ++ payload) ++ padding)
      (Ipv4.header_length ip) 0 = Ret true;
  t4_tcp_checksum : verify = true →
    Checksum.verifyChecksum (Tcp.encode tcp tcpopts ++ payload)
      (Tcp.header_length tcp + len payload) (Ipv4.computePseudoHeaderSum ip) = Ret true;
}.

Lemma len_tcp_encode tcp opts : Tcp.Header_ok tcp opts → len (Tcp.encode tcp opts) = Tcp.header_length tcp.
Proof.
  intros []. unfold Tcp.encode, Tcp.MIN_DATA_OFFSET, Tcp.header_length in *.
  rewrite !len_app, !len_enc, ok_options. unfold len; cbn [length]. lia.
Qed.

(** C28: a TCP segment in an IPv4 datagram in an Ethernet frame with up to four
    VLAN tags, put on the wire by the reference encoders and padded by the link
    layer, decodes to exactly the headers, tags and payload it was made of. *)
Theorem decode_encode_tcp4 (eth : Ethernet.Header) (tags : list Vlan.Header) (ip : Ipv4.Header)
    (ipopts : bytes) (tcp : Tcp.Header) (tcpopts payload padding : bytes) (out : Packet)
    (eth0 : Ethernet.Header) (verify : bool) :
  fresh out → out.(datalink) = DataLinkEthernet eth0 →
  frame_ok eth tags Ethernet.ETHERTYPE_IPV4 → tcp4_ok ip ipopts tcp tcpopts payload padding verify →
  decodePacket (encode_layer2 eth tags ++ Ipv4.encode ip ipopts ++
                (Tcp.encode tcp tcpopts ++ payload) ++ padding) out verify =
  Ret (NoError, (payload, packet_of eth tags Ethernet.ETHERTYPE_IPV4 (NetworkIpv4 ip)
                            (TransportTcp tcp) payload)).
Proof.
  intros Hfr Hd [He Ht Hc] [Hip Htcp Hpr Hlen Hck1 Hck2]. unfold decodePacket.
  pose proof (len_tcp_encode _ _ Htcp) as Htl. pose proof Hfr as [_ _ Hx _].
  erewrite decodeLayer2_encode by done. rewrite bind_ret. cbn [failed].
  unfold decodeLayer3 at 1. cbn [network set_network setNetworkFromEthertype Z.eqb Pos.eqb
    Ethernet.ETHERTYPE_IPV4 Ethernet.ETHERTYPE_IPV6 Ethernet.ETHERTYPE_ARP].
  rewrite Ipv4.parse_encode_ipv4; [|done|rewrite len_app, Htl; lia|done].
  step_ret. rewrite Hpr.
  unfold decodeLayer4. cbn [network transport set_network set_transport setTransportFromProtocol
    isArp is_Some_b arp Z.eqb Pos.eqb Ip.PROTOCOL_TCP]. unfold Tcp.parse4.
  pose proof (Ipv4.header_length_ihl ip). pose proof (Ipv4.ihl_range ip).
  destruct Hip. pose proof (len_nonneg payload). pose proof (len_nonneg (Tcp.encode tcp tcpopts)).
  rewrite (u64_small (_ - _)) by lia.
  replace (_ - _) with (Tcp.header_length tcp + len payload) by lia.
  rewrite Tcp.parse_encode_tcp by done. step_ret.
  by destruct out; cbn in Hx; subst.
Qed.

Lemma ext_loop_done fuel span out n :
  Ipv6Ext.isExtension n = false →
  loop (S fuel) ext_body (span, out, n) = Ret (ExtDone n, (span, out)).
Proof. intros Hn. cbn [loop ext_body]. by rewrite Hn. Qed.

(** A UDP datagram in an IPv6 packet without extension headers. *)
Record udp6_ok (ip : Ipv6.Header) (udp : Udp.Header) (payload padding : bytes)
    (verify : bool) : Prop := {
  u6_ip : Ipv6.Header_ok ip;
  u6_udp : Udp.Header_ok udp;
  u6_next : ip.(Ipv6.next_header) = Ip.PROTOCOL_UDP;
  u6_length : udp.(Udp.length_) = Udp.HEADER_LEN + len payload;
  u6_payload : ip.(Ipv6.payload_length) = udp.(Udp.length_) + len padding;
  u6_checksum : verify = true →
    Checksum.verifyChecksum (Udp.encode udp ++ payload ++ padding) udp.(Udp.length_)
      (Ipv6.computePseudoHeaderSum ip) = Ret true;
}.

(** The round trip of a UDP datagram in an IPv6 packet: headers, tags and payload
    come back, and the bytes behind the length UDP announces are cut off. *)
Theorem decode_encode_udp6 (eth : Ethernet.Header) (tags : list Vlan.Header) (ip : Ipv6.Header)
    (udp : Udp.Header) (payload padding trailer : bytes) (out : Packet) (eth0 : Ethernet.Header)
    (verify : bool) :
  fresh out → out.(datalink) = DataLinkEthernet eth0 →
  frame_ok eth tags Ethernet.ETHERTYPE_IPV6 → udp6_ok ip udp payload padding verify →
  decodePacket (encode_layer2 eth tags ++ Ipv6.encode ip ++
                (Udp.encode udp ++ payload ++ padding) ++ trailer) out verify =
  Ret (NoError, (payload, packet_of eth tags Ethernet.ETHERTYPE_IPV6 (NetworkIpv6 ip)
                            (TransportUdp udp) payload)).
Proof.
  intros Hfr Hd [He Ht Hc] [Hip Hudp Hnx Hlen Hpl Hck]. unfold decodePacket.
  pose proof Hfr as [_ _ Hx _].
  assert (Hul : len (Udp.encode udp) = 8) by (unfold Udp.encode; rewrite !len_app, !len_enc; done).
  erewrite decodeLayer2_encode by done. rewrite bind_ret. cbn [failed].
  unfold decodeLayer3 at 1. cbn [network set_network setNetworkFromEthertype Z.eqb Pos.eqb
    Ethernet.ETHERTYPE_IPV4 Ethernet.ETHERTYPE_IPV6 Ethernet.ETHERTYPE_ARP].
  rewrite Ipv6.parse_encode_ipv6; [|done|rewrite !len_app, Hul; unfold Udp.HEADER_LEN in *; lia].
  step_ret. rewrite Hnx, ext_loop_done by done. step_ret. unfold decodeLayer4. cbn [network transport set_network set_transport
    setTransportFromProtocol isArp is_Some_b arp Z.eqb Pos.eqb Ip.PROTOCOL_UDP Ip.PROTOCOL_TCP].
  match goal with |- context [hasIpv6Ext ?p] => assert (hasIpv6Ext p = false) as -> end.
  { unfold hasIpv6Ext. apply negb_false_iff, bool_decide_eq_true. by destruct out. }
  unfold Udp.parse6. rewrite Udp.parse_encode_udp; [|done|lia|intros Hv; right; by apply Hck].
  step_ret. by destruct out; cbn in Hx; subst.
Qed.

(** A fifth tag is refused, whatever follows it. *)
Lemma vlan_loop_limit fuel tags first t out rest :
  tag_chain first tags t → isVlanType t = true →
  len out.(vlan_tags) + len tags = Vlan.MAX_TAGS → (length tags < fuel)%nat →
  loop fuel vlan_body ((tags ≫= Vlan.encode) ++ rest, out, first) =
  Ret (MalformedHeader, (rest, set_vlan_tags out (out.(vlan_tags) ++ tags), t)).
Proof.
  intros Hc Hfin Hlen Hf. revert fuel first out Hc Hlen Hf.
  induction tags as [|x tags IH]; intros [|fuel] first out Hc Hlen Hf; try (cbn in Hf; lia).
  - cbn in Hc. subst first. rewrite len_nil in Hlen. cbn [loop vlan_body mbind list_bind app].
    rewrite Hfin, (proj2 (Z.leb_le _ _)) by lia. rewrite bind_ret, app_nil_r. by destruct out.
  - destruct Hc as (Hfirst & Hx & Hc). cbn [loop vlan_body mbind list_bind]. rewrite Hfirst.
    rewrite len_cons in Hlen. pose proof (len_nonneg tags). rewrite (proj2 (Z.leb_gt _ _)) by lia.
    rewrite <- app_assoc, Vlan.parse_encode_vlan by done. rewrite bind_ret. cbn [failed].
    rewrite bind_ret, IH; [|done| |cbn in Hf; lia].
    + cbn [vlan_tags set_vlan_tags]. by rewrite <- app_assoc.
    + cbn [vlan_tags set_vlan_tags]. rewrite len_app. change (len [x]) with 1. lia.
Qed.

(** A frame with more than four VLAN tags is malformed: the decoder keeps
    the first four and stops before the fifth. *)
Theorem decode_fifth_tag (eth : Ethernet.Header) (tags : list Vlan.Header) (t : Z) (rest : bytes)
    (out : Packet) (eth0 : Ethernet.Header) (verify : bool) :
  fresh out → out.(datalink) = DataLinkEthernet eth0 → Ethernet.Header_ok eth →
  tag_chain eth.(Ethernet.ethertype) tags t → len tags = Vlan.MAX_TAGS → isVlanType t = true →
  decodePacket (encode_layer2 eth tags ++ rest) out verify =
  Ret (MalformedHeader, (rest, set_vlan_tags (set_datalink out (DataLinkEthernet eth)) tags)).
Proof.
  intros [Hv _ _ _] Hd Heth Hc Hlen Ht. unfold decodePacket, decodeLayer2, encode_layer2.
  rewrite Hd, <- app_assoc, Ethernet.parse_encode_ethernet by done. rewrite !bind_ret. cbn [failed].
  unfold Vlan.MAX_TAGS, len in Hlen.
  erewrite vlan_loop_limit; [|done|done| |lia].
  - step_ret. cbn [set_datalink vlan_tags]. by rewrite Hv.
  - cbn [set_datalink vlan_tags]. rewrite Hv. unfold len, Vlan.MAX_TAGS. cbn. lia.
Qed.

(** C1: decoding a frame, whatever its bytes, never reads outside it and always
    ends; what is left of the span and the payload are parts of the frame; at
    most four tags and eight extension headers are kept; and a packet that was
    accepted can be printed, as text or JSON, without reading outside the
    frame. *)
Theorem decodePacket_safe (span : bytes) (out : Packet) (verify : bool) :
  bytes_ok span → len span < 2 ^ 32 → fresh out → eth_whole out →
  ∃ err span' out', decodePacket span out verify = Ret (err, (span', out')) ∧
    slice span' span ∧
    len out'.(vlan_tags) ≤ Vlan.MAX_TAGS ∧ len out'.(ipv6_ext) ≤ Ipv6Ext.MAX_HEADERS ∧
    (err = NoError →
     (isArp out' = false → out'.(payload) = span') ∧
     wp (Packet.toString out') (λ _, True) ∧ wp (Packet.toJson out') (λ _, True)).
Proof.
  intros Hok Hmax Hfr Heth.
  destruct (wp_returns _ _ (wp_decodePacket span out verify Hok Hmax Hfr Heth))
    as ([err [s o]] & Hdec & Hs & Hv & Hx & _ & _ & Hde).
  exists err, s, o. split_and!; auto. intros Herr. destruct (Hde Herr).
  split; [done|by apply wp_print_packet].
Qed.

(** C30: an accepted packet was dispatched by its protocol fields: the transport
    header is of the kind the IPv4 protocol names, or the last header of a chain
    of IPv6 extension headers that are linked by their next-header fields, none
    of them a fragment of a larger packet and only the first a hop-by-hop
    header. *)
Theorem decodePacket_dispatch (span span' : bytes) (out p : Packet) (verify : bool) :
  bytes_ok span → len span < 2 ^ 32 → fresh out → eth_whole out →
  decodePacket span out verify = Ret (NoError, (span', p)) →
  match p.(network) with
  | NetworkNone => False
  | NetworkIpv4 ip => p.(transport) ≠ TransportNone ∧ matches ip.(Ipv4.protocol) p.(transport)
  | NetworkIpv6 ip => p.(transport) ≠ TransportNone ∧ ∃ final,
      chain_ok ip.(Ipv6.next_header) p.(ipv6_ext) final ∧ matches final p.(transport)
  | NetworkArp h => Arp.addressed h
  end.
Proof.
  intros Hok Hmax Hfr Heth Hdec.
  pose proof (wp_inv _ _ _ Hdec (wp_decodePacket span out verify Hok Hmax Hfr Heth))
    as (_ & _ & _ & _ & _ & Hde).
  destruct (Hde eq_refl) as [[? ? Ha ?] Hn Hp _ Ht _ Hdi _]. unfold isArp, arp in *.
  destruct (network p); auto.
Qed.

(** ** Witnesses *)

Definition sample_eth : Ethernet.Header :=
  Ethernet.mkHeader [1; 2; 3; 4; 5; 6] [7; 8; 9; 10; 11; 12] Ethernet.ETHERTYPE_VLAN.
Definition sample_tags (ethertype : Z) : list Vlan.Header :=
  [Vlan.mkHeader (Vlan.make_tci 5 0 100) Ethernet.ETHERTYPE_VLAN;
   Vlan.mkHeader (Vlan.make_tci 0 1 200) ethertype].
Definition sample_ip : Ipv4.Header :=
  Ipv4.mkHeader 0x45 0 43 1 0 64 6 63864 0xC0A80001 0xC0A80002.
Definition sample_tcp : Tcp.Header := Tcp.mkHeader 12345 80 1 0 0x50 0x18 4096 42578 0.
Definition sample_payload : bytes := [71; 69; 84].
Definition sample_ip6 : Ipv6.Header :=
  Ipv6.mkHeader 0x60000000 11 17 64 ([0x20; 1; 0xd; 0xb8] ++ replicate 11 0 ++ [1])
    ([0x20; 1; 0xd; 0xb8] ++ replicate 11 0 ++ [2]).
Definition sample_udp : Udp.Header := Udp.mkHeader 12345 53 11 55471.
Definition sample_out : Packet := setDatatypeFromLinktype zeroPacket Pcap.LINKTYPE_ETHERNET.

Lemma sample_fresh : fresh sample_out ∧ eth_whole sample_out.
Proof. by repeat split. Qed.
Lemma sample_frame_ok ethertype :
  0 ≤ ethertype < 65536 → frame_ok sample_eth (sample_tags ethertype) ethertype.
Proof.
  intros He. split; [by repeat split|done|]. cbn [tag_chain sample_tags Vlan.ethertype].
  unfold Vlan.Header_ok. cbn [Vlan.ethertype]. split_and!; done || lia.
Qed.

Lemma decode_encode_tcp4_witness :
  decodePacket (encode_layer2 sample_eth (sample_tags Ethernet.ETHERTYPE_IPV4) ++
                Ipv4.encode sample_ip [] ++ (Tcp.encode sample_tcp [] ++ sample_payload) ++ [0; 0])
    sample_out true =
  Ret (NoError, (sample_payload,
    packet_of sample_eth (sample_tags Ethernet.ETHERTYPE_IPV4) Ethernet.ETHERTYPE_IPV4
      (NetworkIpv4 sample_ip) (TransportTcp sample_tcp) sample_payload)).
Proof.
  destruct sample_fresh. apply (decode_encode_tcp4 _ _ _ _ _ _ _ _ _ Ethernet.zeroHeader);
    [done|done|by apply sample_frame_ok|].
  split; [split; vm_compute; repeat split; done|split; vm_compute; repeat split; done|
          done|done|intros _; vm_compute; reflexivity|intros _; vm_compute; reflexivity].
Defined.

Lemma decode_encode_udp6_witness :
  decodePacket (encode_layer2 sample_eth (sample_tags Ethernet.ETHERTYPE_IPV6) ++
                Ipv6.encode sample_ip6 ++ (Udp.encode sample_udp ++ sample_payload ++ []) ++ [])
    sample_out true =
  Ret (NoError, (sample_payload,
    packet_of sample_eth (sample_tags Ethernet.ETHERTYPE_IPV6) Ethernet.ETHERTYPE_IPV6
      (NetworkIpv6 sample_ip6) (TransportUdp sample_udp) sample_payload)).
Proof.
  destruct sample_fresh. apply (decode_encode_udp6 _ _ _ _ _ _ _ _ Ethernet.zeroHeader);
    [done|done|by apply sample_frame_ok|].
  split; [split; vm_compute; repeat split; done|vm_compute; repeat split; done|
          done|done|done|intros _; vm_compute; reflexivity].
Defined.

Definition five_tags : list Vlan.Header :=
  replicate 4 (Vlan.mkHeader 1 Ethernet.ETHERTYPE_VLAN).

Lemma decode_fifth_tag_witness :
  decodePacket (encode_layer2 sample_eth five_tags ++ [0; 1; 8; 0]) sample_out true =
  Ret (MalformedHeader, ([0; 1; 8; 0],
    set_vlan_tags (set_datalink sample_out (DataLinkEthernet sample_eth)) five_tags)).
Proof.
  destruct sample_fresh. apply (decode_fifth_tag _ _ Ethernet.ETHERTYPE_VLAN _ _ Ethernet.zeroHeader);
    [done|done|by repeat split| |done|done].
  cbn. unfold Vlan.Header_ok. cbn. split_and!; done.
Defined.

Lemma decodePacket_safe_witness :
  ∃ err span' out', decodePacket [1; 2; 3] sample_out true = Ret (err, (span', out')) ∧
    slice span' [1; 2; 3] ∧
    len out'.(vlan_tags) ≤ Vlan.MAX_TAGS ∧ len out'.(ipv6_ext) ≤ Ipv6Ext.MAX_HEADERS ∧
    (err = NoError →
     (isArp out' = false → out'.(payload) = span') ∧
     wp (Packet.toString out') (λ _, True) ∧ wp (Packet.toJson out') (λ _, True)).
Proof.
  destruct sample_fresh. apply decodePacket_safe; [repeat constructor; done|done|done|done].
Defined.

Definition sample_frame : bytes :=
  encode_layer2 sample_eth (sample_tags Ethernet.ETHERTYPE_IPV6) ++
  Ipv6.encode sample_ip6 ++ Udp.encode sample_udp ++ sample_payload.
Definition sample_packet : Packet :=
  packet_of sample_eth (sample_tags Ethernet.ETHERTYPE_IPV6) Ethernet.ETHERTYPE_IPV6
    (NetworkIpv6 sample_ip6) (TransportUdp sample_udp) sample_payload.

Lemma decodePacket_dispatch_witness :
  match sample_packet.(network) with
  | NetworkNone => False
  | NetworkIpv4 ip => sample_packet.(transport) ≠ TransportNone ∧
      matches ip.(Ipv4.protocol) sample_packet.(transport)
  | NetworkIpv6 ip => sample_packet.(transport) ≠ TransportNone ∧ ∃ final,
      chain_ok ip.(Ipv6.next_header) sample_packet.(ipv6_ext) final ∧
      matches final sample_packet.(transport)
  | NetworkArp h => Arp.addressed h
  end.
Proof.
  destruct sample_fresh.
  apply (decodePacket_dispatch sample_frame sample_payload sample_out sample_packet true);
    [|done|done|done|vm_compute; reflexivity].
  unfold bytes_ok. vm_compute. repeat (apply Forall_cons_2; [split; done|]). by apply Forall_nil_2.
Defined.

(** Unlike an IPv6 fragment, an IPv4 fragment that does not start its
    datagram is decoded as if it did: its payload is read as a transport
    header, and the packet is accepted. *)
Theorem decode_ipv4_fragment :
  ∃ frame span' ip p, decodePacket frame sample_out true = Ret (NoError, (span', p)) ∧
    p.(network) = NetworkIpv4 ip ∧ Ipv4.fragment ip = 5 ∧ isUdp p = true.
Proof.
  set (ip := Ipv4.mkHeader 0x45 0 31 1 5 64 17 63860 0xC0A80001 0xC0A80002).
  exists (encode_layer2 (Ethernet.set_ethertype sample_eth Ethernet.ETHERTYPE_IPV4) [] ++
          Ipv4.encode ip [] ++ Udp.encode (Udp.mkHeader 12345 80 11 0) ++ sample_payload).
  do 3 eexists. split; [vm_compute; reflexivity|]. by split_and!.
Qed.
