(* ===== verification/TcpReassembler.v ===== *)
(** One direction of a TCP connection: [include/net/flow/tcp_reassembler.h],
    [src/net/flow/tcp_reassembler.cpp].

    Sequence numbers are 32-bit words that wrap.  The capacity of [assembled]
    (the [reserve] and [shrink_to_fit] calls) cannot be observed and is left
    out. *)
From S2P Require Import Prelude.
From S2P Require Tcp.

Inductive TcpState :=
| Unknown
| Closed
| Listen
| SynSent
| SynReceived
| Established
| FinWait1
| FinWait2
| CloseWait
| Closing
| LastAck
| TimeWait.

#[export] Instance TcpState_eq_dec : EqDecision TcpState.
Proof. solve_decision. Defined.

Definition toString (state : TcpState) : string :=
  match state with
  | Unknown => "Unknown"
  | Closed => "Closed"
  | Listen => "Listen"
  | SynSent => "SynSent"
  | SynReceived => "SynReceived"
  | Established => "Established"
  | FinWait1 => "FinWait1"
  | FinWait2 => "FinWait2"
  | CloseWait => "CloseWait"
  | Closing => "Closing"
  | LastAck => "LastAck"
  | TimeWait => "TimeWait"
  end.

Definition MAX_OOO_BYTES : Z := Z.shiftl 1 20.
Definition MIN_COMPACT_BYTES : Z := 4096.

Record Segment := mkSegment { seq : Z; data : bytes }.

Record TcpReassembler := mkReassembler {
  state : TcpState;
  next_seq : Z;
  ooo_bytes : Z;
  out_of_order : list Segment;
  assembled : bytes;
  fin_seen : bool;
  fin_seq : Z;
  seeded : bool;
  keep_payload : bool;
  read_pos : Z;
}.

Definition initial : TcpReassembler := mkReassembler Unknown 0 0 [] [] false 0 false true 0.

Definition set_state (r : TcpReassembler) (s : TcpState) : TcpReassembler :=
  mkReassembler s r.(next_seq) r.(ooo_bytes) r.(out_of_order) r.(assembled) r.(fin_seen)
                r.(fin_seq) r.(seeded) r.(keep_payload) r.(read_pos).
Definition set_next_seq (r : TcpReassembler) (n : Z) : TcpReassembler :=
  mkReassembler r.(state) n r.(ooo_bytes) r.(out_of_order) r.(assembled) r.(fin_seen)
                r.(fin_seq) r.(seeded) r.(keep_payload) r.(read_pos).
Definition set_seeded (r : TcpReassembler) : TcpReassembler :=
  mkReassembler r.(state) r.(next_seq) r.(ooo_bytes) r.(out_of_order) r.(assembled) r.(fin_seen)
                r.(fin_seq) true r.(keep_payload) r.(read_pos).
Definition set_fin (r : TcpReassembler) (seen : bool) (s : Z) : TcpReassembler :=
  mkReassembler r.(state) r.(next_seq) r.(ooo_bytes) r.(out_of_order) r.(assembled) seen s
                r.(seeded) r.(keep_payload) r.(read_pos).
Definition set_ooo (r : TcpReassembler) (n : Z) (l : list Segment) : TcpReassembler :=
  mkReassembler r.(state) r.(next_seq) n l r.(assembled) r.(fin_seen) r.(fin_seq) r.(seeded)
                r.(keep_payload) r.(read_pos).
Definition set_assembled (r : TcpReassembler) (a : bytes) (pos : Z) : TcpReassembler :=
  mkReassembler r.(state) r.(next_seq) r.(ooo_bytes) r.(out_of_order) a r.(fin_seen) r.(fin_seq)
                r.(seeded) r.(keep_payload) pos.
Definition set_keep_payload (r : TcpReassembler) (b : bool) : TcpReassembler :=
  mkReassembler r.(state) r.(next_seq) r.(ooo_bytes) r.(out_of_order) r.(assembled) r.(fin_seen)
                r.(fin_seq) r.(seeded) b r.(read_pos).

(** [assembled.insert(assembled.end(), ...)] and the step of [next_seq] that
    goes with it. *)
Definition append (r : TcpReassembler) (d : bytes) : TcpReassembler :=
  set_next_seq (set_assembled r (r.(assembled) ++ d) r.(read_pos)) (u32 (r.(next_seq) + u32 (len d))).

(** [drain]: the loop over [out_of_order], the erased prefix dropped as it is
    passed.  Negating the least 32-bit integer is undefined. *)
Fixpoint drain_loop (segs : list Segment) (r : TcpReassembler) : outcome TcpReassembler :=
  match segs with
  | [] => Ret (set_ooo r r.(ooo_bytes) [])
  | segment :: rest =>
      let delta := i32 (u32 (segment.(seq) - r.(next_seq))) in
      if 0 <? delta then Ret (set_ooo r r.(ooo_bytes) segs) else
      if delta =? - 2 ^ 31 then UB else
      let covered := u32 (- delta) in
      let r := if covered <? len segment.(data)
               then append r (zdrop covered segment.(data)) else r in
      drain_loop rest (set_ooo r (u64 (r.(ooo_bytes) - len segment.(data))) r.(out_of_order))
  end.
Definition drain (r : TcpReassembler) : outcome TcpReassembler := drain_loop r.(out_of_order) r.

(** [std::lower_bound] on a range its predicate does not partition is
    undefined. *)
Fixpoint split_point {A} (pred : A → bool) (l : list A) : nat :=
  match l with
  | [] => 0
  | x :: l => if pred x then S (split_point pred l) else 0
  end.
Definition lower_bound {A} (pred : A → bool) (l : list A) : outcome nat :=
  let i := split_point pred l in
  if forallb (λ x, negb (pred x)) (drop i l) then Ret i else UB.

Definition ingest (r : TcpReassembler) (seq_ : Z) (span : bytes) : outcome TcpReassembler :=
  let size := len span in
  if negb r.(keep_payload) then
    if seq_ =? r.(next_seq) then Ret (set_next_seq r (u32 (r.(next_seq) + u32 size)))
    else if i32 (u32 (seq_ - r.(next_seq))) <? 0 then
      let overlap := u32 (r.(next_seq) - seq_) in
      if overlap <? u32 size
      then Ret (set_next_seq r (u32 (r.(next_seq) + u32 (u32 size - overlap))))
      else Ret r
    else Ret r
  else if seq_ =? r.(next_seq) then drain (append r span)
  else if 0 <? i32 (u32 (seq_ - r.(next_seq))) then
    let base := r.(next_seq) in
    it ← lower_bound (λ s, u32 (s.(seq) - base) <? u32 (seq_ - base)) r.(out_of_order);
    let fresh :=
      if u64 (r.(ooo_bytes) + size) <=? MAX_OOO_BYTES then
        set_ooo r (u64 (r.(ooo_bytes) + size))
                (take it r.(out_of_order) ++ mkSegment seq_ span :: drop it r.(out_of_order))
      else r in
    match r.(out_of_order) !! it with
    | Some s =>
        if s.(seq) =? seq_ then
          if len s.(data) <? size then
            if u64 (r.(ooo_bytes) + size - len s.(data)) <=? MAX_OOO_BYTES then
              Ret (set_ooo r (u64 (r.(ooo_bytes) + (size - len s.(data))))
                           (<[it := mkSegment seq_ span]> r.(out_of_order)))
            else Ret r
          else Ret r
        else Ret fresh
    | None => Ret fresh
    end
  else
    let overlap := u32 (r.(next_seq) - seq_) in
    if overlap <? u32 size then drain (append r (zdrop overlap span)) else Ret r.

Definition onData (r : TcpReassembler) (header : Tcp.Header) (span : bytes)
    : outcome TcpReassembler :=
  r ← ingest r header.(Tcp.seq_number) span;
  let r := if Tcp.fin header
           then set_fin r true (u32 (header.(Tcp.seq_number) + u32 (len span))) else r in
  if r.(fin_seen) && (0 <=? i32 (u32 (r.(next_seq) - r.(fin_seq)))) then
    let r := set_next_seq r (u32 (r.(next_seq) + 1)) in
    let r := set_fin r false r.(fin_seq) in
    Ret (set_state r (if decide (r.(state) = CloseWait) then LastAck else FinWait1))
  else Ret r.

Definition onSent (r : TcpReassembler) (header : Tcp.Header) (span : bytes)
    : outcome TcpReassembler :=
  if Tcp.rst header then Ret (set_state r Closed) else
  if negb r.(seeded) then
    if Tcp.syn header then
      let r := set_next_seq r (u32 (header.(Tcp.seq_number) + 1)) in
      let r := set_state r (if Tcp.ack header then SynReceived else SynSent) in
      ingest (set_seeded r) (u32 (header.(Tcp.seq_number) + 1)) span
    else if Tcp.ack header then
      let r := set_seeded (set_next_seq r header.(Tcp.seq_number)) in
      let r := if decide (r.(state) = CloseWait) then r else set_state r Established in
      onData r header span
    else Ret r
  else
    match r.(state) with
    | Unknown | Closed | Listen => Ret r
    | SynSent =>
        let r := if Tcp.ack header && negb (Tcp.syn header) then set_state r Established else r in
        if decide (r.(state) = Established) then onData r header span else Ret r
    | SynReceived => Ret r
    | Established | CloseWait => onData r header span
    | FinWait1 | FinWait2 | Closing | LastAck | TimeWait => Ret r
    end.

(** [static_cast<int32_t>(header.ack_number - next_seq) >= 0]. *)
Definition acked (r : TcpReassembler) (header : Tcp.Header) : bool :=
  0 <=? i32 (u32 (header.(Tcp.ack_number) - r.(next_seq))).

Definition onReceived (r : TcpReassembler) (header : Tcp.Header) : TcpReassembler :=
  if Tcp.rst header then set_state r Closed else
  match r.(state) with
  | Unknown | Closed | Listen =>
      if Tcp.syn header && negb (Tcp.ack header) then set_state r Listen
      else if Tcp.ack header && negb (Tcp.syn header) then
        set_state r (if Tcp.fin header then CloseWait else Established)
      else r
  | SynSent =>
      if Tcp.syn header && negb (Tcp.ack header) then set_state r SynReceived else r
  | SynReceived =>
      if Tcp.ack header && negb (Tcp.syn header) then
        set_state r (if Tcp.fin header then CloseWait else Established)
      else r
  | Established => if Tcp.fin header then set_state r CloseWait else r
  | FinWait1 =>
      if Tcp.fin header && Tcp.ack header && acked r header then set_state r TimeWait
      else if Tcp.fin header then set_state r Closing
      else if Tcp.ack header && acked r header then set_state r FinWait2
      else r
  | FinWait2 => if Tcp.fin header then set_state r TimeWait else r
  | Closing => if Tcp.ack header && acked r header then set_state r TimeWait else r
  | LastAck => if Tcp.ack header && acked r header then set_state r Closed else r
  | TimeWait | CloseWait => r
  end.

Definition available (r : TcpReassembler) : Z := len r.(assembled) - r.(read_pos).
Definition peek (r : TcpReassembler) : bytes := zdrop r.(read_pos) r.(assembled).
Definition consume (r : TcpReassembler) (n : Z) : TcpReassembler :=
  let pos := r.(read_pos) + Z.min n (available r) in
  if (MIN_COMPACT_BYTES <? pos) && (len r.(assembled) / 2 <? pos)
  then set_assembled r (zdrop pos r.(assembled)) 0
  else set_assembled r r.(assembled) pos.

Definition hasReadableData (r : TcpReassembler) : bool :=
  bool_decide (r.(state) = Established) || bool_decide (r.(state) = FinWait1)
  || bool_decide (r.(state) = FinWait2).

(** ** The stream a direction carries

    [S] is everything the sender sends after the sequence number [isn]; a
    segment carries a run of it.  The frontier [n] is how far the stream has
    been put together: [assembled] holds [S] from [d] to [n], and [k] counts
    the sequence numbers a FIN took after the end of [S]. *)
Section stream.
Context (S : bytes) (isn : Z).

Definition carries (s : Z) (data : bytes) (off : Z) : Prop :=
  s = u32 (isn + off) ∧ 0 ≤ off ∧ off + len data ≤ len S ∧ data = ztake (len data) (zdrop off S).

Fixpoint queue_ok (n : Z) (l : list Segment) : Prop :=
  match l with
  | [] => True
  | s :: l => ∃ off, n < off ∧ carries s.(seq) s.(data) off ∧ queue_ok off l
  end.

Fixpoint queue_bytes (l : list Segment) : Z :=
  match l with [] => 0 | s :: l => len s.(data) + queue_bytes l end.

Record Core (d n k : Z) (r : TcpReassembler) : Prop := {
  inv_next : r.(next_seq) = u32 (isn + n + k);
  inv_range : 0 ≤ d ≤ n ∧ n ≤ len S;
  inv_fin : 0 ≤ k ∧ (0 < k → n = len S);
  inv_assembled : r.(assembled) = ztake (n - d) (zdrop d S);
  inv_read : 0 ≤ r.(read_pos) ≤ n - d;
  inv_fin_seq : r.(fin_seen) = true → r.(fin_seq) = u32 (isn + len S);
  inv_keep : r.(keep_payload) = true;
}.
Record Inv (d n k : Z) (r : TcpReassembler) : Prop := {
  inv_core : Core d n k r;
  inv_queue : queue_ok n r.(out_of_order);
  inv_ooo : r.(ooo_bytes) = queue_bytes r.(out_of_order);
  inv_max : r.(ooo_bytes) ≤ MAX_OOO_BYTES;
}.

(** The byte at offset [p] is in the assembled part or in the queue. *)
Definition covers (data : bytes) (off p : Z) : Prop := off ≤ p < off + len data.
Definition queued (l : list Segment) (p : Z) : Prop :=
  Exists (λ s, ∃ off, carries s.(seq) s.(data) off ∧ covers s.(data) off p) l.
Definition held (n : Z) (r : TcpReassembler) (p : Z) : Prop :=
  p < n ∨ queued r.(out_of_order) p.

(** *** Facts about runs of the stream *)

Lemma run_append d n m :
  0 ≤ d ≤ n → n ≤ m → m ≤ len S →
  ztake (n - d) (zdrop d S) ++ ztake (m - n) (zdrop n S) = ztake (m - d) (zdrop d S).
Proof.
  intros Hd Hm HS. unfold ztake, zdrop.
  replace (Z.to_nat n) with (Z.to_nat d + Z.to_nat (n - d))%nat by lia.
  rewrite <- drop_drop, take_take_drop. f_equal. lia.
Qed.

Lemma run_len off m : 0 ≤ off → 0 ≤ m → off + m ≤ len S → len (ztake m (zdrop off S)) = m.
Proof. intros. rewrite len_ztake; [done|]. rewrite len_zdrop; lia. Qed.

Lemma run_zdrop c off m :
  0 ≤ c ≤ m → 0 ≤ off → zdrop c (ztake m (zdrop off S)) = ztake (m - c) (zdrop (off + c) S).
Proof.
  intros Hc Ho. unfold ztake, zdrop. rewrite skipn_firstn_comm, drop_drop.
  f_equal; [lia|]. f_equal. lia.
Qed.

Lemma queue_bytes_nonneg l : 0 ≤ queue_bytes l.
Proof. induction l as [|s l IH]; cbn; [done|]. pose proof (len_nonneg s.(data)). lia. Qed.

Lemma queue_ok_weaken n m l : m ≤ n → queue_ok n l → queue_ok m l.
Proof.
  destruct l as [|s l]; [done|]. intros Hm (off & Hn & Hc & Hl). exists off.
  split_and!; [lia|done|done].
Qed.

(** *** Sequence numbers against offsets *)

Lemma delta_eq a b : - 2 ^ 31 ≤ a - b < 2 ^ 31 → i32 (u32 (u32 (isn + a) - u32 (isn + b))) = a - b.
Proof. intros. rewrite u32_diff, i32_u32, i32_small; lia. Qed.

Lemma seq_eq a b : - 2 ^ 31 ≤ a - b < 2 ^ 31 → u32 (isn + a) = u32 (isn + b) ↔ a = b.
Proof.
  intros Hd. split; [|by intros ->]. intros Heq. pose proof (delta_eq a b Hd) as H.
  rewrite Heq, Z.sub_diag in H. change (i32 (u32 0)) with 0 in H. lia.
Qed.

Lemma dist_eq a b : 0 ≤ a - b < 2 ^ 32 → u32 (u32 (isn + a) - u32 (isn + b)) = a - b.
Proof. intros. rewrite u32_diff. by apply u32_small. Qed.

(** *** Appending and draining *)

Lemma append_core d n r m :
  Core d n 0 r → n ≤ m → m ≤ len S → len S < 2 ^ 31 →
  Core d m 0 (append r (ztake (m - n) (zdrop n S))).
Proof.
  intros [Hn [Hd Hr] Hf Ha Hrp Hfs Hk] Hnm HmS HS.
  assert (Hl : len (ztake (m - n) (zdrop n S)) = m - n) by (apply run_len; lia).
  split; cbn [append set_next_seq set_assembled next_seq assembled read_pos fin_seen fin_seq
              keep_payload]; auto.
  - rewrite Hl, (u32_small (m - n)), Hn, u32_add_l by lia. f_equal. lia.
  - lia.
  - lia.
  - rewrite Ha. apply run_append; lia.
  - lia.
Qed.

Lemma set_ooo_core d n k r b l : Core d n k r → Core d n k (set_ooo r b l).
Proof. intros []. by split. Qed.

(** The parts of the state that taking in data leaves alone. *)
Definition frame (r r' : TcpReassembler) : Prop :=
  r'.(state) = r.(state) ∧ r'.(seeded) = r.(seeded) ∧ r'.(fin_seen) = r.(fin_seen) ∧
  r'.(fin_seq) = r.(fin_seq) ∧ r'.(read_pos) = r.(read_pos).

Lemma wp_drain_loop d segs n r :
  Core d n 0 r → len S < 2 ^ 31 → r.(ooo_bytes) = queue_bytes segs →
  queue_ok (-1) segs → queue_bytes segs ≤ MAX_OOO_BYTES →
  wp (drain_loop segs r) (λ r', ∃ m, n ≤ m ∧ Inv d m 0 r' ∧ frame r r' ∧
    r'.(ooo_bytes) ≤ r.(ooo_bytes) ∧ ∀ p, queued segs p → held m r' p).
Proof.
  intros HI HS. revert n r HI. induction segs as [|s segs IH]; intros n r HI Ho Hq Hmax.
  { apply wp_ret. exists n. split_and!; [lia| |done|cbn; lia|].
    - split; [by apply set_ooo_core|done..|]. cbn in *. lia.
    - intros p Hp. by apply Exists_nil in Hp. }
  destruct Hq as (off & Hoff & Hc & Hq). pose proof Hc as (Hseq & Ho0 & HoS & Hdata).
  pose proof (len_nonneg s.(data)) as Hdl. pose proof (queue_bytes_nonneg segs).
  cbn [drain_loop queue_bytes] in *. pose proof (inv_range _ _ _ _ HI) as [Hdn HnS].
  assert (Hn : next_seq r = u32 (isn + n)) by (rewrite (inv_next _ _ _ _ HI); f_equal; lia).
  rewrite Hn, Hseq, delta_eq by lia. split_if.
  { apply wp_ret. exists n. split_and!; [lia| |done|cbn; lia|by right].
    split; [by apply set_ooo_core| |done|cbn; lia].
    exists off. split_and!; [lia|done|done]. }
  split_if; [lia|]. replace (- (off - n)) with (n - off) by lia.
  rewrite (u32_small (n - off)) by lia.
  set (r1 := if _ <? _ then _ else r).
  set (m := n `max` (off + len s.(data))).
  assert (H1 : Core d m 0 r1 ∧ frame r r1 ∧ r1.(ooo_bytes) = r.(ooo_bytes)).
  { subst r1 m. split_if; [|rewrite Z.max_l by lia; done].
    assert (zdrop (n - off) s.(data) = ztake (off + len s.(data) - n) (zdrop n S)) as ->.
    { rewrite Hdata at 1. rewrite run_zdrop by lia. f_equal; [lia|]. f_equal. lia. }
    rewrite Z.max_r by lia. split; [apply append_core; auto; lia|done]. }
  destruct H1 as (Hco1 & Hf1 & Ho1). clearbody r1.
  rewrite Ho1, (u64_small (_ - _)) by (rewrite Ho; change MAX_OOO_BYTES with 1048576 in *; lia).
  eapply wp_mono; [apply (IH m); [by apply set_ooo_core|cbn; lia|apply (queue_ok_weaken off); [lia|done]|lia]|].
  intros r' (m' & Hm' & HI' & Hf' & Hb' & Hh). exists m'. split_and!; [lia|done| |cbn in *; lia|].
  - destruct Hf1 as (? & ? & ? & ? & ?), Hf' as (? & ? & ? & ? & ?). cbn in *.
    unfold frame. split_and!; congruence.
  - intros p Hp. apply Exists_cons in Hp as [(o & Hco & Hcov)|Hp]; [|by apply Hh]. left.
    destruct Hco as (Hs' & ? & ? & _). unfold covers in Hcov.
    assert (o = off) as -> by (apply seq_eq; [lia|congruence]). lia.
Qed.

(** *** The place of a segment in the queue *)

Definition before (n off : Z) (s : Segment) : bool :=
  u32 (s.(seq) - u32 (isn + n)) <? u32 (u32 (isn + off) - u32 (isn + n)).

Lemma before_eq n off s o :
  0 ≤ n → n < off → off ≤ len S → n < o → carries s.(seq) s.(data) o → len S < 2 ^ 31 →
  before n off s = (o <? off).
Proof.
  intros Hn Ho Hl Hno (Hs & ? & ? & _) HS. pose proof (len_nonneg s.(data)).
  unfold before. rewrite Hs, !dist_eq by lia. lia.
Qed.

Lemma not_before n off o l :
  0 ≤ n → n < off → off ≤ len S → off ≤ o → len S < 2 ^ 31 → queue_ok o l →
  forallb (λ s, negb (before n off s)) l = true.
Proof.
  intros Hn Ho Hl Hoo HS. revert o Hoo. induction l as [|s l IH]; intros o Hoo; [done|].
  intros (o' & Ho' & Hc & Hq). cbn [forallb]. rewrite (before_eq _ _ _ o') by (done || lia).
  rewrite (proj2 (Z.ltb_ge _ _)) by lia. apply (IH o'); [lia|done].
Qed.

(** [lower_bound] splits the queue at the offset: what is put back after the
    first part may start anywhere from the offset on. *)
Lemma lower_bound_split n off l lo :
  0 ≤ n ≤ lo → lo < off → off ≤ len S → len S < 2 ^ 31 → queue_ok lo l →
  ∃ l1 l2, l = l1 ++ l2 ∧ split_point (before n off) l = length l1 ∧
    forallb (λ s, negb (before n off s)) l2 = true ∧
    (∀ l2', (∀ lo', lo' < off → queue_ok lo' l2') → queue_ok lo (l1 ++ l2')) ∧
    match l2 with
    | [] => True
    | s :: t => ∃ o, off ≤ o ∧ carries s.(seq) s.(data) o ∧ queue_ok o t
    end.
Proof.
  intros Hn Hlo Hoff HS. revert lo Hn Hlo. induction l as [|s l IH]; intros lo Hn Hlo.
  { intros _. exists [], []. split_and!; auto. }
  intros (o & Ho & Hc & Hq). cbn [split_point].
  rewrite (before_eq n off s o) by (done || lia). destruct (Z.ltb_spec o off).
  - destruct (IH o) as (l1 & l2 & -> & -> & Hf & Hput & Hl2); [lia..|done|].
    exists (s :: l1), l2. split_and!; auto. intros l2' Hl2'. exists o. split_and!; auto.
  - exists [], (s :: l). split_and!; auto; [|by exists o].
    cbn [forallb]. rewrite (before_eq _ _ _ o) by (done || lia).
    rewrite (proj2 (Z.ltb_ge _ _)) by lia. by apply (not_before _ _ o); lia || auto.
Qed.

Lemma queue_bytes_app l k : queue_bytes (l ++ k) = queue_bytes l + queue_bytes k.
Proof. induction l as [|s l IH]; cbn [queue_bytes app]; [done|lia]. Qed.

Lemma queued_app l k p : queued (l ++ k) p ↔ queued l p ∨ queued k p.
Proof. apply Exists_app. Qed.
Lemma queued_cons s l p off :
  carries s.(seq) s.(data) off → covers s.(data) off p → queued (s :: l) p.
Proof. intros. apply Exists_cons_hd. by exists off. Qed.

(** *** Taking in a segment *)

(** What every branch of [ingest] guarantees. *)
Definition ingested (d n k : Z) (r : TcpReassembler) (off : Z) (span : bytes) (r' : TcpReassembler)
    : Prop :=
  ∃ m, n ≤ m ∧ Inv d m k r' ∧ frame r r' ∧
    r'.(ooo_bytes) ≤ r.(ooo_bytes) + len span ∧
    (∀ p, held n r p → held m r' p) ∧
    (r.(ooo_bytes) + len span ≤ MAX_OOO_BYTES → ∀ p, covers span off p → held m r' p).

(** The two branches that extend the assembled part. *)
Lemma wp_append_drain d n r off span c :
  Inv d n 0 r → len S < 2 ^ 31 → carries (u32 (isn + off)) span off → off ≤ n →
  c = n - off → c ≤ len span →
  wp (drain (append r (zdrop c span))) (ingested d n 0 r off span).
Proof.
  intros HI HS (_ & Ho & Hl & Hspan) Hoff -> Hc. pose proof (inv_core _ _ _ _ HI) as Hcore.
  pose proof (inv_range _ _ _ _ Hcore) as [Hdn HnS]. pose proof (len_nonneg span).
  assert (zdrop (n - off) span = ztake (off + len span - n) (zdrop n S)) as ->.
  { rewrite Hspan at 1. rewrite run_zdrop by lia. f_equal; [lia|]. f_equal. lia. }
  assert (Hc' : Core d (off + len span) 0 (append r (ztake (off + len span - n) (zdrop n S))))
    by (apply append_core; auto; lia).
  unfold drain. eapply wp_mono; [apply (wp_drain_loop d _ (off + len span)); [done|done| | |]|].
  - by destruct HI.
  - apply (queue_ok_weaken n); [lia|by destruct HI].
  - destruct HI as [_ _ Hob ?]. cbn in *. lia.
  - intros r' (m & Hm & HI' & Hf & Hb & Hh). exists m. cbn in *. split_and!; [lia|done|done|lia| |].
    + intros p [Hp|Hp]; [left; lia|by apply Hh].
    + intros _ p Hp. left. unfold covers in Hp. lia.
Qed.

(** The branch that puts a segment into the queue. *)
Lemma put_inv d n r off span l1 l2 ls :
  Inv d n 0 r → carries (u32 (isn + off)) span off →
  r.(out_of_order) = l1 ++ ls ++ l2 →
  (∀ l2', (∀ lo', lo' < off → queue_ok lo' l2') → queue_ok n (l1 ++ l2')) →
  queue_ok off l2 →
  r.(ooo_bytes) + len span - queue_bytes ls ≤ MAX_OOO_BYTES →
  (∀ p, queued ls p → covers span off p) →
  let r' := set_ooo r (r.(ooo_bytes) + len span - queue_bytes ls)
                    (l1 ++ mkSegment (u32 (isn + off)) span :: l2) in
  Inv d n 0 r' ∧ (∀ p, held n r p → held n r' p) ∧ (∀ p, covers span off p → held n r' p).
Proof.
  intros [Hcore Hq Ho Hm] Hc Hl Hput Hl2 Hmax Hls. cbn zeta. split_and!.
  - split; cbn [set_ooo out_of_order ooo_bytes].
    + by apply set_ooo_core.
    + apply Hput. intros lo' Hlo'. exists off. split_and!; auto.
    + rewrite Ho, Hl, !queue_bytes_app. cbn [queue_bytes data]. lia.
    + done.
  - intros p [Hp|Hp]; [by left|right]. cbn [set_ooo out_of_order]. rewrite Hl in Hp.
    rewrite !queued_app in Hp. rewrite queued_app. destruct Hp as [Hp|[Hp|Hp]]; [by left|right..].
    + by apply (queued_cons _ _ _ off); [|apply Hls].
    + by apply Exists_cons_tl.
  - intros p Hp. right. cbn [set_ooo out_of_order]. rewrite queued_app. right.
    by apply (queued_cons _ _ _ off).
Qed.

Lemma wp_ingest d n k r off span :
  Inv d n k r → len S + k < 2 ^ 31 → carries (u32 (isn + off)) span off →
  wp (ingest r (u32 (isn + off)) span) (ingested d n k r off span).
Proof.
  intros HI HS Hc. pose proof Hc as (_ & Ho & Hl & Hspan). pose proof HI as [Hcore Hq Hob Hm].
  pose proof Hcore as [Hn [Hdn HnS] [Hk Hkn] _ _ _ Hkeep]. pose proof (len_nonneg span) as Hlen.
  change MAX_OOO_BYTES with 1048576 in *. pose proof (queue_bytes_nonneg r.(out_of_order)).
  unfold ingest. rewrite Hkeep. cbn [negb].
  rewrite Hn, <- Z.add_assoc, delta_eq by lia.
  assert (Hsame : (∀ p, covers span off p → held n r p) → ingested d n k r off span r).
  { intros Hcov. exists n. split_and!; auto; [lia|done|lia]. }
  destruct (Z.eq_dec k 0) as [->|Hk0].
  2: { specialize (Hkn ltac:(lia)). rewrite (proj2 (Z.eqb_neq _ _)) by (rewrite seq_eq; lia).
       rewrite (proj2 (Z.ltb_ge _ _)) by lia. rewrite dist_eq, (u32_small (len span)) by lia.
       rewrite (proj2 (Z.ltb_ge _ _)) by lia. apply wp_ret, Hsame.
       intros p Hp. left. unfold covers in Hp. lia. }
  rewrite Z.add_0_r. destruct (Z.eqb_spec (u32 (isn + off)) (u32 (isn + n))) as [Heq|Hne].
  { apply (proj1 (seq_eq off n ltac:(lia))) in Heq. subst off. rewrite <- (zdrop_0 span).
    apply wp_append_drain; rewrite ?zdrop_0; auto; lia. }
  assert (off ≠ n) by congruence. destruct (Z.ltb_spec 0 (off - n)).
  2: { rewrite dist_eq, (u32_small (len span)) by lia. split_if.
       - apply wp_append_drain; auto; lia.
       - apply wp_ret, Hsame. intros p Hp. left. unfold covers in Hp. lia. }
  destruct (lower_bound_split n off r.(out_of_order) n)
    as (l1 & l2 & Hl12 & Hsp & Hfa & Hput & Hl2); [lia..|done|].
  assert (Hlb : lower_bound (before n off) r.(out_of_order) = Ret (length l1))
    by (unfold lower_bound; by rewrite Hsp, Hl12, drop_app_length, Hfa).
  change (lower_bound _ r.(out_of_order)) with (lower_bound (before n off) r.(out_of_order)).
  rewrite Hlb, bind_ret. cbn zeta.
  rewrite Hl12, lookup_app_r, Nat.sub_diag, take_app_length, drop_app_length by lia.
  rewrite (u64_small (ooo_bytes r + len span)) by lia.
  assert (Hfresh : queue_ok off l2 → wp (Ret (if ooo_bytes r + len span <=? MAX_OOO_BYTES
      then set_ooo r (ooo_bytes r + len span) (l1 ++ mkSegment (u32 (isn + off)) span :: l2)
      else r)) (ingested d n 0 r off span)).
  { intros Hq2. apply wp_ret. split_if.
    - destruct (put_inv d n r off span l1 l2 []) as (HI' & Hh & Hcov); auto; cbn [queue_bytes]; [lia| |].
      { intros p Hp. by apply Exists_nil in Hp. }
      cbn [queue_bytes] in *. rewrite Z.sub_0_r in *. exists n. split_and!; auto; [lia|done|cbn; lia].
    - exists n. split_and!; auto; [lia|done|lia|lia]. }
  destruct l2 as [|s t]; [by apply Hfresh|]. cbn [lookup list_lookup].
  destruct Hl2 as (o & Hoo & Hco & Hqt). pose proof Hco as (Hso & ? & ? & _).
  pose proof (len_nonneg s.(data)). rewrite Hso.
  destruct (Z.eqb_spec (u32 (isn + o)) (u32 (isn + off))) as [Heq|Hne'].
  2: { apply Hfresh. exists o. split_and!; auto. assert (o ≠ off) by congruence. lia. }
  apply (proj1 (seq_eq o off ltac:(lia))) in Heq. subst o.
  assert (Hbig : len span ≤ len s.(data) → ingested d n 0 r off span r).
  { intros Hle. apply Hsame. intros p Hp. right. rewrite Hl12, queued_app. right.
    apply (queued_cons _ _ _ off); [done|]. unfold covers in *. lia. }
  assert (len s.(data) ≤ ooo_bytes r).
  { rewrite Hob, Hl12, queue_bytes_app. cbn [queue_bytes].
    pose proof (queue_bytes_nonneg l1). pose proof (queue_bytes_nonneg t). lia. }
  split_if; [|by apply wp_ret, Hbig; lia].
  rewrite (u64_small (_ - _)), (u64_small (_ + (_ - _))) by lia.
  split_if; apply wp_ret.
  2: { exists n. split_and!; auto; [lia|done|lia|lia]. }
  rewrite insert_app_r_alt, Nat.sub_diag by lia. cbn [insert list_insert].
  destruct (put_inv d n r off span l1 t [s]) as (HI' & Hh & Hcov); auto;
    cbn [queue_bytes]; [lia| |].
  { intros p Hp. apply Exists_cons in Hp as [(o' & Hco' & Hcov)|Hp]; [|by apply Exists_nil in Hp].
    destruct Hco' as (Hs' & ? & ? & _). assert (o' = off) as -> by (apply seq_eq; [lia|congruence]).
    unfold covers in *. lia. }
  cbn [queue_bytes] in *. rewrite Z.add_0_r in *.
  replace (ooo_bytes r + (len span - len (data s))) with (ooo_bytes r + len span - len (data s)) by lia.
  exists n. split_and!; auto; [lia|done|cbn; lia].
Qed.

(** *** Data, FIN and the states *)

(** A data segment of the stream; a FIN sits right behind its last byte. *)
Definition segment_ok (h : Tcp.Header) (span : bytes) (off : Z) : Prop :=
  carries h.(Tcp.seq_number) span off ∧ (Tcp.fin h = true → off + len span = len S).

Definition finished (s : TcpState) : Prop := s = FinWait1 ∨ s = LastAck.

(** After a segment: the frontier moved to [m], and either no FIN was reached
    and the state stands, or the FIN was taken with the whole stream in. *)
Definition delivered (d n k : Z) (r : TcpReassembler) (h : Tcp.Header) (off : Z) (span : bytes)
    (r' : TcpReassembler) : Prop :=
  ∃ m k', n ≤ m ∧ Inv d m k' r' ∧ r'.(seeded) = r.(seeded) ∧ r'.(read_pos) = r.(read_pos) ∧
    r'.(ooo_bytes) ≤ r.(ooo_bytes) + len span ∧
    (∀ p, held n r p → held m r' p) ∧
    (r.(ooo_bytes) + len span ≤ MAX_OOO_BYTES → ∀ p, covers span off p → held m r' p) ∧
    (r'.(fin_seen) = true → m < len S) ∧
    (k' = k ∧ r'.(state) = r.(state) ∧ r'.(fin_seen) = (r.(fin_seen) || Tcp.fin h) ∨
     k' = k + 1 ∧ finished r'.(state) ∧ r'.(fin_seen) = false).

Lemma wp_onData d n k r h off span :
  Inv d n k r → len S + k < 2 ^ 31 → segment_ok h span off →
  wp (onData r h span) (delivered d n k r h off span).
Proof.
  intros HI HS [Hc Hfin]. pose proof Hc as (Hseq & Ho & Hl & _). pose proof (len_nonneg span).
  unfold onData. rewrite Hseq. apply wp_bind.
  eapply wp_mono; [apply (wp_ingest d n k); [done|lia|by rewrite <- Hseq]|].
  intros r1 (m & Hm & [Hcore Hq Hob Hmx] & (Hst & Hsd & Hfs & Hfq & Hrp) & Hb & Hh & Hcov).
  set (r2 := if Tcp.fin h then _ else r1).
  assert (H2 : Core d m k r2 ∧ r2.(fin_seen) = r.(fin_seen) || Tcp.fin h ∧
    r2.(out_of_order) = r1.(out_of_order) ∧ r2.(ooo_bytes) = r1.(ooo_bytes) ∧
    r2.(state) = r.(state) ∧ r2.(seeded) = r.(seeded) ∧ r2.(read_pos) = r.(read_pos)).
  { subst r2. destruct (Tcp.fin h); [|rewrite orb_false_r; by split_and!].
    rewrite orb_true_r. split_and!; cbn; auto. destruct Hcore. split; cbn; auto.
    intros _. rewrite (u32_small (len span)), u32_add_l by lia. f_equal. specialize (Hfin eq_refl). lia. }
  clearbody r2. destruct H2 as (Hc2 & Hf2 & Hq2 & Hb2 & Hst2 & Hsd2 & Hrp2).
  pose proof Hc2 as [Hn2 [Hdm HmS] [Hk Hkm] _ _ Hfq2 _].
  assert (Hheld : ∀ p, held m r1 p → held m r2 p) by (unfold held; by rewrite Hq2).
  assert (Hi2 : Inv d m k r2) by (split; rewrite ?Hq2, ?Hb2; auto).
  destruct (fin_seen r2) eqn:Ef; cbn [andb].
  2: { apply wp_ret. exists m, k. split_and!; auto; [lia|by rewrite Ef|]. left. by rewrite Ef. }
  rewrite Hn2, (Hfq2 eq_refl), <- Z.add_assoc, delta_eq by lia. split_if.
  2: { apply wp_ret. exists m, k. split_and!; auto; [lia|lia|]. left. by rewrite Ef. }
  assert (m = len S) as -> by (destruct (Z.eq_dec k 0); [lia|apply Hkm; lia]).
  apply wp_ret. exists (len S), (k + 1).
  assert (Hheld' : ∀ b s q, held (len S) r1 q →
    held (len S) (set_state (set_fin (set_next_seq r2 b) false (fin_seq r2)) s) q) by (intros ? ? q; exact (Hheld q)).
  split; [lia|]. split; [|split_and!; cbn; auto; try lia; try done].
  2: { right. split_and!; auto. unfold finished. case_decide; auto. }
  - split; cbn; [|by rewrite Hq2|by rewrite Hq2, Hb2|by rewrite Hb2].
    destruct Hc2. split; cbn; auto; [|lia]. rewrite u32_add_l. f_equal. lia.
Qed.

(** A retransmitted SYN carries nothing the stream has not. *)
Lemma wp_ingest_syn d n k r :
  Inv d n k r → len S + k < 2 ^ 31 - 1 → ingest r (u32 (isn - 1)) [] = Ret r.
Proof.
  intros [[Hn [Hdn HnS] [Hk _] _ _ _ Hkeep] _ _ _] HS. unfold ingest. rewrite Hkeep. cbn [negb].
  replace (isn - 1) with (isn + (-1)) by lia. rewrite Hn, <- Z.add_assoc, delta_eq by lia.
  rewrite (proj2 (Z.eqb_neq _ _)) by (rewrite seq_eq; lia).
  rewrite (proj2 (Z.ltb_ge _ _)) by lia. rewrite dist_eq, (@len_nil Z) by lia.
  by rewrite (proj2 (Z.ltb_ge _ _)) by (rewrite u32_small; lia).
Qed.

(** *** Reading *)

Lemma consume_inv d n k r m :
  Inv d n k r → 0 ≤ m →
  ∃ d', Inv d' n k (consume r m) ∧
    d' + (consume r m).(read_pos) = d + r.(read_pos) + Z.min m (available r).
Proof.
  intros [Hcore Hq Ho Hm] Hm0. pose proof Hcore as [Hn [Hdn HnS] Hk Ha Hrp Hfq Hkeep].
  assert (Hlen : len r.(assembled) = n - d) by (rewrite Ha; apply run_len; lia).
  unfold consume, available. rewrite Hlen. split_if.
  - exists (d + (r.(read_pos) + Z.min m (n - d - r.(read_pos)))). split; [|cbn; lia].
    split; cbn; auto. split; cbn; auto; try lia.
    rewrite Ha, run_zdrop by lia. f_equal. lia.
  - exists d. split; [|cbn; lia]. split; cbn; auto. split; cbn; auto. lia.
Qed.

Lemma peek_inv d n k r :
  Inv d n k r → peek r = ztake (n - (d + r.(read_pos))) (zdrop (d + r.(read_pos)) S).
Proof.
  intros [[_ [Hdn HnS] _ Ha Hrp _ _] _ _ _]. unfold peek. rewrite Ha, run_zdrop by lia.
  f_equal. lia.
Qed.

(** *** A life of the reassembler *)

Inductive Event :=
| Sent (h : Tcp.Header) (span : bytes)
| Received (h : Tcp.Header)
| Read (n : Z).

(** [Read] is what the application decoders do: they take the first bytes of
    [peek] and [consume] them. *)
Definition step (st : TcpReassembler * bytes) (e : Event) : outcome (TcpReassembler * bytes) :=
  let '(r, out) := st in
  match e with
  | Sent h span => r ← onSent r h span; Ret (r, out)
  | Received h => Ret (onReceived r h, out)
  | Read n => Ret (consume r n, out ++ ztake n (peek r))
  end.
Fixpoint run (events : list Event) (st : TcpReassembler * bytes)
    : outcome (TcpReassembler * bytes) :=
  match events with
  | [] => Ret st
  | e :: events => st ← step st e; run events st
  end.

(** What a sender of [S] puts on the wire: resets, its SYN (any number of
    times), and segments of the stream in any order, overlapping in any way. *)
Definition event_ok (e : Event) : Prop :=
  match e with
  | Sent h span =>
      Tcp.rst h = true ∨
      Tcp.syn h = true ∧ Tcp.fin h = false ∧ h.(Tcp.seq_number) = u32 (isn - 1) ∧ span = [] ∨
      Tcp.syn h = false ∧ ∃ off, segment_ok h span off
  | Received _ => True
  | Read n => 0 ≤ n
  end.

Definition fresh_ok (r : TcpReassembler) : Prop :=
  r.(seeded) = false ∧ r.(assembled) = [] ∧ r.(out_of_order) = [] ∧ r.(ooo_bytes) = 0 ∧
  r.(fin_seen) = false ∧ r.(read_pos) = 0 ∧ r.(keep_payload) = true.

Definition live (d n k : Z) (r : TcpReassembler) : Prop :=
  r.(seeded) = true ∧ Inv d n k r ∧ (r.(fin_seen) = true → n < len S).

Definition sound (budget : Z) (st : TcpReassembler * bytes) : Prop :=
  let '(r, out) := st in
  fresh_ok r ∧ out = [] ∨
  ∃ start d n k, live d n k r ∧ k ≤ budget ∧ 0 ≤ start ≤ d + r.(read_pos) ∧
    out = ztake (d + r.(read_pos) - start) (zdrop start S).

Lemma set_state_inv d n k r s : Inv d n k r → Inv d n k (set_state r s).
Proof. intros [[] ? ? ?]. split; [by split|done..]. Qed.

(** Seeding puts the frontier at the offset of the first segment. *)
Lemma seed_inv r off s :
  fresh_ok r → 0 ≤ off ≤ len S → s = u32 (isn + off) →
  live off off 0 (set_seeded (set_next_seq r s)).
Proof.
  intros (_ & Ha & Hq & Ho & Hf & Hr & Hk) Hoff ->. split; [done|]. split; [|cbn; by rewrite Hf].
  split; cbn; rewrite ?Hq, ?Ho; auto; [|done|done].
  split; cbn; rewrite ?Ha, ?Hr, ?Hf; auto; try lia; try done.
  - f_equal. lia.
  - by rewrite Z.sub_diag.
Qed.

(** Data of a live connection, a retransmitted SYN included. *)
Lemma wp_onData_live d n k r h span :
  live d n k r → len S + k < 2 ^ 31 - 1 → Tcp.rst h = false → event_ok (Sent h span) →
  wp (onData r h span) (λ r', ∃ m k', live d m k' r' ∧ k' ≤ k + 1 ∧ r'.(read_pos) = r.(read_pos)).
Proof.
  intros (Hsd & HI & Hfs) HS Hrst [Hr|[(Hsyn & Hfin & Hseq & ->)|(Hsyn & off & Hok)]];
    [congruence| |].
  - unfold onData. rewrite Hseq, (wp_ingest_syn d n k), bind_ret, Hfin by done.
    pose proof (inv_core _ _ _ _ HI) as [Hn [Hdn HnS] [Hk Hkn] _ _ Hfq _].
    destruct (fin_seen r) eqn:Ef; cbn [andb].
    + specialize (Hfs eq_refl). assert (k = 0) as -> by (destruct (Z.eq_dec k 0); [done|lia]).
      rewrite Hn, (Hfq eq_refl), <- Z.add_assoc, delta_eq by lia.
      rewrite (proj2 (Z.leb_gt _ _)) by lia. apply wp_ret. exists n, 0.
      split_and!; [|lia|done]. split_and!; auto.
    + apply wp_ret. exists n, k. split_and!; [|lia|done]. split_and!; auto. by rewrite Ef.
  - eapply wp_mono; [apply (wp_onData d n k); [done|lia|done]|].
    intros r' (m & k' & Hm & HI' & Hsd' & Hrp & _ & _ & _ & Hq & Hk). exists m, k'.
    split_and!; [split_and!; auto; congruence|lia|done].
Qed.

Lemma set_state_live d n k r s : live d n k r → live d n k (set_state r s).
Proof. intros (? & ? & ?). split_and!; auto. by apply set_state_inv. Qed.

Lemma onReceived_state r h : ∃ s, onReceived r h = set_state r s.
Proof.
  assert (∃ s, r = set_state r s) by (exists r.(state); by destruct r).
  unfold onReceived. repeat case_match; eauto.
Qed.

(** [onSent] on a live connection hands the segment to [onData] or drops it;
    the state may change on the way. *)
Lemma wp_onSent_live d n k r h span :
  live d n k r → len S + k < 2 ^ 31 - 1 → event_ok (Sent h span) →
  wp (onSent r h span) (λ r', ∃ m k', live d m k' r' ∧ k' ≤ k + 1 ∧ r'.(read_pos) = r.(read_pos)).
Proof.
  intros Hl HS Hev. pose proof Hl as (Hsd & _ & _).
  assert (Hstay : ∀ s, wp (Ret (set_state r s)) (λ r', ∃ m k', live d m k' r' ∧ k' ≤ k + 1 ∧
    r'.(read_pos) = r.(read_pos))).
  { intros s. apply wp_ret. exists n, k. split_and!; [by apply set_state_live|lia|done]. }
  assert (Hsame : wp (Ret r) (λ r', ∃ m k', live d m k' r' ∧ k' ≤ k + 1 ∧
    r'.(read_pos) = r.(read_pos))) by (apply wp_ret; exists n, k; split_and!; auto; lia).
  unfold onSent. destruct (Tcp.rst h) eqn:Hr; [apply Hstay|]. rewrite Hsd. cbn [negb].
  destruct (state r) eqn:Est; try apply Hsame; try by apply (wp_onData_live d n k).
  cbn zeta. destruct (Tcp.ack h && negb (Tcp.syn h)).
  - rewrite decide_True by done.
    apply (wp_onData_live d n k (set_state r Established)); auto. by apply set_state_live.
  - rewrite decide_False by (by rewrite Est). apply Hsame.
Qed.

(** [onSent] before the first segment: it seeds the frontier or waits. *)
Lemma wp_onSent_fresh r h span :
  fresh_ok r → len S < 2 ^ 31 - 1 → event_ok (Sent h span) →
  wp (onSent r h span) (λ r', fresh_ok r' ∨ ∃ d n k, live d n k r' ∧ k ≤ 1 ∧ 0 ≤ d ∧ r'.(read_pos) = 0).
Proof.
  intros Hf HS Hev. pose proof Hf as (Hsd & _ & _ & _ & _ & Hrp & _).
  assert (Hset : ∀ s, fresh_ok (set_state r s)) by done.
  unfold onSent. destruct (Tcp.rst h) eqn:Hr; [by left|]. rewrite Hsd. cbn [negb].
  destruct Hev as [Hr'|[(Hsyn & Hfin & Hseq & ->)|(Hsyn & off & Hok)]]; [congruence| |].
  - rewrite Hsyn, Hseq. pose proof (len_nonneg S).
    rewrite u32_add_l. replace (isn - 1 + 1) with (isn + 0) by lia.
    set (r1 := set_seeded _).
    assert (Hl1 : live 0 0 0 r1).
    { change r1 with (set_state (set_seeded (set_next_seq r (u32 (isn + 0))))
        (if Tcp.ack h then SynReceived else SynSent)).
      apply set_state_live, seed_inv; auto. lia. }
    destruct Hl1 as (Hs1 & HI1 & _).
    eapply wp_mono; [apply (wp_ingest 0 0 0); [done|lia|]|].
    { split_and!; [done|lia|rewrite (@len_nil Z); lia|done]. }
    intros r2 (m & Hm & HI2 & (Hst & Hsd2 & Hfs & Hfq & Hrp2) & _). right. exists 0, m, 0.
    assert (Hf2 : fin_seen r2 = false) by (rewrite Hfs; by destruct Hf as (_ & _ & _ & _ & ? & _)).
    split_and!; [|lia|lia|by rewrite Hrp2]. split_and!; [by rewrite Hsd2|done|by rewrite Hf2].
  - rewrite Hsyn. destruct (Tcp.ack h); [|by left]. cbn zeta.
    pose proof Hok as [(Hseq & Ho & Hle & _) _]. pose proof (len_nonneg span).
    set (r1 := if decide _ then _ else _).
    assert (Hl1 : live off off 0 r1 ∧ r1.(read_pos) = 0).
    { assert (live off off 0 (set_seeded (set_next_seq r h.(Tcp.seq_number))))
        by (apply seed_inv; auto; lia).
      subst r1. destruct (decide _); [done|]. split; [by apply set_state_live|done]. }
    destruct Hl1 as [Hl1 Hrp1].
    eapply wp_mono; [apply (wp_onData_live off off 0); [done|lia|done|right; right; eauto]|].
    intros r' (m & k' & Hl' & Hk' & Hrp'). right. exists off, m, k'.
    split_and!; [done|lia|lia|congruence].
Qed.

Lemma wp_step_sound budget st e :
  sound budget st → 0 ≤ budget → len S + budget < 2 ^ 31 - 1 → event_ok e →
  wp (step st e) (sound (budget + 1)).
Proof.
  destruct st as [r out]. intros [[Hf ->]|(start & d & n & k & Hl & Hk & Hst & ->)] Hb HS Hev.
  - destruct e as [h span|h|m]; cbn [step].
    + apply wp_bind. eapply wp_mono; [apply wp_onSent_fresh; auto; lia|].
      intros r' [Hf'|(d & n & k & Hl & Hk & Hd & Hrp)]; apply wp_ret; [by left|].
      right. exists d, d, n, k. rewrite Hrp. split_and!; auto; [lia..|].
      by replace (d + 0 - d) with 0 by lia.
    + apply wp_ret. destruct (onReceived_state r h) as [s ->]. by left.
    + apply wp_ret. left. destruct Hf as (Hsd & Ha & ? & ? & ? & Hrp & ?).
      unfold consume, peek, available. rewrite Ha, Hrp. cbn in Hev.
      change (len (@nil Z)) with 0. rewrite Z.min_r by lia. cbn. split; [by repeat split|]. unfold ztake. by rewrite zdrop_0, firstn_nil.
  - pose proof Hl as (Hsd & HI & Hfs). destruct e as [h span|h|m]; cbn [step].
    + apply wp_bind. eapply wp_mono; [apply (wp_onSent_live d n k); auto; lia|].
      intros r' (n' & k' & Hl' & Hk' & Hrp). apply wp_ret. right. exists start, d, n', k'.
      rewrite Hrp. split_and!; auto; lia.
    + apply wp_ret. destruct (onReceived_state r h) as [s ->]. right. exists start, d, n, k.
      split; [by apply set_state_live|]. cbn. split_and!; auto; lia.
    + apply wp_ret. right. destruct (consume_inv d n k r m HI Hev) as (d' & HI' & Hd').
      exists start, d', n, k. rewrite Hd'.
      pose proof (inv_core _ _ _ _ HI) as [_ [Hdn HnS] _ Ha Hrp _ _].
      assert (Hav : available r = n - (d + r.(read_pos)))
        by (unfold available; rewrite Ha, run_len by lia; lia).
      cbn in Hev. split_and!; [|lia|lia|lia|].
      { unfold live, consume in *. split; [by case_match|]. split; [done|]. by case_match. }
      rewrite (peek_inv d n k r HI), Hav.
      assert (Hmin : ∀ x, 0 ≤ x → ztake m (ztake x (zdrop (d + r.(read_pos)) S)) =
        ztake (Z.min m x) (zdrop (d + r.(read_pos)) S)).
      { intros x Hx. unfold ztake. rewrite take_take. f_equal. lia. }
      rewrite Hmin by lia.
      set (c := d + r.(read_pos)) in *. set (a := Z.min m (n - c)).
      replace a with (c + a - c) at 1 by lia. apply run_append; lia.
Qed.

(** C3: reassembly is sound: whatever the order, the overlaps, the losses and
    the retransmissions of the segments, with resets and with the peer's
    segments in between, what the application has read followed by what it
    can still read is one contiguous run of the stream the sender sent; in
    particular the reassembler never stops on undefined behaviour.  Conditions: a
    stream of less than 2^31 bytes, the number of events (segments of either side
    and reads) counted in, as beyond that an old segment compares as a future one;
    and a SYN carries neither data nor a FIN. *)
Theorem stream_sound (events : list Event) :
  Forall event_ok events → len S + len events < 2 ^ 31 - 1 →
  ∃ r out start n, run events (initial, []) = Ret (r, out) ∧
    0 ≤ start ≤ n ∧ n ≤ len S ∧ out ++ peek r = ztake (n - start) (zdrop start S).
Proof.
  intros Hev HS.
  assert (Hgen : ∀ b st, 0 ≤ b → len S + (b + len events) < 2 ^ 31 - 1 → sound b st →
    wp (run events st) (sound (b + len events))).
  { clear HS. induction Hev as [|e events He Hev IH]; intros b st Hb HS Hst.
    - apply wp_ret. by replace (b + len []) with b by (rewrite (@len_nil Event); lia).
    - rewrite len_cons in *. pose proof (len_nonneg events). cbn [run]. apply wp_bind.
      eapply wp_mono; [apply (wp_step_sound b); [done|lia|lia|done]|].
      intros st' Hst'. replace (b + (1 + len events)) with (b + 1 + len events) by lia.
      apply IH; [lia|lia|done]. }
  assert (Hrun : wp (run events (initial, [])) (sound (0 + len events)))
    by (apply Hgen; [lia|lia|left; by repeat split]).
  apply wp_returns in Hrun as ([r out] & -> & Hs). exists r, out. pose proof (len_nonneg S).
  destruct Hs as [[(_ & Ha & _ & _ & _ & Hrp & _) ->]|(start & d & n & k & (_ & HI & _) & _ & Hst & ->)].
  - exists 0, 0. split_and!; [done|lia..|]. unfold peek. rewrite Ha. by rewrite zdrop_ge by (rewrite len_nil; lia).
  - exists start, n. pose proof (inv_core _ _ _ _ HI) as [_ [Hdn HnS] _ _ Hrp _ _].
    split_and!; [done|lia..|]. rewrite (peek_inv d n k r HI). apply run_append; lia.
Qed.

(** *** Completeness *)

(** A data segment of an open connection: acknowledging, no SYN, no reset. *)
Definition data_ok (h : Tcp.Header) (span : bytes) (off : Z) : Prop :=
  Tcp.rst h = false ∧ Tcp.syn h = false ∧ Tcp.ack h = true ∧ segment_ok h span off.

Definition open_state (s : TcpState) : Prop := s = SynSent ∨ s = Established ∨ s = CloseWait.

Fixpoint sent_bytes (segs : list (Tcp.Header * bytes * Z)) : Z :=
  match segs with [] => 0 | (_, span, _) :: segs => len span + sent_bytes segs end.

(** What holds once the segments [segs] have been seen. *)
Record complete (segs : list (Tcp.Header * bytes * Z)) (r : TcpReassembler) : Prop := {
  co_live : ∃ n k, live 0 n k r ∧ r.(read_pos) = 0 ∧ k ≤ len segs ∧
    (k = 0 → open_state r.(state)) ∧ (0 < k → finished r.(state)) ∧
    (Exists (λ '(h, _, _), Tcp.fin h = true) segs → r.(fin_seen) = true ∨ 0 < k) ∧
    Forall (λ '(_, span, off), ∀ p, covers span off p → held n r p) segs;
  co_ooo : r.(ooo_bytes) ≤ sent_bytes segs;
}.

(** An open connection takes in a data segment. *)
Lemma wp_onSent_data n k r h span off :
  live 0 n k r → len S + k < 2 ^ 31 - 1 → open_state r.(state) → data_ok h span off →
  wp (onSent r h span) (λ r', ∃ r1, open_state r1.(state) ∧ r1.(read_pos) = r.(read_pos) ∧
    r1.(seeded) = true ∧ r1.(ooo_bytes) = r.(ooo_bytes) ∧ r1.(fin_seen) = r.(fin_seen) ∧
    (∀ p, held n r p → held n r1 p) ∧ delivered 0 n k r1 h off span r').
Proof.
  intros (Hsd & HI & Hq) HS Hst (Hr & Hs & Ha & Hok).
  assert (Hgo : ∀ s, open_state s → wp (onData (set_state r s) h span) (λ r', ∃ r1,
    open_state r1.(state) ∧ r1.(read_pos) = r.(read_pos) ∧ r1.(seeded) = true ∧
    r1.(ooo_bytes) = r.(ooo_bytes) ∧ r1.(fin_seen) = r.(fin_seen) ∧
    (∀ p, held n r p → held n r1 p) ∧ delivered 0 n k r1 h off span r')).
  { intros s Hs'. eapply wp_mono; [apply (wp_onData 0 n k); [by apply set_state_inv|lia|done]|].
    intros r' Hd. exists (set_state r s). split_and!; auto. }
  assert (Hself : set_state r r.(state) = r) by (by destruct r).
  unfold onSent. rewrite Hr, Hsd, Hs, Ha. cbn [negb andb].
  destruct Hst as [E|[E|E]]; rewrite E; cbn zeta.
  - rewrite decide_True by done. apply Hgo. by right; left.
  - rewrite <- Hself, E. apply Hgo. by right; left.
  - rewrite <- Hself, E. apply Hgo. by right; right.
Qed.

Lemma wp_complete_step segs r h span off :
  complete segs r → len S + len segs < 2 ^ 31 - 1 → data_ok h span off →
  sent_bytes segs + len span ≤ MAX_OOO_BYTES →
  wp (onSent r h span) (complete ((h, span, off) :: segs)).
Proof.
  intros [(n & k & Hl & Hrp & Hk & Hop & Hfi & Hfin & Hcov) Hooo] HS Hd Hb.
  pose proof Hl as (Hsd & HI & Hq). pose proof (inv_core _ _ _ _ HI) as [_ [Hdn HnS] [Hk0 Hkn] _ _ _ _].
  pose proof (len_nonneg span). destruct (Z.eq_dec k 0) as [->|Hkp].
  - eapply wp_mono; [apply (wp_onSent_data n 0); [done|lia|by apply Hop|done]|].
    intros r' (r1 & Hst1 & Hrp1 & Hsd1 & Hb1 & Hf1 & Hh1 & m & k' & Hm & HI' & Hsd' & Hrp' & Hb' & Hh' & Hc'
      & Hq' & Hend).
    split; [|cbn [sent_bytes]; lia]. exists m, k'.
    rewrite len_cons. split_and!; [split_and!; [congruence|done|done]|congruence|lia| | | |].
    + intros ->. destruct Hend as [(_ & -> & _)|(? & _)]; [done|lia].
    + intros Hk'. destruct Hend as [(-> & _)|(_ & ? & _)]; [lia|done].
    + intros [Hf|Hf]%Exists_cons; destruct Hend as [(-> & _ & ->)|(-> & _ & _)];
        [left; by rewrite Hf, orb_true_r|right; lia|left|right; lia].
      destruct (Hfin Hf) as [Hx|]; [|lia]. by rewrite Hf1, Hx.
    + constructor; [apply Hc'; lia|]. eapply Forall_impl; [exact Hcov|].
      intros [[h' span'] off'] Hx p Hp. auto.
  - specialize (Hfi ltac:(lia)). destruct Hd as (Hr & Hs & Ha & Hok).
    assert (onSent r h span = Ret r) as ->.
    { unfold onSent. rewrite Hr, Hsd. cbn [negb]. by destruct Hfi as [-> | ->]. }
    apply wp_ret. split; [|cbn [sent_bytes]; lia]. exists n, k. rewrite len_cons.
    split_and!; [split_and!; auto|done|lia|lia|by intros _|right; lia|].
    constructor; [|done]. intros p Hp. left. destruct Hok as [(_ & ? & ? & _) _].
    unfold covers in Hp. rewrite Hkn by lia. lia.
Qed.

(** When every byte has been seen, nothing is left in the queue. *)
Lemma frontier_end d n k r :
  Inv d n k r → len S < 2 ^ 31 → (∀ p, 0 ≤ p < len S → held n r p) → n = len S.
Proof.
  intros HI HS Hall. pose proof (inv_core _ _ _ _ HI) as [_ [Hdn HnS] _ _ _ _ _].
  destruct (Z.eq_dec n (len S)) as [|Hne]; [done|]. exfalso.
  destruct (Hall n) as [?|Hq]; [lia..|]. destruct HI as [_ Hok _ _].
  assert (Hgen : ∀ l lo, n ≤ lo → queue_ok lo l → ¬ queued l n).
  { induction l as [|s l IH]; intros lo Hlo Hl Hx; [by apply Exists_nil in Hx|].
    destruct Hl as (o & Ho & Hc & Hl).
    apply Exists_cons in Hx as [(o' & Hc' & Hcov)|Hx]; [|by apply (IH o); [lia|..]].
    destruct Hc as (Hs & ? & ? & _), Hc' as (Hs' & ? & ? & _). unfold covers in Hcov.
    pose proof (len_nonneg s.(data)).
    assert (o' = o) by (apply seq_eq; [lia|congruence]). lia. }
  by apply (Hgen r.(out_of_order) n).
Qed.

Lemma run_complete segs done_ r :
  complete done_ r → len S + (len done_ + len segs) < 2 ^ 31 - 1 →
  Forall (λ '(h, span, off), data_ok h span off) segs →
  sent_bytes done_ + sent_bytes segs ≤ MAX_OOO_BYTES →
  wp (run ((λ '(h, span, _), Sent h span) <$> segs) (r, []))
    (λ '(r', out), out = [] ∧ complete (rev segs ++ done_) r').
Proof.
  intros Hc HS Hall. revert done_ r Hc HS.
  induction Hall as [|[[h span] off] segs Hd Hall IH]; intros done_ r Hc HS Hb; [by apply wp_ret|].
  cbn [fmap list_fmap run step sent_bytes] in *. rewrite len_cons in HS.
  pose proof (len_nonneg segs). pose proof (len_nonneg span).
  assert (0 ≤ sent_bytes segs).
  { clear. induction segs as [|[[? s] ?] segs IH]; cbn [sent_bytes]; [done|].
    pose proof (len_nonneg s). lia. }
  do 2 apply wp_bind. eapply wp_mono; [apply (wp_complete_step done_); [done|lia|done|lia]|].
  intros r' Hc'. apply wp_ret. cbn [rev]. rewrite <- app_assoc. apply IH; [done| |].
  - cbn [app]. rewrite len_cons. lia.
  - cbn [sent_bytes app]. lia.
Qed.

(** How a connection opens, seen from the sender of [S]: the client sends its
    SYN, the server answers with a SYN and is acknowledged. *)
Definition opening (events : list Event) : Prop :=
  (∃ h, events = [Sent h []] ∧ Tcp.rst h = false ∧ Tcp.syn h = true ∧ Tcp.ack h = false ∧
     h.(Tcp.seq_number) = u32 (isn - 1)) ∨
  (∃ h a, events = [Sent h []; Received a] ∧ Tcp.rst h = false ∧ Tcp.syn h = true ∧
     Tcp.ack h = true ∧ h.(Tcp.seq_number) = u32 (isn - 1) ∧
     Tcp.rst a = false ∧ Tcp.syn a = false ∧ Tcp.ack a = true).

Lemma run_app e1 e2 st : run (e1 ++ e2) st = (st ← run e1 st; run e2 st).
Proof.
  revert st. induction e1 as [|e e1 IH]; intros st; [done|]. cbn [app run].
  destruct (step st e) as [st'| |]; [apply IH|done..].
Qed.

Lemma run_opening events :
  opening events → ∃ s, open_state s ∧ run events (initial, []) =
    Ret (set_state (set_seeded (set_next_seq initial (u32 (isn + 0)))) s, []).
Proof.
  intros [(h & -> & Hr & Hs & Ha & Hq)|(h & a & -> & Hr & Hs & Ha & Hq & Hr' & Hs' & Ha')];
    [exists SynSent|exists (if Tcp.fin a then CloseWait else Established)];
    (split; [unfold open_state; destruct_and?; try case_match; auto|]);
    cbn [run step]; unfold onSent; rewrite Hr, Hs, Ha, Hq, u32_add_l;
    replace (isn - 1 + 1) with (isn + 0) by lia; cbn [initial seeded negb];
    unfold ingest; cbn [keep_payload set_seeded set_state set_next_seq next_seq negb];
    rewrite Z.eqb_refl.
  - unfold append, drain. cbn. change (u32 (@len Z [])) with 0. by rewrite !Z.add_0_r, u32_u32.
  - unfold append, drain. cbn. unfold onReceived. rewrite Hr', Hs', Ha'. cbn.
    change (u32 (@len Z [])) with 0. by rewrite !Z.add_0_r, u32_u32.
Qed.

(** C2: reassembly is complete: once the connection is open, if the segments
    together carry every byte of the stream and a FIN, then in whatever order
    they come, however they overlap, and with the sequence numbers wrapping
    anywhere, all of the stream can be read and the direction is finished,
    provided that all they carry fits the out-of-order budget. *)
Theorem stream_complete (events : list Event) (segs : list (Tcp.Header * bytes * Z)) :
  opening events →
  Forall (λ '(h, span, off), data_ok h span off) segs →
  (∀ p, 0 ≤ p < len S → Exists (λ '(_, span, off), covers span off p) segs) →
  Exists (λ '(h, _, _), Tcp.fin h = true) segs →
  sent_bytes segs ≤ MAX_OOO_BYTES → len S + len segs < 2 ^ 31 - 1 →
  ∃ r, run (events ++ ((λ '(h, span, _), Sent h span) <$> segs)) (initial, []) = Ret (r, []) ∧
    peek r = S ∧ finished r.(state).
Proof.
  intros Hop Hall Hcov Hfin Hb HS. pose proof (len_nonneg S). pose proof (len_nonneg segs).
  destruct (run_opening events Hop) as (s & Hs & Hrun). rewrite run_app, Hrun, bind_ret.
  assert (Hl0 : live 0 0 0 (set_state (set_seeded (set_next_seq initial (u32 (isn + 0)))) s))
    by (apply set_state_live, seed_inv; [by repeat split|lia|done]).
  assert (Hc0 : complete [] (set_state (set_seeded (set_next_seq initial (u32 (isn + 0)))) s)).
  { split; [|done]. exists 0, 0. split_and!; try done. by intros ?%Exists_nil. }
  destruct (wp_returns _ _ (run_complete segs [] _ Hc0 ltac:(rewrite (@len_nil (Tcp.Header * bytes * Z)); lia) Hall ltac:(cbn [sent_bytes]; lia)))
    as ([r out] & -> & -> & [(n & k & (_ & HI & Hq) & Hrp & _ & _ & Hfi & Hf & Hh) _]).
  exists r. split; [done|]. rewrite app_nil_r in *.
  assert (n = len S) as ->.
  { apply (frontier_end 0 n k r HI); [lia|]. intros p Hp.
    apply Hcov, Exists_exists in Hp as ([[h span] off] & Hin & Hp).
    rewrite Forall_forall in Hh. apply (Hh (h, span, off)); [|done].
    apply list_elem_of_In. rewrite <- in_rev. by apply list_elem_of_In. }
  split.
  - rewrite (peek_inv 0 (len S) k r HI), Hrp, zdrop_0. apply ztake_ge. lia.
  - apply Hfi. destruct Hf as [Hf|]; [|specialize (Hq Hf); lia|done].
    rewrite Exists_exists in Hfin. destruct Hfin as (x & Hin & Hx). apply Exists_exists. exists x.
    split; [|done]. apply list_elem_of_In. rewrite <- in_rev. by apply list_elem_of_In.
Qed.
End stream.

(** ** Reading and skimming *)

Definition readable (r : TcpReassembler) : Prop := 0 ≤ r.(read_pos) ≤ len r.(assembled).

Lemma consume_spec r n :
  0 ≤ n → readable r →
  peek (consume r n) = zdrop (Z.min n (available r)) (peek r) ∧ readable (consume r n) ∧
  available (consume r n) = available r - Z.min n (available r) ∧
  hasReadableData (consume r n) = hasReadableData r.
Proof.
  unfold readable. intros Hn Hr. unfold consume, peek, available.
  set (m := Z.min n _). assert (0 ≤ m ∧ r.(read_pos) + m ≤ len r.(assembled)) by lia.
  split_if; cbn [set_assembled assembled read_pos]; rewrite ?zdrop_0, ?len_zdrop by lia;
    (split; [by rewrite zdrop_zdrop by lia|]); (split; [lia|]); (split; [lia|done]).
Qed.

Lemma len_peek r : readable r → len (peek r) = available r.
Proof. intros. unfold peek, available. by apply len_zdrop. Qed.

Lemma append_peek r d :
  readable r → peek (append r d) = peek r ++ d ∧ readable (append r d) ∧
  hasReadableData (append r d) = hasReadableData r.
Proof.
  unfold readable, peek, append. intros Hr. cbn [set_next_seq set_assembled assembled read_pos].
  rewrite len_app. pose proof (len_nonneg d). split; [|split; [lia|done]].
  unfold zdrop. apply drop_app_le. unfold len in *. lia.
Qed.

(** [consume] takes the first bytes off the readable part and keeps the rest,
    whether or not it compacts the buffer; asking for more than there is takes
    all there is. *)
Theorem consume_peek (r : TcpReassembler) (n : Z) :
  0 ≤ n → 0 ≤ r.(read_pos) ≤ len r.(assembled) →
  peek (consume r n) = zdrop (Z.min n (available r)) (peek r) ∧
  0 ≤ (consume r n).(read_pos) ≤ len (consume r n).(assembled) ∧
  available (consume r n) = available r - Z.min n (available r).
Proof. intros Hn Hr. destruct (consume_spec r n Hn Hr) as (H1 & H2 & H3 & _). exact (conj H1 (conj H2 H3)). Qed.

(** A flow whose ports have no decoder keeps no payload. *)

(** Without payload the reassembler still follows the stream: the frontier
    moves to the end of a segment that starts at or before it, a segment with a
    gap before it is ignored, and nothing is ever buffered. *)
Theorem skim_frontier (isn n off : Z) (r : TcpReassembler) (span : bytes) :
  r.(keep_payload) = false → r.(next_seq) = u32 (isn + n) →
  - 2 ^ 31 ≤ off - n < 2 ^ 31 → len span < 2 ^ 31 →
  ingest r (u32 (isn + off)) span =
  Ret (set_next_seq r (u32 (isn + (if off <=? n then Z.max n (off + len span) else n)))).
Proof.
  intros Hk Hn Hw Hl. pose proof (len_nonneg span). unfold ingest. rewrite Hk, Hn. cbn [negb].
  assert (Hsame : r = set_next_seq r (u32 (isn + n))) by (rewrite <- Hn; by destruct r).
  rewrite (u32_small (len span)), delta_eq by lia.
  destruct (Z.eqb_spec (u32 (isn + off)) (u32 (isn + n))) as [Heq|Hne].
  - apply (proj1 (seq_eq isn off n ltac:(lia))) in Heq. subst off.
    rewrite (proj2 (Z.leb_le _ _)), Z.max_r, u32_add_l by lia. do 3 f_equal. lia.
  - assert (off ≠ n) by congruence. split_if.
    + rewrite (proj2 (Z.leb_le off n)) by lia. rewrite dist_eq by lia. split_if.
      * rewrite Z.max_r, (u32_small (_ - _)), u32_add_l by lia. do 3 f_equal. lia.
      * rewrite Z.max_l by lia. by rewrite <- Hsame.
    + rewrite (proj2 (Z.leb_gt off n)) by lia. by rewrite <- Hsame.
Qed.

(** After the peer has closed its half of the connection, what the sender
    goes on sending is assembled but never declared readable. *)
Theorem half_closed_unreadable (r : TcpReassembler) (h : Tcp.Header) (span : bytes) :
  r.(seeded) = true → r.(state) = CloseWait → r.(keep_payload) = true →
  r.(out_of_order) = [] → r.(fin_seen) = false → 0 ≤ r.(read_pos) ≤ len r.(assembled) →
  Tcp.rst h = false → Tcp.fin h = false → h.(Tcp.seq_number) = r.(next_seq) →
  ∃ r', onSent r h span = Ret r' ∧ peek r' = peek r ++ span ∧ hasReadableData r' = false.
Proof.
  intros Hsd Hst Hk Hq Hf Hr Hrst Hfin Hseq.
  unfold onSent. rewrite Hrst, Hsd, Hst. cbn [negb]. unfold onData, ingest.
  rewrite Hk, Hseq, Z.eqb_refl. cbn [negb]. unfold drain, append.
  cbn [set_next_seq set_assembled out_of_order]. rewrite Hq. cbn [drain_loop]. rewrite bind_ret, Hfin.
  cbn [set_ooo fin_seen set_next_seq set_assembled]. rewrite Hf. cbn [andb].
  eexists. split; [done|]. unfold peek, hasReadableData.
  cbn [set_ooo set_next_seq set_assembled assembled read_pos state]. rewrite Hst. split; [|done].
  unfold zdrop. rewrite drop_app_le; [done|]. unfold len in Hr. lia.
Qed.

(** ** Witnesses *)

Definition flags_of (seq flags : Z) : Tcp.Header := Tcp.mkHeader 1000 80 seq 0 0x50 flags 0 0 0.

(** Five bytes whose sequence numbers wrap after the second. *)
Definition sample_stream : bytes := [10; 11; 12; 13; 14].
Definition sample_isn : Z := 4294967294.
Definition sample_segs : list (Tcp.Header * bytes * Z) :=
  [(flags_of 1 0x11, [13; 14], 3); (flags_of 4294967294 0x10, [10; 11; 12], 0);
   (flags_of 4294967295 0x10, [11; 12], 1)].

Lemma sample_data_ok :
  Forall (λ '(h, span, off), data_ok sample_stream sample_isn h span off) sample_segs.
Proof.
  repeat (apply Forall_cons_2; [by repeat split; vm_compute|]). by apply Forall_nil_2.
Qed.

Lemma stream_sound_witness :
  let events := [Sent (flags_of 4294967293 0x02) []; Sent (flags_of 1 0x11) [13; 14];
                 Received (flags_of 0 0x10); Sent (flags_of 4294967294 0x10) [10; 11; 12]; Read 4] in
  ∃ r out start n, run events (initial, []) = Ret (r, out) ∧
    0 ≤ start ≤ n ∧ n ≤ len sample_stream ∧
    out ++ peek r = ztake (n - start) (zdrop start sample_stream).
Proof.
  cbn zeta. apply (stream_sound sample_stream sample_isn); [|done].
  repeat (apply Forall_cons_2; [|]); [| | | | |by apply Forall_nil_2]; cbn.
  - right; left. done.
  - right; right. split; [done|]. exists 3. by repeat split; vm_compute.
  - done.
  - right; right. split; [done|]. exists 0. by repeat split; vm_compute.
  - done.
Defined.

Lemma stream_complete_witness :
  ∃ r, run ([Sent (flags_of 4294967293 0x02) []] ++
            ((λ '(h, span, _), Sent h span) <$> sample_segs)) (initial, []) = Ret (r, []) ∧
    peek r = sample_stream ∧ finished r.(state).
Proof.
  apply (stream_complete sample_stream sample_isn); [left; by eexists|apply sample_data_ok| |
    by left|done|done].
  intros p Hp. change (len sample_stream) with 5 in Hp. unfold sample_segs, covers.
  rewrite !Exists_cons. change (len [13; 14]) with 2. change (len [10; 11; 12]) with 3. lia.
Defined.

Lemma consume_peek_witness :
  let r := set_assembled initial [1; 2; 3] 1 in
  peek (consume r 1) = zdrop (Z.min 1 (available r)) (peek r) ∧
  0 ≤ (consume r 1).(read_pos) ≤ len (consume r 1).(assembled) ∧
  available (consume r 1) = available r - Z.min 1 (available r).
Proof. apply consume_peek; [lia|]. by split. Defined.

Lemma skim_frontier_witness :
  let r := set_keep_payload (set_next_seq initial 1) false in
  ingest r (u32 (4294967295 + 0)) [1; 2; 3; 4] =
  Ret (set_next_seq r (u32 (4294967295 + (if 0 <=? 2 then Z.max 2 (0 + len [1; 2; 3; 4]) else 2)))).
Proof. apply skim_frontier; try done; lia. Defined.

Lemma half_closed_unreadable_witness :
  let r := set_state (set_seeded initial) CloseWait in
  ∃ r', onSent r (flags_of 0 0x10) [7] = Ret r' ∧ peek r' = peek r ++ [7] ∧ hasReadableData r' = false.
Proof. apply half_closed_unreadable; done. Defined.
