(* ===== verification/ReassemblerSafety.v ===== *)
(** Safety of the reassembler, whatever the network delivers.

    [TcpReassembler] relates a direction to the stream its sender sends; here the
    segments are arbitrary.  What can go wrong is that [std::lower_bound] is run
    on a queue that is not sorted, or that the least 32-bit integer is negated:
    [fit] excludes both, and every handler keeps it, as long as no segment of
    the queue starts at the frontier ([ahead]); only a FIN that is honoured
    while segments are queued can bring one there, and [reopened_undefined]
    shows that the bound is needed. *)
From S2P Require Import Prelude TcpReassembler.
From S2P Require Tcp.
#[local] Open Scope Z_scope.

(** The segments ahead of [base], by at least [lo] and less than half the
    sequence space, in strictly increasing order. *)
Definition segment_fit (s : Segment) : Prop := bytes_ok s.(data) ∧ 0 ≤ s.(seq) < 2 ^ 32.
Fixpoint ascending (lo base : Z) (l : list Segment) : Prop :=
  match l with
  | [] => True
  | s :: l =>
      lo ≤ u32 (s.(seq) - base) < 2 ^ 31 ∧ segment_fit s ∧
      ascending (u32 (s.(seq) - base) + 1) base l
  end.

Record fit (r : TcpReassembler) : Prop := {
  ft_queue : ascending 0 r.(next_seq) r.(out_of_order);
  ft_ooo : r.(ooo_bytes) = queue_bytes r.(out_of_order);
  ft_max : queue_bytes r.(out_of_order) ≤ MAX_OOO_BYTES;
  ft_next : 0 ≤ r.(next_seq) < 2 ^ 32;
  ft_keep : r.(keep_payload) = false → r.(out_of_order) = [];
  ft_seeded : r.(seeded) = false → r.(out_of_order) = [];
  ft_read : readable r;
  ft_bytes : bytes_ok (peek r);
}.
Definition ahead (r : TcpReassembler) : Prop := ascending 1 r.(next_seq) r.(out_of_order).

(** The buffer grew at its end; what a reader has seen is not touched. *)
Record grown (r r' : TcpReassembler) : Prop := {
  gr_assembled : ∃ t, bytes_ok t ∧ r'.(assembled) = r.(assembled) ++ t;
  gr_read : r'.(read_pos) = r.(read_pos);
  gr_keep : r'.(keep_payload) = r.(keep_payload);
  gr_seeded : r.(seeded) = true → r'.(seeded) = true;
}.

#[export] Instance grown_preorder : PreOrder grown.
Proof.
  split.
  - intros r. split; [exists []; split; [by apply Forall_nil_2|by rewrite app_nil_r]|done..].
  - intros a b c [(t & Ht & H1) H2 H3 H4] [(u & Hu & K1) K2 K3 K4]. split; [|congruence|congruence|auto].
    exists (t ++ u). split; [by apply bytes_ok_app|]. by rewrite K1, H1, app_assoc.
Qed.

Lemma grown_fields r r' :
  r'.(assembled) = r.(assembled) → r'.(read_pos) = r.(read_pos) →
  r'.(keep_payload) = r.(keep_payload) → r'.(seeded) = r.(seeded) → grown r r'.
Proof. intros E1 E2 E3 E4. split; [|done|done|congruence]. exists []. split; [by apply Forall_nil_2|by rewrite app_nil_r]. Qed.

Lemma grown_append r d : bytes_ok d → grown r (append r d).
Proof. intros Hd. split; [by exists d|done..]. Qed.

Lemma grown_peek r r' : grown r r' → readable r → readable r' ∧ ∃ t, bytes_ok t ∧ peek r' = peek r ++ t.
Proof.
  intros [(t & Ht & E) Er _ _] [H0 H1]. unfold readable, peek. rewrite E, Er, len_app. pose proof (len_nonneg t).
  split; [lia|]. exists t. split; [done|]. by apply zdrop_app_le.
Qed.

(** ** The queue *)

Lemma u32_shift a b n : u32 (a - u32 (b + n)) = u32 (u32 (a - b) - n).
Proof. rewrite u32_sub_r, u32_sub_l. f_equal. lia. Qed.

Lemma delta_shift a base n :
  - 2 ^ 31 ≤ u32 (a - base) - n < 2 ^ 31 → i32 (u32 (a - u32 (base + n))) = u32 (a - base) - n.
Proof. intros H. by rewrite u32_shift, i32_u32, i32_small. Qed.

Lemma ascending_weaken lo lo' base l : lo' ≤ lo → ascending lo base l → ascending lo' base l.
Proof. destruct l as [|s l]; [done|]. intros Hl (Hr & H). split; [lia|done]. Qed.

Lemma ascending_shift lo lo' base n l :
  0 ≤ lo' → 0 ≤ n → lo' + n ≤ lo → ascending lo base l → ascending lo' (u32 (base + n)) l.
Proof.
  intros H0 Hn. revert lo lo' H0. induction l as [|s l IH]; intros lo lo' H0 Hlo; [done|].
  intros (Hr & Hb & Hl). cbn [ascending]. rewrite u32_shift, u32_small by lia.
  split; [lia|]. split; [done|]. apply (IH (u32 (seq s - base) + 1)); [lia..|done].
Qed.


(** What a queue that was drained leaves. *)
Record drained (r r' : TcpReassembler) : Prop := {
  dr_grown : grown r r';
  dr_state : r'.(state) = r.(state);
  dr_queue : ascending 1 r'.(next_seq) r'.(out_of_order);
  dr_ooo : r'.(ooo_bytes) = queue_bytes r'.(out_of_order);
  dr_max : queue_bytes r'.(out_of_order) ≤ MAX_OOO_BYTES;
  dr_next : 0 ≤ r'.(next_seq) < 2 ^ 32;
}.

Lemma wp_drain_fit lo base n segs r :
  ascending lo base segs → r.(next_seq) = u32 (base + n) → 0 ≤ n → 0 ≤ lo →
  n + queue_bytes segs < 2 ^ 31 → r.(ooo_bytes) = queue_bytes segs → queue_bytes segs ≤ MAX_OOO_BYTES →
  wp (drain_loop segs r) (drained r).
Proof.
  revert lo n r. induction segs as [|s segs IH]; intros lo n r Hq Hn Hn0 Hlo Hmax Ho Hbytes.
  { apply wp_ret. split; cbn; try done; [by apply grown_fields|]. rewrite Hn. apply u32_range. }
  destruct Hq as (Hr & Hb & Hq). cbn [queue_bytes drain_loop] in *.
  pose proof (queue_bytes_nonneg segs). pose proof (len_nonneg s.(data)).
  set (off := u32 (seq s - base)) in *. rewrite Hn, delta_shift by (fold off; lia). fold off.
  split_if.
  { apply wp_ret. split; cbn [set_ooo out_of_order ooo_bytes next_seq state]; try done.
    - by apply grown_fields.
    - rewrite Hn. apply (ascending_shift (n + 1)); [lia..|]. split; [fold off; lia|done].
    - rewrite Hn. apply u32_range. }
  split_if; [lia|]. rewrite u32_small by lia.
  set (m := n `max` (off + len s.(data))).
  set (r1 := if _ <? _ then _ else r).
  assert (H1 : grown r r1 ∧ r1.(state) = r.(state) ∧ r1.(next_seq) = u32 (base + m) ∧ r1.(ooo_bytes) = r.(ooo_bytes)).
  { subst r1 m. split_if; [|rewrite Z.max_l by lia; done].
    split; [by apply grown_append, bytes_ok_zdrop, Hb|]. split; [done|]. split; [|done].
    cbn [append set_next_seq next_seq set_assembled]. rewrite Hn, u32_add_l, u32_add_r, len_zdrop by lia.
    f_equal. lia. }
  destruct H1 as (Hg & Hs1 & Hn1 & Ho1). clearbody r1.
  rewrite Ho1, (u64_small (_ - _)) by (change MAX_OOO_BYTES with 1048576 in *; lia).
  eapply wp_mono; [eapply (IH _ m); [exact Hq|exact Hn1|lia..|cbn; lia|lia]|].
  intros r' [Hg' Hst Hq' Ho' Hm' Hx']. split; try done; [|by rewrite Hst].
  etrans; [exact Hg|]. etrans; [|exact Hg']. by apply grown_fields.
Qed.

(** [lower_bound] in a queue in order: the place of a segment [off] ahead. *)
Definition nearer (base seq_ : Z) (s : Segment) : bool := u32 (s.(seq) - base) <? u32 (seq_ - base).

Lemma not_nearer base seq_ lo l :
  u32 (seq_ - base) ≤ lo → ascending lo base l → forallb (λ s, negb (nearer base seq_ s)) l = true.
Proof.
  revert lo. induction l as [|s l IH]; intros lo Hlo; [done|]. intros (Hr & _ & Hl). cbn [forallb].
  unfold nearer at 1. rewrite (proj2 (Z.ltb_ge _ _)) by lia. apply (IH (u32 (seq s - base) + 1)); [lia|done].
Qed.

Lemma lower_bound_fit base seq_ lo l :
  lo ≤ u32 (seq_ - base) → ascending lo base l →
  ∃ l1 l2, l = l1 ++ l2 ∧ lower_bound (nearer base seq_) l = Ret (length l1) ∧
    ascending (u32 (seq_ - base)) base l2 ∧
    ∀ l2', ascending (u32 (seq_ - base)) base l2' → ascending lo base (l1 ++ l2').
Proof.
  revert lo. induction l as [|s l IH]; intros lo Hlo.
  { intros _. exists [], []. split_and!; [done..|]. intros l2'. by apply ascending_weaken. }
  intros (Hr & Hb & Hl). unfold lower_bound. cbn [split_point]. destruct (nearer base seq_ s) eqn:E.
  - apply Z.ltb_lt in E. destruct (IH (u32 (seq s - base) + 1)) as (l1 & l2 & -> & Hlb & Hl2 & Hput); [lia|done|].
    exists (s :: l1), l2. unfold lower_bound in Hlb. cbn [drop]. destruct (forallb _ _); [|done].
    injection Hlb as ->. split_and!; [done|done|done|]. intros l2' Hl2'. cbn [app ascending].
    split; [lia|]. split; [done|by apply Hput].
  - exists [], (s :: l). cbn [drop length app]. apply Z.ltb_ge in E.
    rewrite (not_nearer _ _ (u32 (seq_ - base)));
      [|done|split; [lia|done]].
    split_and!; [done|done|split; [lia|done]|]. intros l2'. by apply ascending_weaken.
Qed.

Lemma seq_same base a b :
  0 ≤ a < 2 ^ 32 → 0 ≤ b < 2 ^ 32 → u32 (a - base) = u32 (b - base) → a = b.
Proof.
  intros Ha Hb E. assert (u32 (u32 (a - base) + base) = u32 (u32 (b - base) + base)) as H by (by rewrite E).
  rewrite !u32_add_l in H. replace (a - base + base) with a in H by lia. replace (b - base + base) with b in H by lia.
  by rewrite !u32_small in H by lia.
Qed.

(** ** The handlers *)

Lemma drained_fit r r' : drained r r' → fit r → r.(keep_payload) = true → r.(seeded) = true → fit r' ∧ ahead r'.
Proof.
  intros [Hg _ Hq Ho Hm Hn] [] Hk Hs. pose proof Hg as [_ _ Ek Es].
  destruct (grown_peek r r' Hg) as (Hr & t & Ht & Ep); [done|].
  assert (bytes_ok (peek r')) by (rewrite Ep; by apply bytes_ok_app).
  split; [|done]. split; try done; [by apply (ascending_weaken 1)|congruence|].
  intros Hf. by rewrite (Es Hs) in Hf.
Qed.

Lemma append_drain_fit r span :
  fit r → r.(keep_payload) = true → r.(seeded) = true → bytes_ok span → len span < 65536 →
  wp (drain (append r span)) (λ r', grown r r' ∧ r'.(state) = r.(state) ∧ fit r' ∧ ahead r').
Proof.
  intros Hf Hk Hs Hb Hl. pose proof Hf as [Hq Ho Hm Hn _ _ Hr Ha]. pose proof (len_nonneg span).
  change MAX_OOO_BYTES with 1048576 in *.
  eapply wp_mono; [eapply (wp_drain_fit 0 r.(next_seq) (len span))|].
  - exact Hq.
  - cbn [append set_next_seq next_seq]. by rewrite u32_add_r.
  - lia.
  - done.
  - cbn. lia.
  - done.
  - done.
  - intros r' Hd. pose proof (grown_append r span Hb) as Hg. pose proof Hd as [Hg' Hst Hq' Ho' Hm' Hn'].
    assert (grown r r') as Hgr by (by etrans). split; [done|]. split; [done|].
    eapply drained_fit; [|done..]. by split.
Qed.

Lemma wp_ingest_fit r seq_ span :
  fit r → ahead r → r.(seeded) = true → bytes_ok span → len span < 65536 → 0 ≤ seq_ < 2 ^ 32 →
  wp (ingest r seq_ span) (λ r', grown r r' ∧ r'.(state) = r.(state) ∧ fit r' ∧ ahead r').
Proof.
  intros Hf Ha Hs Hb Hl Hseq. pose proof Hf as [Hq Ho Hm Hn Hk Hse Hr Has]. pose proof (len_nonneg span).
  assert (Hsame : grown r r ∧ r.(state) = r.(state) ∧ fit r ∧ ahead r) by done.
  unfold ingest. cbn zeta. destruct (keep_payload r) eqn:Ek; cbn [negb].
  2: { specialize (Hk eq_refl). assert (Hnext : ∀ n, let r' := set_next_seq r (u32 n) in
         grown r r' ∧ r'.(state) = r.(state) ∧ fit r' ∧ ahead r').
       { intros n r'. assert (ahead r') by (unfold ahead, r'; cbn; by rewrite Hk).
         split; [by apply grown_fields|]. split; [done|]. split; [|done]. split; cbn; try done; try (by rewrite Hk).
         apply u32_range. }
       repeat split_if; apply wp_ret; done. }
  split_if; [by apply append_drain_fit|]. apply Z.eqb_neq in Hc. split_if.
  - change (λ s, u32 (s.(seq) - r.(next_seq)) <? u32 (seq_ - r.(next_seq))) with (nearer r.(next_seq) seq_).
    apply Z.ltb_lt in Hc0. set (off := u32 (seq_ - r.(next_seq))) in *.
    assert (Hoff : 0 < off < 2 ^ 31).
    { pose proof (u32_range (seq_ - next_seq r)) as Hor. fold off in Hor. unfold i32 in Hc0.
      destruct (Z.ltb_spec off (2 ^ 31)); [rewrite Z.mod_small in Hc0 by lia; lia|].
      rewrite <- (Z_mod_plus_full _ (-1)), Z.mod_small in Hc0 by lia. lia. }
    destruct (lower_bound_fit r.(next_seq) seq_ 1 r.(out_of_order)) as (l1 & l2 & El & -> & Hl2 & Hput); [lia|done|].
    fold off in Hl2, Hput. rewrite bind_ret. cbn beta.
    rewrite El, lookup_app_r, Nat.sub_diag, take_app_length, drop_app_length by done.
    rewrite El, queue_bytes_app in Ho, Hm. change MAX_OOO_BYTES with 1048576 in *.
    pose proof (queue_bytes_nonneg l1). pose proof (queue_bytes_nonneg l2).
    assert (Hset : ∀ l2', ascending (off + 1) r.(next_seq) l2' →
      queue_bytes l1 + len span + queue_bytes l2' ≤ 1048576 →
      let r' := set_ooo r (queue_bytes l1 + len span + queue_bytes l2') (l1 ++ mkSegment seq_ span :: l2') in
      grown r r' ∧ r'.(state) = r.(state) ∧ fit r' ∧ ahead r').
    { intros l2' Ha' Hmax r'. assert (ahead r').
      { apply Hput. cbn [ascending TcpReassembler.seq data]. fold off. split; [lia|]. by split. }
      split; [by apply grown_fields|]. split; [done|]. split; [|done].
      split; cbn [r' set_ooo out_of_order ooo_bytes next_seq keep_payload seeded]; try done; try congruence.
      - by apply (ascending_weaken 1).
      - rewrite queue_bytes_app. cbn [queue_bytes data]. lia.
      - rewrite queue_bytes_app. cbn [queue_bytes data]. change MAX_OOO_BYTES with 1048576. lia. }
    destruct l2 as [|s l2]; cbn [lookup list_lookup nth_error].
    + cbn [queue_bytes] in *. rewrite u64_small by lia.
      split_if; apply wp_ret; [|done]. replace (ooo_bytes r + len span) with (queue_bytes l1 + len span + queue_bytes []) by (cbn; lia).
      apply Hset; [done|cbn; lia].
    + destruct Hl2 as (Hr2 & [Hb2 Hs2] & Hl2). cbn [queue_bytes] in *. pose proof (len_nonneg s.(data)).
      pose proof (queue_bytes_nonneg l2). split_if.
      * apply Z.eqb_eq in Hc1. rewrite Hc1 in Hl2. fold off in Hl2. split_if; [|by apply wp_ret].
        split_if; apply wp_ret; [|done]. rewrite u64_small in * by lia.
        replace (<[length l1 := mkSegment seq_ span]> (l1 ++ s :: l2)) with (l1 ++ mkSegment seq_ span :: l2)
          by (by rewrite insert_app_r_alt, Nat.sub_diag by done).
        replace (ooo_bytes r + (len span - len (data s))) with (queue_bytes l1 + len span + queue_bytes l2) by lia.
        apply Hset; [done|lia].
      * apply Z.eqb_neq in Hc1. rewrite u64_small by lia. split_if; apply wp_ret; [|done].
        replace (ooo_bytes r + len span) with (queue_bytes l1 + len span + queue_bytes (s :: l2)) by (cbn; lia).
        apply Hset; [|cbn; lia]. split; [|by split]. split; [|lia].
        assert (u32 (seq s - next_seq r) ≠ off); [|lia]. intros E. by apply Hc1, (seq_same r.(next_seq)).
  - split_if; [|by apply wp_ret]. apply append_drain_fit; [done..|by apply bytes_ok_zdrop|].
    apply Z.ltb_lt in Hc1. rewrite (u32_small (len span)) in Hc1 by lia.
    pose proof (u32_range (next_seq r - seq_)). rewrite len_zdrop; lia.
Qed.

(** A FIN that is honoured moves the frontier past it. *)
Lemma step_over_fin r : fit r → ahead r → fit (set_next_seq r (u32 (r.(next_seq) + 1))).
Proof.
  intros [] Ha. split; try done; [|apply u32_range]. by apply (ascending_shift 1).
Qed.

(** A direction that has seen its FIN takes no data: there alone may the queue
    have fallen behind the frontier. *)
Definition parked (s : TcpState) : bool :=
  match s with FinWait1 | FinWait2 | Closing | LastAck | TimeWait | Closed => true | _ => false end.
Definition settled (r : TcpReassembler) : Prop := parked r.(state) = true ∨ ahead r.

(** What a handler leaves. *)
Definition kept (r r' : TcpReassembler) : Prop := grown r r' ∧ fit r' ∧ settled r'.

Lemma kept_trans r r1 r2 : grown r r1 → kept r1 r2 → kept r r2.
Proof. intros H [H1 H2]. split; [by etrans|done]. Qed.

Lemma wp_onData_fit r header span :
  fit r → ahead r → r.(seeded) = true → bytes_ok span → len span < 65536 → Tcp.Header_typed header →
  wp (onData r header span) (kept r).
Proof.
  intros Hf Ha Hs Hb Hl [_ _ Hseq _]. unfold onData. apply wp_bind.
  eapply wp_mono; [by apply wp_ingest_fit|]. intros r1 (Hg & _ & Hf1 & Ha1). cbn zeta.
  assert (H : ∀ f n, fit (set_fin r1 f n) ∧ ahead (set_fin r1 f n) ∧ grown r (set_fin r1 f n)).
  { intros f n. split; [by destruct Hf1|]. split; [done|]. etrans; [exact Hg|by apply grown_fields]. }
  set (r2 := if Tcp.fin header then _ else r1).
  assert (H2 : fit r2 ∧ ahead r2 ∧ grown r r2) by (subst r2; split_if; [apply H|done]).
  destruct H2 as (Hf2 & Ha2 & Hg2). clearbody r2. split_if; apply wp_ret.
  - split; [etrans; [exact Hg2|by apply grown_fields]|].
    split; [by destruct (step_over_fin r2 Hf2 Ha2)|]. left. cbn. by destruct (decide _).
  - split; [done|]. split; [done|by right].
Qed.

Lemma set_state_fit r s : fit r → fit (set_state r s).
Proof. by intros []. Qed.

Lemma seed_fit r n s :
  fit r → r.(seeded) = false → 0 ≤ n < 2 ^ 32 →
  let r1 := set_seeded (set_state (set_next_seq r n) s) in fit r1 ∧ ahead r1 ∧ grown r r1.
Proof.
  intros [Hq Ho Hm Hn Hk Hse Hr Has] Es Hr1 r1. specialize (Hse Es). unfold ahead.
  split; [split; cbn; try done; by rewrite Hse|]. split; [cbn; by rewrite Hse|].
  by split; [exists []; split; [apply Forall_nil_2|rewrite app_nil_r]|..].
Qed.

(** Whatever the segment holds, [onSent] returns and keeps the invariant. *)
Lemma wp_onSent_fit r header span :
  fit r → settled r → bytes_ok span → len span < 65536 → Tcp.Header_typed header →
  wp (onSent r header span) (kept r).
Proof.
  intros Hf Hsd Hb Hl Hh. unfold onSent.
  split_if; [by apply wp_ret; split; [apply grown_fields|split; [by apply set_state_fit|left]]|].
  assert (Hr : wp (Ret r) (kept r)) by (by apply wp_ret).
  destruct (seeded r) eqn:Es; cbn [negb].
  - destruct (parked (state r)) eqn:Ep; [by destruct (state r)|].
    assert (Ha : ahead r) by (destruct Hsd as [Hs|]; [by rewrite Hs in Ep|done]).
    destruct (state r); try done; [|by apply wp_onData_fit..].
    set (r1 := if _ && _ then _ else r).
    assert (H1 : fit r1 ∧ ahead r1 ∧ grown r r1 ∧ r1.(seeded) = true)
      by (subst r1; split_if;
          [split; [by apply set_state_fit|split; [done|split; [by apply grown_fields|done]]]|done]).
    destruct H1 as (Hf1 & Ha1 & Hg1 & Hs1). destruct (decide _).
    + eapply wp_mono; [by apply wp_onData_fit|]. intros r'. by apply kept_trans.
    + apply wp_ret. split; [done|]. split; [done|by right].
  - split_if; [|split_if; [|done]].
    + set (s := if Tcp.ack header then _ else _).
      destruct (seed_fit r (u32 (Tcp.seq_number header + 1)) s Hf Es (u32_range _)) as (Hf1 & Ha1 & Hg1).
      eapply wp_mono; [apply wp_ingest_fit; [done..|apply u32_range]|]. intros r' (Hg & _ & Hf' & Ha').
      split; [by etrans|]. split; [done|by right].
    + set (r1 := if decide _ then _ else _).
      assert (H1 : fit r1 ∧ ahead r1 ∧ grown r r1 ∧ r1.(seeded) = true).
      { subst r1. pose proof Hh as [_ _ Hseq _]. destruct (decide _).
        - destruct (seed_fit r (Tcp.seq_number header) (state r) Hf Es Hseq) as (? & ? & ?). by destruct r.
        - by destruct (seed_fit r (Tcp.seq_number header) Established Hf Es Hseq) as (? & ? & ?). }
      destruct H1 as (Hf1 & Ha1 & Hg1 & Hs1). clearbody r1.
      eapply wp_mono; [by apply wp_onData_fit|]. intros r'. by apply kept_trans.
Qed.

(** What the peer sends moves the state alone.  Only a closed direction can be
    opened again. *)
Lemma onReceived_kept r header :
  fit r → settled r → (r.(state) = Closed → ahead r) → kept r (onReceived r header).
Proof.
  intros Hf Hs Hcl.
  assert (Hset : ∀ s, parked s = true ∨ ahead r → kept r (set_state r s)).
  { intros s H. split; [by apply grown_fields|]. split; [by apply set_state_fit|done]. }
  assert (Hself : kept r r) by done.
  unfold onReceived. split_if; [by apply Hset; left|]. unfold settled in Hs.
  destruct (state r) eqn:E; cbn [parked] in Hs;
    try (assert (Ha : ahead r) by (destruct Hs; [done..|]; auto)); try specialize (Hcl eq_refl);
    repeat split_if; try done; apply Hset; (by left) || (by right) || auto.
Qed.

Lemma initial_fit : fit initial ∧ ahead initial.
Proof. by split; [split; try done; apply Forall_nil_2|]. Qed.

Lemma discard_fit : fit (set_keep_payload initial false) ∧ ahead (set_keep_payload initial false).
Proof. by split; [split; try done; apply Forall_nil_2|]. Qed.

Lemma consumed_fit r a pos :
  fit r → readable (set_assembled r a pos) → bytes_ok (peek (set_assembled r a pos)) →
  fit (set_assembled r a pos).
Proof. by intros []. Qed.

(** ** The bound of the invariant *)

(** Two segments are queued, a FIN is honoured in front of them, and a reset and
    an acknowledgement open the direction again, twice: the first of them is then
    behind the frontier, and [std::lower_bound] runs on a queue that is not in
    the order it compares by. *)
Definition reopening : list Event :=
  [Sent (flags_of 0 0x02) []; Received (flags_of 100 0x02); Received (flags_of 101 0x10);
   Sent (flags_of 2 0x10) [7]; Sent (flags_of 10 0x10) [8];
   Sent (flags_of 1 0x11) []; Sent (flags_of 2 0x14) []; Received (flags_of 101 0x10);
   Sent (flags_of 1 0x11) []; Sent (flags_of 2 0x14) []; Received (flags_of 101 0x10);
   Sent (flags_of 11 0x10) [9]].

Theorem reopened_undefined : run reopening (initial, []) = UB.
Proof. vm_compute. reflexivity. Qed.
