(* ===== verification/FlowKey.v ===== *)
(** Flow keys: [include/net/flow/flow_key.h], [src/net/flow/flow_key.cpp]. *)
From S2P Require Import Prelude Endian Text.
From S2P Require Ip Ipv4 Ipv6.
From stdpp Require Import countable.
#[local] Open Scope Z_scope.

Record FlowKey := mkFlowKey {
  isIpv4 : bool;
  src_ip : bytes;
  dst_ip : bytes;
  src_port : Z;
  dst_port : Z;
  protocol : Z;
}.

(** [operator==]. *)
#[export] Instance FlowKey_eq_dec : EqDecision FlowKey.
Proof. solve_decision. Defined.
#[export] Instance FlowKey_countable : Countable FlowKey.
Proof.
  refine (inj_countable'
    (λ k, (k.(isIpv4), k.(src_ip), k.(dst_ip), k.(src_port), k.(dst_port), k.(protocol)))
    (λ '(a, b, c, d, e, f), mkFlowKey a b c d e f) _).
  by intros [].
Defined.

(** [FlowKey{}]. *)
Definition zeroKey : FlowKey := mkFlowKey false (replicate 16 0) (replicate 16 0) 0 0 0.

(** [memcmp] over two buffers of one length. *)
Fixpoint memcmp (a b : bytes) : comparison :=
  match a, b with
  | x :: a, y :: b =>
      match x ?= y with Eq => memcmp a b | c => c end
  | _, _ => Eq
  end.

(** [normalize]: the key in its canonical direction, and whether it was turned
    round. *)
Definition swap (k : FlowKey) : FlowKey :=
  mkFlowKey k.(isIpv4) k.(dst_ip) k.(src_ip) k.(dst_port) k.(src_port) k.(protocol).
Definition normalize (k : FlowKey) : bool * FlowKey :=
  let cmp := memcmp k.(src_ip) k.(dst_ip) in
  if bool_decide (cmp = Gt) || (bool_decide (cmp = Eq) && (k.(dst_port) <? k.(src_port)))
  then (true, swap k) else (false, k).

Definition anyNonZero (p : bytes) : bool := existsb (λ b, negb (b =? 0)) p.

Definition isNonZero (k : FlowKey) : bool :=
  negb (k.(protocol) =? 0) || negb (k.(src_port) =? 0) || negb (k.(dst_port) =? 0) ||
  anyNonZero k.(src_ip) || anyNonZero k.(dst_ip).

Definition memeq (a b : bytes) : bool := bool_decide (memcmp a b = Eq).

(** [matches]: the key is a filter, its zero fields match anything. *)
Definition matches (k pkt : FlowKey) : bool :=
  if negb (k.(protocol) =? 0) && negb (k.(protocol) =? pkt.(protocol)) then false
  else if negb (k.(src_port) =? 0) && negb (k.(src_port) =? pkt.(src_port)) then false
  else if negb (k.(dst_port) =? 0) && negb (k.(dst_port) =? pkt.(dst_port)) then false
  else if anyNonZero k.(src_ip) &&
          (negb (eqb k.(isIpv4) pkt.(isIpv4)) || negb (memeq k.(src_ip) pkt.(src_ip))) then false
  else if anyNonZero k.(dst_ip) &&
          (negb (eqb k.(isIpv4) pkt.(isIpv4)) || negb (memeq k.(dst_ip) pkt.(dst_ip))) then false
  else true.

(** [FlowKeyHash]: FNV over the 64-bit words of the key. *)
Definition mix (h v : Z) : Z := u64 (Z.lxor h v * 1099511628211).
Definition FlowKeyHash (k : FlowKey) : Z :=
  let h := 14695981039346656037 in
  let h :=
    if k.(isIpv4) then
      mix h (Z.lor (Z.shiftl (field k.(src_ip) 0 4) 32) (field k.(dst_ip) 0 4))
    else
      mix (mix (mix (mix h (field k.(src_ip) 0 8)) (field k.(src_ip) 8 8))
               (field k.(dst_ip) 0 8)) (field k.(dst_ip) 8 8) in
  mix h (Z.lor (Z.lor (Z.lor (Z.shiftl (Z.b2z k.(isIpv4)) 48) (Z.shiftl k.(src_port) 32))
                      (Z.shiftl k.(dst_port) 16)) k.(protocol)).

(** The bytes of the packed struct, as [memcmp] over whole keys sees them. *)
Definition key_bytes (k : FlowKey) : bytes :=
  [Z.b2z k.(isIpv4)] ++ k.(src_ip) ++ k.(dst_ip) ++ le_bytes 2 k.(src_port) ++
  le_bytes 2 k.(dst_port) ++ [k.(protocol)].

Definition toString (k : FlowKey) : outcome bytes :=
  src ← (if k.(isIpv4) then Ipv4.printIp k.(src_ip)
         else ip ← Ipv6.printIp k.(src_ip); Ret (chars "[" ++ ip ++ chars "]"));
  dst ← (if k.(isIpv4) then Ipv4.printIp k.(dst_ip)
         else ip ← Ipv6.printIp k.(dst_ip); Ret (chars "[" ++ ip ++ chars "]"));
  Ret (src ++ chars ":" ++ dec k.(src_port) ++ chars " -> " ++
       dst ++ chars ":" ++ dec k.(dst_port) ++
       chars " (" ++ Ip.protocolName k.(protocol) ++ chars ")").

Definition toJson (k : FlowKey) : outcome bytes :=
  src ← (if k.(isIpv4) then Ipv4.printIp k.(src_ip) else Ipv6.printIp k.(src_ip));
  dst ← (if k.(isIpv4) then Ipv4.printIp k.(dst_ip) else Ipv6.printIp k.(dst_ip));
  Ret (jstr "`flow_key`: {" ++ [newline] ++
       jstr "  `src_ip`: `" ++ src ++ jstr "`," ++ [newline] ++
       jstr "  `dst_ip`: `" ++ dst ++ jstr "`," ++ [newline] ++
       jstr "  `src_port`: " ++ dec k.(src_port) ++ chars "," ++ [newline] ++
       jstr "  `dst_port`: " ++ dec k.(dst_port) ++ chars "," ++ [newline] ++
       jstr "  `protocol`: `" ++ Ip.protocolName k.(protocol) ++ jstr "`" ++ [newline] ++
       chars "}").

(** ** Lemmas *)

Record Key_ok (k : FlowKey) : Prop := {
  ok_src : len k.(src_ip) = 16;
  ok_dst : len k.(dst_ip) = 16;
}.

Lemma key_bytes_len k : Key_ok k → len (key_bytes k) = 38.
Proof.
  intros [Hs Hd]. unfold key_bytes, len in *. rewrite !length_app, !length_le_bytes. cbn [length]. lia.
Qed.

Lemma memcmp_refl a : memcmp a a = Eq.
Proof. induction a as [|x a IH]; [done|]. cbn. by rewrite Z.compare_refl. Qed.

Lemma memcmp_eq a b : len a = len b → memcmp a b = Eq → a = b.
Proof.
  revert b. induction a as [|x a IH]; intros [|y b]; cbn; try done; try (unfold len; cbn; lia).
  rewrite !len_cons. intros Hl. destruct (x ?= y) eqn:E; [|done..].
  apply Z.compare_eq in E as ->. intros H. f_equal. apply IH; [lia|done].
Qed.

Lemma memcmp_antisym a b : memcmp b a = CompOpp (memcmp a b).
Proof.
  revert b. induction a as [|x a IH]; intros [|y b]; try done. cbn.
  rewrite (Z.compare_antisym x y). destruct (x ?= y); [apply IH|done..].
Qed.

Lemma swap_swap k : swap (swap k) = k.
Proof. by destruct k. Qed.

Lemma memeq_true a b : len a = len b → memeq a b = true ↔ a = b.
Proof.
  intros Hl. unfold memeq. rewrite bool_decide_eq_true.
  split; [by apply memcmp_eq|intros ->; apply memcmp_refl].
Qed.

(** Whether [normalize] turns a key round. *)
Definition turned (k : FlowKey) : bool :=
  bool_decide (memcmp k.(src_ip) k.(dst_ip) = Gt) ||
  (bool_decide (memcmp k.(src_ip) k.(dst_ip) = Eq) && (k.(dst_port) <? k.(src_port))).

Lemma normalize_turned k : normalize k = (turned k, if turned k then swap k else k).
Proof. unfold normalize. fold (turned k). by destruct (turned k). Qed.

Lemma turned_swap k :
  Key_ok k → turned (swap k) = negb (turned k) ∨ swap k = k ∧ turned k = false.
Proof.
  intros [Hs Hd]. unfold turned. cbn [swap src_ip dst_ip src_port dst_port].
  rewrite (memcmp_antisym k.(src_ip) k.(dst_ip)).
  destruct (memcmp k.(src_ip) k.(dst_ip)) eqn:E; cbn; [|by left..].
  apply memcmp_eq in E; [|congruence]. destruct k as [v s d sp dp pr]; cbn in *. subst d.
  destruct (Z.ltb_spec dp sp), (Z.ltb_spec sp dp); try lia; [by left..|].
  right. assert (sp = dp) as -> by lia. done.
Qed.

(** The two directions of a conversation have one key: a key and its mirror
    image normalize to the same key, with opposite flags unless the two ends
    are the same; and normalizing again changes nothing. *)
Theorem normalize_directions (k : FlowKey) :
  Key_ok k →
  (normalize (swap k)).2 = (normalize k).2 ∧
  ((normalize (swap k)).1 = negb (normalize k).1 ∨ swap k = k) ∧
  normalize (normalize k).2 = (false, (normalize k).2) ∧
  (normalize k).2 = (if (normalize k).1 then swap k else k).
Proof.
  intros Hk. rewrite !normalize_turned. cbn [fst snd].
  assert (Hidem : turned (if turned k then swap k else k) = false).
  { destruct (turned k) eqn:E; [|done]. destruct (turned_swap k Hk) as [->|[_ ?]]; [|congruence].
    by rewrite E. }
  split_and!; [..|by rewrite Hidem|done].
  - destruct (turned_swap k Hk) as [-> | [-> ->]]; [|done].
    destruct (turned k); cbn; [done|apply swap_swap].
  - destruct (turned_swap k Hk) as [?|[? _]]; auto.
Qed.

Lemma anyNonZero_false p : anyNonZero p = false ↔ Forall (λ b, b = 0) p.
Proof.
  induction p as [|b p IH]; [by split|].
  change (anyNonZero (b :: p)) with (negb (b =? 0) || anyNonZero p).
  by rewrite orb_false_iff, IH, Forall_cons_iff, negb_false_iff, Z.eqb_eq.
Qed.

(** A filter field is a wildcard or the field of the packet. *)
Definition field_matches (filter pkt : Z) : Prop := filter = 0 ∨ filter = pkt.
Definition address_matches (v4 : bool) (filter : bytes) (pkt_v4 : bool) (pkt : bytes) : Prop :=
  Forall (λ b, b = 0) filter ∨ v4 = pkt_v4 ∧ filter = pkt.

(** A filter matches a packet key exactly when each of its protocol, ports
    and addresses is zero or equal to the packet's, an address also agreeing on
    the IP version. *)
Theorem matches_correct (k pkt : FlowKey) :
  Key_ok k → Key_ok pkt →
  matches k pkt = true ↔
  field_matches k.(protocol) pkt.(protocol) ∧ field_matches k.(src_port) pkt.(src_port) ∧
  field_matches k.(dst_port) pkt.(dst_port) ∧
  address_matches k.(isIpv4) k.(src_ip) pkt.(isIpv4) pkt.(src_ip) ∧
  address_matches k.(isIpv4) k.(dst_ip) pkt.(isIpv4) pkt.(dst_ip).
Proof.
  intros [Hs Hd] [Hs' Hd']. unfold matches, field_matches, address_matches.
  rewrite <- !anyNonZero_false, <- (memeq_true (src_ip k) (src_ip pkt)),
    <- (memeq_true (dst_ip k) (dst_ip pkt)) by congruence.
  repeat match goal with |- context [if ?b then _ else _] => destruct b eqn:? end;
    repeat match goal with
    | |- context [eqb ?a ?b] => destruct (eqb_spec a b)
    | H : context [eqb ?a ?b] |- _ => destruct (eqb_spec a b)
    end; lia || naive_solver.
Qed.

(** A filter that sets nothing matches everything. *)
Lemma matches_empty (k pkt : FlowKey) :
  isNonZero k = false → matches k pkt = true.
Proof.
  unfold isNonZero. rewrite !orb_false_iff, !negb_false_iff, !Z.eqb_eq.
  intros ((((Hpr & Hsp) & Hdp) & Hs) & Hd).
  unfold matches. by rewrite Hpr, Hsp, Hdp, Hs, Hd.
Qed.

Lemma wp_toString k : Key_ok k → wp (toString k) (λ _, True) ∧ wp (toJson k) (λ _, True).
Proof.
  intros [Hs Hd]. unfold toString, toJson.
  assert (H4 : ∀ ip, len ip = 16 → wp (Ipv4.printIp ip) (λ _, True))
    by (intros; apply Ipv4.wp_printIp_ipv4; lia).
  destruct (isIpv4 k); split;
    repeat (apply wp_bind; eapply (wp_mono _ (λ _, True));
      [first [by apply H4 | by apply Ipv6.wp_printIp_ipv6
             | apply wp_bind; eapply wp_mono; [by apply Ipv6.wp_printIp_ipv6|]; intros; by apply wp_ret]|];
      intros ? _); by apply wp_ret.
Qed.

(** ** Witnesses *)

Definition sample_key : FlowKey :=
  mkFlowKey true ([10; 0; 0; 2] ++ replicate 12 0) ([10; 0; 0; 1] ++ replicate 12 0) 80 5000 6.
Lemma sample_key_ok : Key_ok sample_key.
Proof. by split. Qed.

Lemma normalize_directions_witness :
  (normalize (swap sample_key)).2 = (normalize sample_key).2 ∧
  ((normalize (swap sample_key)).1 = negb (normalize sample_key).1 ∨ swap sample_key = sample_key) ∧
  normalize (normalize sample_key).2 = (false, (normalize sample_key).2) ∧
  (normalize sample_key).2 = (if (normalize sample_key).1 then swap sample_key else sample_key).
Proof. apply normalize_directions, sample_key_ok. Defined.

Lemma matches_correct_witness :
  matches (mkFlowKey false (replicate 16 0) (replicate 16 0) 80 0 6) sample_key = true.
Proof.
  apply matches_correct; [by split|apply sample_key_ok|].
  unfold field_matches, address_matches.
  split_and!; [by right|by right|by left|left|left]; by repeat constructor.
Defined.
