(* ===== verification/FlowTable.v ===== *)
(** The flow table: [include/net/flow/flow_table.h],
    [src/net/flow/flow_table.cpp], [include/net/capture/capture.h].

    The hash map of live flows is a finite map.  A [Flow*] into it and the
    [app_state] pointer of a flow are the key of the node they point to: nodes
    of an [unordered_map] do not move. *)
From S2P Require Import Prelude ParseError Packet FlowKey TcpReassembler.
From S2P Require Dns Http Pcap Ipv4 Ipv6 Ip Icmp Icmpv6 Tcp Udp.
From stdpp Require Import gmap sorting.
#[local] Open Scope Z_scope.

(** [pcap::Capture]. *)
Record Capture := mkCapture {
  ts_us : Z;
  packetHeader : Pcap.PacketHeader;
  pkt : Packet;
}.

Record FlowStats := mkFlowStats { packets : Z; stat_bytes : Z }.

Record Flow := mkFlow {
  first_seen : Z;
  last_seen : Z;
  fwd_stats : FlowStats;
  rev_stats : FlowStats;
  fwd_tcp : TcpReassembler;
  rev_tcp : TcpReassembler;
  is_reverse : bool;
  app_state : option FlowKey;
}.

Definition zeroStats : FlowStats := mkFlowStats 0 0.
Definition zeroFlow : Flow :=
  mkFlow 0 0 zeroStats zeroStats TcpReassembler.initial TcpReassembler.initial false None.

Definition set_tcp (f : Flow) (fwd rev : TcpReassembler) : Flow :=
  mkFlow f.(first_seen) f.(last_seen) f.(fwd_stats) f.(rev_stats) fwd rev f.(is_reverse)
         f.(app_state).
Definition set_app_state (f : Flow) (a : option FlowKey) : Flow :=
  mkFlow f.(first_seen) f.(last_seen) f.(fwd_stats) f.(rev_stats) f.(fwd_tcp) f.(rev_tcp)
         f.(is_reverse) a.

Definition totalPackets (f : Flow) : Z := u64 (f.(fwd_stats).(packets) + f.(rev_stats).(packets)).
Definition totalBytes (f : Flow) : Z := u64 (f.(fwd_stats).(stat_bytes) + f.(rev_stats).(stat_bytes)).
Definition durationUs (f : Flow) : Z := u64 (f.(last_seen) - f.(first_seen)).

Definition DEFAULT_IDLE_TIMEOUT_US : Z := 30000000.

Record FlowTable := mkFlowTable {
  active_timeout_us : Z;
  idle_timeout_us : Z;
  total_bytes : Z;
  flows : gmap FlowKey Flow;
  completed : list (FlowKey * Flow);
}.

Definition newTable (active idle : Z) : FlowTable := mkFlowTable active idle 0 ∅ [].

Definition set_flows (t : FlowTable) (m : gmap FlowKey Flow) : FlowTable :=
  mkFlowTable t.(active_timeout_us) t.(idle_timeout_us) t.(total_bytes) m t.(completed).

(** ** The key of a packet *)

(** An IPv4 address fills the first four bytes; the others keep what they had. *)
Definition ip4_bytes (ip : Z) (old : bytes) : bytes :=
  [Z.land (Z.shiftr ip 24) 0xFF; Z.land (Z.shiftr ip 16) 0xFF;
   Z.land (Z.shiftr ip 8) 0xFF; Z.land (Z.shiftr ip 0) 0xFF] ++ zdrop 4 old.

Definition setNetwork (network : NetworkHeader) (out : FlowKey) : option FlowKey :=
  match network with
  | NetworkIpv4 v4 =>
      Some (mkFlowKey true (ip4_bytes v4.(Ipv4.src_ip) out.(src_ip))
                      (ip4_bytes v4.(Ipv4.dst_ip) out.(dst_ip))
                      out.(src_port) out.(dst_port) out.(protocol))
  | NetworkIpv6 v6 =>
      Some (mkFlowKey false v6.(Ipv6.src_ip) v6.(Ipv6.dst_ip)
                      out.(src_port) out.(dst_port) out.(protocol))
  | NetworkArp _ | NetworkNone => None
  end.

Definition set_ports (out : FlowKey) (src dst proto : Z) : FlowKey :=
  mkFlowKey out.(isIpv4) out.(src_ip) out.(dst_ip) src dst proto.
Definition setPorts (transport : TransportHeader) (out : FlowKey) : option FlowKey :=
  match transport with
  | TransportIcmp h =>
      if (h.(Icmp.type) =? Icmp.TYPE_ECHO_REQUEST) || (h.(Icmp.type) =? Icmp.TYPE_ECHO_REPLY)
      then Some (set_ports out (Icmp.echo_id h) (Icmp.echo_id h) Ip.PROTOCOL_ICMP)
      else Some (set_ports out (Z.lor (u16 (Z.shiftl h.(Icmp.type) 8)) h.(Icmp.code)) 0
                           Ip.PROTOCOL_ICMP)
  | TransportIcmpv6 h =>
      if (h.(Icmpv6.type) =? Icmpv6.TYPE_ECHO_REQUEST) || (h.(Icmpv6.type) =? Icmpv6.TYPE_ECHO_REPLY)
      then Some (set_ports out (Icmpv6.echo_id h) (Icmpv6.echo_id h) Ip.PROTOCOL_ICMPV6)
      else Some (set_ports out (Z.lor (u16 (Z.shiftl h.(Icmpv6.type) 8)) h.(Icmpv6.code)) 0
                           Ip.PROTOCOL_ICMPV6)
  | TransportTcp h => Some (set_ports out h.(Tcp.src_port) h.(Tcp.dst_port) Ip.PROTOCOL_TCP)
  | TransportUdp h => Some (set_ports out h.(Udp.src_port) h.(Udp.dst_port) Ip.PROTOCOL_UDP)
  | TransportNone => None
  end.

(** The error and the key as the call leaves it. *)
Definition keyFromPacket (p : Packet) (out : FlowKey) : ParseError * FlowKey :=
  match setNetwork p.(network) out with
  | None => (UnsupportedNetworkType, out)
  | Some out =>
      match setPorts p.(transport) out with
      | None => (UnsupportedTransportType, out)
      | Some out => (NoError, out)
      end
  end.

(** ** The table *)


Definition portHasAppDecoder (k : FlowKey) : bool :=
  (k.(src_port) =? Dns.PORT) || (k.(dst_port) =? Dns.PORT) ||
  (k.(src_port) =? Http.PORT) || (k.(dst_port) =? Http.PORT).

Definition isExpired (t : FlowTable) (f : Flow) (ts : Z) : bool :=
  if ts <? f.(last_seen) then false
  else (t.(idle_timeout_us) <? u64 (ts - f.(last_seen))) ||
       (negb (t.(active_timeout_us) =? 0) && (t.(active_timeout_us) <? u64 (ts - f.(first_seen)))).

(** The packet added to the statistics of its direction. *)
Definition count_packet (s : FlowStats) (n : Z) : FlowStats :=
  mkFlowStats (u64 (s.(packets) + 1)) (u64 (s.(stat_bytes) + n)).
Definition touch (f : Flow) (ts : Z) (rev : bool) (n : Z) : Flow :=
  mkFlow f.(first_seen) ts
         (if rev then f.(fwd_stats) else count_packet f.(fwd_stats) n)
         (if rev then count_packet f.(rev_stats) n else f.(rev_stats))
         f.(fwd_tcp) f.(rev_tcp) rev f.(app_state).

Definition start_flow (key : FlowKey) (ts : Z) : Flow :=
  let f := mkFlow ts 0 zeroStats zeroStats TcpReassembler.initial TcpReassembler.initial false None in
  if negb (portHasAppDecoder key)
  then set_tcp f (set_keep_payload f.(fwd_tcp) false) (set_keep_payload f.(rev_tcp) false) else f.

(** The out parameters of [addPacket]. *)
Record Added := mkAdded {
  out_key : FlowKey;
  out_is_new : bool;
  out_flow : option FlowKey;
}.

Definition addPacket (t : FlowTable) (capture : Capture) (out : Added)
    : ParseError * (FlowTable * Added) :=
  let out := mkAdded out.(out_key) out.(out_is_new) None in
  if isArp capture.(pkt) then (NoError, (t, out)) else
  let '(err, key) := keyFromPacket capture.(pkt) zeroKey in
  if failed err then (err, (t, out)) else
  let '(rev, key) := normalize key in
  let n := capture.(packetHeader).(Pcap.incl_len) in
  let ts := capture.(ts_us) in
  let t := mkFlowTable t.(active_timeout_us) t.(idle_timeout_us) (u64 (t.(total_bytes) + n))
             t.(flows) t.(completed) in
  let t :=
    match t.(flows) !! key with
    | Some f =>
        if isExpired t f ts
        then mkFlowTable t.(active_timeout_us) t.(idle_timeout_us) t.(total_bytes)
               (delete key t.(flows)) (t.(completed) ++ [(key, f)])
        else t
    | None => t
    end in
  let is_new := bool_decide (t.(flows) !! key = None) in
  let f := default (start_flow key ts) (t.(flows) !! key) in
  (NoError, (set_flows t (<[key := touch f ts rev n]> t.(flows)), mkAdded key is_new (Some key))).

(** ** All flows

    The order in which the standard library walks a hash map, and the order in
    which its sort leaves equal elements, are its own: they are parameters. *)

Definition flow_before (a b : FlowKey * Flow) : bool :=
  if negb (totalBytes a.2 =? totalBytes b.2) then totalBytes b.2 <? totalBytes a.2
  else bool_decide (memcmp (key_bytes a.1) (key_bytes b.1) = Lt).

Section iteration.
Context (iterate : gmap FlowKey Flow → list (FlowKey * Flow)).
Context (sort : (FlowKey * Flow → FlowKey * Flow → bool) →
                list (FlowKey * Flow) → list (FlowKey * Flow)).

Definition flush (t : FlowTable) : FlowTable :=
  mkFlowTable t.(active_timeout_us) t.(idle_timeout_us) t.(total_bytes) ∅
              (t.(completed) ++ iterate t.(flows)).

Definition allFlows (t : FlowTable) : list (FlowKey * Flow) :=
  sort flow_before (t.(completed) ++ iterate t.(flows)).
End iteration.

(** What the standard promises of walking a map. *)
Definition iterates (iterate : gmap FlowKey Flow → list (FlowKey * Flow)) : Prop :=
  ∀ m, iterate m ≡ₚ map_to_list m.
(** ** Lemmas *)

(** [addPacket] on a packet that has a key, in one equation: an expired flow is
    retired, then the packet is counted in the live flow of its key. *)
Definition retire (t : FlowTable) (key : FlowKey) (ts : Z) : FlowTable :=
  match t.(flows) !! key with
  | Some f =>
      if isExpired t f ts
      then mkFlowTable t.(active_timeout_us) t.(idle_timeout_us) t.(total_bytes)
             (delete key t.(flows)) (t.(completed) ++ [(key, f)])
      else t
  | None => t
  end.
Definition count_total (t : FlowTable) (n : Z) : FlowTable :=
  mkFlowTable t.(active_timeout_us) t.(idle_timeout_us) (u64 (t.(total_bytes) + n)) t.(flows)
              t.(completed).

Lemma addPacket_eq t c out k :
  isArp c.(pkt) = false → keyFromPacket c.(pkt) zeroKey = (NoError, k) →
  addPacket t c out =
  (let key := (normalize k).2 in
   let n := c.(packetHeader).(Pcap.incl_len) in
   let t' := retire (count_total t n) key c.(ts_us) in
   (NoError,
    (set_flows t' (<[key := touch (default (start_flow key c.(ts_us)) (t'.(flows) !! key))
                              c.(ts_us) (normalize k).1 n]> t'.(flows)),
     mkAdded key (bool_decide (t'.(flows) !! key = None)) (Some key)))).
Proof.
  intros Ha Hk. unfold addPacket. rewrite Ha, Hk. cbn [failed].
  by destruct (normalize k) as [rev key].
Qed.

(** Sums over all flows, live and retired. *)
Definition all_flows (t : FlowTable) : list (FlowKey * Flow) := t.(completed) ++ map_to_list t.(flows).
Definition flow_bytes (f : Flow) : Z := f.(fwd_stats).(stat_bytes) + f.(rev_stats).(stat_bytes).
Definition flow_packets (f : Flow) : Z := f.(fwd_stats).(packets) + f.(rev_stats).(packets).
Fixpoint sum_by (g : Flow → Z) (l : list (FlowKey * Flow)) : Z :=
  match l with [] => 0 | p :: l => g p.2 + sum_by g l end.

Lemma sum_by_app g l k : sum_by g (l ++ k) = sum_by g l + sum_by g k.
Proof. induction l as [|x l IH]; cbn; [done|lia]. Qed.
#[export] Instance sum_by_Permutation g : Proper ((≡ₚ) ==> (=)) (sum_by g).
Proof. intros l l'. induction 1; cbn; lia. Qed.

Lemma sum_by_delete g (m : gmap FlowKey Flow) k f :
  m !! k = Some f → sum_by g (map_to_list m) = g f + sum_by g (map_to_list (delete k m)).
Proof. intros Hk. by rewrite <- (map_to_list_delete m k f Hk). Qed.
Lemma sum_by_insert_new g (m : gmap FlowKey Flow) k f :
  m !! k = None → sum_by g (map_to_list (<[k := f]> m)) = g f + sum_by g (map_to_list m).
Proof. intros Hk. by rewrite map_to_list_insert. Qed.
Lemma sum_by_insert g (m : gmap FlowKey Flow) k f :
  sum_by g (map_to_list (<[k := f]> m)) =
  g f - (default 0 (g <$> m !! k)) + sum_by g (map_to_list m).
Proof.
  destruct (m !! k) as [f0|] eqn:E.
  - rewrite <- insert_delete_eq, sum_by_insert_new by apply lookup_delete_eq.
    rewrite (sum_by_delete g m k f0 E). change (default 0 (g <$> Some f0)) with (g f0). lia.
  - rewrite sum_by_insert_new by done. change (default 0 (g <$> None)) with 0. lia.
Qed.

(** Retiring keeps every flow. *)
Lemma retire_sum g t k ts : sum_by g (all_flows (retire t k ts)) = sum_by g (all_flows t).
Proof.
  unfold retire, all_flows. destruct (flows t !! k) as [f|] eqn:E; [|done].
  destruct (isExpired t f ts); [|done]. cbn [completed flows].
  rewrite !sum_by_app, (sum_by_delete g _ k f E). cbn. lia.
Qed.

Lemma retire_completed t k ts : t.(completed) `prefix_of` (retire t k ts).(completed).
Proof. unfold retire. repeat case_match; [by apply prefix_app_r|done..]. Qed.

(** The counters add up and stay in range. *)
Record Table_ok (t : FlowTable) : Prop := {
  tb_bytes : sum_by flow_bytes (all_flows t) = t.(total_bytes);
  tb_flows : Forall (λ p, 0 ≤ p.2.(fwd_stats).(packets) ∧ 0 ≤ p.2.(rev_stats).(packets) ∧
               0 ≤ p.2.(fwd_stats).(stat_bytes) ∧ 0 ≤ p.2.(rev_stats).(stat_bytes)) (all_flows t);
}.

Lemma sum_by_le g l x :
  Forall (λ p, 0 ≤ g p.2) l → x ∈ l → g x.2 ≤ sum_by g l.
Proof.
  induction 1 as [|y l Hy Hl IH]; intros Hx; [by apply not_elem_of_nil in Hx|].
  assert (0 ≤ sum_by g l) by (clear -Hl; induction Hl; cbn; lia).
  apply elem_of_cons in Hx as [->|Hx]; cbn; [lia|]. specialize (IH Hx). lia.
Qed.

Lemma retire_perm t k ts :
  Permutation (all_flows (retire t k ts)) (all_flows t).
Proof.
  unfold retire, all_flows. destruct (flows t !! k) as [f|] eqn:E; [|done].
  destruct (isExpired t f ts); [|done]. cbn [completed flows].
  rewrite <- app_assoc. apply Permutation_app_head. cbn. by apply map_to_list_delete.
Qed.

Lemma all_flows_set t k f :
  flows t !! k = None → all_flows (set_flows t (<[k := f]> t.(flows))) ≡ₚ (k, f) :: all_flows t.
Proof.
  intros Hk. unfold all_flows. cbn [set_flows completed flows]. rewrite map_to_list_insert by done.
  by rewrite Permutation_middle.
Qed.

Lemma upsert_perm t k f0 :
  ∃ l, all_flows (set_flows t (<[k := f0]> t.(flows))) ≡ₚ (k, f0) :: l ∧
       all_flows t ≡ₚ match flows t !! k with Some f => [(k, f)] | None => [] end ++ l.
Proof.
  destruct (flows t !! k) as [f|] eqn:E.
  - exists (t.(completed) ++ map_to_list (delete k t.(flows))). unfold all_flows.
    cbn [set_flows completed flows app]. rewrite <- insert_delete_eq.
    rewrite map_to_list_insert by apply lookup_delete_eq.
    rewrite <- (map_to_list_delete (flows t) k f E). by rewrite <- !Permutation_middle.
  - exists (all_flows t). split; [by apply all_flows_set|done].
Qed.

(** C31: every packet that is accepted, and is not ARP, is counted once: the total
    and the flows' byte counters both grow by its length and the packet counters
    by one, so that over the live and the retired flows the counters always add
    up to the total; the flows retired before keep what they counted.  An ARP
    packet is accepted and changes nothing. *)
Theorem addPacket_accounts (t t' : FlowTable) (c : Capture) (out o : Added) :
  Table_ok t → addPacket t c out = (NoError, (t', o)) → 0 ≤ c.(packetHeader).(Pcap.incl_len) →
  t.(total_bytes) + c.(packetHeader).(Pcap.incl_len) < 2 ^ 64 →
  sum_by flow_packets (all_flows t) + 1 < 2 ^ 64 →
  Table_ok t' ∧ t.(completed) `prefix_of` t'.(completed) ∧
  if isArp c.(pkt) then t' = t
  else t'.(total_bytes) = t.(total_bytes) + c.(packetHeader).(Pcap.incl_len) ∧
       sum_by flow_packets (all_flows t') = sum_by flow_packets (all_flows t) + 1.
Proof.
  intros Hok Hadd Hn Hmax Hpmax. destruct (isArp c.(pkt)) eqn:Ha.
  { unfold addPacket in Hadd. rewrite Ha in Hadd. by injection Hadd as <- _. }
  destruct Hok as [Hb Hf].
  destruct (keyFromPacket c.(pkt) zeroKey) as [err k] eqn:Hk.
  assert (err = NoError) as -> by (unfold addPacket in Hadd; rewrite Ha, Hk in Hadd; by destruct err).
  rewrite (addPacket_eq t c out k Ha Hk) in Hadd. cbn zeta in Hadd.
  set (n := Pcap.incl_len _) in *. set (key := (normalize k).2) in *. set (ts := ts_us c) in *.
  set (t1 := retire (count_total t n) key ts) in *. injection Hadd as <- _.
  assert (Hp1 : all_flows t1 ≡ₚ all_flows t) by apply (retire_perm (count_total t n)).
  set (f := default _ _). set (f' := touch f ts _ n).
  destruct (upsert_perm t1 key f') as (l & Hl' & Hl).
  rewrite <- Hp1, Hl in Hf.
  assert (Hsum : ∀ g, g (start_flow key ts) = 0 → sum_by g (all_flows t) = g f + sum_by g l).
  { intros g Hg. rewrite <- Hp1, Hl. subst f. by destruct (flows t1 !! key); cbn; rewrite ?Hg. }
  assert (Hz : flow_bytes (start_flow key ts) = 0 ∧ flow_packets (start_flow key ts) = 0)
    by (unfold start_flow; by destruct (negb _)).
  destruct Hz as [Hzb Hzp]. pose proof (Hsum _ Hzb) as Hsb. pose proof (Hsum _ Hzp) as Hsp.
  apply Forall_app in Hf as [Hff Hfl].
  assert (Hf0 : 0 ≤ f.(fwd_stats).(packets) ∧ 0 ≤ f.(rev_stats).(packets) ∧
                0 ≤ f.(fwd_stats).(stat_bytes) ∧ 0 ≤ f.(rev_stats).(stat_bytes)).
  { subst f. destruct (flows t1 !! key); [by inversion Hff|]. unfold start_flow.
    by destruct (negb _). }
  assert (Hnn : 0 ≤ sum_by flow_bytes l ∧ 0 ≤ sum_by flow_packets l).
  { clear -Hfl. unfold flow_bytes, flow_packets. induction Hfl; cbn; lia. }
  assert (Hstep : flow_bytes f' = flow_bytes f + n ∧ flow_packets f' = flow_packets f + 1 ∧
     0 ≤ f'.(fwd_stats).(packets) ∧ 0 ≤ f'.(rev_stats).(packets) ∧
     0 ≤ f'.(fwd_stats).(stat_bytes) ∧ 0 ≤ f'.(rev_stats).(stat_bytes)).
  { subst f'. unfold flow_bytes, flow_packets, touch, count_packet in *.
    destruct (normalize k).1; cbn [fwd_stats rev_stats packets stat_bytes];
      rewrite !u64_small by lia; lia. }
  destruct Hstep as (Hfb & Hfp & Hf'). cbn [set_flows total_bytes].
  assert (Htot : total_bytes t1 = total_bytes t + n).
  { subst t1. unfold retire. assert (total_bytes (count_total t n) = total_bytes t + n) as Heq.
    { cbn. apply u64_small. rewrite <- Hb, Hsb in *. unfold flow_bytes in *. lia. }
    destruct (flows (count_total t n) !! key); [|done]. by destruct (isExpired _ _ _). }
  split_and!; [split| |done|].
  - rewrite Hl'. cbn [sum_by snd]. rewrite Hfb, <- Hb, Hsb in *. cbn [total_bytes set_flows]. lia.
  - rewrite Hl'. by constructor.
  - exact (retire_completed (count_total t n) key ts).
  - rewrite Hl', Hsp. cbn [sum_by snd]. lia.
Qed.

Lemma isExpired_decide t f ts :
  isExpired t f ts = bool_decide (f.(last_seen) ≤ ts ∧
    (t.(idle_timeout_us) < u64 (ts - f.(last_seen)) ∨
     t.(active_timeout_us) ≠ 0 ∧ t.(active_timeout_us) < u64 (ts - f.(first_seen)))).
Proof. unfold isExpired. case_bool_decide; split_if; lia. Qed.

Lemma start_flow_eq key ts :
  start_flow key ts =
  (let keeps := bool_decide (key.(src_port) ∈ [53; 80] ∨ key.(dst_port) ∈ [53; 80]) in
   let tcp := mkReassembler Unknown 0 0 [] [] false 0 false keeps 0 in
   mkFlow ts 0 (mkFlowStats 0 0) (mkFlowStats 0 0) tcp tcp false None).
Proof.
  cbn zeta. unfold start_flow. assert (portHasAppDecoder key =
    bool_decide (key.(src_port) ∈ [53; 80] ∨ key.(dst_port) ∈ [53; 80])) as <-; [|by destruct (portHasAppDecoder key)].
  unfold portHasAppDecoder. change Dns.PORT with 53. change Http.PORT with 80.
  case_bool_decide as H; rewrite !elem_of_cons, !elem_of_nil in H; lia.
Qed.

(** C32: where packets go.  The packet's flow, that of its normalized key, is live
    afterwards and was last seen now, in the packet's direction; in the
    statistics of that direction it counts one packet more and the packet's
    bytes, in the other nothing changes.  It is the live flow of the key, with its
    streams and application state, unless there is none or that has expired:
    idle or active for longer than the timeouts, by the clock of the packets.
    Then it is a new flow that starts now, keeps payloads only on the ports of
    DNS and HTTP, and an expired one is retired as it was.  No other flow
    changes. *)
Theorem addPacket_flow (t t' : FlowTable) (c : Capture) (out o : Added) (k : FlowKey) :
  isArp c.(pkt) = false → keyFromPacket c.(pkt) zeroKey = (NoError, k) →
  addPacket t c out = (NoError, (t', o)) →
  let '(rev, key) := normalize k in
  let ts := c.(ts_us) in
  let expired f := bool_decide (f.(last_seen) ≤ ts ∧
    (t.(idle_timeout_us) < u64 (ts - f.(last_seen)) ∨
     t.(active_timeout_us) ≠ 0 ∧ t.(active_timeout_us) < u64 (ts - f.(first_seen)))) in
  let counted (mine : bool) s :=
    if mine then mkFlowStats (u64 (s.(packets) + 1)) (u64 (s.(stat_bytes) + c.(packetHeader).(Pcap.incl_len))) else s in
  o.(out_key) = key ∧ o.(out_flow) = Some key ∧
  (∀ k', k' ≠ key → t'.(flows) !! k' = t.(flows) !! k') ∧
  ∃ f', t'.(flows) !! key = Some f' ∧ f'.(last_seen) = ts ∧ f'.(is_reverse) = rev ∧
    match (match t.(flows) !! key with Some f => if expired f then None else Some f | None => None end) with
    | Some f =>
        o.(out_is_new) = false ∧ t'.(completed) = t.(completed) ∧
        f'.(first_seen) = f.(first_seen) ∧ f'.(fwd_tcp) = f.(fwd_tcp) ∧ f'.(rev_tcp) = f.(rev_tcp) ∧
        f'.(app_state) = f.(app_state) ∧
        f'.(fwd_stats) = counted (negb rev) f.(fwd_stats) ∧ f'.(rev_stats) = counted rev f.(rev_stats)
    | None =>
        let keeps := bool_decide (key.(src_port) ∈ [53; 80] ∨ key.(dst_port) ∈ [53; 80]) in
        let tcp := mkReassembler Unknown 0 0 [] [] false 0 false keeps 0 in
        o.(out_is_new) = true ∧
        t'.(completed) = t.(completed) ++ (match t.(flows) !! key with Some f => [(key, f)] | None => [] end) ∧
        f'.(first_seen) = ts ∧ f'.(fwd_tcp) = tcp ∧ f'.(rev_tcp) = tcp ∧ f'.(app_state) = None ∧
        f'.(fwd_stats) = counted (negb rev) (mkFlowStats 0 0) ∧ f'.(rev_stats) = counted rev (mkFlowStats 0 0)
    end.
Proof.
  intros Ha Hk Hadd. unfold addPacket in Hadd. rewrite Ha, Hk in Hadd. cbn [failed] in Hadd.
  destruct (normalize k) as [rev key]. cbn zeta in *. pose proof (start_flow_eq key c.(ts_us)) as Hnew.
  cbn [flows] in Hadd. destruct (t.(flows) !! key) as [f|] eqn:E;
    [rewrite isExpired_decide in Hadd; cbn [idle_timeout_us active_timeout_us] in Hadd; destruct (bool_decide _) eqn:Ex|];
    cbn [flows] in Hadd; rewrite ?lookup_delete_eq, ?E in Hadd; cbn [default] in Hadd;
    rewrite ?Hnew in Hadd; injection Hadd as <- <-;
    cbn [out_key out_flow out_is_new set_flows flows completed];
    (split_and!; [done|done|intros k' Hne; by rewrite lookup_insert_ne, ?lookup_delete_ne by done|]);
    rewrite lookup_insert_eq; (eexists; split; [done|]); destruct rev; cbn; rewrite ?app_nil_r; try done.
  all: split_and!; try done.
Qed.

(** With time stamps in order, a flow has expired exactly when it has been
    idle for more than the idle timeout, or is older than the active timeout. *)
Theorem isExpired_correct (t : FlowTable) (f : Flow) (ts : Z) :
  0 ≤ f.(first_seen) ≤ f.(last_seen) → f.(last_seen) ≤ ts < 2 ^ 64 →
  isExpired t f ts = true ↔
  t.(idle_timeout_us) < ts - f.(last_seen) ∨
  t.(active_timeout_us) ≠ 0 ∧ t.(active_timeout_us) < ts - f.(first_seen).
Proof.
  intros Hf Hts. unfold isExpired. rewrite (proj2 (Z.ltb_ge _ _)), !u64_small by lia. lia.
Qed.

(** A packet stamped before the flow's first one, but not before the last
    one seen, makes the age of the flow wrap: the active timeout fires on a flow
    that is not a microsecond old. *)
Theorem isExpired_out_of_order (t : FlowTable) (f : Flow) (ts : Z) :
  0 ≤ f.(last_seen) ≤ ts → ts < f.(first_seen) < 2 ^ 63 →
  0 < t.(active_timeout_us) < 2 ^ 63 →
  isExpired t f ts = true ∧ durationUs f = 2 ^ 64 - (f.(first_seen) - f.(last_seen)).
Proof.
  intros Hl Hf Ha. unfold isExpired, durationUs. rewrite (proj2 (Z.ltb_ge _ _)) by lia.
  assert (Hw : ∀ a, - 2 ^ 63 < a < 0 → u64 a = a + 2 ^ 64).
  { intros a Hneg. unfold u64. rewrite <- (Z.mod_add a 1) by lia. apply Z.mod_small. lia. }
  rewrite (Hw (ts - first_seen f)), (Hw (last_seen f - first_seen f)) by lia.
  split; [|lia]. rewrite orb_true_iff, andb_true_iff. right. lia.
Qed.

(** *** Keys *)

Definition swap_network (n : NetworkHeader) : NetworkHeader :=
  match n with
  | NetworkIpv4 h => NetworkIpv4 (Ipv4.mkHeader h.(Ipv4.version_ihl) h.(Ipv4.tos)
      h.(Ipv4.total_length) h.(Ipv4.identification) h.(Ipv4.flags_fragment) h.(Ipv4.ttl)
      h.(Ipv4.protocol) h.(Ipv4.checksum) h.(Ipv4.dst_ip) h.(Ipv4.src_ip))
  | NetworkIpv6 h => NetworkIpv6 (Ipv6.mkHeader h.(Ipv6.version_tc_fl) h.(Ipv6.payload_length)
      h.(Ipv6.next_header) h.(Ipv6.hop_limit) h.(Ipv6.dst_ip) h.(Ipv6.src_ip))
  | n => n
  end.

(** What [decodePacket] establishes of the headers. *)
Definition addresses_ok (n : NetworkHeader) : Prop :=
  match n with
  | NetworkIpv6 h => len h.(Ipv6.src_ip) = 16 ∧ len h.(Ipv6.dst_ip) = 16
  | _ => True
  end.

Lemma keyFromPacket_ok p k :
  addresses_ok p.(network) → keyFromPacket p zeroKey = (NoError, k) → Key_ok k.
Proof.
  unfold keyFromPacket, addresses_ok. intros Ha.
  destruct (network p) as [|h|h|h]; cbn [setNetwork]; try done;
    destruct (transport p) as [|x|x|x|x]; cbn [setPorts]; try split_if;
    intros [= <-]; split; first [reflexivity | by destruct Ha].
Qed.

(** A reply belongs to the flow of what it answers: a TCP or UDP packet with
    addresses and ports exchanged has the mirror-image key, so both normalize to
    the same flow. *)
Theorem key_of_reply (p q : Packet) (k : FlowKey) :
  addresses_ok p.(network) → keyFromPacket p zeroKey = (NoError, k) →
  q.(network) = swap_network p.(network) →
  match p.(transport), q.(transport) with
  | TransportTcp a, TransportTcp b => b.(Tcp.src_port) = a.(Tcp.dst_port) ∧ b.(Tcp.dst_port) = a.(Tcp.src_port)
  | TransportUdp a, TransportUdp b => b.(Udp.src_port) = a.(Udp.dst_port) ∧ b.(Udp.dst_port) = a.(Udp.src_port)
  | _, _ => False
  end →
  keyFromPacket q zeroKey = (NoError, swap k) ∧ (normalize (swap k)).2 = (normalize k).2.
Proof.
  intros Ha Hk Hn Ht. pose proof (keyFromPacket_ok p k Ha Hk) as Hok. split.
  - revert Hk. unfold keyFromPacket. rewrite Hn.
    destruct (network p) as [|h|h|h]; cbn [setNetwork swap_network]; try done;
      destruct (transport p) as [|x|x|x|x], (transport q) as [|y|y|y|y]; try done;
      destruct Ht as [Hs Hd]; cbn [setPorts]; rewrite Hs, Hd; intros [= <-]; reflexivity.
  - rewrite !normalize_turned. cbn [snd].
    destruct (turned_swap k Hok) as [-> | [-> ->]]; [|done].
    destruct (turned k); cbn; [done|apply swap_swap].
Qed.

(** The keys of live flows are normalized. *)
Definition keys_ok (t : FlowTable) : Prop :=
  ∀ k f, t.(flows) !! k = Some f → (normalize k).1 = false.

Lemma addPacket_keys t t' c out o err :
  keys_ok t → addresses_ok c.(pkt).(network) → addPacket t c out = (err, (t', o)) → keys_ok t'.
Proof.
  intros Hk Ha Hadd. destruct (isArp c.(pkt)) eqn:Harp.
  { unfold addPacket in Hadd. rewrite Harp in Hadd. by injection Hadd as <- <- <-. }
  destruct (keyFromPacket c.(pkt) zeroKey) as [e k] eqn:Hkey.
  destruct (decide (e = NoError)) as [->|Hne].
  2: { unfold addPacket in Hadd. rewrite Harp, Hkey in Hadd.
       assert (failed e = true) as Hfe by (by apply failed_true). rewrite Hfe in Hadd.
       by injection Hadd as <- <- <-. }
  pose proof (keyFromPacket_ok _ _ Ha Hkey) as Hok.
  rewrite (addPacket_eq t c out k Harp Hkey) in Hadd. injection Hadd as <- <- <-.
  intros k' f. cbn [set_flows flows]. rewrite lookup_insert_Some.
  intros [[<- _]|[_ Hl]].
  - rewrite !normalize_turned. cbn [fst snd]. destruct (turned k) eqn:E; [|done].
    destruct (turned_swap k Hok) as [-> | [_ ?]]; [by rewrite E|congruence].
  - unfold retire, count_total in Hl. cbn [flows] in Hl.
    destruct (flows t !! _) as [g|]; [|by eapply Hk].
    destruct (isExpired _ _ _); [|by eapply Hk]. cbn [flows] in Hl.
    apply lookup_delete_Some in Hl as [_ Hl]. by eapply Hk.
Qed.

(** *** Listing the flows *)

Lemma memcmp_trans a b c :
  len a = len b → len b = len c → memcmp a b = Lt → memcmp b c = Lt → memcmp a c = Lt.
Proof.
  revert b c. induction a as [|x a IH]; intros [|y b] [|z c]; cbn; try done; rewrite ?len_cons, ?len_nil;
    try (unfold len; cbn [length]; lia). intros Hab Hbc.
  destruct (Z.compare_spec x y); [subst|..]; try done.
  - destruct (Z.compare_spec y z); [subst|..]; try done. apply IH; lia.
  - intros _. destruct (Z.compare_spec y z); [subst|..]; try done.
    + intros _. by rewrite (proj2 (Z.compare_lt_iff x z)).
    + intros _. by rewrite (proj2 (Z.compare_lt_iff x z)) by lia.
Qed.

(** The comparison of [allFlows] is a strict weak order on keys of one size. *)
Definition listed_ok (p : FlowKey * Flow) : Prop := len (key_bytes p.1) = 38.

Lemma flow_before_irrefl a : flow_before a a = false.
Proof. unfold flow_before. by rewrite Z.eqb_refl, memcmp_refl. Qed.

Lemma memcmp_lt_neg a b : len a = len b → memcmp a b ≠ Lt → a = b ∨ memcmp b a = Lt.
Proof.
  intros Hl. rewrite (memcmp_antisym a b). destruct (memcmp a b) eqn:E; cbn; auto; [|done].
  left. by apply memcmp_eq.
Qed.

Lemma flow_before_trans a b c :
  listed_ok a → listed_ok b → listed_ok c →
  flow_before a b = true → flow_before b c = true → flow_before a c = true.
Proof.
  unfold flow_before, listed_ok. intros Ha Hb Hc.
  destruct (Z.eqb_spec (totalBytes a.2) (totalBytes b.2)) as [E1|],
           (Z.eqb_spec (totalBytes b.2) (totalBytes c.2)) as [E2|],
           (Z.eqb_spec (totalBytes a.2) (totalBytes c.2)) as [E3|]; cbn [negb]; try lia.
  rewrite !bool_decide_eq_true. intros ??. apply (memcmp_trans _ (key_bytes b.1)); congruence.
Qed.

Lemma flow_before_incomparable a b c :
  listed_ok a → listed_ok b → listed_ok c →
  flow_before a b = false → flow_before b c = false → flow_before a c = false.
Proof.
  unfold flow_before, listed_ok. intros Ha Hb Hc.
  destruct (Z.eqb_spec (totalBytes a.2) (totalBytes b.2)) as [E1|],
           (Z.eqb_spec (totalBytes b.2) (totalBytes c.2)) as [E2|],
           (Z.eqb_spec (totalBytes a.2) (totalBytes c.2)) as [E3|]; cbn [negb]; try lia.
  rewrite !bool_decide_eq_false. intros H1 H2 H3.
  apply memcmp_lt_neg in H1 as [H1|H1]; [by rewrite <- H1, H3 in H2| |congruence].
  apply memcmp_lt_neg in H2 as [H2|H2]; [|..|congruence].
  - rewrite H2, memcmp_antisym, H3 in H1. done.
  - assert (Hca : memcmp (key_bytes c.1) (key_bytes a.1) = Lt)
      by (apply (memcmp_trans _ (key_bytes b.1)); congruence).
    rewrite memcmp_antisym, H3 in Hca. done.
Qed.

Lemma StronglySorted_weaken {A} (R R' : A → A → Prop) l :
  (∀ a b, R a b → R' a b) → StronglySorted R l → StronglySorted R' l.
Proof.
  intros HR. induction 1 as [|x l Hl IH Hx]; constructor; [done|].
  eapply Forall_impl; [exact Hx|]. cbn. auto.
Qed.

(** What the standard promises of [std::sort] for a comparison that is a strict
    weak order on the elements of the range. *)
Definition sorts {A} (sort : (A → A → bool) → list A → list A) : Prop :=
  ∀ lt l,
    (∀ a, a ∈ l → lt a a = false) →
    (∀ a b c, a ∈ l → b ∈ l → c ∈ l → lt a b = true → lt b c = true → lt a c = true) →
    (∀ a b c, a ∈ l → b ∈ l → c ∈ l → lt a b = false → lt b c = false → lt a c = false) →
    sort lt l ≡ₚ l ∧ StronglySorted (λ a b, lt b a = false) (sort lt l).

Lemma sort_flows (sort : (FlowKey * Flow → FlowKey * Flow → bool) →
                         list (FlowKey * Flow) → list (FlowKey * Flow)) l :
  sorts sort → Forall listed_ok l →
  sort flow_before l ≡ₚ l ∧ StronglySorted (λ a b, flow_before b a = false) (sort flow_before l).
Proof.
  rewrite Forall_forall. intros Hsort Hok. apply Hsort.
  - intros; apply flow_before_irrefl.
  - intros a b c ???. apply flow_before_trans; auto.
  - intros a b c ???. apply flow_before_incomparable; auto.
Qed.

(** C33: [allFlows] lists every flow, live and retired, exactly once, the ones
    with more bytes first and ties in the order of the key's bytes. *)
Theorem allFlows_correct (iterate : gmap FlowKey Flow → list (FlowKey * Flow))
    (sort : (FlowKey * Flow → FlowKey * Flow → bool) →
            list (FlowKey * Flow) → list (FlowKey * Flow)) (t : FlowTable) :
  iterates iterate → sorts sort → Forall listed_ok (all_flows t) →
  allFlows iterate sort t ≡ₚ all_flows t ∧
  StronglySorted (λ a b, totalBytes b.2 < totalBytes a.2 ∨
    totalBytes a.2 = totalBytes b.2 ∧ memcmp (key_bytes b.1) (key_bytes a.1) ≠ Lt)
    (allFlows iterate sort t).
Proof.
  intros Hit Hsort Hok. unfold allFlows.
  assert (Hp : completed t ++ iterate (flows t) ≡ₚ all_flows t) by (unfold all_flows; by rewrite (Hit (flows t))).
  rewrite <- Hp in Hok. destruct (sort_flows sort _ Hsort Hok) as [Hperm Hs].
  split; [by rewrite Hperm|]. eapply StronglySorted_weaken, Hs.
  intros a b. unfold flow_before. destruct (Z.eqb_spec (totalBytes b.2) (totalBytes a.2)) as [E|];
      cbn [negb]; [|lia]. rewrite bool_decide_eq_false. intros. by right.
Qed.

(** An insertion sort keeps the promise. *)
Fixpoint insert_sorted {A} (lt : A → A → bool) (x : A) (l : list A) : list A :=
  match l with
  | [] => [x]
  | y :: l => if lt x y then x :: y :: l else y :: insert_sorted lt x l
  end.
Definition insertion_sort {A} (lt : A → A → bool) (l : list A) : list A :=
  foldr (insert_sorted lt) [] l.

Lemma insert_sorted_perm {A} (lt : A → A → bool) x l : insert_sorted lt x l ≡ₚ x :: l.
Proof.
  induction l as [|y l IH]; [done|]. cbn. destruct (lt x y); [done|]. rewrite IH. by constructor.
Qed.

Lemma insert_sorted_sorted {A} (lt : A → A → bool) x l :
  (∀ y, y ∈ l → lt x y = true → lt y x = false) →
  (∀ y z, y ∈ l → z ∈ l → lt x y = true → lt z y = false → lt z x = false) →
  StronglySorted (λ a b, lt b a = false) l →
  StronglySorted (λ a b, lt b a = false) (insert_sorted lt x l).
Proof.
  intros Has Hin Hs. induction Hs as [|y k Hk IHk Hy]; cbn [insert_sorted]; [by repeat constructor|].
  assert (y ∈ y :: k) as Hyk by constructor.
  assert (∀ z, z ∈ k → z ∈ y :: k) as Hsub by (intros; by constructor).
  destruct (lt x y) eqn:E.
  - constructor; [by constructor|]. constructor; [by apply Has|].
    rewrite Forall_forall in Hy |- *. intros z Hz. apply (Hin y z); auto.
  - constructor; [apply IHk; [eauto|intros a b Ha Hb; apply Hin; eauto]|].
    rewrite insert_sorted_perm. by constructor.
Qed.

Lemma insertion_sorts {A} : sorts (@insertion_sort A).
Proof.
  intros lt l Hir Htr Hin. induction l as [|x l IH]; [split; [done|constructor]|].
  assert (x ∈ x :: l) as Hx by constructor.
  assert (∀ z, z ∈ l → z ∈ x :: l) as Hsub by (intros; by constructor).
  destruct IH as [Hp Hs]; [eauto..|].
  assert (∀ z, z ∈ insertion_sort lt l → z ∈ x :: l) as Hsub' by (intros z; rewrite Hp; apply Hsub).
  cbn [insertion_sort foldr]. fold (insertion_sort lt l).
  split; [by rewrite insert_sorted_perm, Hp|]. apply insert_sorted_sorted; [| |done].
  - intros y Hy E. destruct (lt y x) eqn:E'; [|done].
    rewrite <- (Hir x Hx). symmetry. apply (Htr x y x); auto.
  - intros y z Hy Hz E E'. destruct (lt z x) eqn:E2; [|done].
    rewrite <- E'. symmetry. apply (Htr z x y); auto.
Qed.

(** ** Witnesses *)

Definition sample_capture : Capture :=
  mkCapture 1000 (Pcap.mkPacketHeader 0 1000 90 90)
    (mkPacket DataLinkNone [] (NetworkIpv4 (Ipv4.mkHeader 0x45 0 31 1 0 64 17 0 0x0A000002 0x0A000001))
       [] (TransportUdp (Udp.mkHeader 5000 53 11 0)) []).
Definition sample_added : Added := mkAdded zeroKey false None.
Definition sample_result := addPacket (newTable 0 30) sample_capture sample_added.

Lemma addPacket_accounts_witness :
  let t' := sample_result.2.1 in
  Table_ok t' ∧ [] `prefix_of` t'.(completed) ∧ t'.(total_bytes) = 0 + 90 ∧
  sum_by flow_packets (all_flows t') = sum_by flow_packets (all_flows (newTable 0 30)) + 1.
Proof.
  apply (addPacket_accounts (newTable 0 30) sample_result.2.1 sample_capture sample_added sample_result.2.2);
    [split; [done|constructor]|reflexivity|done|done|done].
Defined.

Definition sample_flow_key : FlowKey :=
  mkFlowKey true ([10; 0; 0; 2] ++ replicate 12 0) ([10; 0; 0; 1] ++ replicate 12 0) 5000 53 17.

Lemma addPacket_flow_witness :
  let t' := sample_result.2.1 in let o := sample_result.2.2 in
  o.(out_key) = (normalize sample_flow_key).2 ∧ o.(out_flow) = Some o.(out_key).
Proof.
  cbn zeta.
  destruct (addPacket_flow (newTable 0 30) sample_result.2.1 sample_capture sample_added
    sample_result.2.2 sample_flow_key) as (H1 & H2 & _); [done|vm_compute; reflexivity|reflexivity|].
  split; [exact H1|exact H2].
Defined.

Definition sample_flow : Flow :=
  mkFlow 100 200 zeroStats zeroStats TcpReassembler.initial TcpReassembler.initial false None.
Lemma isExpired_correct_witness :
  isExpired (newTable 0 30) sample_flow 231 = true ↔
  30 < 231 - 200 ∨ 0 ≠ 0 ∧ 0 < 231 - 100.
Proof. apply isExpired_correct; cbn; lia. Defined.

Lemma isExpired_out_of_order_witness :
  let f := mkFlow 200 100 zeroStats zeroStats TcpReassembler.initial TcpReassembler.initial false None in
  isExpired (newTable 1000000 30) f 110 = true ∧ durationUs f = 2 ^ 64 - (200 - 100).
Proof. apply isExpired_out_of_order; cbn; lia. Defined.

Definition sample_reply : Packet :=
  mkPacket DataLinkNone [] (swap_network sample_capture.(pkt).(network)) []
    (TransportUdp (Udp.mkHeader 53 5000 11 0)) [].
Lemma key_of_reply_witness :
  keyFromPacket sample_reply zeroKey = (NoError, swap sample_flow_key) ∧
  (normalize (swap sample_flow_key)).2 = (normalize sample_flow_key).2.
Proof. apply (key_of_reply sample_capture.(pkt)); [done|vm_compute; reflexivity|done|done]. Defined.

Lemma allFlows_correct_witness :
  let t := sample_result.2.1 in
  allFlows map_to_list insertion_sort t ≡ₚ all_flows t ∧
  StronglySorted (λ a b, totalBytes b.2 < totalBytes a.2 ∨
    totalBytes a.2 = totalBytes b.2 ∧ memcmp (key_bytes b.1) (key_bytes a.1) ≠ Lt)
    (allFlows map_to_list insertion_sort t).
Proof.
  cbn zeta. apply allFlows_correct; [by intros m|apply insertion_sorts|].
  vm_compute. repeat constructor.
Defined.
