(* ===== verification/AppDecoder.v ===== *)
(** The application decoder: [include/net/decode/app_decoder.h],
    [src/net/decode/app_decoder.cpp].

    [Flow::app_state] is a pointer to a node of the decoder's map; it is the key
    of that node, and following it when the node is gone is undefined.  The
    [DnsTable&] the decoder holds is threaded. *)
From S2P Require Import Prelude Endian ParseError Text FlowKey TcpReassembler FlowTable.
From S2P Require Dns Http DnsTable.
From stdpp Require Import gmap.
#[local] Open Scope Z_scope.

Definition MAX_HTTP_HEADER_BYTES : Z := 32 * 1024.
Definition MAX_HTTP_MESSAGE_BYTES : Z := 8 * 1024 * 1024.
Definition MAX_PENDING_REQUESTS : Z := 1024.

Record Applications := mkApplications {
  decode_failures : Z;
  http_bodies_skipped : Z;
  dns_messages : list Dns.Header;
  http_messages : list Http.Header;
  http_chunk_prefix : Z;
  http_resync_scanned : Z;
  http_skip : Z;
  pending_head_requests : list bool;
  http_body_until_close : bool;
}.
Definition zeroApplications : Applications := mkApplications 0 0 [] [] 0 0 0 [] false.

Record FlowApplications := mkFlowApplications { fwd : Applications; rev : Applications }.
Definition zeroFlowApplications : FlowApplications :=
  mkFlowApplications zeroApplications zeroApplications.

Definition fail_decode (a : Applications) : Applications :=
  mkApplications (u64 (a.(decode_failures) + 1)) a.(http_bodies_skipped) a.(dns_messages)
    a.(http_messages) a.(http_chunk_prefix) a.(http_resync_scanned) a.(http_skip)
    a.(pending_head_requests) a.(http_body_until_close).
Definition skip_body (a : Applications) (n : Z) : Applications :=
  mkApplications a.(decode_failures) (u64 (a.(http_bodies_skipped) + 1)) a.(dns_messages)
    a.(http_messages) a.(http_chunk_prefix) a.(http_resync_scanned) n
    a.(pending_head_requests) a.(http_body_until_close).
Definition push_dns (a : Applications) (h : Dns.Header) : Applications :=
  mkApplications a.(decode_failures) a.(http_bodies_skipped) (a.(dns_messages) ++ [h])
    a.(http_messages) a.(http_chunk_prefix) a.(http_resync_scanned) a.(http_skip)
    a.(pending_head_requests) a.(http_body_until_close).
Definition push_http (a : Applications) (h : Http.Header) : Applications :=
  mkApplications a.(decode_failures) a.(http_bodies_skipped) a.(dns_messages)
    (a.(http_messages) ++ [h]) a.(http_chunk_prefix) a.(http_resync_scanned) a.(http_skip)
    a.(pending_head_requests) a.(http_body_until_close).
Definition set_prefix (a : Applications) (n : Z) : Applications :=
  mkApplications a.(decode_failures) a.(http_bodies_skipped) a.(dns_messages)
    a.(http_messages) n a.(http_resync_scanned) a.(http_skip)
    a.(pending_head_requests) a.(http_body_until_close).
Definition set_scanned (a : Applications) (n : Z) : Applications :=
  mkApplications a.(decode_failures) a.(http_bodies_skipped) a.(dns_messages)
    a.(http_messages) a.(http_chunk_prefix) n a.(http_skip)
    a.(pending_head_requests) a.(http_body_until_close).
Definition set_skip (a : Applications) (n : Z) : Applications :=
  mkApplications a.(decode_failures) a.(http_bodies_skipped) a.(dns_messages)
    a.(http_messages) a.(http_chunk_prefix) a.(http_resync_scanned) n
    a.(pending_head_requests) a.(http_body_until_close).
Definition set_pending (a : Applications) (l : list bool) : Applications :=
  mkApplications a.(decode_failures) a.(http_bodies_skipped) a.(dns_messages)
    a.(http_messages) a.(http_chunk_prefix) a.(http_resync_scanned) a.(http_skip)
    l a.(http_body_until_close).
Definition set_until_close (a : Applications) (b : bool) : Applications :=
  mkApplications a.(decode_failures) a.(http_bodies_skipped) a.(dns_messages)
    a.(http_messages) a.(http_chunk_prefix) a.(http_resync_scanned) a.(http_skip)
    a.(pending_head_requests) b.

(** ** Resynchronisation *)

Definition markers : list bytes :=
  [chars "HTTP/1.0"; chars "HTTP/1.1"; chars "GET "; chars "POST "; chars "PUT "; chars "DELETE ";
   chars "HEAD "; chars "OPTIONS "; chars "PATCH "; chars "TRACE "; chars "CONNECT "].

(** A newline at [p] ends a line behind which a message may start. *)
Definition resyncAt (v : bytes) (p : Z) : outcome bool :=
  if p <? 2 then Ret false else
  c ← at_ v (p - 1);
  if negb (c =? 13) then Ret false else
  rest ← subspan v (p + 1);
  Ret (existsb (λ m, starts_with rest m) markers).

Definition findHttpResync_body (v : bytes) (p : option Z)
    : outcome (control (option Z) (option Z)) :=
  match p with
  | None => Ret (Stop None)
  | Some p =>
      found ← resyncAt v p;
      if (found : bool) then Ret (Stop (Some (p + 1))) else Ret (Next (Text.find v newline (p + 1)))
  end.

(** [None] is [npos]. *)
Definition findHttpResync (buf : bytes) (from : Z) : outcome (option Z) :=
  loop (S (S (length buf))) (findHttpResync_body buf)
       (Text.find buf newline (if from <? 1 then 1 else from)).

Definition resyncHttp (stream : TcpReassembler) (applications : Applications)
    : outcome (bool * (TcpReassembler * Applications)) :=
  let applications := set_until_close (set_prefix applications 0) false in
  let avail := available stream in
  at' ← findHttpResync (peek stream) applications.(http_resync_scanned);
  match at' with
  | Some at' =>
      Ret (true, (consume stream at', set_scanned (fail_decode applications) 0))
  | None =>
      let applications := set_scanned applications (if 8 <? avail then avail - 8 else 0) in
      if MAX_HTTP_MESSAGE_BYTES <? avail
      then Ret (true, (consume stream avail, set_scanned (fail_decode applications) 0))
      else Ret (false, (stream, applications))
  end.

(** ** Polling a stream *)

(** What [pollStream] works on: the stream, the state of its direction, that of
    the other direction, the table of names. *)
Record Poll := mkPoll {
  stream : TcpReassembler;
  applications : Applications;
  peer_state : Applications;
  dnsTable : DnsTable.DnsTable;
}.
Definition upd_stream (s : Poll) (r : TcpReassembler) : Poll :=
  mkPoll r s.(applications) s.(peer_state) s.(dnsTable).
Definition upd_app (s : Poll) (a : Applications) : Poll :=
  mkPoll s.(stream) a s.(peer_state) s.(dnsTable).
Definition upd_peer (s : Poll) (a : Applications) : Poll :=
  mkPoll s.(stream) s.(applications) a s.(dnsTable).
Definition upd_table (s : Poll) (t : DnsTable.DnsTable) : Poll :=
  mkPoll s.(stream) s.(applications) s.(peer_state) t.

Definition pollDns_body (s : Poll) : outcome (control Poll Poll) :=
  if available s.(stream) <? 2 then Ret (Stop s) else
  hi ← at_ (peek s.(stream)) 0;
  lo ← at_ (peek s.(stream)) 1;
  let msg_len := u16 (Z.lor (Z.shiftl hi 8) lo) in
  if available s.(stream) <? 2 + msg_len then Ret (Stop s) else
  msg ← subspan_n (peek s.(stream)) 2 msg_len;
  '(err, (_, header)) ← Dns.parse msg Dns.zeroHeader Big;
  if failed err then
    Ret (Next (upd_stream (upd_app s (fail_decode s.(applications)))
                          (consume s.(stream) (2 + msg_len))))
  else
    let s := upd_table s (DnsTable.record s.(dnsTable) header) in
    let s := upd_app s (push_dns s.(applications) header) in
    Ret (Next (upd_stream s (consume s.(stream) (2 + msg_len)))).

(** [if (!resyncHttp(...)) break; continue;] *)
Definition resync (s : Poll) : outcome (control Poll Poll) :=
  '(again, (r, a)) ← resyncHttp s.(stream) s.(applications);
  let s := upd_app (upd_stream s r) a in
  if (again : bool) then Ret (Next s) else Ret (Stop s).

(** A request is remembered for the response that answers it. *)
Definition note_request (a : Applications) (header : Http.Header) : Applications :=
  if Http.isRequest header && (len a.(pending_head_requests) <? MAX_PENDING_REQUESTS)
  then set_pending a (a.(pending_head_requests) ++
                      [bool_decide (header.(Http.method) = chars "HEAD")])
  else a.

(** The response's request, taken from the front of the peer's queue. *)
Definition take_request (s : Poll) (header : Http.Header) : bool * Poll :=
  if Http.isResponse header && (200 <=? header.(Http.status_code)) then
    match s.(peer_state).(pending_head_requests) with
    | [] => (false, s)
    | front :: rest => (front, upd_peer s (set_pending s.(peer_state) rest))
    end
  else (false, s).

(** How the body of a message was found. *)
Inductive body_result :=
| BodyDone (span : bytes)
| BodyIncomplete (span : bytes)
| BodyBad.

Definition readBody (head_response : bool) (header : Http.Header) (span : bytes) (s : Poll)
    : outcome (body_result * Poll) :=
  if Http.bodyForbidden header || head_response then Ret (BodyDone span, s)
  else if header.(Http.chunked) then
    span ← subspan span s.(applications).(http_chunk_prefix);
    '(body_err, (span', _, validated)) ← Http.parseChunkedBody span [];
    match body_err with
    | UnexpectedEof =>
        Ret (BodyIncomplete span',
             upd_app s (set_prefix s.(applications)
                          (u64 (s.(applications).(http_chunk_prefix) + validated))))
    | NoError => Ret (BodyDone span', upd_app s (set_prefix s.(applications) 0))
    | _ => Ret (BodyBad, s)
    end
  else if header.(Http.has_content_length) then
    if len span <? header.(Http.content_length) then Ret (BodyIncomplete span, s)
    else span ← subspan span header.(Http.content_length); Ret (BodyDone span, s)
  else if Http.isResponse header
  then Ret (BodyDone span, upd_app s (set_until_close s.(applications) true))
  else Ret (BodyDone span, s).

(** A message whose body has not arrived: wait for it, unless too much has been
    buffered already. *)
Definition onIncomplete (header : Http.Header) (start_size : Z) (span : bytes) (s : Poll)
    : outcome (control Poll Poll) :=
  if MAX_HTTP_MESSAGE_BYTES <? available s.(stream) then
    if header.(Http.has_content_length) && negb header.(Http.chunked) then
      let header_bytes := start_size - len span in
      let a := push_http (note_request s.(applications) header) header in
      let s := upd_stream s (consume s.(stream) header_bytes) in
      Ret (Next (upd_app s (skip_body a header.(Http.content_length))))
    else resync s
  else Ret (Stop s).

Definition onMessage (header : Http.Header) (start_size : Z) (span : bytes) (s : Poll)
    : outcome (control Poll Poll) :=
  let a := push_http (note_request s.(applications) header) header in
  Ret (Next (upd_stream (upd_app s a) (consume s.(stream) (start_size - len span)))).

Definition pollHttp_body (s : Poll) : outcome (control Poll Poll) :=
  let a := s.(applications) in
  if 0 <? a.(http_skip) then
    let n := Z.min a.(http_skip) (available s.(stream)) in
    let s := upd_app (upd_stream s (consume s.(stream) n)) (set_skip a (a.(http_skip) - n)) in
    if 0 <? s.(applications).(http_skip) then Ret (Stop s) else Ret (Next s)
  else if a.(http_body_until_close)
  then Ret (Stop (upd_stream s (consume s.(stream) (available s.(stream)))))
  else
    let full := peek s.(stream) in
    let start_size := len full in
    let window := Z.min start_size MAX_HTTP_HEADER_BYTES in
    span ← first window full;
    '(err, (span, header)) ← Http.parse span Http.zeroHeader;
    match err with
    | NoError =>
        span ← subspan full (window - len span);
        let '(head_response, s) := take_request s header in
        '(r, s) ← readBody head_response header span s;
        match r with
        | BodyDone span => onMessage header start_size span s
        | BodyIncomplete span => onIncomplete header start_size span s
        | BodyBad => resync s
        end
    | UnexpectedEof =>
        if MAX_HTTP_HEADER_BYTES <? available s.(stream) then resync s else Ret (Stop s)
    | _ => resync s
    end.

(** Every round of either loop that goes on consumes something. *)
Definition poll_fuel (s : Poll) : nat := S (Z.to_nat (available s.(stream))).

Definition isDns (key : FlowKey) : bool :=
  (key.(src_port) =? Dns.PORT) || (key.(dst_port) =? Dns.PORT).
Definition isHttp (key : FlowKey) : bool :=
  (key.(src_port) =? Http.PORT) || (key.(dst_port) =? Http.PORT).

Definition pollStream (key : FlowKey) (s : Poll) : outcome Poll :=
  if negb (hasReadableData s.(stream)) then Ret s
  else if isDns key then loop (poll_fuel s) pollDns_body s
  else if isHttp key then loop (poll_fuel s) pollHttp_body s
  else Ret s.

(** ** The decoder *)

Record AppDecoder := mkAppDecoder {
  flows_ : gmap FlowKey FlowApplications;
  dnsTable_ : DnsTable.DnsTable;
}.
Definition zeroDecoder : AppDecoder := mkAppDecoder ∅ ∅.

(** [appStateFor]: the node the flow's pointer leads to, with its key. *)
Definition appStateFor (d : AppDecoder) (key : FlowKey) (flow : Flow) (flow_is_new : bool)
    : outcome (FlowKey * FlowApplications * AppDecoder * Flow) :=
  let '(d, flow) :=
    match flow.(app_state) with
    | None => (mkAppDecoder (<[key := default zeroFlowApplications (d.(flows_) !! key)]> d.(flows_))
                            d.(dnsTable_),
               set_app_state flow (Some key))
    | Some _ => (d, flow)
    end in
  let node := default key flow.(app_state) in
  match d.(flows_) !! node with
  | None => UB
  | Some st =>
      let st := if flow_is_new then zeroFlowApplications else st in
      Ret (node, st, mkAppDecoder (<[node := st]> d.(flows_)) d.(dnsTable_), flow)
  end.

Definition pollFlow (d : AppDecoder) (key : FlowKey) (flow : Flow) (flow_is_new : bool)
    : outcome (ParseError * (AppDecoder * Flow)) :=
  if negb (isDns key) && negb (isHttp key) then Ret (NoError, (d, flow)) else
  '(node, st, d, flow) ← appStateFor d key flow flow_is_new;
  if flow.(is_reverse) then
    s ← pollStream key (mkPoll flow.(rev_tcp) st.(rev) st.(fwd) d.(dnsTable_));
    Ret (NoError,
         (mkAppDecoder (<[node := mkFlowApplications s.(peer_state) s.(applications)]> d.(flows_))
                       s.(dnsTable),
          set_tcp flow flow.(fwd_tcp) s.(stream)))
  else
    s ← pollStream key (mkPoll flow.(fwd_tcp) st.(fwd) st.(rev) d.(dnsTable_));
    Ret (NoError,
         (mkAppDecoder (<[node := mkFlowApplications s.(applications) s.(peer_state)]> d.(flows_))
                       s.(dnsTable),
          set_tcp flow s.(stream) flow.(rev_tcp))).

Definition pollDatagram (d : AppDecoder) (key : FlowKey) (flow : Flow) (payload : bytes)
    (flow_is_new : bool) : outcome (ParseError * (AppDecoder * Flow)) :=
  if len payload =? 0 then Ret (NoError, (d, flow)) else
  if negb (isDns key) then Ret (NoError, (d, flow)) else
  '(node, st, d, flow) ← appStateFor d key flow flow_is_new;
  let a := if flow.(is_reverse) then st.(rev) else st.(fwd) in
  '(err, (_, header)) ← Dns.parse payload Dns.zeroHeader Big;
  let '(a, table) :=
    if failed err then (fail_decode a, d.(dnsTable_))
    else (push_dns a header, DnsTable.record d.(dnsTable_) header) in
  let st := if flow.(is_reverse) then mkFlowApplications st.(fwd) a
            else mkFlowApplications a st.(rev) in
  Ret (NoError, (mkAppDecoder (<[node := st]> d.(flows_)) table, flow)).

Definition reset (d : AppDecoder) (key : FlowKey) : AppDecoder :=
  mkAppDecoder (delete key d.(flows_)) d.(dnsTable_).

Definition prune (d : AppDecoder) (table : FlowTable) : AppDecoder :=
  mkAppDecoder (filter (λ p, is_Some (table.(flows) !! p.1)) d.(flows_)) d.(dnsTable_).

Definition getApplications (d : AppDecoder) (key : FlowKey) (is_reverse : bool)
    : option Applications :=
  (λ st, if is_reverse then st.(rev) else st.(fwd)) <$> d.(flows_) !! key.

(** ** Lemmas: what a poll keeps *)

(** The head of [v] is a message with a chunked body, and its parse may resume
    [n] bytes into that body. *)
Definition mid_chunked (n : Z) (v : bytes) : Prop :=
  let window := Z.min (len v) MAX_HTTP_HEADER_BYTES in
  ∃ rest h, Http.parse (ztake window v) Http.zeroHeader = Ret (NoError, (rest, h)) ∧
    h.(Http.chunked) = true ∧ Http.bodyForbidden h = false ∧
    0 ≤ n ≤ len v - (window - len rest).

Record app_ok (a : Applications) (v : bytes) : Prop := {
  ao_skip : 0 ≤ a.(http_skip);
  ao_prefix : a.(http_chunk_prefix) = 0 ∨
    a.(http_skip) = 0 ∧ a.(http_body_until_close) = false ∧ mid_chunked a.(http_chunk_prefix) v;
}.
Definition no_head (peer : Applications) : Prop := Forall (λ b, b = false) peer.(pending_head_requests).

(** The stream moves forward, the peer loses requests from the front of its queue, nothing else. *)
Record follows (s s' : Poll) : Prop := {
  fo_peek : peek s'.(stream) `suffix_of` peek s.(stream);
  fo_state : hasReadableData s'.(stream) = hasReadableData s.(stream);
  fo_peer : ∃ l, l `suffix_of` s.(peer_state).(pending_head_requests) ∧
                 s'.(peer_state) = set_pending s.(peer_state) l;
  fo_frame : ∃ a pos, s'.(stream) = set_assembled s.(stream) a pos;
  fo_table : DnsTable.widened s.(dnsTable) s'.(dnsTable);
}.
Record poll_ok (s : Poll) : Prop := {
  po_readable : readable s.(stream);
  po_app : app_ok s.(applications) (peek s.(stream));
  po_head : no_head s.(peer_state);
}.

Lemma set_pending_id a : set_pending a a.(pending_head_requests) = a.
Proof. by destruct a. Qed.

Lemma set_assembled_id r : ∃ a pos, r = set_assembled r a pos.
Proof. exists r.(assembled), r.(read_pos). by destruct r. Qed.

#[export] Instance follows_preorder : PreOrder follows.
Proof.
  split.
  - intros s. split; [done|done| |by apply set_assembled_id|done].
    exists s.(peer_state).(pending_head_requests). by rewrite set_pending_id.
  - intros s1 s2 s3 [H1 H2 (l & H3 & H4) (a & p & H5) H6] [K1 K2 (k & K3 & K4) (b & q & K5) K6].
    split; [by etrans|congruence| | |by etrans].
    + rewrite H4 in K3, K4. exists k. split; [by etrans|done].
    + exists b, q. by rewrite K5, H5.
Qed.

(** [s'] differs from [s] in the stream, [n] bytes ahead, and in the state of
    its own direction. *)
Lemma consume_follows s n a :
  readable s.(stream) → no_head s.(peer_state) → 0 ≤ n →
  let s' := upd_app (upd_stream s (consume s.(stream) n)) a in
  follows s s' ∧ readable s'.(stream) ∧ no_head s'.(peer_state) ∧
  available s'.(stream) = available s.(stream) - Z.min n (available s.(stream)) ∧
  peek s'.(stream) = zdrop (Z.min n (available s.(stream))) (peek s.(stream)).
Proof.
  intros Hr Hh Hn s'. destruct (consume_spec _ _ Hn Hr) as (Hp & Hr' & Ha & Hd).
  split; [split|split_and!]; cbn; try done.
  - rewrite Hp. eexists. symmetry. apply ztake_zdrop.
  - exists s.(peer_state).(pending_head_requests). by rewrite set_pending_id.
  - unfold consume. cbn zeta. destruct (_ && _); by eexists _, _.
Qed.

(** The window of a longer buffer. *)
Lemma window_app (v t : bytes) :
  ∃ t', ztake (Z.min (len (v ++ t)) MAX_HTTP_HEADER_BYTES) (v ++ t) =
        ztake (Z.min (len v) MAX_HTTP_HEADER_BYTES) v ++ t' ∧
        Z.min (len (v ++ t)) MAX_HTTP_HEADER_BYTES = Z.min (len v) MAX_HTTP_HEADER_BYTES + len t'.
Proof.
  rewrite len_app. unfold MAX_HTTP_HEADER_BYTES. pose proof (len_nonneg v). pose proof (len_nonneg t).
  destruct (Z.leb_spec (32 * 1024) (len v)).
  - exists []. rewrite !Z.min_r by lia. rewrite ztake_app_le by done. by rewrite app_nil_r, (@len_nil Z), Z.add_0_r.
  - exists (ztake (Z.min (len v + len t) (32 * 1024) - len v) t). rewrite (Z.min_l (len v)) by lia.
    rewrite len_ztake by lia. split; [|lia]. rewrite (ztake_ge (len v) v) by lia.
    unfold ztake. rewrite take_app, take_ge by (unfold len in *; lia). f_equal. f_equal. unfold len in *. lia.
Qed.

Lemma mid_chunked_grow n v t : mid_chunked n v → mid_chunked n (v ++ t).
Proof.
  unfold mid_chunked. cbn zeta. intros (rest & h & Hp & Hc & Hf & Hn).
  destruct (window_app v t) as (t' & Hw & El). rewrite Hw, El.
  exists (rest ++ t'), h. rewrite (Http.parse_app _ _ t' _ Hp) by done. split; [done|].
  split_and!; [done|done|lia|]. rewrite !len_app. pose proof (len_nonneg t). lia.
Qed.

(** More bytes arriving keep the invariant. *)
Lemma app_ok_grow a v t : app_ok a v → app_ok a (v ++ t).
Proof. intros [Hs Hp]. split; [done|]. destruct Hp as [?|(?&?&?)]; [by left|right]. eauto using mid_chunked_grow. Qed.

(** ** Lemmas: resynchronisation *)

Lemma wp_resyncAt v p : 1 ≤ p < len v → wp (resyncAt v p) (λ b, b = true → 2 ≤ p).
Proof.
  intros Hp. unfold resyncAt. split_if; [by apply wp_ret|].
  wp_step. apply wp_at; [lia|]. intros c _. split_if; [by apply wp_ret|].
  wp_steps. lia.
Qed.

Lemma wp_findHttpResync v from :
  wp (findHttpResync v from) (λ r, match r with Some k => 3 ≤ k ≤ len v | None => True end).
Proof.
  unfold findHttpResync.
  assert (Hf : ∀ pos k, 1 ≤ pos → Text.find v newline pos = Some k → pos ≤ k < len v).
  { intros pos k Hpos H. apply find_Some in H as (_ & _ & _ & _ & _ & ?); lia. }
  eapply (wp_loop (λ p, match p with Some p => 1 ≤ p < len v | None => True end) _
            (λ p, match p with Some p => len v - p | None => 0 end)).
  - intros [p|] Hp; cbn; [|done]. wp_step. eapply wp_mono; [by apply wp_resyncAt|]. intros b Hb.
    split_if; apply wp_ret; [specialize (Hb eq_refl); lia|].
    destruct (Text.find v newline (p + 1)) as [k|] eqn:E; [apply Hf in E; lia|lia].
  - destruct (Text.find _ _ _) as [k|] eqn:E; [|done]. apply Hf in E; [|split_if; lia].
    destruct (from <? 1) eqn:?; lia.
  - destruct (Text.find _ _ _) as [k|] eqn:E; [apply Hf in E; [|split_if; lia]|]; unfold len in *; [|lia].
    destruct (from <? 1) eqn:?; lia.
Qed.

(** What a round of either loop keeps, and that going on consumes something. *)
Definition round_ok (s : Poll) (c : control Poll Poll) : Prop :=
  match c with
  | Next s' => poll_ok s' ∧ follows s s' ∧ available s'.(stream) < available s.(stream)
  | Stop s' => poll_ok s' ∧ follows s s'
  end.

Lemma wp_resync s : poll_ok s → wp (resync s) (round_ok s).
Proof.
  intros Hok. pose proof Hok as [Hr [Hsk _] Hh]. unfold resync, resyncHttp. cbn zeta. wp_step. wp_step.
  eapply wp_mono; [apply wp_findHttpResync|]. intros [k|] Hk.
  - apply wp_ret. cbn. apply wp_ret. rewrite len_peek in Hk by done.
    edestruct (consume_follows s k) as (H1 & H2 & H3 & H4 & H5); [done|done|lia|].
    split; [split; [done| |done]|split; [exact H1|cbn in *; lia]].
    split; [done|]. by left.
  - split_if; apply wp_ret; apply wp_ret.
    + edestruct (consume_follows s (available s.(stream))) as (H1 & H2 & H3 & H4 & H5); [done|done|unfold MAX_HTTP_MESSAGE_BYTES in *; lia|].
      split; [split; [done| |done]|split; [exact H1|cbn in *; unfold MAX_HTTP_MESSAGE_BYTES in *; lia]].
      split; [done|]. by left.
    + split; [|split; [done|done| |apply set_assembled_id|done]].
      * split; [done| |done]. split; [done|]. by left.
      * exists s.(peer_state).(pending_head_requests). by rewrite set_pending_id.
Qed.

(** ** Lemmas: one round *)

Lemma wp_dns_round s :
  poll_ok s → s.(applications).(http_chunk_prefix) = 0 → bytes_ok (peek s.(stream)) →
  wp (pollDns_body s) (λ c, round_ok s c ∧
    match c with Next s' | Stop s' => s'.(applications).(http_chunk_prefix) = 0 end).
Proof.
  intros Hok Hz Hb. pose proof Hok as [Hr [Hsk _] Hh]. unfold pollDns_body.
  split_if; [apply wp_ret; by split; [split|]|].
  wp_step. apply wp_at; [rewrite len_peek by done; lia|]. intros hi _. wp_step.
  apply wp_at; [rewrite len_peek by done; lia|]. intros lo _. cbn zeta.
  set (n := u16 _). pose proof (u16_range (Z.lor (Z.shiftl hi 8) lo)) as Hn. fold n in Hn.
  split_if; [apply wp_ret; by split; [split|]|].
  wp_step. wp_step; [rewrite len_peek by done; lia|]. wp_step.
  eapply wp_mono; [apply Dns.wp_parse_dns; auto with pcap|]. intros [err [rest h]] _.
  split_if; apply wp_ret;
    (edestruct (consume_follows s (2 + n) s.(applications)) as (H1 & H2 & H3 & H4 & H5); [done|done|lia|]).
  all: split; [|done]; split; [split; [done| |done]|split; [|cbn in *; lia]];
    [split; [done|by left]|destruct H1 as [? ? ? ? ?]; split; [done..|]; first [done|apply DnsTable.record_widened]].
Qed.

(** What is left behind a header. *)
Lemma wp_window v :
  wp (first (Z.min (len v) MAX_HTTP_HEADER_BYTES) v) (λ w, w = ztake (Z.min (len v) MAX_HTTP_HEADER_BYTES) v).
Proof. apply wp_first; [unfold MAX_HTTP_HEADER_BYTES; len_facts; lia|done]. Qed.

Lemma take_request_ok s h b s' :
  no_head s.(peer_state) → take_request s h = (b, s') →
  b = false ∧ ∃ l, l `suffix_of` s.(peer_state).(pending_head_requests) ∧
    s' = upd_peer s (set_pending s.(peer_state) l) ∧ no_head s'.(peer_state).
Proof.
  unfold take_request, no_head. intros Hh. destruct (_ && _).
  - destruct (pending_head_requests (peer_state s)) as [|front rest] eqn:E; intros [= <- <-].
    + split; [done|]. exists [].
      assert (set_pending (peer_state s) [] = peer_state s) as -> by (rewrite <- E; apply set_pending_id).
      split_and!; [done|by destruct s|by rewrite E].
    + apply Forall_cons_iff in Hh as [-> Hh]. split; [done|]. exists rest.
      split_and!; [by apply suffix_cons_r|done|done].
  - intros [= <- <-]. split; [done|]. eexists. split; [done|]. rewrite set_pending_id. by destruct s.
Qed.

(** What reading a body establishes: how much of the buffer it took, and where
    the next parse of an incomplete one may resume. *)
Definition body_ok (v body : bytes) (h : Http.Header) (s s' : Poll) (r : body_result) : Prop :=
  s' = upd_app s s'.(applications) ∧ 0 ≤ s'.(applications).(http_skip) ∧
  s'.(applications).(http_skip) = s.(applications).(http_skip) ∧
  match r with
  | BodyDone span => len span ≤ len body ∧ s'.(applications).(http_chunk_prefix) = 0
  | BodyIncomplete span => len span ≤ len body ∧ app_ok s'.(applications) v ∧
      (h.(Http.chunked) = false → s'.(applications).(http_chunk_prefix) = 0 ∧
                                  0 ≤ h.(Http.content_length))
  | BodyBad => s' = s
  end.

Lemma wp_readBody s v rest h :
  let window := Z.min (len v) MAX_HTTP_HEADER_BYTES in
  Http.parse (ztake window v) Http.zeroHeader = Ret (NoError, (rest, h)) →
  s.(applications).(http_skip) = 0 → s.(applications).(http_body_until_close) = false →
  app_ok s.(applications) v →
  wp (readBody false h (zdrop (window - len rest) v) s)
     (λ '(r, s'), body_ok v (zdrop (window - len rest) v) h s s' r).
Proof.
  intros window Hp Hsk Huc [Hs0 Hpre]. set (body := zdrop (window - len rest) v).
  pose proof (Http.parse_posted _ _ _ Hp) as (_ & _ & Hlen & Hfr). specialize (Hfr eq_refl eq_refl).
  assert (Hwin : 0 ≤ window ≤ len v) by (unfold window, MAX_HTTP_HEADER_BYTES; len_facts; lia).
  rewrite len_ztake in Hlen by done. len_facts.
  assert (Hbody : len body = len v - (window - len rest)) by (apply len_zdrop; lia).
  assert (Hresume : h.(Http.chunked) = true → Http.bodyForbidden h = false →
    0 ≤ s.(applications).(http_chunk_prefix) ≤ len body).
  { intros Hc Hf. destruct Hpre as [->|(_ & _ & rest' & h' & Hp' & _ & _ & Hn)]; [lia|].
    fold window in Hp', Hn. rewrite Hp in Hp'. injection Hp' as <- <-. by rewrite Hbody. }
  assert (Hzero : Http.bodyForbidden h = true ∨ h.(Http.chunked) = false →
    s.(applications).(http_chunk_prefix) = 0).
  { intros Hc. destruct Hpre as [->|(_ & _ & rest' & h' & Hp' & Hc' & Hf' & _)]; [done|].
    fold window in Hp'. rewrite Hp in Hp'. injection Hp' as <- <-. destruct Hc; congruence. }
  assert (Hid : s = upd_app s s.(applications)) by (by destruct s).
  unfold readBody. rewrite orb_false_r. split_if.
  { apply wp_ret. split_and!; [done|done|done|lia|auto]. }
  split_if.
  { specialize (Hresume eq_refl eq_refl). wp_step. wp_step. wp_step.
    eapply wp_mono; [apply Http.wp_parseChunkedBody|]. intros [err [[span o] n]] (Hn & Hle & Hr).
    rewrite len_zdrop in Hn, Hle by lia.
    destruct err; apply wp_ret; split_and!; cbn; try done; try lia; try (by rewrite Hsk).
    split; [done|right]. split_and!; [done|done|]. cbn.
    exists rest, h. fold window. split_and!; [done|done|done|apply u64_range|].
    assert (0 ≤ s.(applications).(http_chunk_prefix) + n) as Hnn by lia.
    pose proof (u64_le _ Hnn). lia. }
  specialize (Hzero (or_intror eq_refl)).
  split_if.
  { pose proof (Http.framed_length h Hfr Hc1). split_if; [apply wp_ret|wp_steps].
    - split_and!; [done|done|done|lia|by split|done].
    - split_and!; [done|done|done| |done]. rewrite len_zdrop; lia. }
  split_if; apply wp_ret; split_and!; try done; lia.
Qed.

Lemma note_request_pending a h : ∃ l, note_request a h = set_pending a l.
Proof.
  unfold note_request. destruct (_ && _); [by eexists|]. eexists. symmetry. apply set_pending_id.
Qed.

Lemma wp_onMessage s h span :
  readable s.(stream) → no_head s.(peer_state) → 0 ≤ s.(applications).(http_skip) →
  s.(applications).(http_chunk_prefix) = 0 → len span < available s.(stream) →
  wp (onMessage h (available s.(stream)) span s) (round_ok s).
Proof.
  intros Hr Hh Hsk Hz Hlt. pose proof (len_nonneg span). unfold onMessage. apply wp_ret. cbn zeta.
  destruct (note_request_pending s.(applications) h) as [l ->].
  edestruct (consume_follows s (available s.(stream) - len span)) as (H1 & H2 & H3 & H4 & H5); [done|done|lia|].
  split; [split; [done| |done]|split; [exact H1|cbn in *; lia]]. split; [done|by left].
Qed.

Lemma wp_onIncomplete s h span :
  readable s.(stream) → no_head s.(peer_state) → app_ok s.(applications) (peek s.(stream)) →
  (h.(Http.chunked) = false → s.(applications).(http_chunk_prefix) = 0 ∧ 0 ≤ h.(Http.content_length)) →
  len span < available s.(stream) →
  wp (onIncomplete h (available s.(stream)) span s) (round_ok s).
Proof.
  intros Hr Hh Ha Hz Hlt. pose proof (len_nonneg span). unfold onIncomplete.
  assert (poll_ok s) as Hok by done.
  split_if; [|by apply wp_ret]. split_if; [|by apply wp_resync].
  apply andb_true_iff in Hc0 as [_ Hc0%negb_true_iff]. destruct (Hz Hc0) as [Hp Hl].
  apply wp_ret. cbn zeta. destruct (note_request_pending s.(applications) h) as [l ->].
  edestruct (consume_follows s (available s.(stream) - len span)) as (H1 & H2 & H3 & H4 & H5); [done|done|lia|].
  split; [split; [done| |done]|split; [exact H1|cbn in *; lia]]. split; [done|by left].
Qed.

Lemma round_ok_follows s s1 c :
  follows s s1 → available s1.(stream) = available s.(stream) → round_ok s1 c → round_ok s c.
Proof.
  intros Hf Ha. destruct c as [s'|s']; cbn; [intros (H1 & H2 & H3)|intros (H1 & H2)].
  - split; [done|]. split; [by etrans|lia].
  - split; [done|]. by etrans.
Qed.

Lemma wp_http_round s :
  poll_ok s → Http.plain (peek s.(stream)) → wp (pollHttp_body s) (round_ok s).
Proof.
  intros Hok Hplain. pose proof Hok as [Hr [Hsk Hpre] Hh]. unfold pollHttp_body. cbn zeta.
  pose proof (len_peek _ Hr) as Hlen. pose proof (len_nonneg (peek s.(stream))) as Hnn.
  split_if.
  { assert (s.(applications).(http_chunk_prefix) = 0) as Hz by (destruct Hpre as [?|(?&_)]; lia).
    edestruct (consume_follows s (Z.min s.(applications).(http_skip) (available s.(stream))))
      as (H1 & H2 & H3 & H4 & H5); [done|done|lia|].
    cbn [applications upd_app http_skip set_skip].
    split_if; apply wp_ret; (split; [split; [done| |done]|]); [split; [cbn; lia|by left]|exact H1| |].
    - split; [cbn; lia|by left].
    - split; [exact H1|cbn in *; lia]. }
  split_if.
  { assert (s.(applications).(http_chunk_prefix) = 0) as Hz by (destruct Hpre as [?|(_&?&_)]; congruence).
    edestruct (consume_follows s (available s.(stream)) s.(applications)) as (H1 & H2 & H3 & H4 & H5); [done|done|lia|].
    apply wp_ret. split; [split; [done| |done]|by destruct H1]. split; [done|by left]. }
  apply wp_bind. eapply wp_mono; [apply wp_window|]. intros w ->.
  set (window := Z.min _ _). pose proof (Http.wp_parse_http _ (Http.plain_slice _ _ (slice_ztake window _) Hplain)) as Hw.
  apply wp_bind. destruct (wp_returns _ _ Hw) as ([err [rest h]] & Hp & Hle & Hrest). rewrite Hp. apply wp_ret.
  assert (Hwin : 0 ≤ window ≤ len (peek s.(stream))) by (unfold window, MAX_HTTP_HEADER_BYTES; lia).
  rewrite len_ztake in Hle, Hrest by done.
  destruct err; try (by apply wp_resync).
  2: { split_if; [by apply wp_resync|by apply wp_ret]. }
  destruct Hrest as (_ & Hle4 & _). pose proof (len_nonneg rest) as Hrn. wp_step. wp_step.
  destruct (take_request s h) as [b s1] eqn:Et.
  apply take_request_ok in Et as (-> & l & Hl & Es1 & Hh1); [|done]. wp_step.
  assert (follows s s1) as Hf1 by (subst s1; split; [done|done|by exists l|apply set_assembled_id|done]).
  assert (Happ : s1.(applications) = s.(applications)) by (by subst s1).
  assert (Hst : s1.(stream) = s.(stream)) by (by subst s1).
  eapply wp_mono.
  { apply (wp_readBody s1 (peek s.(stream)) rest h Hp); rewrite Happ; [lia|done|apply Hok]. }
  fold window. set (body := zdrop _ _). intros [r s2] (Es2 & Hsk2 & Hsk2' & Hres).
  assert (Hbody : len body = len (peek s.(stream)) - (window - len rest)) by (apply len_zdrop; lia).
  assert (follows s s2 ∧ s2.(stream) = s.(stream) ∧ no_head s2.(peer_state)) as (Hf2 & Hst2 & Hh2).
  { rewrite Es2. cbn. split; [|done]. destruct Hf1. by split. }
  destruct r as [span|span|].
  all: try (eapply wp_mono; [|intros c; apply (round_ok_follows _ s2); [done|by rewrite Hst2]]).
  - destruct Hres as [Hle2 Hz2]. rewrite Hlen, <- Hst2. apply wp_onMessage; rewrite ?Hst2; try done. lia.
  - destruct Hres as (Hle2 & Hao & Hcl). rewrite Hlen, <- Hst2. apply wp_onIncomplete; rewrite ?Hst2; try done. lia.
  - subst s2. apply wp_resync. split; rewrite ?Hst2, ?Happ; [done|apply Hok|done].
Qed.

Lemma suffix_bytes_ok l k : l `suffix_of` k → bytes_ok k → bytes_ok l.
Proof. intros [x ->] [_ H]%bytes_ok_app. done. Qed.

Lemma wp_pollStream key s :
  poll_ok s → bytes_ok (peek s.(stream)) →
  (isDns key = true → s.(applications).(http_chunk_prefix) = 0) →
  (isHttp key = true → Http.plain (peek s.(stream))) →
  wp (pollStream key s) (λ s', poll_ok s' ∧ follows s s' ∧
    (isDns key = true → s'.(applications).(http_chunk_prefix) = 0)).
Proof.
  intros Hok Hb Hz Hplain. unfold pollStream. split_if; [by apply wp_ret|].
  assert (Hfuel : ∀ n : Z, 0 ≤ n → n < Z.of_nat (S (Z.to_nat n))) by lia.
  assert (Hav : ∀ r, readable r → 0 ≤ available r) by (unfold readable, available; lia).
  split_if; [|split_if; [|by apply wp_ret]].
  - specialize (Hz eq_refl).
    eapply (wp_loop (λ s', poll_ok s' ∧ follows s s' ∧ s'.(applications).(http_chunk_prefix) = 0) _
              (λ s', available s'.(stream))); [|done|split; [|apply Hfuel]; apply Hav, Hok].
    intros s1 (Hok1 & Hf1 & Hz1). eapply wp_mono; [apply wp_dns_round; [done|done|]|].
    { eapply suffix_bytes_ok, Hb. apply Hf1. }
    intros [s2|s2] [Hr2 Hz2]; [destruct Hr2 as (H1 & H2 & H3)|destruct Hr2 as (H1 & H2)].
    + split; [split; [done|]; split; [by etrans|done]|]. split; [apply Hav, H1|lia].
    + split; [done|]. split; [by etrans|done].
  - eapply (wp_loop (λ s', poll_ok s' ∧ follows s s') _ (λ s', available s'.(stream)));
      [|done|split; [|apply Hfuel]; apply Hav, Hok].
    intros s1 (Hok1 & Hf1). eapply wp_mono; [apply wp_http_round; [done|]|].
    { eapply Http.plain_suffix; [apply Hf1|by apply Hplain]. }
    intros [s2|s2] Hr2; [destruct Hr2 as (H1 & H2 & H3)|destruct Hr2 as (H1 & H2)].
    + split; [split; [done|by etrans]|]. split; [apply Hav, H1|lia].
    + split; [done|]. split; [by etrans|done].
Qed.

(** ** Streams that arrive in pieces *)

(** The stream grows by each piece in turn and is polled after each. *)
Fixpoint feed (key : FlowKey) (s : Poll) (pieces : list bytes) : outcome Poll :=
  match pieces with
  | [] => Ret s
  | d :: pieces =>
      s ← pollStream key (upd_stream s (append s.(stream) d));
      feed key s pieces
  end.

(** *** DNS: length-prefixed messages *)

Definition frame (m : bytes) : bytes := [len m / 256; len m mod 256] ++ m.
Definition frames (ms : list bytes) : bytes := ms ≫= frame.
Definition frame_ok (m : bytes) : Prop := bytes_ok m ∧ len m < 65536.

(** No message is there in full. *)
Definition incomplete (v : bytes) : Prop := ∀ m r, frame_ok m → v ≠ frame m ++ r.

(** What one message does to the state of the direction and to the table. *)
Definition dns_step (st : Applications * DnsTable.DnsTable) (m : bytes)
    : Applications * DnsTable.DnsTable :=
  match Dns.parse m Dns.zeroHeader Big with
  | Ret (err, (_, header)) =>
      if failed err then (fail_decode st.1, st.2)
      else (push_dns st.1 header, DnsTable.record st.2 header)
  | _ => st
  end.

Lemma frame_inj m1 m2 r1 r2 :
  frame_ok m1 → frame_ok m2 → frame m1 ++ r1 = frame m2 ++ r2 → m1 = m2 ∧ r1 = r2.
Proof.
  unfold frame, frame_ok. intros [_ H1] [_ H2] E. rewrite <- !app_assoc in E. cbn [app] in E. injection E as E1 E2 E.
  assert (len m1 = len m2) as El by (Z.div_mod_to_equations; lia).
  apply app_inj_1 in E; [done|]. unfold len in El. lia.
Qed.

Lemma frames_cons m ms r : frames (m :: ms) ++ r = frame m ++ frames ms ++ r.
Proof. unfold frames. cbn [mbind list_bind]. by rewrite <- app_assoc. Qed.

(** Any buffer is messages, then what has not arrived in full. *)
Lemma frames_split v : bytes_ok v → ∃ ms r, v = frames ms ++ r ∧ Forall frame_ok ms ∧ incomplete r.
Proof.
  remember (length v) as n eqn:Hn. revert v Hn.
  induction (lt_wf n) as [n _ IH]. intros v -> Hb.
  destruct v as [|hi [|lo v]].
  - exists [], []. split_and!; [done|constructor|]. by intros m r _.
  - exists [], [hi]. split_and!; [done|constructor|]. by intros m r _.
  - apply Forall_cons_iff in Hb as [Hhi Hb]. apply Forall_cons_iff in Hb as [Hlo Hb].
    set (k := hi * 256 + lo). unfold is_byte in Hhi, Hlo.
    destruct (decide (k ≤ len v)) as [Hk|Hk].
    + destruct (IH (length (zdrop k v))) with (v := zdrop k v) as (ms & r & E & Hms & Hr);
        [unfold zdrop; rewrite length_drop; cbn; lia|done|by apply bytes_ok_zdrop|].
      exists (ztake k v :: ms), r. rewrite frames_cons, <- E.
      assert (Hlk : len (ztake k v) = k) by (apply len_ztake; lia).
      assert (k / 256 = hi ∧ k mod 256 = lo) as [Hd Hm] by (unfold k in *; Z.div_mod_to_equations; lia).
      split_and!; [|constructor; [|done]|done].
      * unfold frame. rewrite Hlk, Hd, Hm. cbn [app]. by rewrite ztake_zdrop.
      * split; [by apply bytes_ok_ztake|]. rewrite Hlk. lia.
    + exists [], (hi :: lo :: v). split_and!; [done|constructor|].
      intros m r [_ Hm] [= E1 E2 E]. apply (f_equal len) in E. rewrite len_app in E.
      pose proof (len_nonneg r). pose proof (len_nonneg m). unfold k in Hk. Z.div_mod_to_equations. lia.
Qed.

(** The messages of a longer buffer begin with those of a shorter one. *)
Lemma frames_extend ms1 r1 x ms r :
  Forall frame_ok ms1 → Forall frame_ok ms → incomplete r →
  frames ms1 ++ (r1 ++ x) = frames ms ++ r → ∃ ms2, ms = ms1 ++ ms2 ∧ r1 ++ x = frames ms2 ++ r.
Proof.
  intros H1 Hms Hr. revert ms Hms. induction H1 as [|m ms1 Hm _ IH]; intros ms Hms E.
  - by exists ms.
  - rewrite frames_cons in E. destruct ms as [|m' ms]; [cbn in E; by apply eq_sym, Hr in E|].
    apply Forall_cons_iff in Hms as [Hm' Hms]. rewrite frames_cons in E.
    apply frame_inj in E as [<- E]; [|done..]. destruct (IH ms Hms E) as (ms2 & -> & E'). by exists ms2.
Qed.

Lemma incomplete_no_frames ms r : incomplete (frames ms ++ r) → Forall frame_ok ms → ms = [].
Proof.
  destruct ms as [|m ms]; [done|]. intros Hi [Hm _]%Forall_cons_iff.
  exfalso. apply (Hi m (frames ms ++ r) Hm), frames_cons.
Qed.

(** [s'] is [s] after messages that leave [r] to read and bring the state of the
    direction and the table to [st]. *)
Record dns_after (s : Poll) (st : Applications * DnsTable.DnsTable) (r : bytes) (s' : Poll) : Prop := {
  da_readable : readable s'.(stream);
  da_state : hasReadableData s'.(stream) = hasReadableData s.(stream);
  da_peek : peek s'.(stream) = r;
  da_app : (s'.(applications), s'.(dnsTable)) = st;
  da_peer : s'.(peer_state) = s.(peer_state);
}.

Lemma dns_round_frame s m r :
  readable s.(stream) → frame_ok m → peek s.(stream) = frame m ++ r →
  ∃ s', pollDns_body s = Ret (Next s') ∧
        dns_after s (dns_step (s.(applications), s.(dnsTable)) m) r s' ∧
        available s'.(stream) < available s.(stream).
Proof.
  intros Hr [Hb Hm] Hp. pose proof (len_nonneg m) as Hm0. pose proof (len_nonneg r) as Hr0.
  assert (Ha : available s.(stream) = 2 + len m + len r).
  { rewrite <- len_peek, Hp by done. unfold frame. rewrite !len_app. change (len [_; _]) with 2. lia. }
  unfold pollDns_body. rewrite (proj2 (Z.ltb_ge _ _)) by lia. rewrite Hp.
  assert (H0 : at_ (frame m ++ r) 0 = Ret (len m / 256)) by done.
  assert (H1 : at_ (frame m ++ r) 1 = Ret (len m mod 256)) by done.
  rewrite H0, bind_ret, H1, bind_ret. cbn zeta.
  assert (u16 (Z.lor (Z.shiftl (len m / 256) 8) (len m mod 256)) = len m) as ->.
  { rewrite Z.lor_comm, lor_disjoint by (change (2 ^ 8) with 256; Z.div_mod_to_equations; lia).
    change (2 ^ 8) with 256. rewrite u16_small; Z.div_mod_to_equations; lia. }
  rewrite (proj2 (Z.ltb_ge _ _)) by lia.
  assert (subspan_n (frame m ++ r) 2 (len m) = Ret m) as ->.
  { unfold subspan_n, frame. rewrite <- app_assoc.
    rewrite subspan_app_exact, bind_ret by done. by apply first_app_exact. }
  rewrite bind_ret.
  destruct (wp_returns _ _ (Dns.wp_parse_dns m Dns.zeroHeader Big Hb)) as ([err [m' h]] & Hd & _).
  unfold dns_step. rewrite Hd, bind_ret.
  destruct (consume_spec s.(stream) (2 + len m) ltac:(lia) Hr) as (C1 & C2 & C3 & C4).
  rewrite Z.min_l in C1, C3 by lia.
  assert (Hpk : peek (consume s.(stream) (2 + len m)) = r).
  { rewrite C1, Hp. apply zdrop_app_exact. unfold frame. by rewrite len_app. }
  destruct (failed err); eexists; (split; [reflexivity|split; [by split|cbn; lia]]).
Qed.

Lemma dns_round_stop s :
  readable s.(stream) → bytes_ok (peek s.(stream)) → incomplete (peek s.(stream)) →
  pollDns_body s = Ret (Stop s).
Proof.
  intros Hr Hb Hi. unfold pollDns_body. rewrite <- len_peek by done.
  destruct (frames_split (peek s.(stream)) Hb) as (ms & r & E & Hms & Hir).
  destruct (peek s.(stream)) as [|hi [|lo v]] eqn:Ep; [done|done|].
  assert (H0 : at_ (hi :: lo :: v) 0 = Ret hi) by done. assert (H1 : at_ (hi :: lo :: v) 1 = Ret lo) by done.
  rewrite H0, bind_ret, H1, bind_ret. cbn zeta.
  apply Forall_cons_iff in Hb as [Hhi Hb]. apply Forall_cons_iff in Hb as [Hlo Hb]. unfold is_byte in Hhi, Hlo.
  assert (u16 (Z.lor (Z.shiftl hi 8) lo) = hi * 256 + lo) as ->.
  { rewrite Z.lor_comm, lor_disjoint by (change (2 ^ 8) with 256; lia).
    change (2 ^ 8) with 256. rewrite u16_small; lia. }
  set (k := hi * 256 + lo). pose proof (len_nonneg v). rewrite !len_cons.
  rewrite (proj2 (Z.ltb_ge _ 2)) by lia.
  destruct (Z.ltb_spec (1 + (1 + len v)) (2 + k)) as [|Hk]; [done|]. exfalso.
  assert (Hlk : len (ztake k v) = k) by (apply len_ztake; unfold k in *; lia).
  assert (k / 256 = hi ∧ k mod 256 = lo) as [Hd Hm] by (unfold k in *; Z.div_mod_to_equations; lia).
  apply (Hi (ztake k v) (zdrop k v)).
  - split; [by apply bytes_ok_ztake|]. rewrite Hlk. unfold k. lia.
  - unfold frame. rewrite Hlk, Hd, Hm. cbn [app]. by rewrite ztake_zdrop.
Qed.

Lemma dns_loop ms r s fuel :
  readable s.(stream) → bytes_ok r → Forall frame_ok ms → incomplete r →
  peek s.(stream) = frames ms ++ r → available s.(stream) < Z.of_nat fuel →
  ∃ s', loop fuel pollDns_body s = Ret s' ∧
        dns_after s (foldl dns_step (s.(applications), s.(dnsTable)) ms) r s'.
Proof.
  intros Hr Hb Hms Hi. revert s fuel Hr. induction Hms as [|m ms Hm _ IH]; intros s fuel Hr Hp Hf.
  - destruct fuel as [|fuel]; [unfold available, readable in *; lia|]. cbn [loop].
    cbn [frames mbind list_bind app] in Hp. rewrite dns_round_stop, bind_ret by (by rewrite ?Hp).
    exists s. split; [done|]. by split.
  - destruct fuel as [|fuel]; [unfold available, readable in *; lia|]. cbn [loop].
    rewrite frames_cons in Hp.
    destruct (dns_round_frame s m _ Hr Hm Hp) as (s1 & -> & [R1 S1 P1 A1 Q1] & Hlt). rewrite bind_ret.
    destruct (IH s1 fuel R1 P1 ltac:(lia)) as (s2 & -> & [R2 S2 P2 A2 Q2]).
    exists s2. split; [done|]. split; [done|congruence|done| |congruence]. by rewrite A2, A1.
Qed.

Lemma poll_dns key s ms r :
  isDns key = true → hasReadableData s.(stream) = true →
  readable s.(stream) → bytes_ok r → Forall frame_ok ms → incomplete r →
  peek s.(stream) = frames ms ++ r →
  ∃ s', pollStream key s = Ret s' ∧
        dns_after s (foldl dns_step (s.(applications), s.(dnsTable)) ms) r s'.
Proof.
  intros Hk Hd Hr Hb Hms Hi Hp. unfold pollStream. rewrite Hd, Hk. cbn [negb].
  apply dns_loop; try done. unfold poll_fuel, available, readable in *. lia.
Qed.

(** *** HTTP: messages with their bodies *)

Inductive Body :=
| NoBody
| Sized (content : bytes)
| Chunked (chunks : list (bytes * bytes)) (trailer : list Http.Field).
Definition body_wire (b : Body) : bytes :=
  match b with
  | NoBody => []
  | Sized content => content
  | Chunked chunks trailer => Http.encodeChunked chunks trailer
  end.
Abbreviation Message := (Http.Header * Body)%type.
Definition wire (m : Message) : bytes := Http.encode m.1 ++ body_wire m.2.
Definition wires (ms : list Message) : bytes := ms ≫= wire.

(** The body is the one the header announces; a response whose body ends with
    the connection is left out. *)
Definition body_fits (h : Http.Header) (b : Body) : Prop :=
  match b with
  | NoBody => Http.bodyForbidden h = true ∨
      h.(Http.chunked) = false ∧ h.(Http.has_content_length) = false ∧ Http.isResponse h = false
  | Sized content => Http.bodyForbidden h = false ∧ h.(Http.chunked) = false ∧
      h.(Http.has_content_length) = true ∧ h.(Http.content_length) = len content
  | Chunked chunks trailer => Http.bodyForbidden h = false ∧ h.(Http.chunked) = true ∧
      Forall Http.chunk_ok chunks ∧ Forall Http.field_ok trailer
  end.
Record message_fits (m : Message) : Prop := {
  mf_header : Http.message_ok m.1;
  mf_body : body_fits m.1 m.2;
  mf_header_size : len (Http.encode m.1) ≤ MAX_HTTP_HEADER_BYTES;
  mf_size : len (wire m) ≤ MAX_HTTP_MESSAGE_BYTES;
}.

Definition http_step (a : Applications) (m : Message) : Applications :=
  push_http (note_request a m.1) m.1.

(** The state between two polls: [q] has been received of [ms]; the chunks
    before [http_chunk_prefix] have been looked at. *)
Definition resumable (q : bytes) (a : Applications) (ms : list Message) : Prop :=
  a.(http_chunk_prefix) = 0 ∨
  ∃ h l1 l2 trailer ms' q', ms = (h, Chunked (l1 ++ l2) trailer) :: ms' ∧
    a.(http_chunk_prefix) = len (Http.chunk_bytes l1) ∧ q = Http.encode h ++ Http.chunk_bytes l1 ++ q'.
Definition idle (a : Applications) : Prop := a.(http_skip) = 0 ∧ a.(http_body_until_close) = false.
Definition strip (a : Applications) : Applications := set_prefix a 0.

Record waiting (s : Poll) (t : bytes) (ms : list Message) : Prop := {
  wa_readable : readable s.(stream);
  wa_idle : idle s.(applications);
  wa_head : no_head s.(peer_state);
  wa_wire : peek s.(stream) ++ t = wires ms;
  wa_resume : resumable (peek s.(stream)) s.(applications) ms;
  wa_fits : Forall message_fits ms;
}.

Lemma wires_cons m ms : wires (m :: ms) = wire m ++ wires ms.
Proof. done. Qed.

Lemma strip_step a m : strip (http_step a m) = http_step (strip a) m.
Proof. unfold http_step, note_request. cbn [strip pending_head_requests set_prefix]. by destruct (_ && _). Qed.
Lemma note_request_frame a h :
  (note_request a h).(http_skip) = a.(http_skip) ∧
  (note_request a h).(http_body_until_close) = a.(http_body_until_close) ∧
  (note_request a h).(http_chunk_prefix) = a.(http_chunk_prefix).
Proof. by destruct (note_request_pending a h) as [l ->]. Qed.

(** A header that is there in full is read, and its body begins behind it. *)
Lemma round_taken s h body b s1 :
  readable s.(stream) → idle s.(applications) → Http.message_ok h →
  len (Http.encode h) ≤ MAX_HTTP_HEADER_BYTES → peek s.(stream) = Http.encode h ++ body → take_request s h = (b, s1) →
  pollHttp_body s =
    ('(r, s') ← readBody b h body s1;
     match r with
     | BodyDone span => onMessage h (available s.(stream)) span s'
     | BodyIncomplete span => onIncomplete h (available s.(stream)) span s'
     | BodyBad => resync s'
     end).
Proof.
  intros Hr [Hs Hu] Hm Hmax Hp Et.
  unfold pollHttp_body. rewrite Hs, Hu. cbn [Z.ltb Z.compare].
  rewrite <- (len_peek _ Hr), Hp. set (v := Http.encode h ++ body). set (window := Z.min _ _).
  pose proof (len_nonneg body). pose proof (len_nonneg (Http.encode h)).
  assert (Hw : len (Http.encode h) ≤ window ≤ len v) by (unfold window, v; rewrite len_app; lia).
  unfold first. rewrite !(proj2 (Z.leb_le _ _)) by lia. cbn [andb]. rewrite bind_ret.
  assert (ztake window v = Http.encode h ++ ztake (window - len (Http.encode h)) body) as ->.
  { unfold v, ztake. rewrite take_app, take_ge by (unfold len in *; lia). do 2 f_equal. unfold len. lia. }
  rewrite Http.parse_encoded, bind_ret by done. cbn iota beta.
  assert (Hwl : window ≤ len (Http.encode h) + len body) by (unfold v in Hw; rewrite len_app in Hw; lia).
  rewrite len_ztake by lia.
  replace (window - (window - len (Http.encode h))) with (len (Http.encode h)) by lia.
  assert (subspan v (len (Http.encode h)) = Ret body) as -> by (by apply subspan_app_exact).
  rewrite bind_ret. by rewrite Et.
Qed.

Lemma round_header s h body :
  readable s.(stream) → idle s.(applications) → no_head s.(peer_state) → Http.message_ok h →
  len (Http.encode h) ≤ MAX_HTTP_HEADER_BYTES → peek s.(stream) = Http.encode h ++ body →
  ∃ l, no_head (set_pending s.(peer_state) l) ∧
    pollHttp_body s =
      ('(r, s') ← readBody false h body (upd_peer s (set_pending s.(peer_state) l));
       match r with
       | BodyDone span => onMessage h (available s.(stream)) span s'
       | BodyIncomplete span => onIncomplete h (available s.(stream)) span s'
       | BodyBad => resync s'
       end).
Proof.
  intros Hr Hi Hh Hm Hmax Hp. destruct (take_request s h) as [b s1] eqn:Et. pose proof Et as Et'.
  apply take_request_ok in Et' as (-> & l & _ & -> & Hh1); [|done]. exists l. split; [done|]. by apply round_taken.
Qed.

Lemma readBody_full s m t ms :
  message_fits m → resumable (wire m ++ t) s.(applications) (m :: ms) → idle s.(applications) →
  ∃ s', readBody false m.1 (body_wire m.2 ++ t) s = Ret (BodyDone t, s') ∧
    s'.(applications) = strip s.(applications) ∧ s' = upd_app s s'.(applications).
Proof.
  intros [Hm Hb _ _] Hre [_ Hu]. destruct m as [h b]. cbn [fst snd] in *. unfold readBody. rewrite orb_false_r.
  assert (Hz : (∀ l tr, b ≠ Chunked l tr) → strip s.(applications) = s.(applications)).
  { intros Hn. unfold strip. destruct Hre as [E|(?&?&?&?&?&?&E&_)]; [|injection E; intros; by edestruct Hn].
    rewrite <- E. by destruct (applications s). }
  assert (Hid : s = upd_app s s.(applications)) by (by destruct s).
  destruct b as [|content|chunks trailer]; cbn [body_wire body_fits] in *.
  - exists s. rewrite Hz by done. destruct Hb as [->|(Hc & Hl & Hresp)]; [done|].
    rewrite Hc, Hl, Hresp. by destruct (Http.bodyForbidden h).
  - exists s. rewrite Hz by done. destruct Hb as (-> & -> & -> & ->). rewrite ltb_app_exact by done.
    by rewrite subspan_app_exact.
  - destruct Hb as (-> & -> & Hch & Htr). exists (upd_app s (strip s.(applications))). split; [|done].
    assert (∃ l1 l2, chunks = l1 ++ l2 ∧ s.(applications).(http_chunk_prefix) = len (Http.chunk_bytes l1))
      as (l1 & l2 & -> & Hpre).
    { destruct Hre as [->|(h' & l1 & l2 & tr' & ms' & q' & E & Hp & _)]; [by exists [], chunks|].
      injection E as -> -> -> ->. by exists l1, l2. }
    rewrite Hpre. unfold Http.encodeChunked at 1. rewrite bind_app, <- !app_assoc.
    rewrite subspan_app_exact, bind_ret by done.
    apply Forall_app in Hch as [_ Hch].
    pose proof (Http.parseChunkedBody_encoded l2 trailer t [] Hch Htr) as Hpc.
    unfold Http.encodeChunked in Hpc. rewrite <- !app_assoc in Hpc. by rewrite Hpc, bind_ret.
Qed.

Lemma readBody_partial s m q t ms :
  message_fits m → resumable (Http.encode m.1 ++ q) s.(applications) (m :: ms) →
  body_wire m.2 = q ++ t → t ≠ [] →
  ∃ span s', readBody false m.1 q s = Ret (BodyIncomplete span, s') ∧
    strip s'.(applications) = strip s.(applications) ∧ s' = upd_app s s'.(applications) ∧
    resumable (Http.encode m.1 ++ q) s'.(applications) (m :: ms).
Proof.
  intros [Hm Hb _ Hsize] Hre E Ht. destruct m as [h b]. cbn [fst snd] in *. unfold readBody. rewrite orb_false_r.
  assert (Hid : s = upd_app s s.(applications)) by (by destruct s).
  destruct b as [|content|chunks trailer]; cbn [body_wire body_fits] in *.
  - symmetry in E. by apply Http.app_not_nil in E.
  - exists q, s. destruct Hb as (-> & -> & -> & ->). rewrite (proj2 (Z.ltb_lt _ _)); [done|].
    rewrite E, len_app. destruct t as [|c t]; [done|]. rewrite len_cons. pose proof (len_nonneg t). lia.
  - destruct Hb as (-> & -> & Hch & Htr).
    assert (∃ l1 l2 q', chunks = l1 ++ l2 ∧ q = Http.chunk_bytes l1 ++ q' ∧
              s.(applications).(http_chunk_prefix) = len (Http.chunk_bytes l1))
      as (l1 & l2 & q' & -> & -> & Hpre).
    { destruct Hre as [->|(h' & l1 & l2 & tr' & ms' & q' & E' & Hp & Hq)]; [by exists [], chunks, q|].
      injection E' as -> -> -> ->. apply app_inv_head in Hq as ->. by exists l1, l2, q'. }
    rewrite Hpre, subspan_app_exact, bind_ret by done. apply Forall_app in Hch as [Hch1 Hch].
    assert (E2 : Http.encodeChunked l2 trailer = q' ++ t).
    { unfold Http.encodeChunked in E. rewrite bind_app, <- !app_assoc in E. by apply app_inv_head in E. }
    destruct (Http.parseChunkedBody_partial l2 trailer q' t [] Hch Htr E2 Ht) as (l3 & l4 & q2 & -> & -> & ->).
    rewrite bind_ret. eexists _, _. split; [reflexivity|]. split; [done|]. split; [done|]. right.
    exists h, (l1 ++ l3), l4, trailer, ms, q2. rewrite app_assoc. split; [done|].
    assert (Http.chunk_bytes (l1 ++ l3) = Http.chunk_bytes l1 ++ Http.chunk_bytes l3) as -> by apply bind_app.
    rewrite <- (app_assoc (Http.chunk_bytes l1)). split; [|done]. cbn [applications upd_app set_prefix http_chunk_prefix].
    rewrite len_app. apply u64_small.
    pose proof (len_nonneg (Http.chunk_bytes l1)). pose proof (len_nonneg (Http.chunk_bytes l3)).
    unfold wire in Hsize. cbn [fst snd body_wire] in Hsize. rewrite E in Hsize.
    unfold MAX_HTTP_MESSAGE_BYTES in Hsize. rewrite !len_app in Hsize. len_facts.
    pose proof (len_nonneg (Http.encode h)). lia.
Qed.

Lemma encode_nonempty h : 0 < len (Http.encode h).
Proof.
  unfold Http.encode, Http.CRLF. rewrite !len_app, !len_cons.
  pose proof (len_nonneg (Http.encodeStart h)). pose proof (len_nonneg (Http.encodeFields h.(Http.fields))).
  pose proof (@len_nonneg Z []). lia.
Qed.

(** A round with a message there in full. *)
Lemma round_full s t m ms q :
  waiting s t (m :: ms) → peek s.(stream) = wire m ++ q → q ++ t = wires ms →
  ∃ s', pollHttp_body s = Ret (Next s') ∧ waiting s' t ms ∧
    strip s'.(applications) = http_step (strip s.(applications)) m ∧
    hasReadableData s'.(stream) = hasReadableData s.(stream) ∧
    available s'.(stream) < available s.(stream).
Proof.
  intros [Hr Hi Hh _ Hre [Hm Hms]%Forall_cons_iff] Hp Hq. pose proof (encode_nonempty m.1) as Hpos.
  assert (Hp' : peek s.(stream) = Http.encode m.1 ++ (body_wire m.2 ++ q)) by (rewrite Hp; unfold wire; by rewrite <- app_assoc).
  destruct (round_header s m.1 _ Hr Hi Hh (mf_header _ Hm) (mf_header_size _ Hm) Hp') as (l & Hl & ->).
  rewrite Hp in Hre.
  destruct (readBody_full (upd_peer s (set_pending s.(peer_state) l)) m q ms Hm Hre Hi) as (s1 & -> & Ha & Es1).
  rewrite bind_ret. cbn iota beta. unfold onMessage. cbn zeta. eexists. split; [reflexivity|].
  assert (Hst : s1.(stream) = s.(stream)) by (by rewrite Es1).
  assert (Hpe : s1.(peer_state) = set_pending s.(peer_state) l) by (by rewrite Es1).
  pose proof (len_nonneg q). pose proof (len_nonneg (body_wire m.2)).
  assert (Hav : available s.(stream) = len (Http.encode m.1) + len (body_wire m.2) + len q).
  { rewrite <- len_peek, Hp by done. unfold wire. rewrite !len_app. lia. }
  destruct (consume_spec s.(stream) (available s.(stream) - len q) ltac:(lia) Hr) as (C1 & C2 & C3 & C4).
  rewrite Z.min_l in C1, C3 by lia.
  destruct (note_request_frame s1.(applications) m.1) as (N1 & N2 & N3). destruct Hi as [Hi1 Hi2].
  assert (Hpk : peek (consume s.(stream) (available s.(stream) - len q)) = q).
  { rewrite C1, Hp. apply zdrop_app_exact. unfold wire. rewrite len_app. lia. }
  rewrite Ha in N1, N2, N3. cbn in N1, N2, N3. rewrite Hst. cbn [stream upd_stream upd_app applications].
  split; [|split; [|split; [exact C4|lia]]].
  - split; cbn [stream upd_stream upd_app applications peer_state]; [done| |by rewrite Hpe|by rewrite Hpk| |done].
    + rewrite Ha. split; cbn; congruence.
    + left. by rewrite Ha.
  - rewrite Ha. change (push_http (note_request ?a _) _) with (http_step a m). by rewrite strip_step.
Qed.

(** A round with part of a message. *)
Lemma round_partial s t m ms k :
  waiting s t (m :: ms) → wire m = peek s.(stream) ++ k → k ≠ [] →
  ∃ s', pollHttp_body s = Ret (Stop s') ∧ waiting s' t (m :: ms) ∧
    peek s'.(stream) = peek s.(stream) ∧ strip s'.(applications) = strip s.(applications) ∧
    hasReadableData s'.(stream) = hasReadableData s.(stream).
Proof.
  intros Hw Ek Hk. pose proof Hw as [Hr Hi Hh Hwire Hre Hall]. pose proof Hall as [Hm Hms]%Forall_cons_iff.
  pose proof (mf_size _ Hm) as Hsize. rewrite Ek, len_app in Hsize. pose proof (len_nonneg k).
  rewrite len_peek in Hsize by done.
  assert ((∃ b, peek s.(stream) = Http.encode m.1 ++ b ∧ body_wire m.2 = b ++ k) ∨
          (∃ k', k' ≠ [] ∧ Http.encode m.1 = peek s.(stream) ++ k')) as [(b & Hp & Eb)|(k' & Hk' & Ee)].
  { pose proof Ek as Ek'. unfold wire in Ek'. apply app_eq_inv in Ek' as [(j & E1 & E2)|(j & E1 & E2)]; [|left; by exists j].
    destruct (decide (j = [])) as [->|Hj]; [|right; by exists j].
    left. exists []. rewrite app_nil_r in *. cbn [app] in *. by split. }
  - destruct (round_header s m.1 _ Hr Hi Hh (mf_header _ Hm) (mf_header_size _ Hm) Hp) as (l & Hl & ->).
    rewrite Hp in Hre.
    destruct (readBody_partial (upd_peer s (set_pending s.(peer_state) l)) m b k ms Hm Hre Eb Hk)
      as (span & s1 & -> & Ha & Es1 & Hre1).
    rewrite bind_ret. cbn iota beta. unfold onIncomplete.
    assert (Hst : s1.(stream) = s.(stream)) by (by rewrite Es1).
    rewrite Hst, (proj2 (Z.ltb_ge _ _)) by lia. exists s1. split; [done|].
    split; [|split; [by rewrite Hst|split; [exact Ha|by rewrite Hst]]].
    split; rewrite ?Hst; try done.
    + destruct Hi as [Hi1 Hi2]. split.
      * change (http_skip (strip s1.(applications)) = 0). by rewrite Ha.
      * change (http_body_until_close (strip s1.(applications)) = false). by rewrite Ha.
    + by rewrite Es1.
    + by rewrite Hp.
  - destruct (Http.parse_partial m.1 _ _ (mf_header _ Hm) Ee Hk') as [h' Hpar].
    pose proof (mf_header_size _ Hm) as Hhs. rewrite Ee, len_app, len_peek in Hhs by done. pose proof (len_nonneg k').
    exists s. split; [|done]. destruct Hi as [Hi1 Hi2]. unfold pollHttp_body.
    rewrite Hi1, Hi2. cbn [Z.ltb Z.compare]. rewrite len_peek, Z.min_l by (done || lia).
    unfold first. rewrite len_peek, !(proj2 (Z.leb_le _ _)) by (done || unfold available, readable in *; lia).
    cbn [andb]. rewrite bind_ret, ztake_ge by (rewrite len_peek by done; lia). rewrite Hpar, bind_ret. cbn iota.
    by rewrite (proj2 (Z.ltb_ge _ _)) by lia.
Qed.

Lemma round_done s t : waiting s t [] → pollHttp_body s = Ret (Stop s).
Proof.
  intros [Hr [Hi1 Hi2] Hh Hw _ _]. apply app_eq_nil in Hw as [Hp _].
  assert (Hav : available s.(stream) = 0) by (rewrite <- len_peek, Hp by done; done).
  unfold pollHttp_body. rewrite Hi1, Hi2, Hp, Hav. done.
Qed.

(** Less than the first message is there. *)
Definition short (v : bytes) (ms : list Message) : Prop :=
  match ms with [] => True | m :: _ => len v < len (wire m) end.

Lemma http_loop ms s t fuel :
  waiting s t ms → available s.(stream) < Z.of_nat fuel →
  ∃ s' ms1 ms2, ms = ms1 ++ ms2 ∧ loop fuel pollHttp_body s = Ret s' ∧ waiting s' t ms2 ∧
    short (peek s'.(stream)) ms2 ∧
    strip s'.(applications) = foldl http_step (strip s.(applications)) ms1 ∧
    hasReadableData s'.(stream) = hasReadableData s.(stream).
Proof.
  revert s fuel. induction ms as [|m ms IH]; intros s fuel Hw Hf;
    pose proof (wa_readable _ _ _ Hw) as Hr; (destruct fuel as [|fuel]; [unfold available, readable in *; lia|]).
  { exists s, [], []. cbn [loop]. by rewrite (round_done s t Hw), bind_ret. }
  cbn [loop].
  assert ((∃ q, peek s.(stream) = wire m ++ q ∧ q ++ t = wires ms) ∨
          (∃ k, k ≠ [] ∧ wire m = peek s.(stream) ++ k)) as [(q & Hp & Hq)|(k & Hk & Ek)].
  { pose proof (wa_wire _ _ _ Hw) as E. rewrite wires_cons in E.
    apply app_eq_inv in E as [(j & E1 & E2)|(j & E1 & E2)]; [left; by exists j|].
    destruct (decide (j = [])) as [->|Hj]; [|right; by exists j].
    left. exists []. rewrite app_nil_r in *. cbn [app] in *. by split. }
  - destruct (round_full s t m ms q Hw Hp Hq) as (s1 & -> & Hw1 & Ha1 & Hd1 & Hlt). rewrite bind_ret.
    destruct (IH s1 fuel Hw1 ltac:(lia)) as (s' & ms1 & ms2 & -> & Hl & Hw' & Hs' & Ha' & Hd').
    exists s', (m :: ms1), ms2. split; [done|]. split; [done|]. split; [done|]. split; [done|]. split; [|congruence].
    cbn [foldl]. by rewrite Ha', Ha1.
  - destruct (round_partial s t m ms k Hw Ek Hk) as (s1 & -> & Hw1 & Hp1 & Ha1 & Hd1). rewrite bind_ret.
    exists s1, [], (m :: ms). do 3 (split; [done|]). split; [|done]. cbn [short]. rewrite Hp1, Ek, len_app.
    destruct k as [|c k]; [done|]. rewrite len_cons. pose proof (len_nonneg k). lia.
Qed.

Lemma waiting_grow s d t ms :
  waiting s (d ++ t) ms → waiting (upd_stream s (append s.(stream) d)) t ms.
Proof.
  intros [Hr Hi Hh Hw Hre Hf]. destruct (append_peek s.(stream) d Hr) as (Ep & Hr' & _).
  split; cbn [stream upd_stream applications peer_state]; try done.
  - by rewrite Ep, <- app_assoc.
  - rewrite Ep. destruct Hre as [?|(h & l1 & l2 & tr & ms' & q' & E & Hp & Hq)]; [by left|right].
    exists h, l1, l2, tr, ms', (q' ++ d). split; [done|]. split; [done|]. by rewrite Hq, <- !app_assoc.
Qed.

Lemma set_prefix_id a : set_prefix a a.(http_chunk_prefix) = a.
Proof. by destruct a. Qed.

Lemma poll_waiting key s t ms :
  isDns key = false → isHttp key = true → hasReadableData s.(stream) = true → waiting s t ms →
  ∃ s' ms1 ms2, ms = ms1 ++ ms2 ∧ pollStream key s = Ret s' ∧ waiting s' t ms2 ∧
    short (peek s'.(stream)) ms2 ∧
    strip s'.(applications) = foldl http_step (strip s.(applications)) ms1 ∧
    hasReadableData s'.(stream) = true.
Proof.
  intros Hnd Hk Hd Hw. unfold pollStream. rewrite Hd, Hnd, Hk. cbn [negb].
  rewrite <- Hd. apply http_loop; [done|]. pose proof (wa_readable _ _ _ Hw).
  unfold poll_fuel, available, readable in *. lia.
Qed.

Lemma feed_waiting key pieces ms s :
  isDns key = false → isHttp key = true → hasReadableData s.(stream) = true →
  waiting s (concat pieces) ms → short (peek s.(stream)) ms →
  ∃ s', feed key s pieces = Ret s' ∧ peek s'.(stream) = [] ∧ s'.(applications).(http_chunk_prefix) = 0 ∧
        strip s'.(applications) = foldl http_step (strip s.(applications)) ms.
Proof.
  intros Hnd Hk. revert s ms. induction pieces as [|d pieces IH]; intros s ms Hd Hw Hs; cbn [feed concat] in *.
  - exists s. split; [done|]. pose proof (wa_wire _ _ _ Hw) as E. rewrite app_nil_r in E.
    destruct ms as [|m ms].
    + split; [done|]. split; [|done]. by destruct (wa_resume _ _ _ Hw) as [?|(?&?&?&?&?&?&?&_)].
    + exfalso. cbn [short] in Hs. rewrite E, wires_cons, len_app in Hs. pose proof (len_nonneg (wires ms)). lia.
  - apply waiting_grow in Hw.
    destruct (poll_waiting key (upd_stream s (append s.(stream) d)) _ _ Hnd Hk Hd Hw) as (s1 & ms1 & ms2 & -> & -> & Hw1 & Hs1 & Ha1 & Hd1).
    rewrite bind_ret. destruct (IH s1 ms2 Hd1 Hw1 Hs1) as (s' & Hf & Hp & Hz & Ha).
    exists s'. split; [done|]. split; [done|]. split; [done|]. by rewrite Ha, Ha1, foldl_app.
Qed.

(** ** Properties *)

(** C12: however the bytes of a DNS stream are cut into pieces, polling after
    each piece decodes exactly the length-prefixed messages of the whole, each
    once and in order, and leaves what follows the last of them in the stream. *)
Theorem feed_dns (key : FlowKey) (pieces : list bytes) (ms : list bytes) (rest : bytes) (s : Poll) :
  isDns key = true → hasReadableData s.(stream) = true → readable s.(stream) →
  bytes_ok (peek s.(stream)) → Forall bytes_ok pieces → incomplete (peek s.(stream)) →
  peek s.(stream) ++ concat pieces = frames ms ++ rest → Forall frame_ok ms → incomplete rest →
  ∃ s', feed key s pieces = Ret s' ∧
        dns_after s (foldl dns_step (s.(applications), s.(dnsTable)) ms) rest s'.
Proof.
  intros Hk Hd Hr Hb Hps Hi Hc Hms Hrest. revert s ms Hd Hr Hb Hi Hc Hms.
  induction Hps as [|d ds Hbd _ IH]; intros s ms Hd Hr Hb Hi Hc Hms; cbn [feed concat] in *.
  - rewrite app_nil_r in Hc. rewrite Hc in Hi. apply incomplete_no_frames in Hi as ->; [|done].
    exists s. split; [done|]. by split.
  - destruct (append_peek s.(stream) d Hr) as (Ep & Hr' & Hd').
    destruct (frames_split (peek s.(stream) ++ d)) as (ms1 & r1 & E1 & Hms1 & Hi1);
      [by apply bytes_ok_app|].
    rewrite app_assoc, E1, <- app_assoc in Hc.
    destruct (frames_extend ms1 r1 _ ms rest Hms1 Hms Hrest Hc) as (ms2 & -> & E2).
    apply Forall_app in Hms as [_ Hms2].
    assert (Hb1 : bytes_ok r1).
    { assert (bytes_ok (frames ms1 ++ r1)) as Hbb by (rewrite <- E1; by apply bytes_ok_app).
      by apply bytes_ok_app in Hbb as [_ ?]. }
    destruct (poll_dns key (upd_stream s (append s.(stream) d)) ms1 r1) as (s1 & -> & [R1 S1 P1 A1 Q1]);
      cbn [stream upd_stream]; try done; [by rewrite Ep|].
    rewrite bind_ret. cbn [stream upd_stream applications dnsTable peer_state] in *.
    destruct (IH s1 ms2) as (s2 & -> & [R2 S2 P2 A2 Q2]); [congruence|done|by rewrite P1|by rewrite P1|by rewrite P1|done|].
    exists s2. split; [done|]. split; [done|congruence|done| |congruence].
    by rewrite A2, A1, foldl_app.
Qed.

(** C4: however the bytes of a well-formed HTTP stream are cut into pieces,
    polling after each piece decodes exactly its messages, each once and in
    order, and takes every byte of headers and bodies: bodies with a length and
    chunked ones with extensions and trailers.  Conditions: every message has a
    header of at most 32 KiB and at most 8 MiB in all (the decoder gives up on
    larger ones), its body ends with its framing and not with the connection, and
    no response to a HEAD request is among them. *)
Theorem feed_http (key : FlowKey) (pieces : list bytes) (ms : list Message) (s : Poll) :
  isDns key = false → isHttp key = true → hasReadableData s.(stream) = true →
  waiting s (concat pieces) ms → s.(applications).(http_chunk_prefix) = 0 →
  peek s.(stream) = [] →
  ∃ s', feed key s pieces = Ret s' ∧ peek s'.(stream) = [] ∧
        s'.(applications) = foldl http_step s.(applications) ms.
Proof.
  intros Hnd Hk Hd Hw Hz Hemp.
  assert (Hsh : short (peek s.(stream)) ms).
  { destruct ms as [|m ms]; [done|]. rewrite Hemp. cbn [short]. unfold wire. rewrite len_app, (@len_nil Z).
    pose proof (encode_nonempty m.1). pose proof (len_nonneg (body_wire m.2)). lia. }
  destruct (feed_waiting key pieces ms s Hnd Hk Hd Hw Hsh) as (s' & Hf & Hp & Hz' & Ha).
  exists s'. split; [done|]. split; [done|]. unfold strip in Ha.
  rewrite <- (set_prefix_id s'.(applications)), Hz', Ha, <- Hz. by rewrite set_prefix_id.
Qed.

(** C5: polling a stream ends and never reads outside the buffer, as long as no
    response to a HEAD request is expected and no line of an HTTP stream has a byte
    from 0x80 on in a status code or a Content-Length ([std::isdigit] is undefined
    for it); all other bytes are arbitrary.  The loop over the messages and the
    resumed parse of a chunked body stay inside what is there, the position only
    moves forward, and the state is fit for the next poll, with more bytes or
    without. *)
Theorem pollStream_safe (key : FlowKey) (s : Poll) (more : bytes) :
  poll_ok s → bytes_ok (peek s.(stream)) →
  (isDns key = true → s.(applications).(http_chunk_prefix) = 0) →
  (isHttp key = true → Http.plain (peek s.(stream))) →
  ∃ s', pollStream key s = Ret s' ∧ follows s s' ∧
        poll_ok s' ∧ poll_ok (upd_stream s' (append s'.(stream) more)) ∧
        (isDns key = true → s'.(applications).(http_chunk_prefix) = 0).
Proof.
  intros Hok Hb Hz Hp. destruct (wp_returns _ _ (wp_pollStream key s Hok Hb Hz Hp)) as (s' & -> & Hok' & Hf & Hz').
  exists s'. split; [done|]. split; [done|]. split; [done|]. split; [|done].
  destruct Hok' as [Hr Ha Hh]. destruct (append_peek s'.(stream) more Hr) as (Ep & Hr' & _).
  split; [done| |done]. cbn [stream upd_stream applications]. rewrite Ep. by apply app_ok_grow.
Qed.

(** *** A response to a HEAD request *)

Definition established (data : bytes) : TcpReassembler :=
  set_assembled (set_state initial Established) data 0.
Definition http_key : FlowKey := mkFlowKey true (replicate 16 1) (replicate 16 2) 80 4000 6.
Definition crlf : bytes := [13; 10].
Definition two_requests : bytes :=
  chars "GET / HTTP/1.1" ++ crlf ++ crlf ++ chars "HEAD / HTTP/1.1" ++ crlf ++ crlf.
Definition chunked_field : bytes := chars "Transfer-Encoding: chunked" ++ crlf ++ crlf.
Definition first_chunk : bytes := chars "1e ;y HTTP/1.1" ++ crlf ++ chunked_field ++ crlf.
Definition half_response : bytes := chars "HTTP/1.1 200 OK" ++ crlf ++ chunked_field ++ first_chunk.

(** The state of the client's direction once its two requests are decoded. *)
Definition client_state : outcome Applications :=
  s ← pollStream http_key (mkPoll (established two_requests) zeroApplications zeroApplications ∅);
  Ret s.(applications).
(** The poll after the response to the GET has come in up to a chunk. *)
Definition half_answered : outcome Poll :=
  client ← client_state;
  pollStream http_key (mkPoll (established half_response) zeroApplications client ∅).

(** In this case the second poll, one byte later, resumes at a prefix that lies
    outside the buffer. *)
Theorem head_pipelining_undefined :
  (∃ c, client_state = Ret c ∧ c.(pending_head_requests) = [false; true]) ∧
  ∃ s, half_answered = Ret s ∧ s.(applications).(http_chunk_prefix) = len first_chunk ∧
       s.(peer_state).(pending_head_requests) = [true] ∧
       pollStream http_key (upd_stream s (append s.(stream) [65])) = UB.
Proof.
  split; [eexists; split; vm_compute; reflexivity|].
  eexists. split; [vm_compute; reflexivity|]. split_and!; vm_compute; reflexivity.
Qed.




(** ** Witnesses *)

Definition dns_key : FlowKey := mkFlowKey true (replicate 16 1) (replicate 16 2) 53 4000 6.
Definition start (data : bytes) : Poll := mkPoll (established data) zeroApplications zeroApplications ∅.

Lemma start_ok data : poll_ok (start data).
Proof.
  pose proof (len_nonneg data). split; [split; cbn; lia| |constructor]. split; [done|by left].
Qed.

Lemma pollStream_safe_witness :
  ∃ s', pollStream http_key (start half_response) = Ret s' ∧ follows (start half_response) s' ∧
        poll_ok s' ∧ poll_ok (upd_stream s' (append s'.(stream) [65])) ∧
        (isDns http_key = true → s'.(applications).(http_chunk_prefix) = 0).
Proof.
  apply (pollStream_safe http_key (start half_response) [65]); [apply start_ok| |done|].
  - cbn. repeat constructor; done.
  - intros _. apply Http.plain_checked. vm_compute. reflexivity.
Defined.

Lemma feed_dns_witness :
  ∃ s', feed dns_key (start []) [[0; 3; 1; 2]; [3; 0]] = Ret s' ∧
        dns_after (start []) (foldl dns_step (zeroApplications, ∅) [[1; 2; 3]]) [0] s'.
Proof.
  apply (feed_dns dns_key [[0; 3; 1; 2]; [3; 0]] [[1; 2; 3]] [0]); try done.
  - constructor.
  - repeat constructor; done.
  - repeat constructor; done.
Defined.

Definition sample_response : Http.Header :=
  Http.mkHeader Http.Response [] [] (chars "HTTP/1.1") 200 (chars "OK")
    [Http.mkField (chars "Transfer-Encoding") (chars "chunked")] false 0 true.
Definition sample_messages : list Message :=
  [(Http.sample_request, Sized (chars "hello"));
   (sample_response, Chunked [([], chars "abc"); (chars ";x=1", chars "d")] [])].
Definition sample_pieces : list bytes :=
  [ztake 20 (wires sample_messages); ztake 95 (zdrop 20 (wires sample_messages));
   zdrop 115 (wires sample_messages)].

Lemma sample_response_ok : Http.message_ok sample_response.
Proof.
  split; [|split; [|by vm_compute]].
  - split; [by right|]. split_and!; try done; cbn; rewrite !not_elem_of_cons; split_and!; try done; apply not_elem_of_nil.
  - repeat constructor; try done; cbn; rewrite !not_elem_of_cons; split_and!; try done; apply not_elem_of_nil.
Qed.

Lemma sample_fits : Forall message_fits sample_messages.
Proof.
  constructor; [|constructor; [|constructor]].
  - split; [apply Http.sample_request_ok|by vm_compute|by vm_compute|by vm_compute].
  - split; [apply sample_response_ok| |by vm_compute|by vm_compute].
    split; [done|]. split; [done|]. split; [|constructor].
    constructor; [split; [by left|done]|]. constructor; [|constructor]. split; [|done].
    right. exists (chars "x=1"). split; [done|]. cbn. rewrite !not_elem_of_cons. split_and!; try done.
    apply not_elem_of_nil.
Qed.

Lemma feed_http_witness :
  ∃ s', feed http_key (start []) sample_pieces = Ret s' ∧ peek s'.(stream) = [] ∧
        s'.(applications) = foldl http_step zeroApplications sample_messages.
Proof.
  apply (feed_http http_key sample_pieces sample_messages (start [])); try done.
  split; [done|done|constructor|by vm_compute|by left|apply sample_fits].
Defined.

