(* ===== verification/Benchmark.v ===== *)
(** The timers: [include/net/analysis/benchmark.h],
    [src/net/analysis/benchmark.cpp].

    The steady clock is a parameter: [now n] is its [n]-th reading in
    nanoseconds, and the state counts the readings. *)
From S2P Require Import Prelude Text Double.
#[local] Open Scope Z_scope.

Inductive Phase :=
| Total
| FileHeader
| PacketHeader
| Decode
| DecodePacket
| FlowLookup
| TcpReassembly
| AppDecode
| Count.
#[export] Instance Phase_eq_dec : EqDecision Phase.
Proof. solve_decision. Defined.

(** [static_cast<size_t>(phase)]. *)
Definition index (phase : Phase) : nat :=
  match phase with
  | Total => 0
  | FileHeader => 1
  | PacketHeader => 2
  | Decode => 3
  | DecodePacket => 4
  | FlowLookup => 5
  | TcpReassembly => 6
  | AppDecode => 7
  | Count => 8
  end.
Definition PHASE_COUNT : nat := index Count.

Definition toString (phase : Phase) : bytes :=
  chars match phase with
  | Total => "total"
  | FileHeader => "file header"
  | PacketHeader => "packet header"
  | Decode => "decode"
  | DecodePacket => "decode packet"
  | FlowLookup => "flow lookup"
  | TcpReassembly => "tcp reassembly"
  | AppDecode => "app decode"
  | Count => "unknown"
  end.

Definition isPerPacket (phase : Phase) : bool :=
  negb (bool_decide (phase = Total)) && negb (bool_decide (phase = FileHeader)).

Record PhaseStats := mkPhaseStats { calls_ : Z; elapsed_ns : Z }.
Record PhaseState := mkPhaseState { stats : PhaseStats; started : Z; running : bool }.

(** [readings] is how often the clock has been read.  No caller passes
    [Phase::Count], which would index [phases_] out of range. *)
Record Benchmark := mkBenchmark {
  phases_ : list PhaseState;
  bytes_ : Z;
  detailed_ : bool;
  readings : nat;
}.
Definition zeroPhase : PhaseState := mkPhaseState (mkPhaseStats 0 0) 0 false.
Definition zeroBenchmark : Benchmark := mkBenchmark (replicate PHASE_COUNT zeroPhase) 0 false 0.

Definition setDetailed (b : Benchmark) (on : bool) : Benchmark :=
  mkBenchmark b.(phases_) b.(bytes_) on b.(readings).
Definition setBytes (b : Benchmark) (n : Z) : Benchmark :=
  mkBenchmark b.(phases_) n b.(detailed_) b.(readings).

Definition phaseState (b : Benchmark) (phase : Phase) : PhaseState :=
  default zeroPhase (b.(phases_) !! index phase).
Definition phase (b : Benchmark) (p : Phase) : PhaseStats := (phaseState b p).(stats).
Definition elapsedNs (b : Benchmark) (p : Phase) : Z := (phase b p).(elapsed_ns).
Definition calls (b : Benchmark) (p : Phase) : Z := (phase b p).(calls_).
Definition packets (b : Benchmark) : Z := calls b PacketHeader.

(** Phases that are not measured: the early return of [start] and [stop]. *)
Definition unmeasured (b : Benchmark) (p : Phase) : bool := negb b.(detailed_) && isPerPacket p.

Definition set_phase (b : Benchmark) (p : Phase) (s : PhaseState) : Benchmark :=
  mkBenchmark (<[index p := s]> b.(phases_)) b.(bytes_) b.(detailed_) (S b.(readings)).

Section clock.
Context (now : nat → Z).

Definition start (b : Benchmark) (p : Phase) : Benchmark :=
  if unmeasured b p then b else
  set_phase b p (mkPhaseState (phaseState b p).(stats) (now b.(readings)) true).

Definition stop (b : Benchmark) (p : Phase) : Benchmark :=
  if unmeasured b p then b else
  let t := now b.(readings) in
  let s := phaseState b p in
  if negb s.(running) then set_phase b p s else
  set_phase b p
    (mkPhaseState (mkPhaseStats (u64 (s.(stats).(calls_) + 1))
                                (u64 (s.(stats).(elapsed_ns) + u64 (t - s.(started)))))
                  s.(started) false).
End clock.

(** ** Printing *)

Definition all_phases : list Phase :=
  [Total; FileHeader; PacketHeader; Decode; DecodePacket; FlowLookup; TcpReassembly; AppDecode].

Fixpoint jsonPhases (b : Benchmark) (l : list Phase) (i : bool) : bytes :=
  match l with
  | [] => []
  | p :: l =>
      when i (chars "," ++ [newline]) ++
      chars "    {" ++ [newline] ++
      jstr "      `phase`: `" ++ toString p ++ jstr "`," ++ [newline] ++
      jstr "      `calls`: " ++ dec (phase b p).(calls_) ++ chars "," ++ [newline] ++
      jstr "      `elapsed_ns`: " ++ dec (phase b p).(elapsed_ns) ++ [newline] ++
      chars "    }" ++ jsonPhases b l true
  end.
Definition toJson (b : Benchmark) : bytes :=
  jstr "`benchmark`: {" ++ [newline] ++
  jstr "  `bytes`: " ++ dec b.(bytes_) ++ chars "," ++ [newline] ++
  jstr "  `phases`: [" ++ [newline] ++
  jsonPhases b all_phases false ++
  [newline] ++ chars "  ]" ++ [newline] ++ chars "}".

(** [Benchmark::toString(Phase)] is [toString]; the whole report is [report]. *)
Definition formatDuration (ns : Z) : bytes := printDuration ns.

(** [std::left << std::setw(w) << s]. *)
Definition left_setw (w : Z) (s : bytes) : bytes := s ++ replicate (Z.to_nat (w - len s)) 32.

Definition VALUE_COLUMN : Z := 24.

Definition printPhase (b : Benchmark) (p : Phase) (indent : Z) : bytes :=
  let stats := phase b p in
  replicate (Z.to_nat indent) 32 ++ left_setw (VALUE_COLUMN - indent) (toString p) ++
  printDuration stats.(elapsed_ns) ++
  chars "  (" ++ dec stats.(calls_) ++ chars (if stats.(calls_) =? 1 then " call" else " calls") ++
  when (negb (stats.(calls_) =? 0))
       (chars ", " ++ printDuration (stats.(elapsed_ns) / stats.(calls_)) ++ chars " avg") ++
  chars ")" ++ [newline].

Definition report (b : Benchmark) : bytes :=
  let seconds := div (of_uint (elapsedNs b Total)) (of_uint 1000000000) in
  let some := lt (of_uint 0) seconds in
  chars "benchmark {" ++ [newline] ++
  chars "  " ++ left_setw (VALUE_COLUMN - 2) (chars "total") ++ printDuration (elapsedNs b Total) ++ [newline] ++
  ([FileHeader; PacketHeader] ≫= λ p, printPhase b p 4) ++
  printPhase b Decode 4 ++
  ([DecodePacket; FlowLookup; TcpReassembly; AppDecode] ≫= λ p, printPhase b p 6) ++
  chars "  " ++ left_setw (VALUE_COLUMN - 2) (chars "throughput") ++ printBytes b.(bytes_) ++ chars " in " ++
  printDuration (elapsedNs b Total) ++ chars "  (" ++
  printRate (if some then div (mul (of_uint b.(bytes_)) (of_uint 8)) seconds else of_uint 0) ++
  chars ", " ++ dec (if some then to_uint (div (of_uint (packets b)) seconds) else 0) ++
  chars " pkt/s)" ++ [newline] ++ chars "}".

(** ** Lemmas *)

Lemma index_inj p q : index p = index q → p = q.
Proof. by destruct p, q. Qed.

Definition benchmark_ok (b : Benchmark) : Prop := length b.(phases_) = PHASE_COUNT.

Lemma set_phase_same b p s : benchmark_ok b → p ≠ Count → phaseState (set_phase b p s) p = s.
Proof.
  intros Hb Hp. unfold phaseState, set_phase. cbn [phases_]. rewrite list_lookup_insert_eq; [done|].
  rewrite Hb. by destruct p; cbn; try lia.
Qed.
Lemma set_phase_other b p q s : p ≠ q → phaseState (set_phase b p s) q = phaseState b q.
Proof.
  intros Hp. unfold phaseState, set_phase. cbn [phases_]. rewrite list_lookup_insert_ne; [done|].
  by intros ?%index_inj.
Qed.
Lemma set_phase_ok b p s : benchmark_ok b → benchmark_ok (set_phase b p s).
Proof. unfold benchmark_ok, set_phase. cbn [phases_]. by rewrite length_insert. Qed.

Section timers.
Context (now : nat → Z).
Context (monotone : ∀ n, 0 ≤ now n ≤ now (S n)).

(** A use of the timers. *)
Inductive Use := Start (p : Phase) | Stop (p : Phase).
Definition use (b : Benchmark) (u : Use) : Benchmark :=
  match u with Start p => start now b p | Stop p => stop now b p end.
Definition uses (b : Benchmark) (l : list Use) : Benchmark := foldl use b l.
Definition about (u : Use) : Phase := match u with Start p | Stop p => p end.

Lemma now_mono m n : (m ≤ n)%nat → now m ≤ now n.
Proof. induction 1 as [|n _ IH]; [lia|]. pose proof (monotone n). lia. Qed.

Lemma use_frame b u :
  benchmark_ok b →
  benchmark_ok (use b u) ∧ (use b u).(detailed_) = b.(detailed_) ∧
  (b.(readings) ≤ (use b u).(readings) ≤ S b.(readings))%nat ∧
  ∀ q, q ≠ about u → phaseState (use b u) q = phaseState b q.
Proof.
  intros Hb. destruct u as [p|p]; cbn [use about]; unfold start, stop; destruct (unmeasured b p);
    cbn zeta; [split_and!; try done; lia| |split_and!; try done; lia|destruct (negb _)];
    (split; [by apply set_phase_ok|]); (split; [done|]); (split; [cbn; lia|]); intros q Hq;
    by apply set_phase_other.
Qed.

(** The time measured for [p] so far, the running measurement included. *)
Definition spent (b : Benchmark) (p : Phase) : Z :=
  elapsedNs b p + (if (phaseState b p).(running) then now b.(readings) - (phaseState b p).(started) else 0).

Record timed (b : Benchmark) (p : Phase) (since used : Z) : Prop := {
  ti_ok : benchmark_ok b;
  ti_range : 0 ≤ elapsedNs b p ≤ spent b p;
  ti_started : (phaseState b p).(running) = true → 0 ≤ (phaseState b p).(started) ≤ now b.(readings);
  ti_bound : spent b p ≤ used + (now b.(readings) - since);
}.

Lemma timed_use b p since used u :
  timed b p since used → p ≠ Count → 0 ≤ since → 0 ≤ used → used + now b.(readings) < 2 ^ 64 →
  timed (use b u) p since used.
Proof.
  intros [Hb Hr Hs Hbd] Hp Hsi Hu Hmax. destruct (use_frame b u Hb) as (Hb' & _ & Hrd & Hoth).
  assert (Hnow : now (readings b) ≤ now (readings (use b u))) by (apply now_mono; lia).
  destruct (decide (p = about u)) as [->|Hne].
  - destruct u as [p|p]; cbn [about use] in *; unfold start, stop in *; destruct (unmeasured b p); try done.
    + unfold spent, elapsedNs, phase in *.
      split; [done|..]; unfold spent, elapsedNs, phase; rewrite set_phase_same by done; cbn in *.
      * destruct (running (phaseState b p)); lia.
      * pose proof (monotone (readings b)). lia.
      * destruct (running (phaseState b p)); lia.
    + cbn zeta in *. destruct (running (phaseState b p)) eqn:E; cbn [negb] in *.
      * specialize (Hs eq_refl). unfold spent, elapsedNs, phase in *. rewrite E in Hbd, Hr.
        assert (0 ≤ now (readings b) - started (phaseState b p)) by lia.
        assert (Hsm : u64 (elapsed_ns (stats (phaseState b p)) + u64 (now (readings b) - started (phaseState b p))) =
                      elapsed_ns (stats (phaseState b p)) + (now (readings b) - started (phaseState b p))).
        { rewrite (u64_small (_ - _)) by lia. apply u64_small. lia. }
        split; [done|..]; unfold spent, elapsedNs, phase; rewrite set_phase_same by done; cbn [stats elapsed_ns running started];
          rewrite ?Hsm; cbn in *; lia.
      * unfold spent, elapsedNs, phase in *. rewrite E in Hbd, Hr.
        split; [done|..]; unfold spent, elapsedNs, phase; rewrite set_phase_same by done; rewrite ?E; cbn in *; lia.
  - specialize (Hoth p Hne). unfold spent, elapsedNs, phase in *.
    split; [done|..]; unfold spent, elapsedNs, phase; rewrite Hoth.
    + destruct (running (phaseState b p)) eqn:E; lia.
    + intros E. specialize (Hs E). lia.
    + destruct (running (phaseState b p)) eqn:E; lia.
Qed.

Lemma uses_app b l k : uses b (l ++ k) = uses (uses b l) k.
Proof. apply foldl_app. Qed.

Lemma uses_frame b l p :
  benchmark_ok b → Forall (λ u, about u ≠ p) l →
  benchmark_ok (uses b l) ∧ (uses b l).(detailed_) = b.(detailed_) ∧
  (b.(readings) ≤ (uses b l).(readings))%nat ∧ phaseState (uses b l) p = phaseState b p.
Proof.
  intros Hb Hl. revert b Hb. induction Hl as [|u l Hu _ IH]; intros b Hb; [done|]. cbn [uses foldl].
  destruct (use_frame b u Hb) as (Hb1 & Hd1 & Hr1 & Ho1).
  destruct (IH _ Hb1) as (Hb2 & Hd2 & Hr2 & Ho2). fold (uses (use b u) l).
  split_and!; [done|congruence|lia|]. rewrite Ho2. by apply Ho1.
Qed.

Lemma timed_uses b q since used l :
  timed b q since used → q ≠ Count → 0 ≤ since → 0 ≤ used →
  used + now (uses b l).(readings) < 2 ^ 64 → timed (uses b l) q since used.
Proof.
  intros Ht Hq Hs Hu. induction l as [|u l IH] using rev_ind; [done|]. rewrite uses_app. cbn [uses foldl].
  fold (uses b l). intros Hmax.
  assert (Hb : benchmark_ok (uses b l)).
  { clear IH Hmax. destruct Ht as [Hb _ _ _]. revert b Hb. induction l as [|v l IH]; intros b Hb; [done|].
    cbn [uses foldl]. apply IH. by apply use_frame. }
  destruct (use_frame (uses b l) u Hb) as (_ & _ & Hr & _).
  pose proof (now_mono (uses b l).(readings) (use (uses b l) u).(readings) ltac:(lia)).
  apply timed_use; [apply IH; lia|done..|lia].
Qed.

(** ** Properties *)

(** C40: a measured phase counts one call and exactly the time between its start
    and its stop, whatever other phases are measured meanwhile, and no phase
    measured inside it gains more than it does. *)
Theorem nested_elapsed (b : Benchmark) (p q : Phase) (l : list Use) :
  let b1 := start now b p in
  let b2 := uses b1 l in
  let b' := stop now b2 p in
  benchmark_ok b → p ≠ Count → q ≠ Count → q ≠ p → unmeasured b p = false →
  Forall (λ u, about u ≠ p) l → (phaseState b q).(running) = false →
  0 ≤ elapsedNs b p → 0 ≤ elapsedNs b q → 0 ≤ calls b p < 2 ^ 64 - 1 →
  elapsedNs b p + now b2.(readings) < 2 ^ 64 → elapsedNs b q + now b2.(readings) < 2 ^ 64 →
  calls b' p = calls b p + 1 ∧
  elapsedNs b' p = elapsedNs b p + (now b2.(readings) - now b.(readings)) ∧
  elapsedNs b' q - elapsedNs b q ≤ elapsedNs b' p - elapsedNs b p.
Proof.
  intros b1 b2 b' Hb Hp Hq Hne Hm Hl Hrun Hep Heq Hc Hmp Hmq.
  assert (Hb1 : benchmark_ok b1) by (apply (use_frame b (Start p) Hb)).
  assert (Hs1 : phaseState b1 p = mkPhaseState (phaseState b p).(stats) (now b.(readings)) true).
  { unfold b1, start. rewrite Hm. by apply set_phase_same. }
  assert (Hr1 : b1.(readings) = S b.(readings)) by (unfold b1, start; by rewrite Hm).
  assert (Hd1 : b1.(detailed_) = b.(detailed_)) by (unfold b1, start; by rewrite Hm).
  destruct (uses_frame b1 l p Hb1 Hl) as (Hb2 & Hd2 & Hr2 & Hs2). fold b2 in Hb2, Hd2, Hr2, Hs2.
  assert (Hm2 : unmeasured b2 p = false) by (unfold unmeasured in *; congruence).
  assert (Hnow : 0 ≤ now b.(readings) ≤ now b2.(readings)).
  { pose proof (monotone (readings b)). pose proof (now_mono b1.(readings) b2.(readings) Hr2) as Hx. rewrite Hr1 in Hx. lia. }
  assert (Hs' : phaseState b' p = mkPhaseState
      (mkPhaseStats (u64 (calls b p + 1)) (u64 (elapsedNs b p + u64 (now b2.(readings) - now b.(readings)))))
      (now b.(readings)) false).
  { unfold b', stop. rewrite Hm2. cbn zeta. rewrite Hs2, Hs1. cbn [running negb started stats]. by apply set_phase_same. }
  rewrite (u64_small (now _ - _)), !u64_small in Hs' by lia.
  assert (Hq2 : elapsedNs b' q = elapsedNs b2 q).
  { unfold b', stop. rewrite Hm2. cbn zeta. unfold elapsedNs, phase. destruct (negb _); by rewrite set_phase_other. }
  assert (Hq1 : phaseState b1 q = phaseState b q) by (by apply (use_frame b (Start p) Hb)).
  assert (Ht1 : timed b1 q (now b.(readings)) (elapsedNs b q)).
  { pose proof (monotone (readings b)).
    split; [done|..]; unfold spent, elapsedNs, phase in *; rewrite Hq1, Hrun, ?Hr1; [lia|done|lia]. }
  assert (Ht2 : timed b2 q (now b.(readings)) (elapsedNs b q)).
  { apply timed_uses; try done; lia. }
  destruct Ht2 as [_ H2 _ H3]. unfold calls, elapsedNs, phase in *. rewrite Hs'. cbn [stats calls_ elapsed_ns].
  split; [done|]. split; [done|]. rewrite Hq2. lia.
Qed.
End timers.

(** ** Witnesses *)

Lemma nested_elapsed_witness :
  let now := λ n, 10 * Z.of_nat n in
  let b1 := start now zeroBenchmark Total in
  let b2 := uses now b1 [Start FileHeader; Stop FileHeader] in
  let b' := stop now b2 Total in
  calls b' Total = 0 + 1 ∧ elapsedNs b' Total = 0 + (30 - 0) ∧
  elapsedNs b' FileHeader - 0 ≤ elapsedNs b' Total - 0.
Proof.
  apply (nested_elapsed (λ n, 10 * Z.of_nat n) ltac:(intros; cbn beta; lia) zeroBenchmark Total FileHeader
           [Start FileHeader; Stop FileHeader]); try done.
  repeat constructor; done.
Defined.
