(* ===== verification/Decoder.v ===== *)
(** The decoder of a capture's packets: [include/net/decode/decoder.h],
    [src/net/decode/decoder.cpp].

    A [Flow*] is the key of its node in the flow table; the table of names,
    which the decoder owns and the application decoder refers to, is in the
    state of the latter.  [StatsEngine] only keeps references. *)
From S2P Require Import Prelude ParseError Packet FlowKey FlowTable.
From S2P Require Pcap Ethernet Tcp TcpReassembler PacketDecoder AppDecoder Benchmark.
From stdpp Require Import gmap.
#[local] Open Scope Z_scope.

Record Config := mkConfig {
  print_limit : Z;
  verify_checksum : bool;
  flow_active_timeout_us : Z;
  flow_idle_timeout_us : Z;
  filter : FlowKey;
}.
Definition defaultConfig : Config := mkConfig 0 true 0 DEFAULT_IDLE_TIMEOUT_US zeroKey.

Record Decoder := mkDecoder {
  benchmark : Benchmark.Benchmark;
  flowTable : FlowTable;
  appDecoder : AppDecoder.AppDecoder;
  config : Config;
  decoded : Z;
}.
Definition newDecoder (benchmark : Benchmark.Benchmark) (config : Config) : Decoder :=
  mkDecoder benchmark (newTable config.(flow_active_timeout_us) config.(flow_idle_timeout_us))
            AppDecoder.zeroDecoder config 0.

Definition set_benchmark (d : Decoder) (b : Benchmark.Benchmark) : Decoder :=
  mkDecoder b d.(flowTable) d.(appDecoder) d.(config) d.(decoded).
Definition set_flowTable (d : Decoder) (t : FlowTable) : Decoder :=
  mkDecoder d.(benchmark) t d.(appDecoder) d.(config) d.(decoded).
Definition set_appDecoder (d : Decoder) (a : AppDecoder.AppDecoder) : Decoder :=
  mkDecoder d.(benchmark) d.(flowTable) a d.(config) d.(decoded).
Definition set_decoded (d : Decoder) (n : Z) : Decoder :=
  mkDecoder d.(benchmark) d.(flowTable) d.(appDecoder) d.(config) n.
Definition set_pkt (c : Capture) (p : Packet) : Capture := mkCapture c.(ts_us) c.(packetHeader) p.

Section decoder.
Context (now : nat → Z).

Definition started (d : Decoder) (p : Benchmark.Phase) : Decoder :=
  set_benchmark d (Benchmark.start now d.(benchmark) p).
Definition stopped (d : Decoder) (p : Benchmark.Phase) : Decoder :=
  set_benchmark d (Benchmark.stop now d.(benchmark) p).

(** The condition of the filter's early return. *)
Definition filtered (filter : FlowKey) (p : Packet) : bool :=
  if isNonZero filter then
    let '(err, key) := keyFromPacket p zeroKey in
    failed err || negb (FlowKey.matches filter key)
  else false.

(** The two directions of a TCP flow see the segment. *)
Definition reassemble (f : Flow) (h : Tcp.Header) (payload : bytes) : outcome Flow :=
  let self := if f.(is_reverse) then f.(rev_tcp) else f.(fwd_tcp) in
  let other := if f.(is_reverse) then f.(fwd_tcp) else f.(rev_tcp) in
  self ← TcpReassembler.onSent self h payload;
  let other := TcpReassembler.onReceived other h in
  Ret (if f.(is_reverse) then set_tcp f other self else set_tcp f self other).

(** What [decode] does with the flow it was given. *)
Definition decodeFlow (d : Decoder) (flow_key : FlowKey) (f : Flow) (flow_is_new : bool) (p : Packet)
    : outcome (Decoder * Flow) :=
  '(d, f) ←
    match tcp p with
    | Some h =>
        let d := started d Benchmark.TcpReassembly in
        f ← reassemble f h p.(payload);
        Ret (stopped d Benchmark.TcpReassembly, f)
    | None => Ret (d, f)
    end;
  let d := started d Benchmark.AppDecode in
  '(_, (a, f)) ←
    (if isTcp p then AppDecoder.pollFlow d.(appDecoder) flow_key f flow_is_new
     else if isUdp p then AppDecoder.pollDatagram d.(appDecoder) flow_key f p.(payload) flow_is_new
     else Ret (NoError, (d.(appDecoder), f)));
  Ret (stopped (set_appDecoder d a) Benchmark.AppDecode, f).

Definition decode (d : Decoder) (span : bytes) (capture : Capture)
    : outcome (ParseError * (Decoder * (bytes * Capture))) :=
  let capture := set_pkt capture (reset capture.(pkt)) in
  let d := started d Benchmark.DecodePacket in
  '(decode_err, (span, p)) ← PacketDecoder.decodePacket span capture.(pkt) d.(config).(verify_checksum);
  let capture := set_pkt capture p in
  let d := stopped d Benchmark.DecodePacket in
  if failed decode_err then Ret (decode_err, (d, (span, capture))) else
  if filtered d.(config).(filter) capture.(pkt) then Ret (Filtered, (d, (span, capture))) else
  let d := started d Benchmark.FlowLookup in
  let '(flow_err, (t, out)) := addPacket d.(flowTable) capture (mkAdded zeroKey false None) in
  let d := stopped (set_flowTable d t) Benchmark.FlowLookup in
  if failed flow_err then Ret (flow_err, (d, (span, capture))) else
  d ←
    match out.(out_flow) with
    | None => Ret d
    | Some k =>
        match d.(flowTable).(flows) !! k with
        | None => UB
        | Some f =>
            '(d, f) ← decodeFlow d out.(out_key) f out.(out_is_new) capture.(pkt);
            Ret (set_flowTable d (set_flows d.(flowTable) (<[k := f]> d.(flowTable).(flows))))
        end
    end;
  Ret (NoError, (set_decoded d (u64 (d.(decoded) + 1)), (span, capture))).

(** [finish] walks the flow table's hash map. *)
Definition finish (iterate : gmap FlowKey Flow → list (FlowKey * Flow)) (d : Decoder) : Decoder :=
  let d := set_decoded d 0 in
  let d := set_flowTable d (flush iterate d.(flowTable)) in
  set_appDecoder d (AppDecoder.prune d.(appDecoder) d.(flowTable)).

(** ** Lemmas *)

(** The pointers of the live flows lead to nodes of their own keys. *)
Definition pointer_ok (a : AppDecoder.AppDecoder) (k : FlowKey) (f : Flow) : Prop :=
  match f.(app_state) with None => True | Some n => n = k ∧ is_Some (a.(AppDecoder.flows_) !! k) end.
Definition pointers_ok (d : Decoder) : Prop :=
  ∀ k f, d.(flowTable).(flows) !! k = Some f → pointer_ok d.(appDecoder) k f.

(** [a'] has every node of [a]. *)
Definition grows (a a' : AppDecoder.AppDecoder) : Prop :=
  ∀ k, is_Some (a.(AppDecoder.flows_) !! k) → is_Some (a'.(AppDecoder.flows_) !! k).

Lemma pointer_ok_grows a a' k f : grows a a' → pointer_ok a k f → pointer_ok a' k f.
Proof. unfold grows, pointer_ok. destruct (app_state f); naive_solver. Qed.

#[local] Instance grows_preorder : PreOrder grows.
Proof. split; unfold grows; [by intros a k|]. intros a b c H1 H2 k Hk. auto. Qed.

Lemma grows_insert a t k st t' :
  grows (AppDecoder.mkAppDecoder a t) (AppDecoder.mkAppDecoder (<[k := st]> a) t').
Proof.
  intros j Hj. cbn in *. destruct (decide (j = k)) as [->|Hne];
    [by rewrite lookup_insert_eq|by rewrite lookup_insert_ne].
Qed.

(** [appStateFor] with its pointer in order: the node of the flow's own key,
    reset for a new flow. *)
Definition node_state (a : AppDecoder.AppDecoder) (k : FlowKey) (new : bool) : AppDecoder.FlowApplications :=
  if new then AppDecoder.zeroFlowApplications
  else default AppDecoder.zeroFlowApplications (a.(AppDecoder.flows_) !! k).
Definition set_node (a : AppDecoder.AppDecoder) (k : FlowKey) (st : AppDecoder.FlowApplications)
    : AppDecoder.AppDecoder :=
  AppDecoder.mkAppDecoder (<[k := st]> a.(AppDecoder.flows_)) a.(AppDecoder.dnsTable_).

Lemma appStateFor_eq a k f new :
  pointer_ok a k f →
  AppDecoder.appStateFor a k f new =
  Ret (k, node_state a k new, set_node a k (node_state a k new), set_app_state f (Some k)).
Proof.
  destruct a as [m t]. unfold AppDecoder.appStateFor, pointer_ok, set_node, node_state.
  destruct (app_state f) as [n|] eqn:E.
  - intros [-> [st Hst]]. assert (f = set_app_state f (Some k)) as Hf by (rewrite <- E; by destruct f).
    rewrite E. cbn in *. by rewrite Hst, <- Hf.
  - intros _. cbn. by rewrite lookup_insert_eq, insert_insert_eq.
Qed.

Lemma appStateFor_ok a k f new :
  pointer_ok a k f →
  ∃ st a', AppDecoder.appStateFor a k f new = Ret (k, st, a', set_app_state f (Some k)) ∧
    grows a a' ∧ is_Some (a'.(AppDecoder.flows_) !! k) ∧ a'.(AppDecoder.dnsTable_) = a.(AppDecoder.dnsTable_).
Proof.
  intros Hp. eexists _, _. split; [by apply appStateFor_eq|]. destruct a as [m t].
  split; [apply grows_insert|]. cbn. by rewrite lookup_insert_eq.
Qed.

Lemma pollFlow_pointer a k f new e a' f' :
  pointer_ok a k f → AppDecoder.pollFlow a k f new = Ret (e, (a', f')) →
  pointer_ok a' k f' ∧ grows a a'.
Proof.
  intros Hp. unfold AppDecoder.pollFlow. destruct (_ && _); [by intros [= _ <- <-]|].
  destruct (appStateFor_ok a k f new Hp) as (st & [m1 t1] & -> & Hg & Hk & _). rewrite bind_ret. cbn iota beta.
  destruct (is_reverse _); intros (s & _ & [= _ <- <-])%bind_Ret_inv;
    (split; [split; [done|]; cbn; by rewrite lookup_insert_eq|etrans; [exact Hg|apply grows_insert]]).
Qed.

Lemma pollDatagram_pointer a k f payload new e a' f' :
  pointer_ok a k f → AppDecoder.pollDatagram a k f payload new = Ret (e, (a', f')) →
  pointer_ok a' k f' ∧ grows a a'.
Proof.
  intros Hp. unfold AppDecoder.pollDatagram. split_if; [by intros [= _ <- <-]|]. split_if; [by intros [= _ <- <-]|].
  destruct (appStateFor_ok a k f new Hp) as (st & [m1 t1] & -> & Hg & Hk & _). rewrite bind_ret. cbn iota beta zeta.
  intros ([err [rest h]] & _ & H2)%bind_Ret_inv. destruct (failed err); injection H2 as _ <- <-;
    (split; [split; [done|]; cbn; by rewrite lookup_insert_eq|etrans; [exact Hg|apply grows_insert]]).
Qed.

Lemma wp_pollDatagram a k f payload new :
  pointer_ok a k f → bytes_ok payload → wp (AppDecoder.pollDatagram a k f payload new) (λ _, True).
Proof.
  intros Hp Hb. unfold AppDecoder.pollDatagram. split_if; [by apply wp_ret|]. split_if; [by apply wp_ret|].
  destruct (appStateFor_ok a k f new Hp) as (st & [m1 t1] & -> & _). rewrite bind_ret. cbn iota beta zeta.
  apply wp_bind. eapply wp_mono; [by apply Dns.wp_parse_dns|]. intros [err [rest h]] _.
  split_if; by apply wp_ret.
Qed.

Lemma reassemble_pointer f h p f' : reassemble f h p = Ret f' → f'.(app_state) = f.(app_state).
Proof. unfold reassemble. intros (r & _ & H)%bind_Ret_inv. by destruct (is_reverse f); injection H as <-. Qed.

Lemma decodeFlow_frame d k f new p d' f' :
  decodeFlow d k f new p = Ret (d', f') →
  d'.(flowTable) = d.(flowTable) ∧ d'.(decoded) = d.(decoded) ∧ d'.(config) = d.(config).
Proof.
  unfold decodeFlow. intros ([d1 f1] & H1 & H2)%bind_Ret_inv.
  assert (d1.(flowTable) = d.(flowTable) ∧ d1.(decoded) = d.(decoded) ∧ d1.(config) = d.(config)) as (E1 & E2 & E3).
  { destruct (tcp p) as [h|]; [|by injection H1 as <- <-]. by apply bind_Ret_inv in H1 as (f2 & _ & [= <- <-]). }
  apply bind_Ret_inv in H2 as ([e [a f2]] & _ & [= <- <-]). by split_and!.
Qed.

Lemma decodeFlow_pointer d k f new p d' f' :
  pointer_ok d.(appDecoder) k f → decodeFlow d k f new p = Ret (d', f') →
  pointer_ok d'.(appDecoder) k f' ∧ grows d.(appDecoder) d'.(appDecoder).
Proof.
  intros Hp. unfold decodeFlow. intros ([d1 f1] & H1 & H2)%bind_Ret_inv.
  assert (d1.(appDecoder) = d.(appDecoder) ∧ f1.(app_state) = f.(app_state)) as [Ea Ef].
  { destruct (tcp p) as [h|]; [|by injection H1 as <- <-].
    apply bind_Ret_inv in H1 as (f2 & Hr%reassemble_pointer & [= <- <-]). done. }
  assert (Hp1 : pointer_ok d1.(appDecoder) k f1) by (unfold pointer_ok in *; by rewrite Ef, Ea).
  cbn zeta in H2. apply bind_Ret_inv in H2 as ([e [a f2]] & H2 & [= <- <-]).
  assert (pointer_ok a k f2 ∧ grows d1.(appDecoder) a) as [Hp2 Hg].
  { destruct (isTcp p); [by eapply pollFlow_pointer|].
    destruct (isUdp p); [by eapply pollDatagram_pointer|by injection H2 as _ <- <-]. }
  cbn. by rewrite <- Ea.
Qed.

(** What [addPacket] leaves: the flow it hands out is there, under the key it
    hands out, and no flow has a pointer it did not have. *)
Lemma addPacket_pointers t c o e t' out :
  addPacket t c o = (e, (t', out)) →
  (∀ k f, t'.(flows) !! k = Some f →
     f.(app_state) = None ∨ ∃ f0, t.(flows) !! k = Some f0 ∧ f.(app_state) = f0.(app_state)) ∧
  (∀ k, out.(out_flow) = Some k → out.(out_key) = k ∧ is_Some (t'.(flows) !! k)) ∧
  (e ≠ NoError → t' = t).
Proof.
  assert (Hsame : ∀ k f, t.(flows) !! k = Some f →
     f.(app_state) = None ∨ ∃ f0, t.(flows) !! k = Some f0 ∧ f.(app_state) = f0.(app_state)) by eauto.
  destruct (isArp c.(pkt)) eqn:Ha.
  { unfold addPacket. rewrite Ha. intros [= <- <- <-]. by split_and!. }
  destruct (keyFromPacket c.(pkt) zeroKey) as [err key] eqn:Hk.
  destruct (failed err) eqn:Hf.
  { unfold addPacket. rewrite Ha, Hk, Hf. intros [= <- <- <-]. by split_and!. }
  apply failed_false in Hf as ->. rewrite (addPacket_eq t c o key Ha Hk). cbn zeta. intros [= <- <- <-].
  set (k := (normalize key).2). set (t1 := retire _ k _).
  assert (Ht1 : ∀ j f, t1.(flows) !! j = Some f → t.(flows) !! j = Some f).
  { unfold t1, retire. destruct (flows (count_total t _) !! k); [|done]. destruct (isExpired _ _ _); [|done].
    cbn. by intros j f' [_ ?]%lookup_delete_Some. }
  cbn [set_flows flows out_flow out_key]. split_and!; [| |done].
  - intros j f. destruct (decide (j = k)) as [->|Hne].
    + rewrite lookup_insert_eq. intros [= <-]. cbn [touch app_state].
      destruct (t1.(flows) !! k) as [f0|] eqn:E0; cbn [default].
      * right. exists f0. split; [by apply Ht1|done].
      * left. unfold start_flow. by destruct (negb _).
    + rewrite lookup_insert_ne by done. intros Hj%Ht1. by apply Hsame.
  - intros j [= <-]. by rewrite lookup_insert_eq.
Qed.

(** One equation for the result of [decode]. *)
Lemma decode_cases d span c err d' span' c' :
  decode d span c = Ret (err, (d', (span', c'))) →
  d'.(config) = d.(config) ∧
  match err with
  | NoError => ∃ t o d2, addPacket d.(flowTable) c' (mkAdded zeroKey false None) = (NoError, (t, o)) ∧
      filtered d.(config).(filter) c'.(pkt) = false ∧
      d2.(flowTable) = t ∧ d2.(appDecoder) = d.(appDecoder) ∧
      d'.(decoded) = u64 (d.(decoded) + 1) ∧
      match o.(out_flow) with
      | None => d'.(flowTable) = t ∧ d'.(appDecoder) = d.(appDecoder)
      | Some k => ∃ f d3 f', t.(flows) !! k = Some f ∧
          decodeFlow d2 o.(out_key) f o.(out_is_new) c'.(pkt) = Ret (d3, f') ∧
          d'.(appDecoder) = d3.(appDecoder) ∧
          d'.(flowTable) = set_flows d3.(flowTable) (<[k := f']> d3.(flowTable).(flows))
      end
  | _ => d'.(flowTable) = d.(flowTable) ∧ d'.(appDecoder) = d.(appDecoder) ∧ d'.(decoded) = d.(decoded)
  end.
Proof.
  unfold decode. intros ([e1 [s1 p1]] & _ & H)%bind_Ret_inv. cbn zeta in H.
  destruct (failed e1) eqn:F1.
  { injection H as <- <- <- <-. split; [done|]. by destruct e1. }
  destruct (filtered _ _) eqn:Ff; [by injection H as <- <- <- <-|].
  destruct (addPacket _ _ _) as [e2 [t o]] eqn:Ea. destruct (failed e2) eqn:F2.
  { injection H as <- <- <- <-. apply addPacket_pointers in Ea as (_ & _ & Ht).
    apply failed_true in F2. rewrite (Ht F2). split; [done|]. by destruct e2. }
  apply failed_false in F2 as ->. apply bind_Ret_inv in H as (d3 & H3 & [= <- <- <- <-]).
  set (d2 := stopped _ _) in H3. cbn [set_pkt pkt] in *.
  assert (d3.(config) = d.(config) ∧ d3.(decoded) = d.(decoded) ∧
    match o.(out_flow) with
    | None => d3.(flowTable) = t ∧ d3.(appDecoder) = d.(appDecoder)
    | Some k => ∃ f d4 f', t.(flows) !! k = Some f ∧
        decodeFlow d2 o.(out_key) f o.(out_is_new) p1 = Ret (d4, f') ∧
        d3.(appDecoder) = d4.(appDecoder) ∧
        d3.(flowTable) = set_flows d4.(flowTable) (<[k := f']> d4.(flowTable).(flows))
    end) as (Hc & Hd & Hm).
  { destruct (out_flow o) as [k|]; [|by injection H3 as <-].
    change (flows (flowTable d2)) with (t.(flows)) in H3. destruct (flows t !! k) as [f|] eqn:Ek; [|done].
    apply bind_Ret_inv in H3 as ([d4 f4] & H4 & [= <-]). pose proof (decodeFlow_frame _ _ _ _ _ _ _ H4) as (_ & Hd & Hc).
    split; [done|]. split; [done|]. by exists f, d4, f4. }
  split; [done|]. exists t, o, d2. split_and!; try done. cbn. by rewrite Hd.
Qed.

(** What [Decoder::decode] is handed: bytes of a capture, and a packet whose link
    layer was chosen from the link type. *)
Definition capture_ok (c : Capture) : Prop := PacketDecoder.eth_whole c.(pkt).

Lemma reset_fresh p : PacketDecoder.fresh (reset p).
Proof. by split. Qed.

Lemma decode_pointer_step d span c err d' span' c' :
  pointers_ok d → decode d span c = Ret (err, (d', (span', c'))) → pointers_ok d'.
Proof.
  intros Hok Hd. apply decode_cases in Hd as [_ Hd].
  assert (Hsame : d'.(flowTable) = d.(flowTable) → d'.(appDecoder) = d.(appDecoder) → pointers_ok d').
  { intros E1 E2 k f. rewrite E1, E2. apply Hok. }
  destruct (decide (err = NoError)) as [->|Hne]; [|destruct err; naive_solver]. clear Hsame.
  destruct Hd as (t & o & d2 & Hadd & _ & Et & Ea & _ & Ho).
  apply addPacket_pointers in Hadd as (Hf & Hk & _).
  assert (Hok2 : ∀ k f, t.(flows) !! k = Some f → pointer_ok d.(appDecoder) k f).
  { intros k f Hkf. unfold pointer_ok. destruct (Hf k f Hkf) as [->|(f0 & H0 & ->)]; [done|]. by apply Hok. }
  destruct (out_flow o) as [k|].
  2: { destruct Ho as [E1 E2]. intros k f. rewrite E1, E2. apply Hok2. }
  destruct (Hk k eq_refl) as [Eo _]. rewrite Eo in Ho.
  destruct Ho as (f & d3 & f' & Hkf & Hdf & E1 & E2).
  pose proof (decodeFlow_frame _ _ _ _ _ _ _ Hdf) as (E3 & _ & _).
  apply decodeFlow_pointer in Hdf as [Hp Hg]; [|rewrite Ea; by apply Hok2].
  intros j g. rewrite E1, E2. cbn [set_flows flows]. rewrite E3, Et. destruct (decide (j = k)) as [->|Hjk].
  - rewrite lookup_insert_eq. by intros [= <-].
  - rewrite lookup_insert_ne by done. intros Hj. eapply pointer_ok_grows; [done|]. rewrite Ea. by apply Hok2.
Qed.

(** ** Properties *)

(** C10: no pointer of a live flow into the application decoder ever dangles:
    whatever the packet and the outcome, [decode] keeps every [app_state] null
    or at the node of the flow's own key, so that the next poll finds it. *)
Theorem decode_pointers (d : Decoder) (span : bytes) (c : Capture) err d' span' c' :
  pointers_ok d → decode d span c = Ret (err, (d', (span', c'))) →
  pointers_ok d' ∧
  ∀ k f is_new, d'.(flowTable).(flows) !! k = Some f →
    ∃ st a', AppDecoder.appStateFor d'.(appDecoder) k f is_new = Ret (k, st, a', set_app_state f (Some k)).
Proof.
  intros Hok Hd. assert (Hok' : pointers_ok d') by (by eapply decode_pointer_step). split; [done|].
  intros k f is_new Hf. destruct (appStateFor_ok d'.(appDecoder) k f is_new (Hok' k f Hf)) as (st & a' & -> & _).
  by exists st, a'.
Qed.

(** C13: a packet that is rejected leaves nothing behind: on any error the flow
    table, the application decoder and the count of decoded packets are as they
    were; a packet that is accepted passes the filter and is counted, and an ARP
    packet is accepted only without a filter. *)
Theorem decode_all_or_nothing (d : Decoder) (span : bytes) (c : Capture) err d' span' c' :
  decode d span c = Ret (err, (d', (span', c'))) →
  if failed err
  then d'.(flowTable) = d.(flowTable) ∧ d'.(appDecoder) = d.(appDecoder) ∧ d'.(decoded) = d.(decoded)
  else d'.(decoded) = u64 (d.(decoded) + 1) ∧
       (isNonZero d.(config).(filter) = true →
        isArp c'.(pkt) = false ∧
        ∃ key, keyFromPacket c'.(pkt) zeroKey = (NoError, key) ∧ FlowKey.matches d.(config).(filter) key = true).
Proof.
  intros [_ H]%decode_cases. destruct (failed err) eqn:F; [apply failed_true in F; by destruct err|].
  apply failed_false in F as ->. destruct H as (t & o & d2 & _ & Hf & _ & _ & Hd & _).
  split; [done|]. intros Hnz. unfold filtered in Hf. rewrite Hnz in Hf.
  destruct (keyFromPacket (pkt c') zeroKey) as [e key] eqn:Ek.
  apply orb_false_iff in Hf as [He%failed_false Hm%negb_false_iff]. subst e. split; [|by exists key].
  unfold keyFromPacket in Ek. unfold isArp, arp. by destruct (network (pkt c')).
Qed.

(** Decoding a packet that is not TCP always returns: with the pointers in
    order there is no undefined behaviour and no endless loop on any path, and
    the pointers are in order afterwards. *)
Theorem decode_datagram_safe (d : Decoder) (span : bytes) (c : Capture) :
  pointers_ok d → bytes_ok span → len span < 2 ^ 32 → capture_ok c → bytes_ok c.(pkt).(payload) →
  (∀ span' p, PacketDecoder.decodePacket span (reset c.(pkt)) d.(config).(verify_checksum) =
              Ret (NoError, (span', p)) → isTcp p = false) →
  ∃ err d' span' c', decode d span c = Ret (err, (d', (span', c'))) ∧ pointers_ok d'.
Proof.
  intros Hok Hb Hl Hc Hpl Htcp.
  assert (wp (decode d span c) (λ _, True)) as Hw.
  2: { destruct (wp_returns _ _ Hw) as ([err [d' [span' c']]] & Hd & _). exists err, d', span', c'.
       split; [done|]. by eapply decode_pointer_step. }
  unfold decode. cbn zeta. apply wp_bind. cbn [set_pkt pkt started set_benchmark config].
  destruct (wp_returns _ _ (PacketDecoder.wp_decodePacket span (reset c.(pkt)) d.(config).(verify_checksum)
    Hb Hl (reset_fresh _) Hc)) as ([e [s p]] & Hdp & Hs & _ & _ & _ & Hpay & _).
  rewrite Hdp. apply wp_ret. split_if; [by apply wp_ret|]. apply failed_false in Hc0 as ->.
  split_if; [by apply wp_ret|]. destruct (addPacket _ _ _) as [e2 [t o]] eqn:Ea.
  split_if; [by apply wp_ret|]. apply wp_bind. cbn [flowTable stopped set_flowTable set_benchmark].
  apply addPacket_pointers in Ea as (Hf & Hk & _).
  destruct (out_flow o) as [k|]; [|by apply wp_ret, wp_ret].
  destruct (Hk k eq_refl) as [-> [f Hkf]]. rewrite Hkf. apply wp_bind.
  unfold decodeFlow. pose proof (Htcp s p Hdp) as Ht. unfold isTcp in Ht. destruct (tcp p) eqn:Etcp; [done|].
  rewrite bind_ret. cbn iota beta zeta. unfold isTcp. rewrite Etcp. cbn [is_Some_b]. apply wp_bind.
  destruct (isUdp p); [|by apply wp_ret, wp_ret, wp_ret].
  eapply wp_mono; [apply wp_pollDatagram|].
  - cbn. unfold pointer_ok. destruct (Hf k f Hkf) as [->|(f0 & H0 & ->)]; [done|]. by apply Hok.
  - destruct Hpay as [->|Hsl]; [done|]. by eapply slice_bytes_ok.
  - intros [e3 [a f3]] _. by apply wp_ret, wp_ret, wp_ret.
Qed.
End decoder.

(** ** Witnesses *)

Definition sample_now (n : nat) : Z := 1000 * Z.of_nat n.
Definition sample_capture : Capture :=
  mkCapture 5 (Pcap.mkPacketHeader 0 5 64 64) (setDatatypeFromLinktype zeroPacket Pcap.LINKTYPE_ETHERNET).
(** A DNS datagram that does not parse. *)
Definition sample_datagram : bytes :=
  PacketDecoder.encode_layer2
    (Ethernet.set_ethertype PacketDecoder.sample_eth Ethernet.ETHERTYPE_IPV4) [] ++
  Ipv4.encode (Ipv4.mkHeader 0x45 0 31 1 0 64 17 63865 0xC0A80001 0xC0A80002) [] ++
  Udp.encode (Udp.mkHeader 12345 53 11 0) ++ PacketDecoder.sample_payload.
Definition sample_decoder : Decoder := newDecoder Benchmark.zeroBenchmark defaultConfig.
Abbreviation sample_run := (decode sample_now sample_decoder sample_datagram sample_capture).

Example sample_run_ok :
  match sample_run with
  | Ret (NoError, (d, _)) => d.(decoded) = 1
  | _ => False
  end.
Proof. vm_compute. reflexivity. Qed.
Definition sample_result : Decoder * (bytes * Capture) :=
  left_by (sample_decoder, ([], sample_capture)) sample_run.

Lemma sample_run_eq :
  sample_run = Ret (NoError, (sample_result.1, (sample_result.2.1, sample_result.2.2))).
Proof. apply (accepts_eq (sample_decoder, ([], sample_capture)) sample_run). vm_compute. reflexivity. Qed.

Lemma new_pointers_ok b c : pointers_ok (newDecoder b c).
Proof. intros k f. cbn. by rewrite lookup_empty. Qed.

Lemma decode_pointers_witness :
  pointers_ok sample_result.1 ∧
  ∀ k f is_new, sample_result.1.(flowTable).(flows) !! k = Some f →
    ∃ st a', AppDecoder.appStateFor sample_result.1.(appDecoder) k f is_new =
             Ret (k, st, a', set_app_state f (Some k)).
Proof.
  apply (decode_pointers sample_now sample_decoder sample_datagram sample_capture NoError sample_result.1
           sample_result.2.1 sample_result.2.2 (new_pointers_ok _ _) sample_run_eq).
Defined.

Lemma decode_all_or_nothing_witness :
  if failed NoError
  then sample_result.1.(flowTable) = sample_decoder.(flowTable) ∧
       sample_result.1.(appDecoder) = sample_decoder.(appDecoder) ∧
       sample_result.1.(decoded) = sample_decoder.(decoded)
  else sample_result.1.(decoded) = u64 (sample_decoder.(decoded) + 1) ∧
       (isNonZero sample_decoder.(config).(filter) = true →
        isArp sample_result.2.2.(pkt) = false ∧
        ∃ key, keyFromPacket sample_result.2.2.(pkt) zeroKey = (NoError, key) ∧
               FlowKey.matches sample_decoder.(config).(filter) key = true).
Proof.
  apply (decode_all_or_nothing sample_now sample_decoder sample_datagram sample_capture NoError
           sample_result.1 sample_result.2.1 sample_result.2.2 sample_run_eq).
Defined.

Lemma decode_datagram_safe_witness :
  ∃ err d' span' c', decode sample_now sample_decoder sample_datagram sample_capture =
    Ret (err, (d', (span', c'))) ∧ pointers_ok d'.
Proof.
  apply decode_datagram_safe.
  - apply new_pointers_ok.
  - unfold bytes_ok. vm_compute. repeat (apply Forall_cons_2; [split; done|]). by apply Forall_nil_2.
  - vm_compute. reflexivity.
  - done.
  - apply Forall_nil_2.
  - intros span' p. vm_compute. by intros [= <- <-].
Defined.
