(* ===== verification/DecoderSafety.v ===== *)
(** Safety of the decoder on every packet, TCP included.

    [Decoder] shows that no pointer dangles; here [decode] itself returns.  The
    invariant [decoder_ok] says of every live flow that its directions are fit
    for the next segment ([ReassemblerSafety]) and that the application
    decoder's place in a stream is inside the stream ([AppDecoder.app_ok]).
    Three inputs are known to break the program, all of them TCP, and [quiet]
    excludes them: a response read while a request with HEAD waits in the
    peer's queue; a direction that is closed, with segments queued behind its
    FIN, and opened again; an HTTP line with a byte from 0x80 on where a digit of
    a status code or a Content-Length is expected. *)
From S2P Require Import Prelude ParseError Packet FlowKey TcpReassembler ReassemblerSafety FlowTable Decoder.
From S2P Require Ethernet Tcp Ip Ipv4 Ipv6 Http Dns DnsTable PacketDecoder AppDecoder Benchmark.
From stdpp Require Import gmap.
#[local] Open Scope Z_scope.

(** ** The invariant *)

Definition sound (r : TcpReassembler) : Prop := fit r ∧ settled r.
Definition polled (k : FlowKey) : bool := AppDecoder.isDns k || AppDecoder.isHttp k.

(** The place of the two directions' states in their streams. *)
Record apps_ok (k : FlowKey) (st : AppDecoder.FlowApplications) (f : Flow) : Prop := {
  ap_fwd : AppDecoder.app_ok st.(AppDecoder.fwd) (peek f.(fwd_tcp));
  ap_rev : AppDecoder.app_ok st.(AppDecoder.rev) (peek f.(rev_tcp));
  ap_dns : AppDecoder.isDns k = true →
    st.(AppDecoder.fwd).(AppDecoder.http_chunk_prefix) = 0 ∧
    st.(AppDecoder.rev).(AppDecoder.http_chunk_prefix) = 0;
}.

Record flow_ok (a : AppDecoder.AppDecoder) (k : FlowKey) (f : Flow) : Prop := {
  fl_key : Key_ok k;
  fl_fwd : sound f.(fwd_tcp);
  fl_rev : sound f.(rev_tcp);
  fl_pointer : pointer_ok a k f;
  fl_apps : k.(protocol) = Ip.PROTOCOL_TCP → polled k = true →
    ∃ st, a.(AppDecoder.flows_) !! k = Some st ∧ f.(app_state) = Some k ∧ apps_ok k st f;
}.

Definition names_ok (t : DnsTable.DnsTable) : Prop :=
  ∀ key, is_Some (t !! key) → len key.(DnsTable.ip) = 16.

Record decoder_ok (d : Decoder) : Prop := {
  dc_flows : ∀ k f, d.(flowTable).(flows) !! k = Some f → flow_ok d.(appDecoder) k f;
  dc_completed : Forall (λ p, Key_ok p.1) d.(flowTable).(completed);
  dc_names : names_ok d.(appDecoder).(AppDecoder.dnsTable_);
}.

(** Nothing that is known to break the program is pending. *)
Definition reopenable (r : TcpReassembler) : Prop := r.(state) = Closed → ahead r.
Record calm (d : Decoder) : Prop := {
  ca_closed : ∀ k f, d.(flowTable).(flows) !! k = Some f → reopenable f.(fwd_tcp) ∧ reopenable f.(rev_tcp);
  ca_head : ∀ k st, d.(appDecoder).(AppDecoder.flows_) !! k = Some st →
    AppDecoder.no_head st.(AppDecoder.fwd) ∧ AppDecoder.no_head st.(AppDecoder.rev);
}.

Lemma names_widened t t' : DnsTable.widened t t' → names_ok t → names_ok t'.
Proof. intros Hw Hn key [H|H]%Hw; auto. Qed.

(** ** The flow table *)

Record added (t : FlowTable) (p : Packet) (t' : FlowTable) (key : FlowKey) (new : bool) (f : Flow) : Prop := {
  ad_key : Key_ok key;
  ad_arp : isArp p = false;
  ad_tcp : isTcp p = true ↔ key.(protocol) = Ip.PROTOCOL_TCP;
  ad_flow : t'.(flows) !! key = Some f;
  ad_start : ∃ f0 ts rev n, f = touch f0 ts rev n ∧
    if new then ∃ ts0, f0 = start_flow key ts0 else t.(flows) !! key = Some f0;
  ad_others : ∀ j g, j ≠ key → t'.(flows) !! j = Some g → t.(flows) !! j = Some g;
  ad_completed : ∀ q, q ∈ t'.(completed) → q ∈ t.(completed) ∨ t.(flows) !! q.1 = Some q.2;
}.

Lemma key_protocol p k :
  keyFromPacket p zeroKey = (NoError, k) → isTcp p = true ↔ k.(protocol) = Ip.PROTOCOL_TCP.
Proof.
  unfold keyFromPacket, isTcp, tcp. destruct (setNetwork _ _) as [out|]; [|done].
  destruct (transport p); cbn [setPorts]; repeat split_if; by intros [= <-].
Qed.

Lemma addPacket_added t c o t' out :
  addresses_ok c.(pkt).(network) → addPacket t c o = (NoError, (t', out)) →
  match out.(out_flow) with
  | None => t' = t
  | Some key => out.(out_key) = key ∧ ∃ f, added t c.(pkt) t' key out.(out_is_new) f
  end.
Proof.
  intros Had. destruct (isArp c.(pkt)) eqn:Ha.
  { unfold addPacket. rewrite Ha. by intros [= <- <-]. }
  destruct (keyFromPacket c.(pkt) zeroKey) as [err k] eqn:Hk. destruct (failed err) eqn:Hf.
  { unfold addPacket. rewrite Ha, Hk, Hf. by intros [= -> _ _]. }
  apply failed_false in Hf as ->. rewrite (addPacket_eq t c o k Ha Hk). cbn zeta. intros [= <- <-].
  cbn [out_flow out_key out_is_new]. split; [done|]. set (key := (normalize k).2). set (t1 := retire _ key _).
  pose proof (keyFromPacket_ok _ _ Had Hk) as Hok. eexists. split.
  - unfold key. rewrite normalize_turned. cbn [snd]. destruct (turned k); [|done]. by destruct Hok.
  - done.
  - rewrite (key_protocol _ _ Hk). unfold key. rewrite normalize_turned. cbn [snd]. by destruct (turned k).
  - cbn [set_flows flows]. apply lookup_insert_eq.
  - eexists _, _, _, _. split; [reflexivity|]. case_bool_decide as Hn; [rewrite Hn; by eexists|].
    destruct (t1.(flows) !! key) as [f0|] eqn:E; [|done]. cbn [default from_option id]. revert E.
    unfold t1, retire, count_total. cbn [flows]. destruct (flows t !! key) as [g|] eqn:Eg; cbn [flows]; [|congruence].
    destruct (isExpired _ _ _); cbn [flows]; [|congruence]. cbn [flows]. by rewrite lookup_delete_eq.
  - intros j g Hj. cbn [set_flows flows]. rewrite lookup_insert_ne by done.
    unfold t1, retire, count_total. cbn [flows completed]. destruct (flows t !! key); [|done].
    destruct (isExpired _ _ _); [|done]. cbn [flows]. by rewrite lookup_delete_ne.
  - intros q. cbn [set_flows completed]. unfold t1, retire, count_total. cbn [flows completed].
    destruct (flows t !! key) as [g|] eqn:Eg; [|by left]. destruct (isExpired _ _ _); [|by left].
    cbn [completed]. intros [| ->%list_elem_of_singleton]%elem_of_app; [by left|by right].
Qed.

(** ** The reassembly *)

(** A direction after a segment: fit still, with more bytes behind those there. *)
Definition advanced (r r' : TcpReassembler) : Prop :=
  sound r' ∧ ∃ t, bytes_ok t ∧ peek r' = peek r ++ t.

Lemma kept_advanced r r' : fit r → kept r r' → advanced r r'.
Proof. intros [] (Hg & Hf & Hs). split; [done|]. by apply grown_peek. Qed.

Lemma wp_reassemble f h p :
  sound f.(fwd_tcp) → sound f.(rev_tcp) → reopenable f.(fwd_tcp) → reopenable f.(rev_tcp) →
  bytes_ok p → len p < 65536 → Tcp.Header_typed h →
  wp (reassemble f h p) (λ f', advanced f.(fwd_tcp) f'.(fwd_tcp) ∧ advanced f.(rev_tcp) f'.(rev_tcp) ∧
    f'.(app_state) = f.(app_state)).
Proof.
  intros [Hf1 Hs1] [Hf2 Hs2] Hc1 Hc2 Hb Hl Hh. unfold reassemble. cbn zeta. apply wp_bind.
  destruct (is_reverse f).
  - eapply wp_mono; [by apply wp_onSent_fit|]. intros r Hr. apply wp_ret. cbn.
    split; [|by split; [apply kept_advanced|]]. by apply kept_advanced, onReceived_kept.
  - eapply wp_mono; [by apply wp_onSent_fit|]. intros r Hr. apply wp_ret. cbn.
    split; [by apply kept_advanced|]. split; [|done]. by apply kept_advanced, onReceived_kept.
Qed.

(** ** The polls *)

(** What a poll leaves of a direction, of its state and of the other's. *)
Record polled_to (k : FlowKey) (r : TcpReassembler) (peer : AppDecoder.Applications) (t : DnsTable.DnsTable)
    (s : AppDecoder.Poll) : Prop := {
  pt_sound : sound s.(AppDecoder.stream);
  pt_app : AppDecoder.app_ok s.(AppDecoder.applications) (peek s.(AppDecoder.stream));
  pt_dns : AppDecoder.isDns k = true → s.(AppDecoder.applications).(AppDecoder.http_chunk_prefix) = 0;
  pt_peer : ∃ l, s.(AppDecoder.peer_state) = AppDecoder.set_pending peer l;
  pt_table : DnsTable.widened t s.(AppDecoder.dnsTable);
}.

Lemma wp_poll_direction k r own peer t :
  sound r → AppDecoder.app_ok own (peek r) → AppDecoder.no_head peer →
  (AppDecoder.isDns k = true → own.(AppDecoder.http_chunk_prefix) = 0) →
  (AppDecoder.isHttp k = true → Http.plain (peek r)) →
  wp (AppDecoder.pollStream k (AppDecoder.mkPoll r own peer t)) (polled_to k r peer t).
Proof.
  intros [Hf Hs] Ha Hh Hz Hpl.
  eapply wp_mono; [apply AppDecoder.wp_pollStream; cbn; [|by destruct Hf|done|done]; by split; destruct Hf|].
  intros s (Hok & [Hsuf _ (l & _ & Hl) (a & pos & Hfr) Ht] & Hz'). cbn in *.
  split; [|by destruct Hok|done|by exists l|done].
  destruct Hok as [Hr _ _]. rewrite Hfr in *. split; [|done]. apply consumed_fit; [done..|].
  eapply AppDecoder.suffix_bytes_ok; [exact Hsuf|by destruct Hf].
Qed.

Lemma app_ok_pending a l v : AppDecoder.app_ok a v → AppDecoder.app_ok (AppDecoder.set_pending a l) v.
Proof. by intros []. Qed.

(** The node of [k] after a poll of the flow, the others as before. *)
Record polled_flow (a : AppDecoder.AppDecoder) (k : FlowKey) (f : Flow)
    (a' : AppDecoder.AppDecoder) (f' : Flow) : Prop := {
  pf_fwd : sound f'.(fwd_tcp);
  pf_rev : sound f'.(rev_tcp);
  pf_others : ∀ j, j ≠ k → a'.(AppDecoder.flows_) !! j = a.(AppDecoder.flows_) !! j;
  pf_table : DnsTable.widened a.(AppDecoder.dnsTable_) a'.(AppDecoder.dnsTable_);
}.

Lemma polled_self a k f : sound f.(fwd_tcp) → sound f.(rev_tcp) → polled_flow a k f a f.
Proof. by split. Qed.

(** The direction that sent the packet. *)
Definition sender (f : Flow) : TcpReassembler := if f.(is_reverse) then f.(rev_tcp) else f.(fwd_tcp).

Lemma wp_pollFlow a k f new :
  (AppDecoder.isHttp k = true → Http.plain (peek (sender f))) →
  pointer_ok a k f → sound f.(fwd_tcp) → sound f.(rev_tcp) →
  (polled k = true → let st := node_state a k new in
     apps_ok k st f ∧ AppDecoder.no_head st.(AppDecoder.fwd) ∧ AppDecoder.no_head st.(AppDecoder.rev)) →
  wp (AppDecoder.pollFlow a k f new) (λ '(_, (a', f')), polled_flow a k f a' f' ∧
    (polled k = true → ∃ st, a'.(AppDecoder.flows_) !! k = Some st ∧ f'.(app_state) = Some k ∧ apps_ok k st f')).
Proof.
  intros Hpl Hp Hf Hr Hst. unfold AppDecoder.pollFlow. rewrite <- negb_orb. fold (polled k).
  destruct (polled k) eqn:Ep; cbn [negb]; [|apply wp_ret; split; [by apply polled_self|done]].
  destruct (Hst eq_refl) as ([Haf Har Hd] & Hnf & Hnr). rewrite appStateFor_eq, bind_ret by done.
  set (st := node_state a k new) in *. cbn iota. cbn [set_app_state is_reverse fwd_tcp rev_tcp set_node AppDecoder.dnsTable_ AppDecoder.flows_].
  unfold sender in Hpl. destruct (is_reverse f); apply wp_bind.
  - eapply wp_mono; [apply wp_poll_direction; [done..| |done]; intros; by apply Hd|].
    intros s [Hso Hao Hzo (l & El) Ht]. apply wp_ret. split.
    + split; cbn; [done..| |done]. intros j Hj. by rewrite !lookup_insert_ne by done.
    + intros _. eexists. cbn. rewrite lookup_insert_eq. split; [done|]. split; [done|].
      split; cbn; rewrite ?El; [by apply app_ok_pending|done|]. intros Hdk. split; [|by apply Hzo]. by apply Hd.
  - eapply wp_mono; [apply wp_poll_direction; [done..| |done]; intros; by apply Hd|].
    intros s [Hso Hao Hzo (l & El) Ht]. apply wp_ret. split.
    + split; cbn; [done..| |done]. intros j Hj. by rewrite !lookup_insert_ne by done.
    + intros _. eexists. cbn. rewrite lookup_insert_eq. split; [done|]. split; [done|].
      split; cbn; rewrite ?El; [done|by apply app_ok_pending|]. intros Hdk. split; [by apply Hzo|]. by apply Hd.
Qed.

Lemma wp_pollDatagram_flow a k f payload new :
  pointer_ok a k f → sound f.(fwd_tcp) → sound f.(rev_tcp) → bytes_ok payload →
  wp (AppDecoder.pollDatagram a k f payload new) (λ '(_, (a', f')), polled_flow a k f a' f').
Proof.
  intros Hp Hf Hr Hb. unfold AppDecoder.pollDatagram.
  split_if; [by apply wp_ret, polled_self|]. split_if; [by apply wp_ret, polled_self|].
  rewrite appStateFor_eq, bind_ret by done. cbn iota zeta.
  apply wp_bind. eapply wp_mono; [by apply Dns.wp_parse_dns|]. intros [err [rest h]] _.
  split_if; apply wp_ret; (split; cbn; [done|done| |]);
    try (intros j Hj; by rewrite !lookup_insert_ne by done); first [done|apply DnsTable.record_widened].
Qed.

(** ** One packet *)

(** A flow as [decodeFlow] needs it, and what it leaves. *)
Record ready (a : AppDecoder.AppDecoder) (k : FlowKey) (new : bool) (f : Flow) : Prop := {
  rd_key : Key_ok k;
  rd_fwd : sound f.(fwd_tcp);
  rd_rev : sound f.(rev_tcp);
  rd_pointer : pointer_ok a k f;
  rd_closed : k.(protocol) = Ip.PROTOCOL_TCP → reopenable f.(fwd_tcp) ∧ reopenable f.(rev_tcp);
  rd_apps : k.(protocol) = Ip.PROTOCOL_TCP → polled k = true → let st := node_state a k new in
    apps_ok k st f ∧ AppDecoder.no_head st.(AppDecoder.fwd) ∧ AppDecoder.no_head st.(AppDecoder.rev);
}.

Lemma advanced_apps k st f f' :
  advanced f.(fwd_tcp) f'.(fwd_tcp) → advanced f.(rev_tcp) f'.(rev_tcp) → apps_ok k st f → apps_ok k st f'.
Proof.
  intros (_ & t & _ & E) (_ & u & _ & E') [H1 H2 H3]. split; [rewrite E|rewrite E'|done]; by apply AppDecoder.app_ok_grow.
Qed.

Section decoder.
Context (now : nat → Z).

Lemma wp_decodeFlow d k f new p :
  ready d.(appDecoder) k new f → (isTcp p = true ↔ k.(protocol) = Ip.PROTOCOL_TCP) → bytes_ok p.(payload) →
  (∀ h, tcp p = Some h → Tcp.Header_typed h ∧ len p.(payload) < 65536) →
  (∀ h f', tcp p = Some h → reassemble f h p.(payload) = Ret f' → AppDecoder.isHttp k = true →
     Http.plain (peek (sender f'))) →
  wp (decodeFlow now d k f new p) (λ '(d', f'), d'.(flowTable) = d.(flowTable) ∧
    flow_ok d'.(appDecoder) k f' ∧ polled_flow d.(appDecoder) k f d'.(appDecoder) f').
Proof.
  intros [Hk Hf Hr Hp Hc Ha] Htcp Hb Hh Hpl.
  enough (wp (decodeFlow now d k f new p) (λ '(d', f'),
    polled_flow d.(appDecoder) k f d'.(appDecoder) f' ∧
    (k.(protocol) = Ip.PROTOCOL_TCP → polled k = true →
     ∃ st, d'.(appDecoder).(AppDecoder.flows_) !! k = Some st ∧ f'.(app_state) = Some k ∧ apps_ok k st f'))) as Hw.
  { destruct (wp_returns _ _ Hw) as ([d' f'] & E & Hpf & Hap). rewrite E. cbn. split; [by apply decodeFlow_frame in E as [? _]|]. split; [|done].
    pose proof (decodeFlow_pointer now d k f new p d' f' Hp E) as [Hp' _]. by split; destruct Hpf. }
  unfold decodeFlow. cbn zeta. destruct (tcp p) as [h|] eqn:Et.
  - assert (isTcp p = true) as Hit by (unfold isTcp; by rewrite Et). destruct (Hh h eq_refl) as [Hty Hl], (Hc (proj1 Htcp Hit)) as [Hcf Hcr].
    do 2 apply wp_bind. pose proof (wp_reassemble f h p.(payload) Hf Hr Hcf Hcr Hb Hl Hty) as Hwr.
    destruct (wp_returns _ _ Hwr) as (f1 & Ef1 & H1 & H2 & E1). rewrite Ef1.
    apply wp_ret, wp_ret. cbn iota beta. rewrite Hit. apply wp_bind.
    eapply wp_mono; [apply (wp_pollFlow _ k f1 new)|].
    + intros Hhk. by eapply Hpl.
    + cbn. unfold pointer_ok. by rewrite E1.
    + by destruct H1.
    + by destruct H2.
    + intros Hpk. destruct (Ha (proj1 Htcp Hit) Hpk) as (H3 & H4). split; [|done]. by eapply advanced_apps.
    + intros [e [a f2]] [[H3 H4 H5 H6] H7]. apply wp_ret. cbn. split; [by split|]. intros _. exact H7.
  - assert (isTcp p = false) as Hit by (unfold isTcp; by rewrite Et). rewrite bind_ret. cbn iota beta. rewrite Hit.
    assert (Hno : ∀ Q : Prop, k.(protocol) = Ip.PROTOCOL_TCP → Q) by (intros Q HQ; apply Htcp in HQ; congruence).
    apply wp_bind. destruct (isUdp p).
    + eapply wp_mono; [by apply (wp_pollDatagram_flow _ k f)|]. intros [e [a f2]] H. apply wp_ret. cbn.
      split; [done|]. intros H0. by apply Hno.
    + apply wp_ret, wp_ret. split; [by apply polled_self|]. intros H0. by apply Hno.
Qed.

(** What is handed to [decodeFlow] is ready. *)
Lemma added_ready d p t k new f :
  decoder_ok d → (k.(protocol) = Ip.PROTOCOL_TCP → calm d) → added d.(flowTable) p t k new f →
  ready d.(appDecoder) k new f.
Proof.
  intros [Hfl _ _] Hcalm [Hk _ _ _ (f0 & ts & rev & n & -> & Hst) _ _]. destruct new.
  - destruct Hst as [ts0 ->].
    assert (Hsound : ∀ r, fit r ∧ ahead r → sound r ∧ reopenable r)
      by (intros r [Hfr Har]; split; [split; [done|by right]|by intros _]).
    assert (H1 : (sound (start_flow k ts0).(fwd_tcp) ∧ reopenable (start_flow k ts0).(fwd_tcp)) ∧
                 (start_flow k ts0).(rev_tcp) = (start_flow k ts0).(fwd_tcp) ∧
                 (start_flow k ts0).(app_state) = None).
    { unfold start_flow. cbn zeta. destruct (negb _); cbn; (split; [|done]); apply Hsound;
        first [apply discard_fit|apply initial_fit]. }
    destruct H1 as ([Hs Hro] & Er & Ea).
    split; cbn [touch fwd_tcp rev_tcp]; rewrite ?Er; [done|done|done|by unfold pointer_ok; cbn; rewrite Ea|done|].
    intros _ _. cbn. split; [|split; apply Forall_nil_2]. split; [| |done]; (split; [done|by left]).
  - destruct (Hfl k f0 Hst) as [_ H1 H2 H3 H4].
    split; cbn [touch fwd_tcp rev_tcp]; [done..|exact H3| |].
    + intros [Hcl _]%Hcalm. by apply (Hcl k).
    + intros Ht Hp. destruct (Hcalm Ht) as [_ Hhd], (H4 Ht Hp) as (st & E & _ & [A1 A2 A3]). cbn. rewrite E. cbn.
      destruct (Hhd k st E). split; [by split|done].
Qed.

Lemma flow_ok_elsewhere a k f a' f' j g :
  polled_flow a k f a' f' → j ≠ k → flow_ok a j g → flow_ok a' j g.
Proof.
  intros [_ _ Ho _] Hj [H1 H2 H3 H4 H5]. split; [done..| |].
  - unfold pointer_ok in *. destruct (app_state g) as [n|]; [|done]. destruct H4 as [-> H4]. by rewrite Ho.
  - intros Ht Hp. rewrite Ho by done. by apply H5.
Qed.

(** The table a packet is counted in, with its flow after the decoders. *)
Lemma added_decoder_ok d p t k new f d' f' :
  decoder_ok d → added d.(flowTable) p t k new f →
  flow_ok d'.(appDecoder) k f' → polled_flow d.(appDecoder) k f d'.(appDecoder) f' →
  d'.(flowTable) = set_flows t (<[k := f']> t.(flows)) → decoder_ok d'.
Proof.
  intros [Hfl Hco Hna] [Hk _ _ _ _ Hot Hcm] Hf' Hpf E. split.
  - intros j g. rewrite E. cbn [set_flows flows]. destruct (decide (j = k)) as [->|Hj].
    + rewrite lookup_insert_eq. by intros [= <-].
    + rewrite lookup_insert_ne by done. intros Hg%Hot; [|done]. eapply flow_ok_elsewhere; [done..|by apply Hfl].
  - rewrite E. cbn [set_flows completed]. apply Forall_forall. intros q [Hq|Hq]%Hcm.
    + rewrite Forall_forall in Hco. by apply Hco.
    + by destruct (Hfl _ _ Hq).
  - by eapply names_widened; [apply Hpf|].
Qed.

Lemma decoded_addresses s p : PacketDecoder.decoded s p → addresses_ok p.(network).
Proof. intros []. unfold addresses_ok. destruct (network p); try done. by destruct de_network_typed as [? ? [] []]. Qed.

Lemma decoder_ok_same d d' :
  d'.(flowTable) = d.(flowTable) → d'.(appDecoder) = d.(appDecoder) → decoder_ok d → decoder_ok d'.
Proof. intros E1 E2 []. split; by rewrite ?E1, ?E2. Qed.

(** A filter that lets no TCP packet pass. *)
Definition excludes_tcp (filter : FlowKey) : bool :=
  negb (filter.(protocol) =? 0) && negb (filter.(protocol) =? Ip.PROTOCOL_TCP).

(** The packet in a frame, when it decodes. *)
Definition arrived (d : Decoder) (span : bytes) (c : Capture) : option Packet :=
  match PacketDecoder.decodePacket span (Packet.reset c.(pkt)) d.(config).(verify_checksum) with
  | Ret (err, (_, p)) => if failed err then None else Some p
  | _ => None
  end.

(** The bytes of the sender's HTTP stream that are there to be polled, with
    those the segment brings. *)
Definition unread (d : Decoder) (c : Capture) (p : Packet) : bytes :=
  let '(_, (t, out)) := addPacket d.(flowTable) (set_pkt c p) (mkAdded zeroKey false None) in
  match tcp p, out.(out_flow) ≫= λ k, t.(flows) !! k with
  | Some h, Some f =>
      if AppDecoder.isHttp out.(out_key) then
        match reassemble f h p.(payload) with Ret f' => peek (sender f') | _ => [] end
      else []
  | _, _ => []
  end.

(** The frame brings none of the three inputs about: if it is a TCP segment that
    the filter lets pass, no HEAD request waits and no direction can be reopened
    over its queue, and what is to be polled is plain. *)
Definition quiet (d : Decoder) (span : bytes) (c : Capture) : Prop :=
  excludes_tcp d.(config).(Decoder.filter) = true ∨
  ∀ p, arrived d span c = Some p → isTcp p = true → calm d ∧ Http.plain (unread d c p).

(** Checks of [calm] and [quiet] that run, on the safe side. *)
Definition reopenable_check (r : TcpReassembler) : bool :=
  negb (bool_decide (r.(state) = Closed)) ||
  bool_decide (length r.(out_of_order) = 0%nat).
Definition no_head_check (a : AppDecoder.Applications) : bool := forallb negb a.(AppDecoder.pending_head_requests).
Definition calm_check (d : Decoder) : bool :=
  forallb (λ q, reopenable_check q.2.(fwd_tcp) && reopenable_check q.2.(rev_tcp))
          (map_to_list d.(flowTable).(flows)) &&
  forallb (λ q, no_head_check q.2.(AppDecoder.fwd) && no_head_check q.2.(AppDecoder.rev))
          (map_to_list d.(appDecoder).(AppDecoder.flows_)).
Definition quiet_check (d : Decoder) (span : bytes) (c : Capture) : bool :=
  match arrived d span c with
  | Some p => negb (isTcp p) || calm_check d && Http.plain_check (unread d c p)
  | None => true
  end.

Lemma reopenable_checked r : reopenable_check r = true → reopenable r.
Proof.
  intros [H%negb_true_iff|H]%orb_true_iff Hc; [by apply bool_decide_eq_false_1 in H|].
  apply bool_decide_eq_true_1, nil_length_inv in H. unfold ahead. by rewrite H.
Qed.

Lemma no_head_checked a : no_head_check a = true → AppDecoder.no_head a.
Proof.
  unfold no_head_check, AppDecoder.no_head. induction (AppDecoder.pending_head_requests a) as [|b l IH]; [by constructor|].
  cbn. intros [?%negb_true_iff ?]%andb_true_iff. constructor; auto.
Qed.

Lemma calm_checked d : calm_check d = true → calm d.
Proof.
  intros [H1 H2]%andb_true_iff. rewrite forallb_forall in H1, H2. split.
  - intros k f Hk. destruct (proj1 (andb_true_iff _ _) (H1 (k, f) (proj1 (list_elem_of_In _ _) (proj2 (elem_of_map_to_list _ _ _) Hk)))).
    split; by apply reopenable_checked.
  - intros k st Hk. destruct (proj1 (andb_true_iff _ _) (H2 (k, st) (proj1 (list_elem_of_In _ _) (proj2 (elem_of_map_to_list _ _ _) Hk)))).
    split; by apply no_head_checked.
Qed.

Lemma quiet_checked d span c : quiet_check d span c = true → quiet d span c.
Proof.
  unfold quiet_check. intros H. right. intros p Ha Ht. rewrite Ha, Ht in H. cbn in H.
  apply andb_true_iff in H as [H1 H2]. split; [by apply calm_checked|by apply Http.plain_checked].
Qed.

Lemma quiet_same d d' span c :
  d'.(flowTable) = d.(flowTable) → d'.(appDecoder) = d.(appDecoder) → d'.(config) = d.(config) →
  quiet d span c → quiet d' span c.
Proof.
  intros E1 E2 E3 [Hex|H]; [left; by rewrite E3|right]. unfold arrived, unread in *. rewrite E1, E3.
  intros p Ha Ht. destruct (H p Ha Ht) as [[H1 H2] H3]. split; [|done]. split; by rewrite ?E1, ?E2.
Qed.

Lemma excluded filter p :
  excludes_tcp filter = true → filtered filter p = false → isTcp p = false.
Proof.
  intros [H0%negb_true_iff H6%negb_true_iff]%andb_true_iff. unfold filtered, isNonZero. rewrite H0. cbn [negb orb].
  destruct (keyFromPacket p zeroKey) as [err k] eqn:Ek. intros [->%failed_false Hm]%orb_false_iff.
  destruct (isTcp p) eqn:Et; [|done]. apply (key_protocol _ _ Ek) in Et. unfold matches in Hm. rewrite H0, Et in Hm.
  cbn [negb andb] in Hm. by rewrite H6 in Hm.
Qed.

(** What [decode] leaves. *)
Record left_in_order (err : ParseError) (d' : Decoder) (c' : Capture) : Prop := {
  lo_decoder : decoder_ok d';
  lo_capture : capture_ok c';
  lo_payload : bytes_ok c'.(pkt).(payload);
  lo_printable : err = NoError → printable c'.(pkt);
}.

Lemma wp_decode d span c :
  decoder_ok d → quiet d span c → bytes_ok span → len span < 2 ^ 32 → capture_ok c → bytes_ok c.(pkt).(payload) →
  wp (Decoder.decode now d span c) (λ '(err, (d', (_, c'))), left_in_order err d' c').
Proof.
  intros Hok Hq Hb Hl Hc Hpl. unfold Decoder.decode. cbn zeta. apply wp_bind. cbn [set_pkt pkt started set_benchmark config].
  destruct (wp_returns _ _ (PacketDecoder.wp_decodePacket span _ d.(config).(verify_checksum) Hb Hl (reset_fresh _) Hc))
    as ([e [s p]] & Edp & Hs & _ & _ & He & Hpay & Hdec). rewrite Edp. apply wp_ret.
  assert (Hpb : bytes_ok p.(payload)) by (destruct Hpay as [->|Hsl]; [done|by eapply slice_bytes_ok]).
  assert (Hsame : ∀ err d', d'.(flowTable) = d.(flowTable) → d'.(appDecoder) = d.(appDecoder) → failed err = true →
    left_in_order err d' (set_pkt (set_pkt c (Packet.reset c.(pkt))) p)).
  { intros err d' E1 E2 F%failed_true. split; try done. by apply (decoder_ok_same d). }
  split_if; [by apply wp_ret, Hsame|]. apply failed_false in Hc0 as ->. specialize (Hdec eq_refl).
  split_if; [by apply wp_ret, Hsame|]. destruct (addPacket _ _ _) as [e2 [t o]] eqn:Ea.
  assert (Eadd : addPacket d.(flowTable) (set_pkt c p) (mkAdded zeroKey false None) = (e2, (t, o))) by exact Ea.
  split_if.
  { apply wp_ret, Hsame; [|done..]. apply addPacket_pointers in Ea as (_ & _ & Ht). by apply Ht, failed_true. }
  apply failed_false in Hc1 as ->. apply addPacket_added in Ea; [|by eapply decoded_addresses].
  assert (Hpr : printable p) by (by destruct Hdec).
  apply wp_bind. cbn [flowTable stopped set_flowTable set_benchmark].
  destruct (out_flow o) as [k|] eqn:Eo; [|apply wp_ret, wp_ret; split; try done; by apply (decoder_ok_same d)].
  destruct Ea as [Ek [f Had]]. rewrite Ek. rewrite (ad_flow _ _ _ _ _ _ Had). apply wp_bind.
  assert (Hquiet : isTcp p = true → calm d ∧ Http.plain (unread d c p)).
  { intros Ht. destruct Hq as [Hex|Hq]; [eapply excluded in Hc0; [|exact Hex]; cbn in Hc0; congruence|].
    apply Hq; [|done]. unfold arrived. by rewrite Edp. }
  eapply wp_mono; [apply wp_decodeFlow|].
  - cbn. eapply added_ready; [done| |exact Had]. intros Hk6. apply Hquiet.
    by apply (ad_tcp _ _ _ _ _ _ Had) in Hk6.
  - by destruct Had.
  - done.
  - cbn [set_pkt pkt]. intros h Hh. pose proof (ad_arp _ _ _ _ _ _ Had) as Harp. destruct Hdec. unfold tcp in Hh.
    split; [by destruct (transport p); try done; injection Hh as <-|]. rewrite de_payload by done. by apply de_short.
  - cbn [set_pkt pkt]. intros h f1 Hh Ef1 Hhk. destruct Hquiet as [_ Hplain]; [unfold isTcp; by rewrite Hh|].
    unfold unread in Hplain. rewrite Hh, Eadd in Hplain. cbn [out_flow out_key] in Hplain. rewrite Eo in Hplain. cbn [mbind option_bind] in Hplain.
    by rewrite (ad_flow _ _ _ _ _ _ Had), Ek, Hhk, Ef1 in Hplain.
  - intros [d3 f3]. cbn. intros (E3 & Hf3 & Hpf). apply wp_ret, wp_ret. split; try done.
    eapply (added_decoder_ok d); [done|exact Had|exact Hf3|exact Hpf|]. cbn. by rewrite E3.
Qed.
End decoder.

(** ** Properties *)

(** C7: with the decoder in order, decoding a packet returns, whatever its bytes:
    every path from the link layer to the polled streams ends, reads inside its
    buffers, follows no dangling pointer and keeps to the preconditions of the
    library's functions; the decoder is in order afterwards, and a packet that is
    accepted can be printed.  Unless the filter is for another protocol than
    TCP, a frame that decodes to a TCP segment is to be quiet: no HEAD request waits for its response, no closed direction has
    segments queued at its frontier, and no line of the sender's unread HTTP bytes
    has a byte from 0x80 on in a status code or a Content-Length. *)
Theorem decode_safe (now : nat → Z) (d : Decoder) (span : bytes) (c : Capture) :
  decoder_ok d → quiet d span c → bytes_ok span → len span < 2 ^ 32 → capture_ok c → bytes_ok c.(pkt).(payload) →
  ∃ err d' span' c', Decoder.decode now d span c = Ret (err, (d', (span', c'))) ∧
    decoder_ok d' ∧ capture_ok c' ∧ bytes_ok c'.(pkt).(payload) ∧
    (err = NoError → ∃ t j, Packet.toString c'.(pkt) = Ret t ∧ Packet.toJson c'.(pkt) = Ret j).
Proof.
  intros Hok Hq Hb Hl Hc Hp.
  destruct (wp_returns _ _ (wp_decode now d span c Hok Hq Hb Hl Hc Hp)) as ([err [d' [s c']]] & E & [H1 H2 H3 H4]).
  exists err, d', s, c'. do 4 (split; [done|]). intros He. destruct (wp_print_packet _ (H4 He)) as [Ht Hj].
  destruct (wp_returns _ _ Ht) as (t & -> & _), (wp_returns _ _ Hj) as (j & -> & _). by exists t, j.
Qed.

(** ** Witnesses *)

Lemma new_decoder_ok b c : decoder_ok (newDecoder b c).
Proof. split; [by intros k f; cbn; rewrite lookup_empty|by apply Forall_nil_2|]. intros key [x Hx]. cbn in Hx.
  by rewrite lookup_empty in Hx.
Qed.

Definition sample_segment : bytes :=
  PacketDecoder.encode_layer2 PacketDecoder.sample_eth (PacketDecoder.sample_tags Ethernet.ETHERTYPE_IPV4) ++
  Ipv4.encode PacketDecoder.sample_ip [] ++ Tcp.encode PacketDecoder.sample_tcp [] ++ PacketDecoder.sample_payload.
Lemma sample_segment_bytes : bytes_ok sample_segment.
Proof. unfold bytes_ok. vm_compute. repeat (apply Forall_cons_2; [split; done|]). by apply Forall_nil_2. Qed.

(** A first segment to port 80. *)
Abbreviation first_segment := (Decoder.decode sample_now sample_decoder sample_segment sample_capture).
Example first_segment_ok : accepts first_segment = true.
Proof. vm_compute. reflexivity. Qed.

Lemma decode_safe_witness :
  ∃ err d' span' c', first_segment = Ret (err, (d', (span', c'))) ∧
    decoder_ok d' ∧ capture_ok c' ∧ bytes_ok c'.(pkt).(payload) ∧
    (err = NoError → ∃ t j, Packet.toString c'.(pkt) = Ret t ∧ Packet.toJson c'.(pkt) = Ret j).
Proof.
  apply decode_safe.
  - apply new_decoder_ok.
  - apply quiet_checked. vm_compute. reflexivity.
  - apply sample_segment_bytes.
  - vm_compute. reflexivity.
  - done.
  - apply Forall_nil_2.
Defined.
