(* ===== verification/Reader.v ===== *)
(** The capture reader: [include/net/capture/pcap_reader.h],
    [src/net/capture/pcap_reader.cpp].

    The capture is the bytes of the buffer, mapped ([Mapping]) or handed over.
    The [Benchmark] the reader owns is the one its decoder refers to, and is in
    the state of the latter. *)
From S2P Require Import Prelude Endian ParseError Text Packet FlowTable Decoder.
From S2P Require Pcap Benchmark PacketDecoder.
#[local] Open Scope Z_scope.

Record Reader := mkReader {
  span_ : bytes;
  capture_ : Capture;
  file_header_ : Pcap.FileHeader;
  decoder_ : Decoder;
  is_nsec_ : bool;
  endian_ : Endian;
  header_err_ : ParseError;
  skipped_ : Z;
  last_skip_err_ : ParseError;
  json_ : bool;
}.

Definition zeroCapture : Capture := mkCapture 0 Pcap.zeroPacketHeader zeroPacket.

Definition set_span (r : Reader) (s : bytes) : Reader :=
  mkReader s r.(capture_) r.(file_header_) r.(decoder_) r.(is_nsec_) r.(endian_) r.(header_err_)
           r.(skipped_) r.(last_skip_err_) r.(json_).
Definition set_capture (r : Reader) (c : Capture) : Reader :=
  mkReader r.(span_) c r.(file_header_) r.(decoder_) r.(is_nsec_) r.(endian_) r.(header_err_)
           r.(skipped_) r.(last_skip_err_) r.(json_).
Definition set_decoder (r : Reader) (d : Decoder) : Reader :=
  mkReader r.(span_) r.(capture_) r.(file_header_) d r.(is_nsec_) r.(endian_) r.(header_err_)
           r.(skipped_) r.(last_skip_err_) r.(json_).
Definition set_file (r : Reader) (h : Pcap.FileHeader) (e : Endian) (nsec : bool) : Reader :=
  mkReader r.(span_) r.(capture_) h r.(decoder_) nsec e r.(header_err_)
           r.(skipped_) r.(last_skip_err_) r.(json_).
Definition set_header_err (r : Reader) (e : ParseError) : Reader :=
  mkReader r.(span_) r.(capture_) r.(file_header_) r.(decoder_) r.(is_nsec_) r.(endian_) e
           r.(skipped_) r.(last_skip_err_) r.(json_).
Definition skip (r : Reader) (e : ParseError) : Reader :=
  mkReader r.(span_) r.(capture_) r.(file_header_) r.(decoder_) r.(is_nsec_) r.(endian_)
           r.(header_err_) (u64 (r.(skipped_) + 1)) e r.(json_).
Definition setJson (r : Reader) (json : bool) : Reader :=
  mkReader r.(span_) r.(capture_) r.(file_header_) r.(decoder_) r.(is_nsec_) r.(endian_)
           r.(header_err_) r.(skipped_) r.(last_skip_err_) json.
Definition set_header (c : Capture) (h : Pcap.PacketHeader) : Capture :=
  mkCapture c.(ts_us) h c.(pkt).

Section reader.
Context (now : nat → Z).

Definition began (r : Reader) (p : Benchmark.Phase) : Reader :=
  set_decoder r (started now r.(decoder_) p).
Definition ended (r : Reader) (p : Benchmark.Phase) : Reader :=
  set_decoder r (stopped now r.(decoder_) p).

Definition readFileHeader (r : Reader) : outcome (ParseError * Reader) :=
  if len r.(span_) <? Pcap.FILE_HEADER_LEN then Ret (UnexpectedEofF, r) else
  '(err, (span, header, endian)) ← Pcap.parseFileHeader r.(span_) r.(file_header_) r.(endian_);
  let r := set_file (set_span r span) header endian r.(is_nsec_) in
  if failed err then Ret (err, r) else
  let nsec := (header.(Pcap.magic_number) =? Pcap.PCAP_MAGIC_NSEC_LE) ||
              (header.(Pcap.magic_number) =? Pcap.PCAP_MAGIC_NSEC_BE) in
  Ret (NoError, set_file r header endian nsec).

Definition init (r : Reader) : outcome Reader :=
  let r := set_decoder r (set_benchmark r.(decoder_)
             (Benchmark.setBytes r.(decoder_).(benchmark) (len r.(span_)))) in
  let r := began r Benchmark.FileHeader in
  '(err, r) ← readFileHeader r;
  let r := set_header_err r err in
  Ret (ended r Benchmark.FileHeader).

(** The constructor over a buffer. *)
Definition newReader (data : bytes) (config : Config) (detailed_bench : bool) : outcome Reader :=
  let b := Benchmark.setDetailed Benchmark.zeroBenchmark detailed_bench in
  init (mkReader data zeroCapture Pcap.zeroFileHeader (newDecoder b config) false Little NoError 0
                 NoError false).

(** The time stamp in microseconds. *)
Definition timestamp (nsec : bool) (h : Pcap.PacketHeader) : Z :=
  u64 (u64 (h.(Pcap.ts_sec) * 1000000) +
       (if nsec then h.(Pcap.ts_usec) / 1000 else h.(Pcap.ts_usec))).

(** The part of a round of [readPacket] behind the record's header: [data] is
    the packet, [span_] already behind it; with the decoder's answer. *)
Definition visit (r : Reader) (data : bytes) : outcome (ParseError * Reader) :=
  let c := r.(capture_) in
  let c := mkCapture (timestamp r.(is_nsec_) c.(packetHeader)) c.(packetHeader)
             (setDatatypeFromLinktype c.(pkt) r.(file_header_).(Pcap.linktype)) in
  let r := ended (set_capture r c) Benchmark.PacketHeader in
  let r := began r Benchmark.Decode in
  '(err, (d, (_, c))) ← decode now r.(decoder_) data r.(capture_);
  let r := ended (set_capture (set_decoder r d) c) Benchmark.Decode in
  match err with
  | NoError | Filtered => Ret (err, r)
  | _ => Ret (err, skip r err)
  end.

Definition readPacket_body (r : Reader) : outcome (control Reader (ParseError * Reader)) :=
  if len r.(span_) <? Pcap.PACKET_HEADER_LEN then Ret (Stop (UnexpectedEofF, r)) else
  let r := began r Benchmark.PacketHeader in
  '(err, (span, header)) ← Pcap.parsePacketHeader r.(span_) r.(capture_).(packetHeader) r.(endian_);
  let r := set_capture (set_span r span) (set_header r.(capture_) header) in
  if failed err then Ret (Stop (err, ended r Benchmark.PacketHeader)) else
  if len r.(span_) <? header.(Pcap.incl_len)
  then Ret (Stop (UnexpectedEofF, ended r Benchmark.PacketHeader)) else
  packet_span ← first header.(Pcap.incl_len) r.(span_);
  rest ← subspan r.(span_) header.(Pcap.incl_len);
  '(err, r) ← visit (set_span r rest) packet_span;
  match err with
  | NoError => Ret (Stop (NoError, r))
  | _ => Ret (Next r)
  end.

Definition readPacket (r : Reader) : outcome (ParseError * Reader) :=
  if failed r.(header_err_) then Ret (r.(header_err_), r) else
  loop (S (length r.(span_))) readPacket_body r.

(** [readAllPackets]: the callback may read the reader; its own state is [St]. *)
Section callback.
Context {St : Type} (on_packet : Reader → Capture → St → outcome St).

Definition readAll_body (st : Reader * St) : outcome (control (Reader * St) (Reader * St)) :=
  let '(r, s) := st in
  '(err, r) ← readPacket r;
  if failed err then Ret (Stop (r, s)) else
  s ← on_packet r r.(capture_) s;
  Ret (Next (r, s)).

Definition readAllPackets (r : Reader) (s : St) : outcome (Reader * St) :=
  let r := began r Benchmark.Total in
  '(r, s) ← loop (S (length r.(span_))) readAll_body (r, s);
  Ret (ended r Benchmark.Total, s).
End callback.

Definition print (r : Reader) (out : Capture) : outcome bytes :=
  if r.(json_) then
    j ← toJson out.(pkt);
    Ret (chars "{" ++ [newline] ++
         jstr "  `index`: " ++ dec r.(decoder_).(decoded) ++ chars "," ++ [newline] ++
         indent (Pcap.PacketHeader_toJson out.(packetHeader)) (chars "  ") ++ chars "," ++ [newline] ++
         indent j (chars "  ") ++
         chars "}" ++ [newline])
  else
    t ← toString out.(pkt);
    Ret (chars "packet " ++ dec r.(decoder_).(decoded) ++ [newline] ++
         Pcap.PacketHeader_toString out.(packetHeader) ++ [newline] ++
         t ++ [newline]).
End reader.

(** ** The records of a capture *)

(** The record headers and packets up to the first record that is cut short or
    has a header the reader rejects. *)
Fixpoint records (fuel : nat) (e : Endian) (span : bytes) : list (Pcap.PacketHeader * bytes) :=
  match fuel with
  | O => []
  | S fuel =>
      match Pcap.parsePacketHeader span Pcap.zeroPacketHeader e with
      | Ret (NoError, (s, h)) =>
          if len s <? h.(Pcap.incl_len) then []
          else (h, ztake h.(Pcap.incl_len) s) :: records fuel e (zdrop h.(Pcap.incl_len) s)
      | _ => []
      end
  end.
Definition packets_of (e : Endian) (span : bytes) : list (Pcap.PacketHeader * bytes) :=
  records (S (length span)) e span.

(** Records as a capturing tool writes them. *)
Definition encodeRecord (e : Endian) (p : Pcap.PacketHeader * bytes) : bytes :=
  Pcap.encodePacketHeader e p.1 ++ p.2.
Definition record_ok (p : Pcap.PacketHeader * bytes) : Prop :=
  Pcap.PacketHeader_ok p.1 ∧ p.1.(Pcap.incl_len) = len p.2.

Section spec.
Context (now : nat → Z).

(** The reader once the header of the next record, whose packet is [data], has
    been read. *)
Definition enter (r : Reader) (h : Pcap.PacketHeader) (data : bytes) : Reader :=
  let r := began now r Benchmark.PacketHeader in
  set_span (set_capture r (set_header r.(capture_) h))
           (zdrop (Pcap.PACKET_HEADER_LEN + len data) r.(span_)).

(** Every record in turn: decoded, and handed to the callback when accepted. *)
Fixpoint process {St} (on_packet : Reader → Capture → St → outcome St)
    (l : list (Pcap.PacketHeader * bytes)) (st : Reader * St) : outcome (Reader * St) :=
  match l with
  | [] => Ret st
  | (h, data) :: l =>
      '(err, r) ← visit now (enter st.1 h data) data;
      s ← (if failed err then Ret st.2 else on_packet r r.(capture_) st.2);
      process on_packet l (r, s)
  end.

(** ** Lemmas *)

Lemma parsePacketHeader_cases span h e :
  bytes_ok span →
  ∃ err s h', Pcap.parsePacketHeader span h e = Ret (err, (s, h')) ∧
    (err = NoError → s = zdrop 16 span ∧ 16 ≤ len span ∧ 0 ≤ h'.(Pcap.incl_len) < 2 ^ 32) ∧
    (16 ≤ len span → ∀ h2, Pcap.parsePacketHeader span h2 e = Ret (err, (s, h'))) ∧
    (len span < 16 → err ≠ NoError).
Proof.
  intros Hb. unfold Pcap.parsePacketHeader, Pcap.PACKET_HEADER_LEN. destruct (Z.ltb_spec (len span) 16).
  { exists UnexpectedEof, span, h. split_and!; try done. lia. }
  unfold memcpy, first. rewrite !(proj2 (Z.leb_le _ _)) by lia. cbn [andb]. rewrite !bind_ret. cbn zeta.
  set (b := ztake 16 span). assert (Hbb : bytes_ok b) by (by apply bytes_ok_ztake).
  pose proof (field_dword b 8 e Hbb) as Hi.
  cbn [Pcap.ts_sec Pcap.ts_usec Pcap.incl_len Pcap.orig_len Pcap.PacketHeader_of].
  destruct (_ || _); [eexists _, span, _; split_and!; try done; lia|].
  destruct (_ <? _); [eexists _, span, _; split_and!; try done; lia|].
  unfold subspan. rewrite !(proj2 (Z.leb_le _ _)) by lia. cbn [andb]. rewrite bind_ret.
  eexists _, _, _. split_and!; [done| |done|lia]. intros _. split_and!; [done|lia|cbn; lia..].
Qed.

(** The parts of the reader a record leaves alone. *)
Definition same_file (r r' : Reader) : Prop :=
  r'.(file_header_) = r.(file_header_) ∧ r'.(is_nsec_) = r.(is_nsec_) ∧ r'.(endian_) = r.(endian_) ∧
  r'.(header_err_) = r.(header_err_) ∧ r'.(json_) = r.(json_).

Lemma decode_capture d data c err d' s c' :
  decode now d data c = Ret (err, (d', (s, c'))) → ∃ p, c' = set_pkt c p.
Proof.
  unfold decode. intros ([e1 [s1 p1]] & _ & H)%bind_Ret_inv. cbn zeta in H. exists p1.
  destruct (failed e1); [by injection H as <- <- <- <-|].
  destruct (filtered _ _); [by injection H as <- <- <- <-|].
  destruct (addPacket _ _ _) as [e2 [t o]]. destruct (failed e2); [by injection H as <- <- <- <-|].
  by apply bind_Ret_inv in H as (d3 & _ & [= <- <- <- <-]).
Qed.

(** What a record does, whatever the decoder answers. *)
Lemma visit_frame r data err r' :
  visit now r data = Ret (err, r') →
  same_file r r' ∧ r'.(span_) = r.(span_) ∧
  r'.(capture_).(packetHeader) = r.(capture_).(packetHeader) ∧
  r'.(capture_).(ts_us) = timestamp r.(is_nsec_) r.(capture_).(packetHeader) ∧
  (r'.(decoder_).(decoded) = if failed err then r.(decoder_).(decoded) else u64 (r.(decoder_).(decoded) + 1)) ∧
  match err with
  | NoError | Filtered => r'.(skipped_) = r.(skipped_) ∧ r'.(last_skip_err_) = r.(last_skip_err_)
  | _ => r'.(skipped_) = u64 (r.(skipped_) + 1) ∧ r'.(last_skip_err_) = err
  end.
Proof.
  unfold visit. cbn zeta. intros ([e [d [s c]]] & Hd & H)%bind_Ret_inv.
  pose proof (decode_capture _ _ _ _ _ _ _ Hd) as [p ->].
  apply decode_cases in Hd as [_ Hd].
  assert (Hdec : d.(decoded) = if failed e then r.(decoder_).(decoded) else u64 (r.(decoder_).(decoded) + 1)).
  { destruct e; cbn [failed]; try (destruct Hd as (_ & _ & Hd); exact Hd).
    destruct Hd as (? & ? & ? & _ & _ & _ & _ & Hd & _). exact Hd. }
  destruct e; injection H as <- <-; (split; [by split_and!|]); split_and!; done.
Qed.

Lemma enter_frame r h data : same_file r (enter r h data).
Proof. by split_and!. Qed.

#[local] Instance same_file_preorder : PreOrder same_file.
Proof.
  split; [by intros r; split_and!|]. intros a b c (H1 & H2 & H3 & H4 & H5) (K1 & K2 & K3 & K4 & K5).
  split_and!; congruence.
Qed.

(** A round of [readPacket] against the list of records. *)
Lemma round_records r fuel :
  bytes_ok r.(span_) → (length r.(span_) < fuel)%nat →
  match records fuel r.(endian_) r.(span_) with
  | [] => ∃ err r', readPacket_body now r = Ret (Stop (err, r')) ∧ err ≠ NoError ∧
      r'.(decoder_).(decoded) = r.(decoder_).(decoded) ∧ r'.(skipped_) = r.(skipped_) ∧
      r'.(last_skip_err_) = r.(last_skip_err_)
  | (h, data) :: l =>
      readPacket_body now r =
        ('(err, r') ← visit now (enter r h data) data;
         match err with NoError => Ret (Stop (NoError, r')) | _ => Ret (Next r') end) ∧
      bytes_ok (enter r h data).(span_) ∧
      (length (enter r h data).(span_) < length r.(span_))%nat ∧
      l = records (pred fuel) r.(endian_) (enter r h data).(span_)
  end.
Proof.
  intros Hb Hf. destruct fuel as [|fuel]; [lia|]. cbn [records pred].
  destruct (parsePacketHeader_cases r.(span_) Pcap.zeroPacketHeader r.(endian_) Hb)
    as (err & s & h & Hp & Hno & Hany & Hshort).
  rewrite Hp. unfold readPacket_body. change Pcap.PACKET_HEADER_LEN with 16.
  destruct (Z.ltb_spec (len r.(span_)) 16) as [Hlt|Hge].
  { specialize (Hshort Hlt). destruct err; try done; by eexists _, _. }
  cbn zeta. cbn [began set_decoder span_ capture_ endian_].
  rewrite (Hany Hge), bind_ret. cbn iota beta. destruct (decide (err = NoError)) as [->|Hne].
  2: { apply failed_true in Hne as Hf'. rewrite Hf'. apply failed_true in Hf'. destruct err; try done; by eexists _, _. }
  destruct (Hno eq_refl) as (-> & _ & Hi). cbn [failed set_capture set_span span_].
  pose proof (len_zdrop 16 r.(span_) ltac:(lia)) as Hl.
  destruct (Z.ltb_spec (len (zdrop 16 r.(span_))) h.(Pcap.incl_len)) as [Ht|Hin]; [by eexists _, _|].
  assert (Hld : len (ztake h.(Pcap.incl_len) (zdrop 16 r.(span_))) = h.(Pcap.incl_len)) by (apply len_ztake; lia).
  set (data := ztake h.(Pcap.incl_len) (zdrop 16 r.(span_))) in *.
  assert (Hsp : (enter r h data).(span_) = zdrop h.(Pcap.incl_len) (zdrop 16 r.(span_))).
  { unfold enter. cbn. rewrite Hld, zdrop_zdrop by lia. done. }
  split; [|rewrite Hsp; split_and!; [auto with pcap| |done]].
  - unfold first, subspan. rewrite !(proj2 (Z.leb_le _ _)) by lia. cbn [andb]. rewrite !bind_ret. fold data.
    do 2 f_equal. unfold enter. cbn [began set_decoder set_capture set_span capture_ span_].
    change Pcap.PACKET_HEADER_LEN with 16. rewrite Hld, zdrop_zdrop by lia. done.
  - pose proof (len_zdrop h.(Pcap.incl_len) (zdrop 16 r.(span_)) ltac:(lia)). unfold len in *. lia.
Qed.

Lemma enter_visit r h data err r' :
  visit now (enter r h data) data = Ret (err, r') → same_file r r' ∧ r'.(span_) = (enter r h data).(span_).
Proof.
  intros (Hs & Hsp & _)%visit_frame. split; [|done]. etrans; [apply enter_frame|exact Hs].
Qed.

(** Enough fuel for the records of a reader. *)
Definition readable (r : Reader) : Prop := bytes_ok r.(span_) ∧ r.(header_err_) = NoError.

Lemma readPacket_next r r' :
  bytes_ok r.(span_) → readPacket_body now r = Ret (Next r') →
  bytes_ok r'.(span_) ∧ 0 ≤ len r'.(span_) < len r.(span_) ∧ same_file r r'.
Proof.
  intros Hb Hn. pose proof (round_records r (S (length r.(span_))) Hb ltac:(lia)) as Hr.
  destruct (records _ _ _) as [|[h data] l]; [destruct Hr as (? & ? & ? & _); congruence|].
  destruct Hr as (E & Hb' & Hl & _). rewrite E in Hn. apply bind_Ret_inv in Hn as ([err r1] & Hv & Hn).
  apply enter_visit in Hv as [Hs Hsp].
  destruct err; try done; injection Hn as <-; rewrite Hsp; (split; [done|]); (split; [unfold len; lia|done]).
Qed.

Lemma readPacket_step r :
  readable r →
  readPacket now r =
  (c ← readPacket_body now r;
   match c with Next r' => readPacket now r' | Stop x => Ret x end).
Proof.
  intros [Hb He]. unfold readPacket at 1. rewrite He. cbn [failed loop].
  destruct (readPacket_body now r) as [[r'|x]| |] eqn:E; [|done..]. rewrite !bind_ret.
  pose proof (readPacket_next r r' Hb E) as (Hb' & Hl & _ & _ & _ & He' & _).
  unfold readPacket. rewrite He', He. cbn [failed].
  apply (loop_enough (λ r, bytes_ok r.(span_)) (λ r, len r.(span_))); [|done|unfold len in *; lia..].
  intros r1 r2 Hb1 H1. pose proof (readPacket_next r1 r2 Hb1 H1) as (? & ? & _). done.
Qed.

Lemma enter_readable r h data err r' :
  readable r → bytes_ok (enter r h data).(span_) → visit now (enter r h data) data = Ret (err, r') →
  readable r' ∧ r'.(span_) = (enter r h data).(span_) ∧ r'.(endian_) = r.(endian_).
Proof.
  intros [Hb He] Hb' ((_ & _ & Hen & Her & _) & Hsp)%enter_visit. split; [|done].
  split; [by rewrite Hsp|by rewrite Her].
Qed.

Lemma readAll_body_eq {St} (cb : Reader → Capture → St → outcome St) r s :
  readAll_body now cb (r, s) =
  ('(err, r) ← readPacket now r;
   if failed err then Ret (Stop (r, s)) else s ← cb r r.(capture_) s; Ret (Next (r, s))).
Proof. done. Qed.

(** The loop of [readAllPackets] against the records. *)
Lemma readAll_loop {St} (cb : Reader → Capture → St → outcome St) l fuel fuel' r s :
  readable r → (length r.(span_) < fuel)%nat → (length r.(span_) < fuel')%nat →
  l = records fuel r.(endian_) r.(span_) →
  loop fuel' (readAll_body now cb) (r, s) =
  ('(r1, s1) ← process cb l (r, s); '(_, r2) ← readPacket now r1; Ret (r2, s1)).
Proof.
  revert fuel fuel' r s. induction l as [|[h data] l IH]; intros fuel fuel' r s Hok Hf Hf' El;
    pose proof (round_records r fuel (proj1 Hok) Hf) as Hr; rewrite <- El in Hr;
    (destruct fuel' as [|fuel']; [lia|]).
  - destruct Hr as (err & r' & E & Hne & _). apply failed_true in Hne. cbn [loop process].
    rewrite readAll_body_eq, bind_ret. cbn iota beta. rewrite readPacket_step, E, !bind_ret by done.
    cbn iota. by rewrite Hne, !bind_ret.
  - destruct Hr as (E & Hb' & Hlt & El'). cbn [process fst snd].
    destruct (visit now (enter r h data) data) as [[err r']| |] eqn:Ev.
    2,3: cbn [loop]; by rewrite readAll_body_eq, readPacket_step, E by done.
    destruct (enter_readable r h data err r' Hok Hb' Ev) as (Hok' & Hsp & Hen).
    rewrite bind_ret. cbn iota beta. destruct (decide (err = NoError)) as [->|Hne].
    + cbn [failed loop]. rewrite readAll_body_eq, readPacket_step, E, !bind_ret by done.
      cbn iota. cbn [failed]. destruct (cb r' (capture_ r') s) as [s'| |]; [|done..]. rewrite !bind_ret.
      apply (IH (pred fuel)); rewrite ?Hsp, ?Hen; [done|lia|lia|done].
    + pose proof Hne as Hft. apply failed_true in Hft. rewrite Hft, bind_ret.
      rewrite <- (IH (pred fuel) (S fuel') r' s); rewrite ?Hsp, ?Hen; [|done|lia|lia|done].
      cbn [loop]. rewrite !readAll_body_eq, (readPacket_step r), E, bind_ret by done. cbn iota.
      by destruct err.
Qed.

Lemma readAll_process {St} (cb : Reader → Capture → St → outcome St) r s :
  readable r →
  readAllPackets now cb r s =
  ('(r1, s1) ← process cb (packets_of r.(endian_) r.(span_)) (began now r Benchmark.Total, s);
   '(_, r2) ← readPacket now r1;
   Ret (ended now r2 Benchmark.Total, s1)).
Proof.
  intros Hok. unfold readAllPackets.
  rewrite (readAll_loop cb (packets_of r.(endian_) r.(span_)) (S (length r.(span_)))); [|done|cbn; lia|cbn; lia|done].
  destruct (process _ _ _) as [[r1 s1]| |]; [|done..]. rewrite !bind_ret. cbn iota beta.
  by destruct (readPacket now r1) as [[e r2]| |].
Qed.

(** ** Accounting *)

(** The callback that keeps what it is given. *)
Definition collect (_ : Reader) (c : Capture) (l : list Capture) : outcome (list Capture) := Ret (l ++ [c]).

(** The records accepted, given what the decoder answered for each. *)
Fixpoint accepted (l : list (Pcap.PacketHeader * bytes)) (errs : list ParseError) : list Pcap.PacketHeader :=
  match l, errs with
  | (h, _) :: l, NoError :: errs => h :: accepted l errs
  | _ :: l, _ :: errs => accepted l errs
  | _, _ => []
  end.
Definition is_skip (e : ParseError) : bool :=
  match e with NoError | Filtered => false | _ => true end.
Definition skips (errs : list ParseError) : list ParseError := base.filter (λ e, is_skip e = true) errs.

(** The same decoder, up to the times it has measured. *)
Definition same_decoder (d d' : Decoder) : Prop :=
  d'.(config) = d.(config) ∧ d'.(flowTable) = d.(flowTable) ∧ d'.(appDecoder) = d.(appDecoder) ∧
  d'.(decoded) = d.(decoded).
#[export] Instance same_decoder_preorder : PreOrder same_decoder.
Proof. split; [by intros d|]. intros a b c (?&?&?&?) (?&?&?&?). repeat split; congruence. Qed.

(** What [decode] itself answers for each record of [l], called on one after the
    other with the record's time stamp and header, the packet [p] left by the one
    before and the link layer of the file: the errors, and the captures it
    accepted.  Between the calls nothing of the decoder changes but its clock. *)
Inductive answers (nsec : bool) (linktype : Z) : Decoder → Packet → list (Pcap.PacketHeader * bytes) →
    list ParseError → list Capture → Prop :=
| answers_nil d p : answers nsec linktype d p [] [] []
| answers_cons d d1 d2 p h data l err s c errs caps :
    same_decoder d d1 →
    decode now d1 data (mkCapture (timestamp nsec h) h (setDatatypeFromLinktype p linktype)) = Ret (err, (d2, (s, c))) →
    answers nsec linktype d2 c.(pkt) l errs caps →
    answers nsec linktype d p ((h, data) :: l) (err :: errs) (if failed err then caps else c :: caps).

Lemma answers_same nsec linktype d d' p l errs caps :
  same_decoder d d' → answers nsec linktype d' p l errs caps → answers nsec linktype d p l errs caps.
Proof.
  intros Hd Ha. inversion Ha; subst; [apply answers_nil|]. eapply answers_cons; [|done..]. by etrans.
Qed.

(** A visit is such a call. *)
Lemma visit_answers r h data err r1 l errs caps :
  visit now (enter r h data) data = Ret (err, r1) →
  answers r1.(is_nsec_) r1.(file_header_).(Pcap.linktype) r1.(decoder_) r1.(capture_).(pkt) l errs caps →
  answers r.(is_nsec_) r.(file_header_).(Pcap.linktype) r.(decoder_) r.(capture_).(pkt) ((h, data) :: l) (err :: errs)
    (if failed err then caps else r1.(capture_) :: caps).
Proof.
  intros Hv Ha. unfold visit in Hv. cbn zeta in Hv. apply bind_Ret_inv in Hv as ([e [d2 [s c]]] & Hd & Hv).
  assert (e = err ∧ same_decoder d2 r1.(decoder_) ∧ r1.(capture_) = c ∧ r1.(is_nsec_) = r.(is_nsec_) ∧
          r1.(file_header_) = r.(file_header_)) as (-> & Hs & Hc & Hn & Hf) by (by destruct e; injection Hv as <- <-).
  rewrite Hc, Hn, Hf in *. eapply answers_cons; [|exact Hd|by eapply answers_same]. done.
Qed.

Record accounted (r r' : Reader) (l : list (Pcap.PacketHeader * bytes)) (errs : list ParseError)
    (caps : list Capture) : Prop := {
  ac_answers : answers r.(is_nsec_) r.(file_header_).(Pcap.linktype) r.(decoder_) r.(capture_).(pkt) l errs caps;
  ac_errs : length errs = length l;
  ac_delivered : (λ c, (c.(packetHeader), c.(ts_us))) <$> caps =
                 (λ h, (h, timestamp r.(is_nsec_) h)) <$> accepted l errs;
  ac_decoded : r'.(decoder_).(decoded) = r.(decoder_).(decoded) + len caps;
  ac_skipped : r'.(skipped_) = r.(skipped_) + len (skips errs);
  ac_last : r'.(last_skip_err_) = default r.(last_skip_err_) (last (skips errs));
}.

Lemma process_accounts l fuel r acc r' caps :
  readable r → (length r.(span_) < fuel)%nat → l = records fuel r.(endian_) r.(span_) →
  0 ≤ r.(decoder_).(decoded) → 0 ≤ r.(skipped_) →
  r.(decoder_).(decoded) + len l < 2 ^ 64 → r.(skipped_) + len l < 2 ^ 64 →
  process collect l (r, acc) = Ret (r', caps) →
  readable r' ∧ packets_of r'.(endian_) r'.(span_) = [] ∧
  ∃ errs new, caps = acc ++ new ∧ accounted r r' l errs new.
Proof.
  revert fuel r acc. induction l as [|[h data] l IH]; intros fuel r acc Hok Hf El Hd0 Hs0 Hd Hs Hp.
  - injection Hp as <- <-. split; [done|]. split.
    + pose proof (round_records r fuel (proj1 Hok) Hf) as H1. rewrite <- El in H1.
      pose proof (round_records r (S (length r.(span_))) (proj1 Hok) ltac:(lia)) as H2.
      unfold packets_of. destruct (records (S _) _ _) as [|[h data] l]; [done|].
      destruct H1 as (? & ? & H1 & Hne & _), H2 as (H2 & _). rewrite H1 in H2.
      destruct (visit now _ data) as [[e r1]| |]; [|done..]. rewrite bind_ret in H2.
      destruct e; try done. by injection H2 as -> _.
    + exists [], []. rewrite app_nil_r. split; [done|].
      split; [apply answers_nil|done|done|rewrite len_nil; lia|change (skips []) with (@nil ParseError); rewrite len_nil; lia|done].
  - pose proof (round_records r fuel (proj1 Hok) Hf) as Hr. rewrite <- El in Hr.
    destruct Hr as (_ & Hb' & Hlt & El'). cbn [process fst snd] in Hp.
    apply bind_Ret_inv in Hp as ([err r1] & Hv & Hp).
    destruct (enter_readable r h data err r1 Hok Hb' Hv) as (Hok1 & Hsp & Hen).
    pose proof (enter_visit _ _ _ _ _ Hv) as [(_ & Hns & _) _].
    pose proof Hv as Hvis. apply visit_frame in Hv as (_ & _ & Hh & Hts & Hdec & Hskip).
    cbn [enter set_span set_capture began set_decoder capture_ set_header packetHeader decoder_
         is_nsec_ skipped_ last_skip_err_ started set_benchmark decoded] in Hh, Hts, Hdec, Hskip.
    rewrite len_cons in Hd, Hs. pose proof (len_nonneg l) as Hll.
    set (r0 := r) in *. apply bind_Ret_inv in Hp as (acc' & Hcb & Hp).
    destruct (IH (pred fuel) r1 acc') as (Hok' & Hend & errs & new & -> & Hacc);
      rewrite ?Hsp, ?Hen; try done; try lia.
    + rewrite Hdec. destruct (failed err); [lia|]. rewrite u64_small; lia.
    + destruct err; destruct Hskip as [-> _]; try lia; rewrite u64_small; lia.
    + rewrite Hdec. destruct (failed err); [lia|]. rewrite u64_small; lia.
    + destruct err; destruct Hskip as [-> _]; try lia; rewrite u64_small; lia.
    + split; [done|]. split; [done|].
      destruct Hacc as [H0 H1 H2 H3 H4 H5]. exists (err :: errs). pose proof (visit_answers _ _ _ _ _ _ _ _ Hvis H0) as Hans.
      assert (Hcase : (err = NoError ∧ acc' = acc ++ [r1.(capture_)]) ∨ (err ≠ NoError ∧ acc' = acc)).
      { destruct (decide (err = NoError)) as [->|Hne].
        - injection Hcb as <-. by left.
        - pose proof Hne as Hft. apply failed_true in Hft. rewrite Hft in Hcb. injection Hcb as <-. by right. }
      destruct Hcase as [[-> ->]|[Hne ->]].
      * exists (r1.(capture_) :: new). rewrite <- app_assoc. split; [done|].
        destruct Hskip as [Hs1 Hs2]. cbn [failed] in Hdec. rewrite u64_small in Hdec by lia.
        split; cbn [length accepted fmap list_fmap]; [exact Hans|lia|by rewrite H2, Hh, Hts, Hns|rewrite H3, len_cons; lia| |].
        -- rewrite H4, Hs1. unfold skips. rewrite filter_cons_False by done. done.
        -- rewrite H5, Hs2. unfold skips. rewrite filter_cons_False by done. done.
      * exists new. split; [done|]. pose proof Hne as Hft. apply failed_true in Hft. rewrite Hft in Hdec, Hans.
        split; [exact Hans|cbn; lia|destruct err; try done; by rewrite H2, Hns|by rewrite H3, Hdec| |]; unfold skips in *.
        -- destruct (is_skip err) eqn:E.
           ++ rewrite filter_cons_True, len_cons by done. destruct err; try done;
                destruct Hskip as [Hs1 _]; rewrite H4, Hs1, u64_small; lia.
           ++ rewrite filter_cons_False by (by rewrite E). destruct err; try done. by rewrite H4, (proj1 Hskip).
        -- destruct (is_skip err) eqn:E.
           ++ rewrite filter_cons_True by done.
              assert (r1.(last_skip_err_) = err) as Hl1 by (destruct err; try done; by destruct Hskip).
              rewrite H5, Hl1, last_cons. by destruct (last _).
           ++ rewrite filter_cons_False by (by rewrite E). destruct err; try done. by rewrite H5, (proj2 Hskip).
Qed.

(** ** Opening a capture *)

Lemma nsec_magic e nsec h :
  Pcap.FileHeader_ok e nsec h →
  (h.(Pcap.magic_number) =? Pcap.PCAP_MAGIC_NSEC_LE) || (h.(Pcap.magic_number) =? Pcap.PCAP_MAGIC_NSEC_BE) = nsec.
Proof. intros (-> & _). by destruct e, nsec. Qed.

Record opened (r : Reader) (e : Endian) (nsec : bool) (h : Pcap.FileHeader) (data : bytes) : Prop := {
  op_span : r.(span_) = data;
  op_header : r.(file_header_) = h;
  op_endian : r.(endian_) = e;
  op_nsec : r.(is_nsec_) = nsec;
  op_err : r.(header_err_) = NoError;
  op_decoded : r.(decoder_).(decoded) = 0;
  op_skipped : r.(skipped_) = 0;
  op_capture : r.(capture_) = zeroCapture;
}.

Lemma newReader_opens e nsec h data config detailed :
  Pcap.FileHeader_ok e nsec h →
  ∃ r, newReader now (Pcap.encodeFileHeader e nsec h ++ data) config detailed = Ret r ∧
       opened r e nsec h data.
Proof.
  intros Hh. pose proof (nsec_magic e nsec h Hh) as Hns. unfold newReader, init, readFileHeader.
  cbn [began set_decoder span_ file_header_ endian_].
  rewrite ltb_app_exact by apply Pcap.len_encodeFileHeader.
  rewrite (Pcap.parseFileHeader_encoded e nsec h _ _ data Hh), !bind_ret. cbn [failed]. rewrite bind_ret, Hns.
  eexists. split; [reflexivity|]. by split.
Qed.

(** ** Records as a tool writes them *)

Lemma records_encoded e l tail fuel :
  Forall record_ok l → (length (l ≫= encodeRecord e) + length tail < fuel)%nat →
  ∃ fuel', (length tail < fuel')%nat ∧
    records fuel e ((l ≫= encodeRecord e) ++ tail) = l ++ records fuel' e tail.
Proof.
  intros Hl. revert fuel. induction Hl as [|[h d] l [Hh Hd] _ IH]; intros fuel Hf.
  { exists fuel. cbn in *. by split; [lia|]. }
  cbn [mbind list_bind fst snd] in *. destruct fuel as [|fuel]; [lia|].
  rewrite length_app in Hf. cbn [records]. rewrite <- app_assoc. unfold encodeRecord at 1. cbn [fst snd].
  rewrite <- app_assoc, Pcap.parsePacketHeader_encoded by done.
  rewrite ltb_app_exact, Hd, ztake_app_exact, zdrop_app_exact by done.
  assert (Hlen : (16 ≤ length (encodeRecord e (h, d)))%nat).
  { unfold encodeRecord. cbn [fst snd]. rewrite length_app. pose proof (Pcap.len_encodePacketHeader e h) as H16.
    unfold len, Pcap.PACKET_HEADER_LEN in H16. lia. }
  destruct (IH fuel ltac:(lia)) as (fuel' & Hf' & ->). by exists fuel'.
Qed.

Lemma records_short fuel e tail : len tail < Pcap.PACKET_HEADER_LEN → records fuel e tail = [].
Proof.
  intros Ht. destruct fuel as [|fuel]; [done|]. cbn [records]. unfold Pcap.parsePacketHeader.
  by rewrite (proj2 (Z.ltb_lt _ _)).
Qed.

(** ** Link types with other bits set *)

Lemma visit_other r data :
  r.(file_header_).(Pcap.linktype) ≠ Pcap.LINKTYPE_ETHERNET →
  ∃ r', visit now r data = Ret (UnsupportedLinktype, r').
Proof.
  intros Hl. unfold visit. cbn zeta. unfold decode. cbn zeta.
  set (p := setDatatypeFromLinktype _ _).
  assert (Hp : p.(datalink) = DataLinkNone).
  { unfold p, setDatatypeFromLinktype. cbn. by rewrite (proj2 (Z.eqb_neq _ _)). }
  unfold PacketDecoder.decodePacket, PacketDecoder.decodeLayer2.
  cbn [capture_ began set_decoder ended set_capture set_pkt pkt reset datalink].
  rewrite Hp, !bind_ret. by eexists.
Qed.

Lemma process_other l r :
  r.(file_header_).(Pcap.linktype) ≠ Pcap.LINKTYPE_ETHERNET → 0 ≤ r.(skipped_) → r.(skipped_) + len l < 2 ^ 64 →
  ∃ r1, process collect l (r, []) = Ret (r1, []) ∧ r1.(decoder_).(decoded) = r.(decoder_).(decoded) ∧
        r1.(skipped_) = r.(skipped_) + len l.
Proof.
  revert r. induction l as [|[h d] l IH]; intros r Hl Hs0 Hs.
  { exists r. rewrite len_nil. split_and!; [done|done|lia]. }
  cbn [process fst snd]. rewrite len_cons in *. pose proof (len_nonneg l).
  destruct (visit_other (enter r h d) d Hl) as [r' Hv]. rewrite Hv, bind_ret. cbn [failed]. rewrite bind_ret.
  pose proof (enter_visit _ _ _ _ _ Hv) as [(Hf & _) _].
  apply visit_frame in Hv as (_ & _ & _ & _ & Hd & Hsk & _).
  change (skipped_ (enter r h d)) with (r.(skipped_)) in Hsk. rewrite u64_small in Hsk by lia.
  destruct (IH r') as (r1 & -> & Hd1 & Hs1); [by rewrite Hf|lia|lia|]. exists r1.
  split; [done|]. split; [by rewrite Hd1, Hd|lia].
Qed.

(** ** Properties *)

(** C9: reading a capture written by a tool of either byte order and time-stamp
    resolution is exactly decoding its records one by one in their order, each
    accepted one going to the callback before the next is touched, until what
    is left is too short for a record; bytes never shift between records. *)
Theorem readAll_capture {St} (cb : Reader → Capture → St → outcome St) (s : St) (e : Endian) (nsec : bool)
    (h : Pcap.FileHeader) (l : list (Pcap.PacketHeader * bytes)) (tail : bytes) (config : Config) (detailed : bool) :
  Pcap.FileHeader_ok e nsec h → Forall record_ok l → bytes_ok ((l ≫= encodeRecord e) ++ tail) →
  len tail < Pcap.PACKET_HEADER_LEN →
  ∃ r, newReader now (Pcap.encodeFileHeader e nsec h ++ (l ≫= encodeRecord e) ++ tail) config detailed = Ret r ∧
    opened r e nsec h ((l ≫= encodeRecord e) ++ tail) ∧
    readAllPackets now cb r s =
      ('(r1, s1) ← process cb l (began now r Benchmark.Total, s);
       '(_, r2) ← readPacket now r1;
       Ret (ended now r2 Benchmark.Total, s1)).
Proof.
  intros Hh Hl Hb Ht. destruct (newReader_opens e nsec h ((l ≫= encodeRecord e) ++ tail) config detailed Hh)
    as (r & Hr & Ho). exists r. split; [done|]. split; [done|]. destruct Ho as [Hs _ He _ Herr _ _ _].
  rewrite readAll_process by (split; [by rewrite Hs|done]). rewrite Hs, He. unfold packets_of.
  destruct (records_encoded e l tail (S (length ((l ≫= encodeRecord e) ++ tail))) Hl) as (fuel' & _ & ->);
    [rewrite length_app; lia|]. by rewrite records_short, app_nil_r.
Qed.

(** C11: nothing is lost: once a capture has been read, every record up to the
    first that is cut short or has a header the reader rejects was given to
    [decode], in order ([answers]), and was accepted, filtered out or skipped as
    [decode] answered.  The callback saw exactly the captures [decode] accepted,
    with their own headers and time stamps, and the counters of decoded and of
    skipped packets and the last error are those of its answers. *)
Theorem readAll_accounts (r r' : Reader) (caps : list Capture) :
  bytes_ok r.(span_) → r.(header_err_) = NoError →
  0 ≤ r.(decoder_).(decoded) → 0 ≤ r.(skipped_) →
  r.(decoder_).(decoded) + len (packets_of r.(endian_) r.(span_)) < 2 ^ 64 →
  r.(skipped_) + len (packets_of r.(endian_) r.(span_)) < 2 ^ 64 →
  readAllPackets now collect r [] = Ret (r', caps) →
  ∃ errs, accounted r r' (packets_of r.(endian_) r.(span_)) errs caps.
Proof.
  intros Hb He Hd0 Hs0 Hd Hs Hread. rewrite readAll_process in Hread by done.
  apply bind_Ret_inv in Hread as ([r1 caps1] & Hp & Hread).
  apply bind_Ret_inv in Hread as ([err r2] & Hlast & [= <- <-]).
  destruct (process_accounts (packets_of r.(endian_) r.(span_)) (S (length r.(span_)))
    (began now r Benchmark.Total) [] r1 caps1) as (Hok1 & Hend & errs & new & -> & Hacc); try done; [cbn; lia|].
  exists errs. cbn [app]. rewrite readPacket_step in Hlast by done.
  pose proof (round_records r1 (S (length r1.(span_))) (proj1 Hok1) ltac:(lia)) as Hr.
  unfold packets_of in Hend. rewrite Hend in Hr. destruct Hr as (err' & r3 & E & _ & Ed & Es & El).
  rewrite E, bind_ret in Hlast. injection Hlast as <- <-.
  destruct Hacc as [H0 H1 H2 H3 H4 H5]. split; cbn [ended set_decoder stopped set_benchmark decoder_ decoded skipped_ last_skip_err_];
    [by eapply answers_same; [|exact H0]|done|done|by rewrite Ed|by rewrite Es|by rewrite El].
Qed.

(** C26: a capture whose link type says Ethernet with the length of a frame check
    sequence in its upper bits passes the file header's test, which masks
    those bits, and then loses every packet, since the packet's link layer is
    chosen without the mask: nothing is decoded and every record is skipped. *)
Theorem fcs_linktype (e : Endian) (nsec : bool) (h : Pcap.FileHeader) (data : bytes) (config : Config)
    (detailed : bool) :
  Pcap.FileHeader_ok e nsec h → h.(Pcap.linktype) ≠ Pcap.LINKTYPE_ETHERNET → bytes_ok data →
  len (packets_of e data) < 2 ^ 64 →
  ∃ r r', newReader now (Pcap.encodeFileHeader e nsec h ++ data) config detailed = Ret r ∧
    r.(header_err_) = NoError ∧ readAllPackets now collect r [] = Ret (r', []) ∧
    r'.(decoder_).(decoded) = 0 ∧ r'.(skipped_) = len (packets_of e data).
Proof.
  intros Hh Hl Hb Hlen. destruct (newReader_opens e nsec h data config detailed Hh) as (r & Hr & Ho).
  exists r. destruct Ho as [Hs Hf He Hn Herr Hd Hsk _].
  assert (Hlr : (began now r Benchmark.Total).(file_header_).(Pcap.linktype) ≠ Pcap.LINKTYPE_ETHERNET) by (cbn; by rewrite Hf).
  assert (Hs0 : (began now r Benchmark.Total).(skipped_) = 0) by done.
  destruct (process_other (packets_of e data) (began now r Benchmark.Total) Hlr) as (r1 & Hp & Hd1 & Hs1);
    [lia|lia|].
  destruct (process_accounts (packets_of e data) (S (length data)) (began now r Benchmark.Total) [] r1 [])
    as (Hok1 & Hend & _);
    [split; [cbn; by rewrite Hs|done]|cbn; rewrite Hs; lia|cbn; by rewrite Hs, He| |lia| |lia|done|].
  { change (0 ≤ r.(decoder_).(decoded)). lia. }
  { change (r.(decoder_).(decoded) + len (packets_of e data) < 2 ^ 64). lia. }
  pose proof (round_records r1 (S (length r1.(span_))) (proj1 Hok1) ltac:(lia)) as Hrd.
  unfold packets_of in Hend. rewrite Hend in Hrd. destruct Hrd as (err' & r3 & E & _ & Ed & Es & _).
  exists (ended now r3 Benchmark.Total). split; [done|]. split; [done|]. split.
  - rewrite readAll_process by (split; [by rewrite Hs|done]). rewrite Hs, He, Hp, bind_ret. cbn iota beta.
    rewrite readPacket_step, E, !bind_ret by done. done.
  - cbn. split; [by rewrite Ed, Hd1|]. rewrite Es, Hs1, Hs0. done.
Qed.
End spec.

(** ** Witnesses *)

Definition sample_header (linktype : Z) : Pcap.FileHeader :=
  Pcap.mkFileHeader Pcap.PCAP_MAGIC_USEC_LE 2 4 0 0 65535 linktype.
Definition sample_records : list (Pcap.PacketHeader * bytes) :=
  [(Pcap.mkPacketHeader 1 7 (len sample_datagram) 100, sample_datagram);
   (Pcap.mkPacketHeader 2 8 3 3, [1; 2; 3])].
Definition sample_data : bytes := (sample_records ≫= encodeRecord Little) ++ [5; 5].

Lemma sample_header_ok n :
  0 ≤ n < 16 → Pcap.FileHeader_ok Little false (sample_header (n * 2 ^ 28 + 1)).
Proof.
  intros Hn. unfold Pcap.FileHeader_ok, Pcap.is_u32. cbn [sample_header Pcap.magic_number Pcap.major_version
    Pcap.minor_version Pcap.reserved1 Pcap.reserved2 Pcap.snaplen Pcap.linktype].
  split_and!; try done; try lia.
  change 0x0FFFFFFF with (Z.ones 28). rewrite Z.land_ones by done.
  rewrite Z.add_comm, Z.mod_add by done. done.
Qed.
Lemma sample_records_ok : Forall record_ok sample_records.
Proof.
  constructor; [|constructor; [|constructor]]; (split; [|done]); unfold Pcap.PacketHeader_ok, Pcap.is_u32; by vm_compute.
Qed.
Lemma sample_data_bytes : bytes_ok sample_data.
Proof. unfold bytes_ok. vm_compute. repeat (apply Forall_cons_2; [split; done|]). by apply Forall_nil_2. Qed.

Lemma readAll_capture_witness :
  ∃ r, newReader sample_now (Pcap.encodeFileHeader Little false (sample_header 1) ++
                             (sample_records ≫= encodeRecord Little) ++ [5; 5]) defaultConfig true = Ret r ∧
    opened r Little false (sample_header 1) ((sample_records ≫= encodeRecord Little) ++ [5; 5]) ∧
    readAllPackets sample_now collect r [] =
      ('(r1, s1) ← process sample_now collect sample_records (began sample_now r Benchmark.Total, []);
       '(_, r2) ← readPacket sample_now r1;
       Ret (ended sample_now r2 Benchmark.Total, s1)).
Proof.
  apply (readAll_capture sample_now collect [] Little false (sample_header 1) sample_records [5; 5]).
  - apply (sample_header_ok 0). lia.
  - apply sample_records_ok.
  - apply sample_data_bytes.
  - done.
Defined.

Definition sample_reader : Reader :=
  match newReader sample_now (Pcap.encodeFileHeader Little false (sample_header 1) ++ sample_data)
                  defaultConfig true with
  | Ret r => r
  | _ => mkReader [] zeroCapture Pcap.zeroFileHeader sample_decoder false Little NoError 0 NoError false
  end.
Definition sample_read : Reader * list Capture :=
  returned (sample_reader, []) (readAllPackets sample_now collect sample_reader []).
Lemma sample_read_eq :
  readAllPackets sample_now collect sample_reader [] = Ret (sample_read.1, sample_read.2).
Proof.
  rewrite <- surjective_pairing. apply returns_eq. vm_compute. reflexivity.
Qed.
Example sample_read_counts :
  (sample_read.1.(decoder_).(decoded), sample_read.1.(skipped_), sample_read.1.(last_skip_err_),
   ts_us <$> sample_read.2) = (1, 1, UnexpectedEof, [1000007]).
Proof. vm_compute. reflexivity. Qed.

Lemma readAll_accounts_witness :
  ∃ errs, accounted sample_now sample_reader sample_read.1
            (packets_of sample_reader.(endian_) sample_reader.(span_)) errs sample_read.2.
Proof.
  apply (readAll_accounts sample_now); [|by vm_compute..|apply sample_read_eq].
  unfold bytes_ok. vm_compute. repeat (apply Forall_cons_2; [split; done|]). by apply Forall_nil_2.
Defined.

Lemma fcs_linktype_witness :
  ∃ r r', newReader sample_now (Pcap.encodeFileHeader Little false (sample_header 0x40000001) ++ sample_data)
            defaultConfig false = Ret r ∧
    r.(header_err_) = NoError ∧ readAllPackets sample_now collect r [] = Ret (r', []) ∧
    r'.(decoder_).(decoded) = 0 ∧ r'.(skipped_) = len (packets_of Little sample_data).
Proof.
  apply fcs_linktype; [apply (sample_header_ok 4); lia|done|apply sample_data_bytes|by vm_compute].
Defined.
