(* ===== verification/StatsEngine.v ===== *)
(** The reports: [include/net/analysis/stats_engine.h],
    [src/net/analysis/stats_engine.cpp].

    The order in which the standard library walks a hash map, and the order in
    which its sort leaves equal elements, are parameters.  A [std::map] is the
    list of its pairs in the order of their keys.  The engine's references are
    the arguments of its operations. *)
From S2P Require Import Prelude Text Double FlowKey FlowTable.
From S2P Require Ip Ipv4 Ipv6 Http TcpReassembler DnsTable AppDecoder Benchmark.
From stdpp Require Import gmap sorting.
#[local] Open Scope Z_scope.

Record StatsEngine := mkStatsEngine {
  flowTable : FlowTable;
  appDecoder : AppDecoder.AppDecoder;
  benchmark : Benchmark.Benchmark;
  print_limit : Z;
}.
Definition dnsTable (e : StatsEngine) : DnsTable.DnsTable := e.(appDecoder).(AppDecoder.dnsTable_).

(** [FlowTable::Flow::payloadPercent]. *)
Definition payloadPercent (f : Flow) (total_bytes_all : Z) : double :=
  if total_bytes_all =? 0 then of_uint 0
  else Double.div (Double.mul (of_uint 100) (of_uint (totalBytes f))) (of_uint total_bytes_all).

(** [protocolBytes[kp->protocol] += fp->totalBytes()]. *)
Definition add_protocol (m : gmap Z Z) (p : FlowKey * Flow) : gmap Z Z :=
  <[p.1.(protocol) := u64 (default 0 (m !! p.1.(protocol)) + totalBytes p.2)]> m.

(** [std::string]'s [<]. *)
Fixpoint string_lt (a b : bytes) : bool :=
  match a, b with
  | x :: a, y :: b => if x =? y then string_lt a b else x <? y
  | [], _ :: _ => true
  | _, [] => false
  end.

Abbreviation Address := (DnsTable.IpKey * bytes)%type.
(** [resolved[domain].emplace_back(...)]. *)
Fixpoint resolve (domain : bytes) (a : Address) (resolved : list (bytes * list Address))
    : list (bytes * list Address) :=
  match resolved with
  | [] => [(domain, [a])]
  | (name, addrs) :: rest =>
      if bool_decide (name = domain) then (name, addrs ++ [a]) :: rest
      else if string_lt domain name then (domain, [a]) :: resolved
      else (name, addrs) :: resolve domain a rest
  end.
Definition address_before (a b : Address) : bool :=
  if negb (eqb a.1.(DnsTable.isIpv4) b.1.(DnsTable.isIpv4)) then a.1.(DnsTable.isIpv4)
  else bool_decide (memcmp a.1.(DnsTable.ip) b.1.(DnsTable.ip) = Lt).

Definition ip_text (k : DnsTable.IpKey) : outcome bytes :=
  if k.(DnsTable.isIpv4) then Ipv4.printIp k.(DnsTable.ip) else Ipv6.printIp k.(DnsTable.ip).

(** The loop over the table of names. *)
Fixpoint resolveAll (l : list (DnsTable.IpKey * list bytes)) (resolved : list (bytes * list Address))
    : outcome (list (bytes * list Address)) :=
  match l with
  | [] => Ret resolved
  | (ip, domains) :: l =>
      text ← ip_text ip;
      resolveAll l (foldl (λ r domain, resolve domain (ip, text) r) resolved domains)
  end.

(** A list with a separator between its elements. *)
Fixpoint separated {A} (sep : bytes) (print : A → bytes) (l : list A) : bytes :=
  match l with
  | [] => []
  | [x] => print x
  | x :: l => print x ++ sep ++ separated sep print l
  end.

(** The first domain of an address, when there is one. *)
Definition first_domain (t : DnsTable.DnsTable) (ip : bytes) (isIpv4 : bool) : option bytes :=
  match DnsTable.domainsFor t ip isIpv4 with Some (d :: _) => Some d | _ => None end.

Definition printStats (label : string) (s : FlowStats) : bytes :=
  if s.(stat_bytes) =? 0 then [] else
  chars "  " ++ chars label ++ chars "=" ++ dec s.(packets) ++ chars "pkts/" ++ printBytes s.(stat_bytes) ++
  when (1 <? s.(packets)) (chars " avg=" ++ dec (s.(stat_bytes) / s.(packets)) ++ chars "B").

(** [static_cast<double>(totalBytes) * 8.0 * 1e6 / static_cast<double>(durationUs)]. *)
Definition rate (f : Flow) : double :=
  Double.div (mul (Double.mul (of_uint (totalBytes f)) (of_uint 8)) (of_uint 1000000)) (of_uint (durationUs f)).
Definition has_rate (f : Flow) : bool := negb (durationUs f =? 0) && (1 <? totalPackets f).

Definition printFlow (e : StatsEngine) (key : FlowKey) (flow : Flow) : outcome bytes :=
  let percent := payloadPercent flow e.(flowTable).(total_bytes) in
  k ← FlowKey.toString key;
  let src := first_domain (dnsTable e) key.(src_ip) key.(FlowKey.isIpv4) in
  let dst := first_domain (dnsTable e) key.(dst_ip) key.(FlowKey.isIpv4) in
  Ret (chars "(" ++
       (if Double.lt (of_uint 0) percent && Double.lt percent (Double.div (of_uint 1) (of_uint 100))
        then chars "<0.01" else fixed 2 percent) ++
       chars "%)  " ++ k ++
       match src, dst with
       | None, None => []
       | Some s, None => chars "  [src=" ++ s ++ chars "]"
       | None, Some d => chars "  [dst=" ++ d ++ chars "]"
       | Some s, Some d => chars "  [src=" ++ s ++ chars ", dst=" ++ d ++ chars "]"
       end ++
       printStats "fwd" flow.(fwd_stats) ++ printStats "rev" flow.(rev_stats) ++
       when (key.(protocol) =? Ip.PROTOCOL_TCP)
            (chars "  TCP=" ++ chars (TcpReassembler.toString flow.(fwd_tcp).(TcpReassembler.state)) ++ chars "/" ++
             chars (TcpReassembler.toString flow.(rev_tcp).(TcpReassembler.state))) ++
       when (has_rate flow) (chars "  rate=" ++ printRate (rate flow)) ++
       [newline]).

(** *** HTTP messages *)

Definition describe (msg : Http.Header) : bytes :=
  (if Http.isRequest msg then
     msg.(Http.method) ++ chars " " ++ msg.(Http.target) ++ chars " " ++ msg.(Http.version) ++
     match Http.fieldValue msg (chars "Host") with
     | Some host => chars "  Host: " ++ host
     | None => []
     end
   else
     msg.(Http.version) ++ chars " " ++ dec msg.(Http.status_code) ++
     when (negb (bool_decide (msg.(Http.reason_phrase) = []))) (chars " " ++ msg.(Http.reason_phrase)) ++
     match Http.fieldValue msg (chars "Content-Type") with
     | Some type => chars "  " ++ type
     | None => []
     end) ++
  (if msg.(Http.chunked) then chars "  [chunked]"
   else if msg.(Http.has_content_length) then chars "  [" ++ dec msg.(Http.content_length) ++ chars "B]"
   else []) ++ [newline].

(** What the three nested loops carry: the output, [printed], [truncated]. *)
Record Printing := mkPrinting { out : bytes; printed : Z; truncated : bool }.

Fixpoint printMessages (limit : Z) (prefix : bytes) (l : list Http.Header) (p : Printing) : Printing :=
  match l with
  | [] => p
  | msg :: l =>
      if negb (limit =? 0) && (limit <=? p.(printed)) then mkPrinting p.(out) p.(printed) true
      else printMessages limit prefix l
             (mkPrinting (p.(out) ++ prefix ++ describe msg) (p.(printed) + 1) p.(truncated))
  end.

Definition printDirection (e : StatsEngine) (key : FlowKey) (reverse : bool) (p : Printing) : outcome Printing :=
  match AppDecoder.getApplications e.(appDecoder) key reverse with
  | None => Ret p
  | Some apps =>
      if bool_decide (apps.(AppDecoder.http_messages) = []) then Ret p else
      k ← FlowKey.toString key;
      Ret (printMessages e.(print_limit) (chars "  " ++ k ++ chars (if reverse then "  <-  " else "  ->  "))
                         apps.(AppDecoder.http_messages) p)
  end.

Fixpoint printHttpFlows (e : StatsEngine) (l : list (FlowKey * Flow)) (p : Printing) : outcome Printing :=
  match l with
  | [] => Ret p
  | (key, _) :: l =>
      p ← printDirection e key false p;
      p ← (if p.(truncated) then Ret p else printDirection e key true p);
      if p.(truncated) then Ret p else printHttpFlows e l p
  end.

Section reports.
Context (iterate : gmap FlowKey Flow → list (FlowKey * Flow)).
Context (iterate_protocols : gmap Z Z → list (Z * Z)).
Context (iterate_names : DnsTable.DnsTable → list (DnsTable.IpKey * list bytes)).
Context (sort : ∀ A, (A → A → bool) → list A → list A).

Definition sortedProtocolsByBytes (sortedFlow : list (FlowKey * Flow)) : list (Z * Z) :=
  sort _ (λ a b, b.2 <? a.2) (iterate_protocols (foldl add_protocol ∅ sortedFlow)).

Fixpoint printNames (limit printed : Z) (l : list (bytes * list Address)) : bytes :=
  match l with
  | [] => []
  | (name, addrs) :: l =>
      if negb (printed =? 0) && (printed =? limit) then chars "  ... limit reached" ++ [newline]
      else chars "  " ++ Benchmark.left_setw 48 name ++ chars " " ++
           separated (chars ", ") snd (sort _ address_before addrs) ++ [newline] ++
           printNames limit (printed + 1) l
  end.

Definition printDns (e : StatsEngine) : outcome bytes :=
  resolved ← resolveAll (iterate_names (dnsTable e)) [];
  Ret (chars "  names resolved    " ++ dec (len resolved) ++ [newline] ++
       printNames e.(print_limit) 0 resolved ++
       when (bool_decide (resolved = [])) (chars "  (no answers)" ++ [newline]) ++ [newline]).

Definition printHttp (e : StatsEngine) : outcome bytes :=
  p ← printHttpFlows e (allFlows iterate (sort _) e.(flowTable)) (mkPrinting [] 0 false);
  Ret (p.(out) ++
       when (p.(printed) =? 0) (chars "  (none)" ++ [newline]) ++
       when p.(truncated) (chars "  ... limit reached" ++ [newline]) ++ [newline]).

Definition printBenchmark (e : StatsEngine) : bytes := Benchmark.report e.(benchmark) ++ [newline].

(** [100.0 * bytes / total_bytes()]. *)
Definition share (e : StatsEngine) (n : Z) : double :=
  if e.(flowTable).(total_bytes) =? 0 then of_uint 0
  else Double.div (Double.mul (of_uint 100) (of_uint n)) (of_uint e.(flowTable).(total_bytes)).

Fixpoint printFlows (e : StatsEngine) (printed : Z) (l : list (FlowKey * Flow)) : outcome bytes :=
  match l with
  | [] => Ret []
  | (key, flow) :: l =>
      if negb (printed =? 0) && (printed =? e.(print_limit))
      then Ret (chars "  ... limit reached" ++ [newline])
      else
        s ← printFlow e key flow;
        t ← printFlows e (printed + 1) l;
        Ret (chars "  " ++ s ++ t)
  end.

Definition toString (e : StatsEngine) : outcome bytes :=
  let sortedFlow := allFlows iterate (sort _) e.(flowTable) in
  let sortedProtocols := sortedProtocolsByBytes sortedFlow in
  flows ← printFlows e 0 sortedFlow;
  Ret (chars "FlowTable (" ++ dec (len sortedFlow) ++ chars " flows" ++
       when (negb (e.(print_limit) =? 0) && negb (e.(print_limit) =? len sortedFlow))
            (chars ", showing " ++ dec e.(print_limit)) ++
       chars ")  [" ++
       separated (chars "  ")
         (λ p, Ip.protocolName p.1 ++ chars ": " ++ fixed 2 (share e p.2) ++ chars "%") sortedProtocols ++
       chars "] {" ++ [newline] ++ flows ++ chars "}" ++ [newline]).

(** *** JSON *)

Definition jsonStats (label : string) (s : FlowStats) : bytes :=
  jstr "`" ++ chars label ++ jstr "`: { `packets`: " ++ dec s.(packets) ++ jstr ", `bytes`: " ++
  dec s.(stat_bytes) ++ chars " }".

Definition jsonDomain (label : string) (d : option bytes) : bytes :=
  match d with
  | Some d => chars "      " ++ jstr "`" ++ chars label ++ jstr "`: `" ++ jsonEscape d ++ jstr "`," ++ [newline]
  | None => []
  end.

Definition jsonProtocol (e : StatsEngine) (p : Z * Z) : bytes :=
  chars "    {" ++ [newline] ++
  jstr "      `protocol`: `" ++ Ip.protocolName p.1 ++ jstr "`," ++ [newline] ++
  jstr "      `bytes`: " ++ dec p.2 ++ chars "," ++ [newline] ++
  jstr "      `percent`: " ++ general (share e p.2) ++ [newline] ++
  chars "    }".

Definition jsonFlow (e : StatsEngine) (key : FlowKey) (flow : Flow) : outcome bytes :=
  k ← FlowKey.toJson key;
  Ret (chars "    {" ++ [newline] ++
       jstr "      `percent`: " ++ general (payloadPercent flow e.(flowTable).(total_bytes)) ++ chars "," ++ [newline] ++
       indent k (chars "      ") ++ chars "," ++ [newline] ++
       jsonDomain "src_domain" (first_domain (dnsTable e) key.(src_ip) key.(FlowKey.isIpv4)) ++
       jsonDomain "dst_domain" (first_domain (dnsTable e) key.(dst_ip) key.(FlowKey.isIpv4)) ++
       chars "      " ++ jsonStats "fwd" flow.(fwd_stats) ++ chars "," ++ [newline] ++
       chars "      " ++ jsonStats "rev" flow.(rev_stats) ++
       when (key.(protocol) =? Ip.PROTOCOL_TCP)
         (chars "," ++ [newline] ++ jstr "      `tcp`: { `fwd_state`: `" ++
          chars (TcpReassembler.toString flow.(fwd_tcp).(TcpReassembler.state)) ++
          jstr "`, `rev_state`: `" ++
          chars (TcpReassembler.toString flow.(rev_tcp).(TcpReassembler.state)) ++ jstr "` }") ++
       chars "," ++ [newline] ++ jstr "      `duration_us`: " ++ dec (durationUs flow) ++
       when (has_rate flow) (chars "," ++ [newline] ++ jstr "      `rate_bps`: " ++ general (rate flow)) ++
       [newline] ++ chars "    }").

(** The text of the flows, and whether the limit was reached. *)
Fixpoint jsonFlows (e : StatsEngine) (printed : Z) (l : list (FlowKey * Flow)) : outcome (bytes * bool) :=
  match l with
  | [] => Ret ([], false)
  | (key, flow) :: l =>
      if negb (printed =? 0) && (printed =? e.(print_limit)) then Ret ([], true)
      else
        s ← jsonFlow e key flow;
        '(t, reached) ← jsonFlows e (printed + 1) l;
        Ret (when (negb (printed =? 0)) (chars "," ++ [newline]) ++ s ++ t, reached)
  end.

Definition toJson (e : StatsEngine) : outcome bytes :=
  let sortedFlow := allFlows iterate (sort _) e.(flowTable) in
  let sortedProtocols := sortedProtocolsByBytes sortedFlow in
  '(flows, limit_reached) ← jsonFlows e 0 sortedFlow;
  Ret (jstr "`stats_engine`: {" ++ [newline] ++
       jstr "  `flow_count`: " ++ dec (len sortedFlow) ++ chars "," ++ [newline] ++
       jstr "  `total_bytes`: " ++ dec e.(flowTable).(total_bytes) ++ chars "," ++ [newline] ++
       jstr "  `protocols`: [" ++ [newline] ++
       separated (chars "," ++ [newline]) (jsonProtocol e) sortedProtocols ++
       [newline] ++ chars "  ]," ++ [newline] ++
       jstr "  `flows`: [" ++ [newline] ++ flows ++ [newline] ++ chars "  ]" ++
       when limit_reached (chars "," ++ [newline] ++ jstr "  `limit_reached`: true") ++
       [newline] ++ chars "}").
End reports.

(** ** Lemmas: what the HTTP report lists *)

Definition key_text (key : FlowKey) : bytes :=
  match FlowKey.toString key with Ret k => k | _ => [] end.
Definition direction_lines (e : StatsEngine) (key : FlowKey) (reverse : bool) : list bytes :=
  (λ msg, (chars "  " ++ key_text key ++ chars (if reverse then "  <-  " else "  ->  ")) ++ describe msg) <$>
  match AppDecoder.getApplications e.(appDecoder) key reverse with
  | Some apps => apps.(AppDecoder.http_messages)
  | None => []
  end.
Definition flow_lines (e : StatsEngine) (p : FlowKey * Flow) : list bytes :=
  direction_lines e p.1 false ++ direction_lines e p.1 true.

(** Lines up to a limit, 0 for none. *)
Fixpoint print_lines (limit : Z) (l : list bytes) (p : Printing) : Printing :=
  match l with
  | [] => p
  | s :: l =>
      if negb (limit =? 0) && (limit <=? p.(printed)) then mkPrinting p.(out) p.(printed) true
      else print_lines limit l (mkPrinting (p.(out) ++ s) (p.(printed) + 1) p.(truncated))
  end.
Definition upto {A} (limit : Z) (l : list A) : list A := if limit =? 0 then l else ztake limit l.

Lemma upto_nil {A} limit : upto limit (@nil A) = [].
Proof. unfold upto, ztake. destruct (limit =? 0); [done|apply firstn_nil]. Qed.

Lemma printMessages_lines limit prefix l p :
  printMessages limit prefix l p = print_lines limit ((λ m, prefix ++ describe m) <$> l) p.
Proof.
  revert p. induction l as [|m l IH]; intros p; [done|]. cbn [printMessages fmap list_fmap print_lines].
  split_if; [done|]. apply IH.
Qed.

Lemma print_lines_app limit l k p :
  p.(truncated) = false →
  print_lines limit (l ++ k) p =
  if (print_lines limit l p).(truncated) then print_lines limit l p
  else print_lines limit k (print_lines limit l p).
Proof.
  revert p. induction l as [|s l IH]; intros p Hp; cbn [print_lines app]; [by rewrite Hp|].
  split_if; [done|]. by apply IH.
Qed.

Lemma printDirection_lines e key reverse p :
  Key_ok key → p.(truncated) = false →
  printDirection e key reverse p = Ret (print_lines e.(print_limit) (direction_lines e key reverse) p).
Proof.
  intros Hk Hp. unfold printDirection, direction_lines, key_text.
  destruct (AppDecoder.getApplications _ _ _) as [apps|]; [|done].
  case_bool_decide as Hm; [by rewrite Hm|].
  destruct (wp_returns _ _ (proj1 (wp_toString key Hk))) as (k & -> & _).
  by rewrite bind_ret, printMessages_lines.
Qed.

Lemma printHttpFlows_lines e l p :
  Forall (λ q, Key_ok q.1) l → p.(truncated) = false →
  printHttpFlows e l p = Ret (print_lines e.(print_limit) (l ≫= flow_lines e) p).
Proof.
  intros Hl. revert p. induction Hl as [|[key f] l Hk _ IH]; intros p Hp; [done|].
  cbn [printHttpFlows mbind list_bind fst] in *. rewrite printDirection_lines, bind_ret by done.
  unfold flow_lines at 1. cbn [fst]. rewrite <- app_assoc, print_lines_app by done.
  set (p1 := print_lines _ (direction_lines e key false) p).
  destruct (truncated p1) eqn:E1; [by rewrite bind_ret, E1|].
  rewrite printDirection_lines, bind_ret by done. rewrite print_lines_app by done.
  set (p2 := print_lines _ (direction_lines e key true) p1).
  destruct (truncated p2) eqn:E2; [done|]. by apply IH.
Qed.

Lemma print_lines_spec limit l p :
  0 ≤ p.(printed) → p.(truncated) = false → (limit ≠ 0 → p.(printed) ≤ limit) →
  let room := if limit =? 0 then l else ztake (limit - p.(printed)) l in
  print_lines limit l p =
  mkPrinting (p.(out) ++ concat room) (p.(printed) + len room) (len room <? len l).
Proof.
  cbn zeta. revert p. induction l as [|s l IH]; intros p Hp Ht Hlim; cbn [print_lines].
  { unfold ztake. rewrite firstn_nil. destruct (limit =? 0); rewrite len_nil; cbn [concat];
      rewrite app_nil_r, Z.add_0_r; destruct p; cbn in *; by subst. }
  destruct (Z.eqb_spec limit 0) as [->|Hne]; cbn [negb andb].
  - rewrite IH by (cbn; try done; lia). cbn [out printed Z.eqb]. rewrite !len_cons, <- app_assoc. cbn [concat].
    f_equal; [lia|]. rewrite !Z.ltb_irrefl. done.
  - specialize (Hlim Hne). destruct (Z.leb_spec limit p.(printed)).
    + assert (limit - p.(printed) = 0) as -> by lia. change (ztake 0 (s :: l)) with (@nil bytes). cbn [concat].
      rewrite app_nil_r, (@len_nil bytes), Z.add_0_r. by f_equal.
    + rewrite IH by (cbn; try done; lia). cbn [out printed].
      assert (ztake (limit - p.(printed)) (s :: l) = s :: ztake (limit - (p.(printed) + 1)) l) as ->.
      { unfold ztake. replace (Z.to_nat (limit - printed p)) with (S (Z.to_nat (limit - (printed p + 1)))) by lia. done. }
      rewrite !len_cons, <- app_assoc. cbn [concat]. f_equal; [lia|].
      destruct (Z.ltb_spec (len (ztake (limit - (printed p + 1)) l)) (len l)); symmetry;
        [apply Z.ltb_lt|apply Z.ltb_ge]; lia.
Qed.

(** ** Lemmas: bytes by protocol *)

Definition protocols (l : list (FlowKey * Flow)) : list Z := (λ q, q.1.(protocol)) <$> l.
Definition protocol_bytes (p : Z) (l : list (FlowKey * Flow)) : Z :=
  sum_by totalBytes (base.filter (λ q, q.1.(protocol) = p) l).
Definition total (l : list Z) : Z := foldr Z.add 0 l.

#[local] Instance total_perm : Proper ((≡ₚ) ==> (=)) total.
Proof. intros l l'. unfold total. induction 1; cbn [foldr] in *; lia. Qed.

Lemma total_insert (m : gmap Z Z) k v :
  total (map_to_list (<[k := v]> m)).*2 = v - default 0 (m !! k) + total (map_to_list m).*2.
Proof.
  assert (Hnew : ∀ m' : gmap Z Z, m' !! k = None →
    total (map_to_list (<[k := v]> m')).*2 = v + total (map_to_list m').*2).
  { intros m' Hm. by rewrite map_to_list_insert. }
  destruct (m !! k) as [v0|] eqn:E; cbn [default from_option id]; [|rewrite Hnew by done; lia].
  rewrite <- insert_delete_eq, Hnew by apply lookup_delete_eq.
  rewrite <- (map_to_list_delete m k v0 E). unfold total. cbn [fmap list_fmap foldr snd]. lia.
Qed.

Lemma totalBytes_nonneg f : 0 ≤ totalBytes f.
Proof. apply u64_range. Qed.
Lemma sum_by_nonneg l : 0 ≤ sum_by totalBytes l.
Proof. induction l as [|q l IH]; cbn; [done|]. pose proof (totalBytes_nonneg q.2). lia. Qed.
Lemma protocol_bytes_le p l : 0 ≤ protocol_bytes p l ≤ sum_by totalBytes l.
Proof.
  unfold protocol_bytes. split; [apply sum_by_nonneg|]. induction l as [|q l IH]; [done|].
  rewrite filter_cons. cbn [sum_by]. pose proof (totalBytes_nonneg q.2).
  destruct (decide _); cbn [sum_by]; lia.
Qed.

(** The hash map after all the flows. *)
Lemma add_protocols l :
  sum_by totalBytes l < 2 ^ 64 →
  (∀ p, foldl add_protocol ∅ l !! p =
        if decide (p ∈ protocols l) then Some (protocol_bytes p l) else None) ∧
  total (map_to_list (foldl add_protocol ∅ l)).*2 = sum_by totalBytes l.
Proof.
  induction l as [|q l IH] using rev_ind; intros Hmax.
  { split; [|cbn [foldl]; by rewrite map_to_list_empty]. intros p. cbn. rewrite lookup_empty.
    destruct (decide _) as [Hin|]; [by apply elem_of_nil in Hin|done]. }
  rewrite sum_by_app in *. cbn [sum_by] in *. pose proof (totalBytes_nonneg q.2) as Hq.
  destruct IH as [IH Ht]; [lia|]. rewrite foldl_app. cbn [foldl]. set (m := foldl add_protocol ∅ l) in *.
  set (k := q.1.(protocol)).
  assert (Hnew : u64 (default 0 (m !! k) + totalBytes q.2) = protocol_bytes k l + totalBytes q.2).
  { pose proof (protocol_bytes_le k l). rewrite u64_small; rewrite IH; destruct (decide _) as [|Hni]; cbn [default from_option id]; try lia.
    - assert (protocol_bytes k l = 0) as ->; [|lia]. unfold protocol_bytes.
      assert (base.filter (λ q0 : FlowKey * Flow, protocol q0.1 = k) l = []) as ->; [|done].
      clear -Hni. induction l as [|q0 l IH]; [done|]. rewrite filter_cons.
      cbn [protocols fmap list_fmap] in Hni. apply not_elem_of_cons in Hni as [Hne Hni].
      rewrite decide_False by congruence. by apply IH.
    }
  unfold add_protocol. fold k. rewrite Hnew. split.
  - intros p. unfold protocols, protocol_bytes. rewrite fmap_app, list.filter_app, sum_by_app.
    destruct (decide (p = k)) as [->|Hne].
    + rewrite lookup_insert_eq, decide_True by (apply elem_of_app; right; left).
      rewrite filter_cons_True by done. cbn [sum_by base.filter list_filter]. unfold protocol_bytes. f_equal. lia.
    + rewrite lookup_insert_ne, IH by done. rewrite filter_cons_False by (fold k; congruence).
      cbn [sum_by base.filter list_filter]. unfold protocols, protocol_bytes.
      destruct (decide (p ∈ _)) as [H1|H1], (decide (p ∈ _ ++ _)) as [H2|H2]; try done.
      * f_equal. cbn. lia.
      * exfalso. apply H2, elem_of_app. by left.
      * exfalso. apply elem_of_app in H2 as [?|H2]; [done|]. cbn in H2. apply list_elem_of_singleton in H2. done.
  - rewrite total_insert, Ht. rewrite IH in *. pose proof (protocol_bytes_le k l) as Hle.
    destruct (decide _) as [|Hni]; cbn [default from_option id] in *; [lia|]. rewrite u64_small in Hnew by lia. lia.
Qed.

(** [std::sort] at every type. *)
Definition sorts_all (sort : ∀ A, (A → A → bool) → list A → list A) : Prop := ∀ A, sorts (sort A).

(** ** Properties *)

(** C24: the protocols of the report: each protocol of a flow once, with the bytes
    of all its flows, the largest first, and together all the bytes there are. *)
Theorem protocols_correct (iterate_protocols : gmap Z Z → list (Z * Z))
    (sort : ∀ A, (A → A → bool) → list A → list A) (l : list (FlowKey * Flow)) :
  (∀ m, iterate_protocols m ≡ₚ map_to_list m) → sorts_all sort → sum_by totalBytes l < 2 ^ 64 →
  let r := sortedProtocolsByBytes iterate_protocols sort l in
  NoDup r.*1 ∧ (∀ p n, (p, n) ∈ r ↔ p ∈ protocols l ∧ n = protocol_bytes p l) ∧
  StronglySorted (λ a b, b.2 ≤ a.2) r ∧ total r.*2 = sum_by totalBytes l.
Proof.
  intros Hit Hsort Hmax r. destruct (add_protocols l Hmax) as [Hm Ht]. set (m := foldl add_protocol ∅ l) in *.
  destruct (Hsort _ (λ a b : Z * Z, b.2 <? a.2) (iterate_protocols m)) as [Hp Hs];
    [intros; lia|intros; lia|intros; lia|].
  assert (Hperm : r ≡ₚ map_to_list m) by (unfold r, sortedProtocolsByBytes; fold m; by rewrite Hp).
  split_and!.
  - rewrite Hperm. apply NoDup_fst_map_to_list.
  - intros p n. rewrite Hperm, elem_of_map_to_list, Hm. destruct (decide _); naive_solver.
  - unfold r, sortedProtocolsByBytes. fold m. eapply StronglySorted_weaken, Hs. cbn. intros a b ?. lia.
  - by rewrite Hperm.
Qed.

(** C23: the HTTP report goes through all flows, live and retired, in the order of
    [allFlows], and lists for each the messages of the application state of its
    key, each in one line, those of the key's forward direction (from its first
    address to its second) before the others; it is cut off behind [print_limit]
    lines when that is not 0, and says so exactly when lines are missing. *)
Theorem printHttp_limit (iterate : gmap FlowKey Flow → list (FlowKey * Flow))
    (sort : ∀ A, (A → A → bool) → list A → list A) (e : StatsEngine) :
  let l := allFlows iterate (sort _) e.(flowTable) in
  let lines := l ≫= flow_lines e in
  Forall (λ q, Key_ok q.1) l → 0 ≤ e.(print_limit) →
  printHttp iterate sort e =
  Ret (concat (upto e.(print_limit) lines) ++
       when (bool_decide (lines = [])) (chars "  (none)" ++ [newline]) ++
       when (negb (e.(print_limit) =? 0) && (e.(print_limit) <? len lines))
            (chars "  ... limit reached" ++ [newline]) ++ [newline]).
Proof.
  intros l lines Hk Hlim. unfold printHttp. fold l.
  rewrite printHttpFlows_lines, bind_ret by done. fold lines.
  rewrite print_lines_spec by (cbn; done || lia). cbn [out printed truncated app]. rewrite Z.sub_0_r, Z.add_0_l.
  fold (upto e.(print_limit) lines). pose proof (len_nonneg lines) as Hl. do 2 f_equal. f_equal.
  - f_equal. destruct lines as [|s ls]; [by rewrite upto_nil|]. unfold upto.
    rewrite bool_decide_eq_false_2 by done. rewrite len_cons in Hl. pose proof (len_nonneg ls). apply Z.eqb_neq.
    destruct (Z.eqb_spec (print_limit e) 0); [rewrite len_cons; lia|].
    unfold len, ztake. rewrite length_take. cbn [length]. lia.
  - do 2 f_equal. unfold upto. destruct (Z.eqb_spec (print_limit e) 0); cbn [negb andb]; [apply Z.ltb_irrefl|].
    unfold len, ztake. rewrite length_take. destruct (Z.ltb_spec (print_limit e) (Z.of_nat (length lines)));
      [apply Z.ltb_lt|apply Z.ltb_ge]; lia.
Qed.

(** The flows of one key among all flows. *)
Definition of_key (k : FlowKey) (l : list (FlowKey * Flow)) : list (FlowKey * Flow) := filter (λ q, q.1 = k) l.

Lemma of_key_live k f t :
  t.(flows) !! k = Some f → length (of_key k (all_flows t)) = S (length (of_key k t.(completed))).
Proof.
  intros Hf. unfold of_key, all_flows. rewrite filter_app, length_app.
  rewrite <- (map_to_list_delete t.(flows) k f Hf), filter_cons_True by done.
  assert (filter (λ q : FlowKey * Flow, q.1 = k) (map_to_list (delete k t.(flows))) = []) as ->; [|cbn; lia].
  apply elem_of_nil_inv. intros [j g] [E Hj%elem_of_map_to_list]%list_elem_of_filter. cbn in E. subst j.
  by rewrite lookup_delete_eq in Hj.
Qed.

Lemma flow_lines_same e k l (f : Flow) :
  Forall (λ q, q.1 = k) l → l ≫= flow_lines e = concat (replicate (length l) (flow_lines e (k, f))).
Proof.
  induction 1 as [|[j g] l E _ IH]; [done|]. cbn in E. subst j. cbn [mbind list_bind length replicate concat].
  by rewrite <- IH.
Qed.

Lemma allFlows_perm iterate (sort : ∀ A, (A → A → bool) → list A → list A) t :
  iterates iterate → sorts_all sort → Forall (λ q, Key_ok q.1) (all_flows t) →
  allFlows iterate (sort _) t ≡ₚ all_flows t.
Proof.
  intros Hit Hsort Hk. assert (Hp : t.(completed) ++ iterate t.(flows) ≡ₚ all_flows t) by (by unfold all_flows; rewrite (Hit _)).
  assert (Hl : ∀ a, a ∈ t.(completed) ++ iterate t.(flows) → listed_ok a).
  { intros a Ha. unfold listed_ok. rewrite Hp in Ha. rewrite Forall_forall in Hk. by apply key_bytes_len, Hk. }
  unfold allFlows. rewrite <- Hp. apply Hsort.
  - intros. apply flow_before_irrefl.
  - intros a b c ???. apply flow_before_trans; auto.
  - intros a b c ???. apply flow_before_incomparable; auto.
Qed.

(** C27: in the HTTP report without a limit, a key with a live flow and n retired
    ones has its messages listed n + 1 times: the application decoder keeps one
    state per key, and the report asks for it once per flow.  The messages of the
    retired flows are not among them: when the first packet of the key's next
    flow is polled the state is cleared, and nothing of what it listed is left. *)
Theorem retired_listed_twice (iterate : gmap FlowKey Flow → list (FlowKey * Flow))
    (sort : ∀ A, (A → A → bool) → list A → list A) (e : StatsEngine) (k : FlowKey) (f : Flow) :
  iterates iterate → sorts_all sort → Forall (λ q, Key_ok q.1) (all_flows e.(flowTable)) → e.(print_limit) = 0 →
  e.(flowTable).(flows) !! k = Some f →
  (∃ lines, printHttp iterate sort e = Ret (concat lines ++ when (bool_decide (lines = [])) (chars "  (none)" ++ [newline])
                                            ++ [newline]) ∧
     lines ≡ₚ concat (replicate (S (length (of_key k e.(flowTable).(completed)))) (flow_lines e (k, f))) ++
              (filter (λ q, q.1 ≠ k) (all_flows e.(flowTable)) ≫= flow_lines e)) ∧
  (∀ g node st d g', g.(app_state) = None → AppDecoder.appStateFor e.(appDecoder) k g true = Ret (node, st, d, g') →
     ∀ h, flow_lines (mkStatsEngine e.(flowTable) d e.(benchmark) e.(print_limit)) (k, h) = []).
Proof.
  intros Hit Hsort Hk Hlim Hf. split.
  - pose proof (allFlows_perm iterate sort e.(flowTable) Hit Hsort Hk) as Hp.
    eexists. unfold printHttp. rewrite printHttpFlows_lines, bind_ret; [|by rewrite Hp|done].
    rewrite print_lines_spec by (cbn; done || lia). rewrite Hlim. cbn [out printed truncated Z.eqb app].
    rewrite Z.ltb_irrefl, Z.add_0_l. cbn [when app]. split.
    + set (lines := _ ≫= flow_lines e). assert ((len lines =? 0) = bool_decide (lines = [])) as ->; [|done].
      destruct lines as [|x ls]; [done|]. rewrite bool_decide_eq_false_2 by done. rewrite len_cons.
      apply Z.eqb_neq. pose proof (len_nonneg ls). lia.
    + rewrite Hp, <- (filter_app_complement (λ q, q.1 = k) (all_flows e.(flowTable))) at 1. rewrite bind_app.
      fold (of_key k (all_flows (flowTable e))). rewrite <- (of_key_live k f) by done.
      rewrite (flow_lines_same e k _ f); [done|].
      apply Forall_forall. by intros q [E _]%list_elem_of_filter.
  - intros g node st d g' Hg Hst h. unfold AppDecoder.appStateFor in Hst. rewrite Hg in Hst.
    cbn [default AppDecoder.flows_] in Hst. rewrite lookup_insert_eq in Hst. injection Hst as _ _ <- _.
    unfold flow_lines, direction_lines, AppDecoder.getApplications. cbn. by rewrite lookup_insert_eq.
Qed.

(** ** Witnesses *)

Definition std_sort (A : Type) : (A → A → bool) → list A → list A := insertion_sort.
Lemma std_sorts : sorts_all std_sort.
Proof. intros A. apply insertion_sorts. Qed.

Definition sample_key : FlowKey := AppDecoder.http_key.
Definition sample_flow (n : Z) : Flow :=
  mkFlow 0 10 (mkFlowStats 1 n) zeroStats TcpReassembler.initial TcpReassembler.initial false (Some sample_key).
Definition sample_apps : AppDecoder.AppDecoder :=
  AppDecoder.mkAppDecoder
    {[sample_key := AppDecoder.mkFlowApplications
        (AppDecoder.push_http AppDecoder.zeroApplications Http.sample_request) AppDecoder.zeroApplications]} ∅.
Definition sample_engine (limit : Z) : StatsEngine :=
  mkStatsEngine (mkFlowTable 0 30 150 {[sample_key := sample_flow 100]} [(sample_key, sample_flow 50)])
                sample_apps Benchmark.zeroBenchmark limit.

Lemma http_key_ok : Key_ok sample_key.
Proof. by split. Qed.

Lemma protocols_correct_witness :
  let l := [(sample_key, sample_flow 100); (sample_key, sample_flow 50)] in
  let r := sortedProtocolsByBytes map_to_list std_sort l in
  NoDup r.*1 ∧ (∀ p n, (p, n) ∈ r ↔ p ∈ protocols l ∧ n = protocol_bytes p l) ∧
  StronglySorted (λ a b, b.2 ≤ a.2) r ∧ total r.*2 = 150.
Proof.
  apply (protocols_correct map_to_list std_sort [(sample_key, sample_flow 100); (sample_key, sample_flow 50)]);
    [done|apply std_sorts|done].
Defined.

Lemma printHttp_limit_witness :
  let e := sample_engine 1 in
  let lines := allFlows map_to_list (std_sort _) e.(flowTable) ≫= flow_lines e in
  printHttp map_to_list std_sort e =
  Ret (concat (upto 1 lines) ++
       when (bool_decide (lines = [])) (chars "  (none)" ++ [newline]) ++
       when (negb (1 =? 0) && (1 <? len lines)) (chars "  ... limit reached" ++ [newline]) ++ [newline]).
Proof.
  apply (printHttp_limit map_to_list std_sort (sample_engine 1)); [|done].
  assert (allFlows map_to_list (std_sort _) (sample_engine 1).(flowTable) =
          [(sample_key, sample_flow 100); (sample_key, sample_flow 50)]) as -> by (vm_compute; reflexivity).
  repeat constructor.
Defined.

(** The message of [sample_engine] is listed for the retired and the live flow. *)
Lemma retired_listed_twice_witness :
  ∃ lines, printHttp map_to_list std_sort (sample_engine 0) =
    Ret (concat lines ++ when (bool_decide (lines = [])) (chars "  (none)" ++ [newline]) ++ [newline]) ∧ len lines = 2.
Proof.
  destruct (retired_listed_twice map_to_list std_sort (sample_engine 0) sample_key (sample_flow 100))
    as [(lines & E & Hp) _].
  - by intros m.
  - apply std_sorts.
  - unfold all_flows. cbn [sample_engine flowTable completed flows]. apply Forall_cons_2; [apply http_key_ok|].
    rewrite map_to_list_singleton. apply Forall_singleton, http_key_ok.
  - done.
  - done.
  - exists lines. split; [exact E|]. unfold len. rewrite Hp. apply Z.eqb_eq. vm_compute. reflexivity.
Defined.
