(* ===== verification/Args.v ===== *)
(** The command line: [Options], [parseFilterIp] and [parseArgs] of
    [src/cli/cli.cpp].

    The arguments behind [argv[0]] are a list of C strings.  Where the code
    writes a message to [std::cerr] and returns false, the model answers the
    message. *)
From S2P Require Import Prelude Endian Text FlowKey.
From S2P Require Ip Ipv4 Ipv6 FlowTable Decoder.
#[local] Open Scope Z_scope.

Definition kProgram : bytes := chars "analyzer".
Definition UINT64_MAX : Z := 2 ^ 64 - 1.
Definition SIZE_MAX : Z := 2 ^ 64 - 1.

Record Options := mkOptions {
  path : bytes;
  show_flows : bool;
  show_http : bool;
  show_dns : bool;
  show_summary : bool;
  show_bench : bool;
  show_packets : bool;
  json : bool;
  out_dir : bytes;
  config : Decoder.Config;
  idle_timeout_us : Z;
  help : bool;
  version : bool;
}.
Definition defaultOptions : Options :=
  mkOptions [] false false false false false false false [] Decoder.defaultConfig
            FlowTable.DEFAULT_IDLE_TIMEOUT_US false false.

Definition set_path (o : Options) (p : bytes) : Options :=
  mkOptions p o.(show_flows) o.(show_http) o.(show_dns) o.(show_summary) o.(show_bench)
    o.(show_packets) o.(json) o.(out_dir) o.(config) o.(idle_timeout_us) o.(help) o.(version).
Definition set_flows (o : Options) : Options :=
  mkOptions o.(path) true o.(show_http) o.(show_dns) o.(show_summary) o.(show_bench)
    o.(show_packets) o.(json) o.(out_dir) o.(config) o.(idle_timeout_us) o.(help) o.(version).
Definition set_http (o : Options) : Options :=
  mkOptions o.(path) o.(show_flows) true o.(show_dns) o.(show_summary) o.(show_bench)
    o.(show_packets) o.(json) o.(out_dir) o.(config) o.(idle_timeout_us) o.(help) o.(version).
Definition set_dns (o : Options) : Options :=
  mkOptions o.(path) o.(show_flows) o.(show_http) true o.(show_summary) o.(show_bench)
    o.(show_packets) o.(json) o.(out_dir) o.(config) o.(idle_timeout_us) o.(help) o.(version).
Definition set_summary (o : Options) : Options :=
  mkOptions o.(path) o.(show_flows) o.(show_http) o.(show_dns) true o.(show_bench)
    o.(show_packets) o.(json) o.(out_dir) o.(config) o.(idle_timeout_us) o.(help) o.(version).
Definition set_bench (o : Options) : Options :=
  mkOptions o.(path) o.(show_flows) o.(show_http) o.(show_dns) o.(show_summary) true
    o.(show_packets) o.(json) o.(out_dir) o.(config) o.(idle_timeout_us) o.(help) o.(version).
Definition set_packets (o : Options) : Options :=
  mkOptions o.(path) o.(show_flows) o.(show_http) o.(show_dns) o.(show_summary) o.(show_bench)
    true o.(json) o.(out_dir) o.(config) o.(idle_timeout_us) o.(help) o.(version).
Definition set_json (o : Options) : Options :=
  mkOptions o.(path) o.(show_flows) o.(show_http) o.(show_dns) o.(show_summary) o.(show_bench)
    o.(show_packets) true o.(out_dir) o.(config) o.(idle_timeout_us) o.(help) o.(version).
Definition set_out_dir (o : Options) (d : bytes) : Options :=
  mkOptions o.(path) o.(show_flows) o.(show_http) o.(show_dns) o.(show_summary) o.(show_bench)
    o.(show_packets) o.(json) d o.(config) o.(idle_timeout_us) o.(help) o.(version).
Definition set_config (o : Options) (c : Decoder.Config) : Options :=
  mkOptions o.(path) o.(show_flows) o.(show_http) o.(show_dns) o.(show_summary) o.(show_bench)
    o.(show_packets) o.(json) o.(out_dir) c o.(idle_timeout_us) o.(help) o.(version).
Definition set_help (o : Options) : Options :=
  mkOptions o.(path) o.(show_flows) o.(show_http) o.(show_dns) o.(show_summary) o.(show_bench)
    o.(show_packets) o.(json) o.(out_dir) o.(config) o.(idle_timeout_us) true o.(version).
Definition set_version (o : Options) : Options :=
  mkOptions o.(path) o.(show_flows) o.(show_http) o.(show_dns) o.(show_summary) o.(show_bench)
    o.(show_packets) o.(json) o.(out_dir) o.(config) o.(idle_timeout_us) o.(help) true.

Definition set_limit (c : Decoder.Config) (n : Z) : Decoder.Config :=
  Decoder.mkConfig n c.(Decoder.verify_checksum) c.(Decoder.flow_active_timeout_us)
    c.(Decoder.flow_idle_timeout_us) c.(Decoder.filter).
Definition set_verify (c : Decoder.Config) (b : bool) : Decoder.Config :=
  Decoder.mkConfig c.(Decoder.print_limit) b c.(Decoder.flow_active_timeout_us)
    c.(Decoder.flow_idle_timeout_us) c.(Decoder.filter).
Definition set_active (c : Decoder.Config) (t : Z) : Decoder.Config :=
  Decoder.mkConfig c.(Decoder.print_limit) c.(Decoder.verify_checksum) t
    c.(Decoder.flow_idle_timeout_us) c.(Decoder.filter).
Definition set_idle (c : Decoder.Config) (t : Z) : Decoder.Config :=
  Decoder.mkConfig c.(Decoder.print_limit) c.(Decoder.verify_checksum) c.(Decoder.flow_active_timeout_us)
    t c.(Decoder.filter).
Definition set_filter (c : Decoder.Config) (k : FlowKey) : Decoder.Config :=
  Decoder.mkConfig c.(Decoder.print_limit) c.(Decoder.verify_checksum) c.(Decoder.flow_active_timeout_us)
    c.(Decoder.flow_idle_timeout_us) k.

(** The assignments to the filter; [dst] is [arg[2] == 'd']. *)
Definition filter_ip (k : FlowKey) (dst is_ipv4 : bool) (ip : bytes) : FlowKey :=
  if dst then mkFlowKey is_ipv4 k.(src_ip) ip k.(src_port) k.(dst_port) k.(protocol)
  else mkFlowKey is_ipv4 ip k.(dst_ip) k.(src_port) k.(dst_port) k.(protocol).
Definition filter_port (k : FlowKey) (dst : bool) (port : Z) : FlowKey :=
  if dst then mkFlowKey k.(isIpv4) k.(src_ip) k.(dst_ip) k.(src_port) port k.(protocol)
  else mkFlowKey k.(isIpv4) k.(src_ip) k.(dst_ip) port k.(dst_port) k.(protocol).
Definition filter_proto (k : FlowKey) (p : Z) : FlowKey :=
  mkFlowKey k.(isIpv4) k.(src_ip) k.(dst_ip) k.(src_port) k.(dst_port) p.

Definition streq (a b : bytes) : bool := bool_decide (a = b).
Definition matches (arg : bytes) (shortFlag longFlag : string) : bool :=
  streq arg (chars shortFlag) || streq arg (chars longFlag).

(** [Some (out_ip, is_ipv4)] where the code returns true. *)
Definition parseFilterIp (text : bytes) : outcome (option (bytes * bool)) :=
  match Ipv4.addressFromString text with
  | Some v4 => Ret (Some (v4 ++ replicate 12 0, true))
  | None =>
      v6 ← Ipv6.addressFromString text;
      Ret (match v6 with Some ip => Some (ip, false) | None => None end)
  end.

(** [out] and [ip_version], which the loop carries. *)
Record Parsing := mkParsing { out : Options; ip_version : Z }.
Definition set_out (p : Parsing) (o : Options) : Parsing := mkParsing o p.(ip_version).

(** A message on [std::cerr] behind the program's name, or a result. *)
Definition answer (A : Type) : Type := (bytes + A)%type.
Definition complain {A} (message : bytes) : outcome (answer A) :=
  Ret (inl (kProgram ++ chars ": " ++ message ++ [newline])).
Definition quoted (what : string) (s : bytes) : bytes := chars what ++ chars " '" ++ s ++ chars "'".

(** The branches that take a value. *)
Definition onOut (p : Parsing) (s : bytes) : outcome (answer Parsing) :=
  let o := set_out_dir p.(out) s in
  if bool_decide (s = []) then complain (chars "empty output directory") else Ret (inr (set_out p o)).

Definition onLimit (p : Parsing) (s : bytes) : outcome (answer Parsing) :=
  match parseUint s SIZE_MAX with
  | None => complain (quoted "invalid count" s)
  | Some value => Ret (inr (set_out p (set_config p.(out) (set_limit p.(out).(config) value))))
  end.

Definition onTimeout (p : Parsing) (s : bytes) : outcome (answer Parsing) :=
  match parseUint s (UINT64_MAX / 1000000) with
  | None => complain (quoted "invalid timeout" s)
  | Some sec => Ret (inr (set_out p (set_config p.(out) (set_active p.(out).(config) (u64 (sec * 1000000))))))
  end.

Definition onIdle (p : Parsing) (s : bytes) : outcome (answer Parsing) :=
  match parseUint s (UINT64_MAX / 1000000) with
  | None => complain (quoted "invalid idle timeout" s)
  | Some sec => Ret (inr (set_out p (set_config p.(out) (set_idle p.(out).(config) (u64 (sec * 1000000))))))
  end.

Definition onIp (dst : bool) (p : Parsing) (s : bytes) : outcome (answer Parsing) :=
  parsed ← parseFilterIp s;
  match (parsed : option (bytes * bool)) with
  | None => complain (quoted "invalid address" s)
  | Some (ip, is_ipv4) =>
      let version := if is_ipv4 then 4 else 6 in
      if negb (p.(ip_version) =? 0) && negb (p.(ip_version) =? version)
      then complain (chars "mixed IPv4/IPv6 address filter")
      else
        let c := p.(out).(config) in
        Ret (inr (mkParsing
          (set_config p.(out) (set_filter c (filter_ip c.(Decoder.filter) dst is_ipv4 ip))) version))
  end.

Definition onPort (dst : bool) (p : Parsing) (s : bytes) : outcome (answer Parsing) :=
  let invalid : outcome (answer Parsing) := complain (quoted "invalid port" s) in
  match parseUint s 65535 with
  | None => invalid
  | Some value =>
      if value =? 0 then invalid else
      let c := p.(out).(config) in
      Ret (inr (set_out p
        (set_config p.(out) (set_filter c (filter_port c.(Decoder.filter) dst (u16 value))))))
  end.

Definition onProto (p : Parsing) (s : bytes) : outcome (answer Parsing) :=
  let invalid : outcome (answer Parsing) := complain (quoted "invalid protocol" s) in
  match Ip.protocolFromName s with
  | None => invalid
  | Some proto =>
      if proto =? 0 then invalid else
      let c := p.(out).(config) in
      Ret (inr (set_out p (set_config p.(out) (set_filter c (filter_proto c.(Decoder.filter) proto)))))
  end.

(** [-a]. *)
Definition set_all (o : Options) : Options :=
  set_bench (set_dns (set_http (set_flows (set_summary o)))).

(** What the chain of conditions makes of one argument. *)
Inductive action :=
| ReturnTrue (o : Options)
| Continue (o : Options)
| NextValue (what : string) (use : bytes → outcome (answer Parsing))
| ReturnFalse (message : bytes).

Definition third_is_d (arg : bytes) : bool := bool_decide (arg !! 2%nat = Some 100).

(** [arg[0] == '-' && arg[1] != '\0']. *)
Definition is_option (arg : bytes) : bool :=
  match arg with c :: _ :: _ => c =? 45 | _ => false end.

Definition act (p : Parsing) (arg : bytes) : action :=
  let o := p.(out) in
  if matches arg "-h" "--help" then ReturnTrue (set_help o)
  else if matches arg "-V" "--version" then ReturnTrue (set_version o)
  else if matches arg "-f" "--flows" then Continue (set_flows o)
  else if matches arg "-H" "--http" then Continue (set_http o)
  else if matches arg "-d" "--dns" then Continue (set_dns o)
  else if matches arg "-s" "--summary" then Continue (set_summary o)
  else if matches arg "-b" "--bench" then Continue (set_bench o)
  else if matches arg "-p" "--packets" then Continue (set_packets o)
  else if matches arg "-j" "--json" then Continue (set_json o)
  else if matches arg "-o" "--out" then NextValue "a directory" (onOut p)
  else if matches arg "-a" "--all" then Continue (set_all o)
  else if matches arg "-C" "--no-checksum" then Continue (set_config o (set_verify o.(config) false))
  else if matches arg "-n" "--limit" then NextValue "a count" (onLimit p)
  else if matches arg "-t" "--timeout" then NextValue "a number of seconds" (onTimeout p)
  else if matches arg "-i" "--idle" then NextValue "a number of seconds" (onIdle p)
  else if streq arg (chars "--src-ip") || streq arg (chars "--dst-ip")
  then NextValue "an address" (onIp (third_is_d arg) p)
  else if streq arg (chars "--src-port") || streq arg (chars "--dst-port")
  then NextValue "a port" (onPort (third_is_d arg) p)
  else if streq arg (chars "--proto") then NextValue "a protocol" (onProto p)
  else if is_option arg then ReturnFalse (quoted "unknown option" arg)
  else if bool_decide (o.(path) = []) then Continue (set_path o arg)
  else ReturnFalse (quoted "unexpected argument" arg).

(** Behind the loop. *)
Definition shows_any (o : Options) : bool :=
  o.(show_flows) || o.(show_http) || o.(show_dns) || o.(show_summary) || o.(show_bench) || o.(show_packets).
Definition select (o : Options) : Options :=
  if shows_any o then o
  else if bool_decide (o.(out_dir) = []) then set_flows (set_summary o)
  else set_packets (set_bench (set_dns (set_http (set_flows (set_summary o))))).
Definition finishArgs (o : Options) : outcome (answer Options) :=
  if negb o.(help) && negb o.(version) && bool_decide (o.(path) = [])
  then complain (chars "no capture file given")
  else Ret (inr (select o)).

Fixpoint parseArgs_loop (args : list bytes) (p : Parsing) : outcome (answer Options) :=
  match args with
  | [] => finishArgs p.(out)
  | arg :: args =>
      match act p arg with
      | ReturnTrue o => Ret (inr o)
      | Continue o => parseArgs_loop args (set_out p o)
      | ReturnFalse message => complain message
      | NextValue what use =>
          match args with
          | [] => complain (arg ++ chars " requires " ++ chars what)
          | s :: args =>
              r ← use s;
              match r with
              | inl message => Ret (inl message)
              | inr p => parseArgs_loop args p
              end
          end
      end
  end.
Definition parseArgs (args : list bytes) : outcome (answer Options) :=
  parseArgs_loop args (mkParsing defaultOptions 0).

Example parseArgs_ports :
  parseArgs [chars "a.pcap"; chars "--dst-port"; chars "443"; chars "-n"; chars "10"] =
  Ret (inr (set_flows (set_summary (set_config (set_path defaultOptions (chars "a.pcap"))
    (set_limit (set_filter Decoder.defaultConfig (filter_port zeroKey true 443)) 10))))).
Proof. vm_compute. reflexivity. Qed.
Example parseArgs_missing :
  parseArgs [chars "a.pcap"; chars "-n"] =
  Ret (inl (chars "analyzer: -n requires a count" ++ [newline])).
Proof. vm_compute. reflexivity. Qed.
Example parseArgs_mixed :
  parseArgs [chars "--src-ip"; chars "10.0.0.1"; chars "--dst-ip"; chars "fe80::1"] =
  Ret (inl (chars "analyzer: mixed IPv4/IPv6 address filter" ++ [newline])).
Proof. vm_compute. reflexivity. Qed.

(** ** Lemmas: what is accepted *)

Record Config_ok (c : Decoder.Config) : Prop := {
  co_limit : 0 ≤ c.(Decoder.print_limit) < 2 ^ 64;
  co_active : 0 ≤ c.(Decoder.flow_active_timeout_us) < 2 ^ 64;
  co_active_sec : c.(Decoder.flow_active_timeout_us) mod 1000000 = 0;
  co_idle : 0 ≤ c.(Decoder.flow_idle_timeout_us) < 2 ^ 64;
  co_idle_sec : c.(Decoder.flow_idle_timeout_us) mod 1000000 = 0;
  co_filter : Key_ok c.(Decoder.filter);
  co_src : bytes_ok c.(Decoder.filter).(src_ip);
  co_dst : bytes_ok c.(Decoder.filter).(dst_ip);
  co_sport : 0 ≤ c.(Decoder.filter).(src_port) < 2 ^ 16;
  co_dport : 0 ≤ c.(Decoder.filter).(dst_port) < 2 ^ 16;
  co_proto : 0 ≤ c.(Decoder.filter).(protocol) < 2 ^ 8;
}.

Lemma default_ok : Config_ok Decoder.defaultConfig.
Proof. split; first [done | split; done | repeat constructor; done]. Qed.

Lemma parseUint_range text max v : 9 ≤ max < 2 ^ 64 → parseUint text max = Some v → 0 ≤ v ≤ max.
Proof.
  intros Hmax. unfold parseUint. destruct text as [|c text]; [done|]. intros H.
  apply parseUint_loop_spec in H as (Hall & Hv & Hle); [|lia..]. split; [|done].
  subst v. by apply (foldl_digits_ge _ 0).
Qed.

(** A value's branch never fails to answer, and keeps the configuration valid
    when it accepts. *)
Definition is_message (m : bytes) : Prop :=
  ∃ message, m = kProgram ++ chars ": " ++ message ++ [newline].
Definition keeps (p : Parsing) (r : answer Parsing) : Prop :=
  match r with
  | inl m => is_message m
  | inr p' => Config_ok p'.(out).(config) ∧ p'.(out).(path) = p.(out).(path)
  end.
Lemma wp_complain {A} message (Q : answer A → Prop) :
  Q (inl (kProgram ++ chars ": " ++ message ++ [newline])) → wp (complain message) Q.
Proof. done. Qed.
Lemma wp_complain_keeps p message : wp (complain message) (keeps p).
Proof. by eexists. Qed.

Lemma Config_ok_filter c k :
  Config_ok c → Key_ok k → bytes_ok k.(src_ip) → bytes_ok k.(dst_ip) → 0 ≤ k.(src_port) < 2 ^ 16 →
  0 ≤ k.(dst_port) < 2 ^ 16 → 0 ≤ k.(protocol) < 2 ^ 8 → Config_ok (set_filter c k).
Proof. by intros []. Qed.

Lemma wp_parseFilterIp text :
  wp (parseFilterIp text)
     (λ r, match r with Some (ip, _) => len ip = 16 ∧ bytes_ok ip | None => True end).
Proof.
  unfold parseFilterIp. destruct (Ipv4.addressFromString text) as [v4|] eqn:E.
  - apply Ipv4.addressFromString_ok in E as [Hl Hb]. apply wp_ret.
    split; [unfold len in *; rewrite length_app; cbn; lia|]. apply bytes_ok_app. split; [done|].
    repeat constructor; done.
  - apply wp_bind. eapply wp_mono; [apply Ipv6.wp_addressFromString|]. intros [ip|] Hip; by apply wp_ret.
Qed.

Lemma wp_onIp dst p s : Config_ok p.(out).(config) → wp (onIp dst p s) (keeps p).
Proof.
  intros Hc. unfold onIp. apply wp_bind. eapply wp_mono; [apply wp_parseFilterIp|].
  intros [[ip v4]|] Hip; [|apply wp_complain_keeps]. destruct Hip as [Hl Hb].
  cbn zeta. split_if; [apply wp_complain_keeps|]. apply wp_ret. split; [|done]. cbn.
  pose proof Hc as [_ _ _ _ _ [? ?] ? ? ? ? ?].
  apply Config_ok_filter; [done|..]; destruct dst; done.
Qed.

Lemma wp_onPort dst p s : Config_ok p.(out).(config) → wp (onPort dst p s) (keeps p).
Proof.
  intros Hc. unfold onPort. destruct (parseUint s 65535) as [v|] eqn:E; [|apply wp_complain_keeps].
  split_if; [apply wp_complain_keeps|]. apply wp_ret. split; [|done]. cbn.
  pose proof (Z.mod_pos_bound v (2 ^ 16) ltac:(lia)) as Hv. pose proof Hc as [_ _ _ _ _ [? ?] ? ? ? ? ?].
  apply Config_ok_filter; [done|..]; destruct dst; done.
Qed.

Lemma protocolFromName_range s v : Ip.protocolFromName s = Some v → 0 ≤ v < 2 ^ 8.
Proof.
  unfold Ip.protocolFromName. repeat (split_if; [by intros [= <-]|]).
  destruct (parseUint s 255) as [n|]; [|done]. intros [= <-]. apply Z.mod_pos_bound. lia.
Qed.
Lemma wp_onProto p s : Config_ok p.(out).(config) → wp (onProto p s) (keeps p).
Proof.
  intros Hc. unfold onProto. destruct (Ip.protocolFromName s) as [v|] eqn:E; [|apply wp_complain_keeps].
  split_if; [apply wp_complain_keeps|]. apply wp_ret. split; [|done]. cbn.
  apply protocolFromName_range in E. pose proof Hc as [_ _ _ _ _ [? ?] ? ? ? ? ?].
  apply Config_ok_filter; done.
Qed.

Lemma wp_onLimit p s : Config_ok p.(out).(config) → wp (onLimit p s) (keeps p).
Proof.
  intros Hc. unfold onLimit. destruct (parseUint s SIZE_MAX) as [v|] eqn:E; [|apply wp_complain_keeps].
  apply parseUint_range in E; [|unfold SIZE_MAX; lia]. apply wp_ret. split; [|done].
  destruct Hc. split; try done. cbn. unfold SIZE_MAX in E. lia.
Qed.

(** Seconds fit, as microseconds, in 64 bits. *)
Lemma seconds_range s sec :
  parseUint s (UINT64_MAX / 1000000) = Some sec →
  0 ≤ u64 (sec * 1000000) < 2 ^ 64 ∧ u64 (sec * 1000000) mod 1000000 = 0.
Proof.
  intros E. apply parseUint_range in E; [|done]. change (UINT64_MAX / 1000000) with 18446744073709 in E.
  rewrite u64_small by lia. split; [lia|]. apply Z.mod_mul. lia.
Qed.
Lemma wp_onTimeout p s : Config_ok p.(out).(config) → wp (onTimeout p s) (keeps p).
Proof.
  intros Hc. unfold onTimeout. destruct (parseUint s _) as [v|] eqn:E; [|apply wp_complain_keeps].
  apply seconds_range in E as [Hr Hm]. apply wp_ret. split; [|done]. destruct Hc. by split.
Qed.
Lemma wp_onIdle p s : Config_ok p.(out).(config) → wp (onIdle p s) (keeps p).
Proof.
  intros Hc. unfold onIdle. destruct (parseUint s _) as [v|] eqn:E; [|apply wp_complain_keeps].
  apply seconds_range in E as [Hr Hm]. apply wp_ret. split; [|done]. destruct Hc. by split.
Qed.
Lemma wp_onOut p s : Config_ok p.(out).(config) → wp (onOut p s) (keeps p).
Proof. intros Hc. unfold onOut. cbn zeta. split_if; [apply wp_complain_keeps|]. by apply wp_ret. Qed.

Create HintDb args.
#[export] Hint Resolve wp_onIp wp_onPort wp_onProto wp_onLimit wp_onTimeout wp_onIdle wp_onOut : args.

Lemma act_keeps p arg :
  Config_ok p.(out).(config) →
  match act p arg with
  | ReturnTrue o => o.(help) = true ∨ o.(version) = true
  | Continue o => Config_ok o.(config)
  | NextValue _ use => ∀ s, wp (use s) (keeps p)
  | ReturnFalse _ => True
  end.
Proof.
  intros Hc. unfold act. cbn zeta.
  repeat (split_if; [first [by left | by right | done | intros s; auto with args | destruct Hc; by split]|]).
  done.
Qed.

Definition accepted_ok (o : Options) : Prop :=
  o.(help) = true ∨ o.(version) = true ∨
  (o.(path) ≠ [] ∧ shows_any o = true ∧ Config_ok o.(config)).

Lemma select_keeps o :
  (select o).(path) = o.(path) ∧ (select o).(config) = o.(config) ∧ shows_any (select o) = true.
Proof.
  unfold select. destruct (shows_any o) eqn:E; [done|]. split_if; done.
Qed.

Lemma wp_finishArgs o :
  Config_ok o.(config) →
  wp (finishArgs o) (λ r, match r with inl m => is_message m | inr o => accepted_ok o end).
Proof.
  intros Hc. unfold finishArgs. split_if; [by eexists|]. apply wp_ret. unfold accepted_ok.
  destruct (select_keeps o) as (Hp & Hcf & Hs).
  assert (He : (select o).(help) = o.(help) ∧ (select o).(version) = o.(version))
    by (unfold select; split_if; [done|by split_if]).
  destruct He as [-> ->]. rewrite Hp, Hcf, Hs.
  destruct (help o); [by left|]. destruct (version o); [by right; left|]. right; right.
  cbn in Hc0. apply bool_decide_eq_false_1 in Hc0. done.
Qed.

Lemma wp_parseArgs_loop args p :
  Config_ok p.(out).(config) →
  wp (parseArgs_loop args p) (λ r, match r with inl m => is_message m | inr o => accepted_ok o end).
Proof.
  remember (length args) as n eqn:Hn. revert args p Hn.
  induction (lt_wf n) as [n _ IH]. intros [|arg args] p -> Hc; [by apply wp_finishArgs|].
  cbn [parseArgs_loop]. pose proof (act_keeps p arg Hc) as Ha. destruct (act p arg) as [o|o|what use|m].
  - apply wp_ret. destruct Ha; [by left|by right; left].
  - by eapply IH; [..|done|done]; cbn; lia.
  - destruct args as [|s args]; [apply wp_complain; by eexists|]. apply wp_bind.
    eapply wp_mono; [apply Ha|]. intros [m|p'] Hk; [by apply wp_ret|]. destruct Hk as [Hc' _].
    by eapply IH; [..|done|done]; cbn; lia.
  - apply wp_complain. by eexists.
Qed.

(** ** A reference: the grammar of the arguments *)

Inductive Flag := Flows | Http | Dns | Summary | Bench | Packets | Json | All | NoChecksum.

(** One option with its value, or the capture. *)
Inductive Arg :=
| AFlag (f : Flag)
| AOut (dir : bytes)
| ALimit (n : Z)
| ATimeout (sec : Z)
| AIdle (sec : Z)
| AIp (dst : bool) (ip : bytes)
| APort (dst : bool) (port : Z)
| AProto (protocol : Z)
| APath (path : bytes).

Definition flag_names (f : Flag) : string * string :=
  match f with
  | Flows => ("-f", "--flows") | Http => ("-H", "--http") | Dns => ("-d", "--dns")
  | Summary => ("-s", "--summary") | Bench => ("-b", "--bench") | Packets => ("-p", "--packets")
  | Json => ("-j", "--json") | All => ("-a", "--all") | NoChecksum => ("-C", "--no-checksum")
  end%string.
Definition text_of (t : outcome bytes) : bytes := match t with Ret t => t | _ => [] end.

(** How an argument is written, with short or long names; [v4] is the family of
    the addresses. *)
Definition spelled (long : bool) (names : string * string) : bytes :=
  chars (if long then names.2 else names.1).
Definition argv (v4 : bool) (a : bool * Arg) : list bytes :=
  match a.2 with
  | AFlag f => [spelled a.1 (flag_names f)]
  | AOut dir => [spelled a.1 ("-o", "--out")%string; dir]
  | ALimit n => [spelled a.1 ("-n", "--limit")%string; dec n]
  | ATimeout sec => [spelled a.1 ("-t", "--timeout")%string; dec sec]
  | AIdle sec => [spelled a.1 ("-i", "--idle")%string; dec sec]
  | AIp dst ip => [chars (if dst then "--dst-ip" else "--src-ip");
                   text_of (if v4 then Ipv4.printIp ip else Ipv6.printIp ip)]
  | APort dst port => [chars (if dst then "--dst-port" else "--src-port"); dec port]
  | AProto p => [chars "--proto"; dec p]
  | APath p => [p]
  end.

(** What an argument means. *)
Definition flag_effect (f : Flag) (o : Options) : Options :=
  match f with
  | Flows => set_flows o | Http => set_http o | Dns => set_dns o | Summary => set_summary o
  | Bench => set_bench o | Packets => set_packets o | Json => set_json o
  | All => set_bench (set_dns (set_http (set_flows (set_summary o))))
  | NoChecksum => set_config o (set_verify o.(config) false)
  end.
Definition effect (v4 : bool) (o : Options) (a : bool * Arg) : Options :=
  let c := o.(config) in
  let filter := c.(Decoder.filter) in
  match a.2 with
  | AFlag f => flag_effect f o
  | AOut dir => set_out_dir o dir
  | ALimit n => set_config o (set_limit c n)
  | ATimeout sec => set_config o (set_active c (sec * 1000000))
  | AIdle sec => set_config o (set_idle c (sec * 1000000))
  | AIp dst ip => set_config o (set_filter c (filter_ip filter dst v4 ip))
  | APort dst port => set_config o (set_filter c (filter_port filter dst port))
  | AProto p => set_config o (set_filter c (filter_proto filter p))
  | APath p => set_path o p
  end.

Definition Arg_ok (v4 : bool) (a : bool * Arg) : Prop :=
  match a.2 with
  | AFlag _ => True
  | AOut dir => dir ≠ []
  | ALimit n => 0 ≤ n < 2 ^ 64
  | ATimeout sec | AIdle sec => 0 ≤ sec * 1000000 < 2 ^ 64
  | AIp _ ip => len ip = 16 ∧ bytes_ok ip ∧ (v4 = true → zdrop 4 ip = replicate 12 0) ∧ ip ≠ replicate 16 0
  | APort _ port => 0 < port < 2 ^ 16
  | AProto p => 0 < p < 2 ^ 8
  | APath p => p ≠ [] ∧ is_option p = false
  end.
Definition paths (l : list (bool * Arg)) : list bytes :=
  omap (λ a, match a.2 with APath p => Some p | _ => None end) l.

(** ** Lemmas: reading a written argument *)

Lemma parseFilterIp_v4 ip :
  len ip = 16 → bytes_ok ip → zdrop 4 ip = replicate 12 0 →
  parseFilterIp (text_of (Ipv4.printIp ip)) = Ret (Some (ip, true)).
Proof.
  intros Hl Hb Hz. destruct ip as [|a [|b [|c [|d ip]]]]; try (by rewrite ?len_cons, ?len_nil in Hl).
  change (zdrop 4 (a :: b :: c :: d :: ip)) with ip in Hz. subst ip.
  repeat apply Forall_cons in Hb as [? Hb].
  change (Ipv4.printIp _) with (Ret (Ipv4.dotted a b c d)). cbn [text_of].
  unfold parseFilterIp. by rewrite Ipv4.addressFromString_dotted.
Qed.

Lemma parseFilterIp_v6 ip :
  len ip = 16 → bytes_ok ip → parseFilterIp (text_of (Ipv6.printIp ip)) = Ret (Some (ip, false)).
Proof.
  intros Hl Hb. destruct (Ipv6.printIp_parses ip Hl Hb) as (text & -> & Ht). cbn [text_of].
  unfold parseFilterIp. rewrite Ipv4.addressFromString_no_colon by (by eapply Ipv6.addressFromString_colon).
  by rewrite Ht.
Qed.

(** A number is not one of the names. *)
Lemma isEquals_dec n name c text :
  0 ≤ n → name = c :: text → 58 ≤ tolower c → isEquals (dec n) name = false.
Proof.
  intros Hn -> Hc. destruct (dec_spec n Hn) as (Hne & Hall & _). destruct (dec n) as [|x l]; [done|].
  apply Forall_cons in Hall as [Hx _]. unfold isEquals. split_if; [done|]. cbn [isEquals_loop].
  assert (tolower x = x) as -> by (unfold tolower; by rewrite (proj2 (Z.leb_gt _ _)) by lia).
  by rewrite (proj2 (Z.eqb_neq _ _)) by lia.
Qed.
Lemma protocolFromName_dec p : 0 < p < 2 ^ 8 → Ip.protocolFromName (dec p) = Some p.
Proof.
  intros Hp. unfold Ip.protocolFromName.
  rewrite (isEquals_dec p (chars "tcp") 116 (chars "cp")), (isEquals_dec p (chars "udp") 117 (chars "dp")),
    (isEquals_dec p (chars "icmp") 105 (chars "cmp")), (isEquals_dec p (chars "icmpv6") 105 (chars "cmpv6"))
    by (done || lia).
  rewrite parseUint_dec by lia. cbn [mbind option_bind]. unfold u8. by rewrite Z.mod_small by lia.
Qed.

Lemma streq_other arg name : is_option arg = false → is_option name = true → streq arg name = false.
Proof. intros Ha Hn. apply bool_decide_eq_false_2. by intros ->; rewrite Ha in Hn. Qed.

Lemma act_path p arg :
  p.(out).(path) = [] → is_option arg = false → act p arg = Continue (set_path p.(out) arg).
Proof.
  intros Hp Ha. unfold act, matches. rewrite !(streq_other arg) by done. cbn [orb].
  by rewrite Ha, Hp.
Qed.

(** The value options on what was written for them. *)
Lemma act_flag p long f : act p (spelled long (flag_names f)) = Continue (flag_effect f p.(out)).
Proof. by destruct f, long. Qed.

Definition ver (v4 : bool) : Z := if v4 then 4 else 6.

Lemma seconds_dec sec :
  0 ≤ sec * 1000000 < 2 ^ 64 →
  parseUint (dec sec) (UINT64_MAX / 1000000) = Some sec ∧ u64 (sec * 1000000) = sec * 1000000.
Proof.
  intros Hs. change (UINT64_MAX / 1000000) with 18446744073709. split; [apply parseUint_dec; lia|].
  apply u64_small. lia.
Qed.

(** An argument's words, read from a state that fits it. *)
Lemma loop_arg v4 a rest p :
  Arg_ok v4 a → p.(ip_version) = 0 ∨ p.(ip_version) = ver v4 →
  (paths [a] = [] ∨ p.(out).(path) = []) →
  ∃ n, (n = 0 ∨ n = ver v4) ∧
    parseArgs_loop (argv v4 a ++ rest) p = parseArgs_loop rest (mkParsing (effect v4 p.(out) a) n).
Proof.
  intros Hok Hv Hp. destruct a as [long a]. unfold Arg_ok, argv, effect in *. cbn [fst snd] in *. cbn zeta.
  destruct a as [f|dir|n|sec|sec|dst ip|dst port|q|q]; cbn [app].
  - exists p.(ip_version). split; [done|]. cbn [parseArgs_loop]. by rewrite act_flag.
  - exists p.(ip_version). split; [done|].
    assert (act p (spelled long ("-o", "--out")) = NextValue "a directory" (onOut p)) as E by (by destruct long).
    cbn [parseArgs_loop]. rewrite E. unfold onOut. cbn zeta. by rewrite bool_decide_eq_false_2.
  - exists p.(ip_version). split; [done|].
    assert (act p (spelled long ("-n", "--limit")) = NextValue "a count" (onLimit p)) as E by (by destruct long).
    cbn [parseArgs_loop]. rewrite E. unfold onLimit, SIZE_MAX. by rewrite parseUint_dec by lia.
  - exists p.(ip_version). split; [done|]. destruct (seconds_dec sec Hok) as [Hs Hu].
    assert (act p (spelled long ("-t", "--timeout")) = NextValue "a number of seconds" (onTimeout p)) as E
      by (by destruct long).
    cbn [parseArgs_loop]. rewrite E. unfold onTimeout. by rewrite Hs, Hu.
  - exists p.(ip_version). split; [done|]. destruct (seconds_dec sec Hok) as [Hs Hu].
    assert (act p (spelled long ("-i", "--idle")) = NextValue "a number of seconds" (onIdle p)) as E
      by (by destruct long).
    cbn [parseArgs_loop]. rewrite E. unfold onIdle. by rewrite Hs, Hu.
  - destruct Hok as (Hl & Hb & Hz & _). exists (ver v4). split; [by right|].
    assert (act p (chars (if dst then "--dst-ip" else "--src-ip")) = NextValue "an address" (onIp dst p)) as E
      by (by destruct dst).
    cbn [parseArgs_loop]. rewrite E. unfold onIp.
    assert (parseFilterIp (text_of (if v4 then Ipv4.printIp ip else Ipv6.printIp ip)) = Ret (Some (ip, v4))) as ->
      by (destruct v4; [apply parseFilterIp_v4; auto|by apply parseFilterIp_v6]).
    rewrite bind_ret. cbn zeta. fold (ver v4).
    assert (negb (ip_version p =? 0) && negb (ip_version p =? ver v4) = false) as -> by (destruct Hv as [->| ->]; by destruct v4).
    done.
  - exists p.(ip_version). split; [done|].
    assert (act p (chars (if dst then "--dst-port" else "--src-port")) = NextValue "a port" (onPort dst p)) as E
      by (by destruct dst).
    cbn [parseArgs_loop]. rewrite E. unfold onPort. rewrite parseUint_dec by lia. cbn zeta.
    rewrite (proj2 (Z.eqb_neq _ _)) by lia. unfold u16. by rewrite Z.mod_small by lia.
  - exists p.(ip_version). split; [done|].
    assert (act p (chars "--proto") = NextValue "a protocol" (onProto p)) as E by done.
    cbn [parseArgs_loop]. rewrite E. unfold onProto. rewrite protocolFromName_dec by done.
    by rewrite (proj2 (Z.eqb_neq _ _)) by lia.
  - exists p.(ip_version). split; [done|]. destruct Hp as [|Hp]; [done|]. destruct Hok as [_ Hq].
    cbn [parseArgs_loop]. by rewrite act_path.
Qed.

Lemma effect_path v4 o a : paths [a] = [] → (effect v4 o a).(path) = o.(path).
Proof. by destruct a as [? [[]| | | | | | | |]]. Qed.

Lemma loop_args v4 l p :
  Forall (Arg_ok v4) l → p.(ip_version) = 0 ∨ p.(ip_version) = ver v4 →
  paths l = [] ∨ (p.(out).(path) = [] ∧ len (paths l) = 1) →
  parseArgs_loop (l ≫= argv v4) p = finishArgs (foldl (effect v4) p.(out) l).
Proof.
  intros Hl. revert p. induction Hl as [|a l Ha Hl IH]; intros p Hv Hp; [done|].
  cbn [mbind list_bind foldl]. assert (Hcons : paths (a :: l) = paths [a] ++ paths l).
  { unfold paths. cbn. by destruct (match a.2 with APath p => Some p | _ => None end). }
  rewrite Hcons in Hp. destruct (loop_arg v4 a (l ≫= argv v4) p Ha Hv) as (n & Hn & ->).
  { destruct Hp as [[Hp _]%app_eq_nil|[Hp _]]; auto. }
  apply IH; [done|]. cbn [out]. destruct Hp as [[_ Hp]%app_eq_nil|[Hp Hone]]; [by left|].
  destruct (paths [a]) as [|q [|]] eqn:Eq; cbn [app] in Hone.
  - right. split; [by rewrite effect_path|done].
  - left. destruct (paths l); [done|]. exfalso. zlen.
  - exfalso. pose proof (len_nonneg (paths l)). zlen.
Qed.

(** ** Properties *)

(** C21: every command line is answered: with a message, or with options that are
    valid: a capture and a section to show unless only help or the version is
    asked for, every number within its type, time-outs whole seconds that did
    not wrap, and a filter whose addresses are sixteen bytes. *)
Theorem parseArgs_answers (args : list bytes) :
  ∃ r, parseArgs args = Ret r ∧ match r with inl m => is_message m | inr o => accepted_ok o end.
Proof. apply wp_returns, wp_parseArgs_loop, default_ok. Qed.

(** C20: every list of well-formed arguments with one capture, in any order and
    with short or long names, is read back as what it says: addresses as the
    program prints them, all of one family, numbers, ports and protocol numbers,
    the last of several settings winning.  The addresses 0.0.0.0 and :: are left
    out: they are accepted and filter nothing. *)
Theorem parseArgs_written (v4 : bool) (l : list (bool * Arg)) (capture : bytes) :
  Forall (Arg_ok v4) l → paths l = [capture] →
  parseArgs (l ≫= argv v4) = Ret (inr (select (foldl (effect v4) defaultOptions l))).
Proof.
  intros Hl Hp. unfold parseArgs. rewrite (loop_args v4) by (rewrite ?Hp; auto). unfold finishArgs. cbn [out].
  assert (Hk : ∀ l o, Forall (Arg_ok v4) l → o.(path) ≠ [] ∨ paths l ≠ [] →
    (foldl (effect v4) o l).(path) ≠ []).
  { clear. induction l as [|[long a] l IH]; intros o Hl Hp; cbn [foldl]; [by destruct Hp|].
    apply Forall_cons in Hl as [Ha Hl]. apply IH; [done|].
    destruct a as [[]| | | | | | | |q]; try exact Hp. left. apply Ha. }
  rewrite bool_decide_eq_false_2 by (apply Hk; [done|right; by rewrite Hp]).
  by rewrite andb_false_r.
Qed.

Lemma parseArgs_written_witness :
  parseArgs [chars "--src-ip"; chars "10.0.0.1"; chars "a.pcap"; chars "-p"; chars "--proto"; chars "6"] =
  Ret (inr (select (foldl (effect true) defaultOptions
    [(true, AIp false ([10; 0; 0; 1] ++ replicate 12 0)); (true, APath (chars "a.pcap"));
     (false, AFlag Packets); (true, AProto 6)]))).
Proof.
  apply (parseArgs_written true
    [(true, AIp false ([10; 0; 0; 1] ++ replicate 12 0)); (true, APath (chars "a.pcap"));
     (false, AFlag Packets); (true, AProto 6)] (chars "a.pcap")); [|done].
  apply Forall_cons_2; [split; [done|split; [repeat constructor; done|done]]|].
  apply Forall_cons_2; [done|]. apply Forall_cons_2; [done|]. apply Forall_cons_2; [done|]. by apply Forall_nil_2.
Defined.

(** A filter by the address 0.0.0.0 or [::] is accepted and then filters
    nothing, since a zero address in a filter stands for any. *)
Theorem zero_address_ignored (dst v6 : bool) :
  ∃ o, parseArgs [chars "a.pcap"; chars (if dst then "--dst-ip" else "--src-ip"); chars (if v6 then "::" else "0.0.0.0")] =
         Ret (inr o) ∧ ∀ p, Decoder.filtered o.(config).(Decoder.filter) p = false.
Proof. destruct dst, v6; (eexists; split; [vm_compute; reflexivity|]); done. Qed.
