(* ===== verification/Cli.v ===== *)
(** The program: [src/cli/cli.cpp] behind the parsing of its arguments.

    What the program asks of its environment are parameters: creating a
    directory, opening a file for writing, writing and closing it, and loading
    the capture.  The state is what it printed and the files it left.  A stream
    holds all that is inserted into it; how it buffers is not observable.  The
    clock, the orders in which hash maps are walked and [std::sort] are
    parameters as in the components. *)
From S2P Require Import Prelude ParseError Text FlowKey FlowTable Args.
From S2P Require Endian Pcap AppDecoder DnsTable Benchmark Decoder Reader StatsEngine.
From stdpp Require Import gmap.
#[local] Open Scope Z_scope.

Definition usage : bytes :=
  chars "usage: " ++ kProgram ++ chars " <capture.pcap> [options]" ++ [newline; newline] ++
  chars "output selection (default: --summary --flows)" ++ [newline] ++
  chars "  -f, --flows        per-flow table, sorted by bytes" ++ [newline] ++
  chars "  -H, --http         HTTP requests and responses, grouped by flow" ++ [newline] ++
  chars "  -d, --dns          DNS questions and answers, and resolved names" ++ [newline] ++
  chars "  -s, --summary      packet, flow and byte counters" ++ [newline] ++
  chars "  -b, --bench        capture read and decode timings" ++ [newline] ++
  chars "  -p, --packets      every decoded packet and its layers (not in --all)" ++ [newline] ++
  chars "  -a, --all          all of the above except --packets" ++ [newline; newline] ++
  chars "options" ++ [newline] ++
  chars "  -j, --json         print --packets/--flows as JSON instead of text" ++ [newline] ++
  chars "  -o, --out DIR      write each section to its own file in DIR" ++ [newline] ++
  chars "  -n, --limit N      print at most N rows per section (0 = no limit)" ++ [newline] ++
  chars "  -C, --no-checksum  accept packets with bad IP/TCP/UDP/ICMP checksums" ++ [newline] ++
  chars "  -t, --timeout SEC  retire an active flow after SEC seconds (default: 0 = never)" ++ [newline] ++
  chars "  -i, --idle SEC     retire a flow after SEC idle seconds (default: 30)" ++ [newline] ++
  chars "  -V, --version      print the version and exit" ++ [newline] ++
  chars "  -h, --help         this message" ++ [newline; newline] ++
  chars "filtering (directional, AND-combined; non-matching packets are dropped" ++ [newline] ++
  chars "before flow tracking and excluded from every section and the skip counter)" ++ [newline] ++
  chars "      --src-ip ADDR   keep only packets from this IPv4/IPv6 address" ++ [newline] ++
  chars "      --dst-ip ADDR   keep only packets to this IPv4/IPv6 address" ++ [newline] ++
  chars "      --src-port N    keep only packets from this port" ++ [newline] ++
  chars "      --dst-port N    keep only packets to this port" ++ [newline] ++
  chars "      --proto NAME    keep only this L4 protocol (tcp|udp|icmp|icmpv6|<num>)" ++ [newline].

(** [std::cout], [std::cerr], the files by their paths, and the directories the
    program asked for. *)
Record World := mkWorld {
  cout : bytes;
  cerr : bytes;
  files : gmap bytes bytes;
  asked : list bytes;
}.
Definition to_cout (w : World) (s : bytes) : World := mkWorld (w.(cout) ++ s) w.(cerr) w.(files) w.(asked).
Definition to_cerr (w : World) (s : bytes) : World := mkWorld w.(cout) (w.(cerr) ++ s) w.(files) w.(asked).
Definition to_file (w : World) (path content : bytes) : World :=
  mkWorld w.(cout) w.(cerr) (<[path := content]> w.(files)) w.(asked).
Definition ask (w : World) (dir : bytes) : World := mkWorld w.(cout) w.(cerr) w.(files) (w.(asked) ++ [dir]).

(** [dir / name] for a relative [name]. *)
Definition slash (dir name : bytes) : bytes :=
  dir ++ when (negb (bool_decide (last dir = Some 47 ∨ dir = []))) (chars "/") ++ name.

Definition say (w : World) (message : bytes) : World :=
  to_cerr w (kProgram ++ chars ": " ++ message ++ [newline]).

(** ** The summary *)

(** The four sums over the applications. *)
Record Counts := mkCounts { http_messages : Z; dns_messages : Z; decode_failures : Z; http_bodies_skipped : Z }.
Definition zeroCounts : Counts := mkCounts 0 0 0 0.

Definition count (apps : option AppDecoder.Applications) (c : Counts) : Counts :=
  match apps with
  | None => c
  | Some a =>
      mkCounts (u64 (c.(http_messages) + len a.(AppDecoder.http_messages)))
               (u64 (c.(dns_messages) + len a.(AppDecoder.dns_messages)))
               (u64 (c.(decode_failures) + a.(AppDecoder.decode_failures)))
               (u64 (c.(http_bodies_skipped) + a.(AppDecoder.http_bodies_skipped)))
  end.
Definition countFlow (d : AppDecoder.AppDecoder) (c : Counts) (q : FlowKey * Flow) : Counts :=
  foldl (λ c reverse, count (AppDecoder.getApplications d q.1 reverse) c) c [false; true].

(** The parts of a reader the reports refer to. *)
Definition flowTable (r : Reader.Reader) : FlowTable := r.(Reader.decoder_).(Decoder.flowTable).
Definition appDecoder (r : Reader.Reader) : AppDecoder.AppDecoder := r.(Reader.decoder_).(Decoder.appDecoder).
Definition benchmark (r : Reader.Reader) : Benchmark.Benchmark := r.(Reader.decoder_).(Decoder.benchmark).
Definition decoded (r : Reader.Reader) : Z := r.(Reader.decoder_).(Decoder.decoded).
Definition statsEngine (r : Reader.Reader) : StatsEngine.StatsEngine :=
  StatsEngine.mkStatsEngine (flowTable r) (appDecoder r) (benchmark r)
    r.(Reader.decoder_).(Decoder.config).(Decoder.print_limit).

Section cli.
(** The environment: [create_directories] answers an error's message;
    [open_file] whether a file opens for writing; [close_file path content] what
    the file holds in the end and whether every write and the closing succeeded;
    [load] the bytes of a capture or an exception's text. *)
Context (kVersion : bytes).
Context (create_directories : bytes → option bytes) (open_file : bytes → bool).
Context (close_file : bytes → bytes → bytes * bool) (load : bytes → bytes + bytes).
Context (now : nat → Z).
Context (iterate : gmap FlowKey Flow → list (FlowKey * Flow)).
Context (iterate_protocols : gmap Z Z → list (Z * Z)).
Context (iterate_names : DnsTable.DnsTable → list (DnsTable.IpKey * list bytes)).
Context (sort : ∀ A, (A → A → bool) → list A → list A).

Definition counts (r : Reader.Reader) : Counts :=
  foldl (countFlow (appDecoder r)) zeroCounts (allFlows iterate (sort _) (flowTable r)).

Definition printSummary (r : Reader.Reader) : bytes :=
  let table := flowTable r in
  let active := Z.of_nat (size table.(flows)) in
  let retired := len table.(completed) in
  let c := counts r in
  chars "summary" ++ [newline] ++
  chars "  packets decoded   " ++ dec (decoded r) ++ [newline] ++
  chars "  packets skipped   " ++ dec r.(Reader.skipped_) ++
  when (negb (r.(Reader.skipped_) =? 0))
       (chars "  (last: " ++ chars (ParseError.toString r.(Reader.last_skip_err_)) ++ chars ")") ++ [newline] ++
  chars "  bytes             " ++ dec table.(total_bytes) ++ [newline] ++
  chars "  flows             " ++ dec (u64 (retired + active)) ++
  chars "  (" ++ dec active ++ chars " active, " ++ dec retired ++ chars " retired)" ++ [newline] ++
  when (negb (c.(dns_messages) =? 0))
       (chars "  dns messages      " ++ dec c.(dns_messages) ++ [newline]) ++
  when (negb (c.(http_messages) =? 0))
       (chars "  http messages     " ++ dec c.(http_messages) ++ [newline]) ++
  when (negb (c.(decode_failures) =? 0))
       (chars "  decode failures   " ++ dec c.(decode_failures) ++ [newline]) ++
  when (negb (c.(http_bodies_skipped) =? 0))
       (chars "  http bodies skipped " ++ dec c.(http_bodies_skipped) ++ chars "  (>" ++
        dec (AppDecoder.MAX_HTTP_MESSAGE_BYTES / (1024 * 1024)) ++ chars "MB, not decode failures)" ++ [newline]) ++
  chars "  total time        " ++ Benchmark.formatDuration (Benchmark.elapsedNs (benchmark r) Benchmark.Total) ++
  [newline; newline].

(** ** The packets *)

(** The callback: what is in [*out], and [packets_written]. *)
Definition on_packet (o : Options) (r : Reader.Reader) (c : Capture) (st : bytes * Z) : outcome (bytes * Z) :=
  let '(os, packets_written) := st in
  let limit := o.(config).(Decoder.print_limit) in
  if negb (limit =? 0) && (limit <=? packets_written) then Ret (os, packets_written) else
  let os := os ++ when (o.(json) && (0 <? packets_written)) (chars "," ++ [newline]) in
  s ← Reader.print r c;
  let os := os ++ s in
  let packets_written := u64 (packets_written + 1) in
  Ret (os ++ when (negb o.(json) && (packets_written =? limit)) (chars "  ... limit reached" ++ [newline]),
       packets_written).

(** Everything inserted into [*out], the reader behind the capture's last
    record, and [packets_written]. *)
Definition writePackets (o : Options) (r : Reader.Reader) : outcome (bytes * Reader.Reader * Z) :=
  '(r, (os, n)) ← Reader.readAllPackets now (on_packet o) r (when o.(json) (chars "[" ++ [newline]), 0);
  Ret (os ++ when o.(json) (chars "]" ++ [newline]), r, n).

(** [Reader::readAllPackets()]. *)
Definition readQuietly (r : Reader.Reader) : outcome Reader.Reader :=
  '(r, _) ← Reader.readAllPackets now (λ _ _ u, Ret u) r ();
  Ret r.

(** ** The sections *)

(** [written] and [write_failed], with the world. *)
Record Output := mkOutput { world : World; written : list bytes; write_failed : bool }.

Definition fail_write (w : World) (written : list bytes) (what path : bytes) : Output :=
  mkOutput (say w (what ++ path)) written true.

(** [emit]: [content] is what [render] inserts. *)
Definition emit (o : Options) (name : bytes) (content : outcome bytes) (u : Output) : outcome Output :=
  content ← content;
  if bool_decide (o.(out_dir) = []) then
    Ret (mkOutput (to_cout u.(world) content) u.(written) u.(write_failed))
  else
    let path := slash o.(out_dir) name in
    if negb (open_file path) then Ret (fail_write u.(world) u.(written) (chars "cannot write ") path) else
    let '(kept, good) := close_file path content in
    let w := to_file u.(world) path kept in
    if negb good then Ret (fail_write w u.(written) (chars "cannot write ") path) else
    Ret (mkOutput w (u.(written) ++ [name]) u.(write_failed)).

Definition flowsSection (o : Options) (r : Reader.Reader) : outcome bytes :=
  if o.(json) then
    s ← StatsEngine.toJson iterate iterate_protocols sort (statsEngine r);
    Ret (chars "{" ++ [newline] ++ indent s (chars "  ") ++ [newline] ++ chars "}" ++ [newline])
  else
    s ← StatsEngine.toString iterate iterate_protocols sort (statsEngine r);
    Ret (s ++ [newline]).

(** The sections in the order they are emitted: whether each is asked for, its
    file, its content. *)
Definition sections (o : Options) (r : Reader.Reader) : list (bool * bytes * outcome bytes) :=
  [(o.(show_summary), chars "summary.txt", Ret (printSummary r));
   (o.(show_flows), chars (if o.(json) then "flows.json" else "flows.txt"), flowsSection o r);
   (o.(show_http), chars "http.txt", StatsEngine.printHttp iterate sort (statsEngine r));
   (o.(show_dns), chars "dns.txt", StatsEngine.printDns iterate_names sort (statsEngine r));
   (o.(show_bench), chars "bench.txt", Ret (StatsEngine.printBenchmark (statsEngine r)))].

Fixpoint emitAll (o : Options) (l : list (bool * bytes * outcome bytes)) (u : Output) : outcome Output :=
  match l with
  | [] => Ret u
  | (show, name, content) :: l =>
      u ← (if (show : bool) then emit o name content u else Ret u);
      emitAll o l u
  end.

Definition packets_name (o : Options) : bytes := chars (if o.(json) then "packets.json" else "packets.txt").

(** The [if (out)] statement: the reader, [written], [write_failed] and
    [packets_written] behind it. *)
Definition packetsSection (o : Options) (r : Reader.Reader) (w : World)
    : outcome (Reader.Reader * Output * Z) :=
  if o.(show_packets) then
    '(content, r, n) ← writePackets o r;
    if bool_decide (o.(out_dir) = []) then Ret (r, mkOutput (to_cout w content) [] false, n) else
    let path := slash o.(out_dir) (packets_name o) in
    let '(kept, good) := close_file path content in
    let w := to_file w path kept in
    if good then Ret (r, mkOutput w [packets_name o] false, n)
    else Ret (r, fail_write w [] (chars "failed writing ") path, n)
  else
    r ← readQuietly r;
    Ret (r, mkOutput w [] false, 0).

(** The list of the files. *)
Definition listWritten (o : Options) (u : Output) (packets_written : Z) : bytes :=
  kProgram ++ chars ": wrote " ++ dec (len u.(written)) ++
  (if len u.(written) =? 1 then chars " file to " else chars " files to ") ++ o.(out_dir) ++ [newline] ++
  concat ((λ name, chars "  " ++ name ++
    when (bool_decide (name = packets_name o)) (chars "  (" ++ dec packets_written ++ chars " packets)") ++
    [newline]) <$> u.(written)).

(** The body of the [try] statement. *)
Definition run (o : Options) (w : World) : outcome (Z * World) :=
  match load o.(path) with
  | inl what => Ret (1, say w (o.(path) ++ chars ": " ++ what))
  | inr data =>
      r ← Reader.newReader now data o.(config) o.(show_bench);
      let packets := slash o.(out_dir) (packets_name o) in
      if o.(show_packets) && negb (bool_decide (o.(out_dir) = [])) && negb (open_file packets)
      then Ret (2, say w (chars "cannot write " ++ packets)) else
      let r := Reader.setJson r o.(json) in
      '(r, u, packets_written) ← packetsSection o r w;
      u ← emitAll o (sections o r) u;
      let w := to_cout u.(world)
        (when (negb (bool_decide (o.(out_dir) = [])) && negb (bool_decide (u.(written) = [])))
              (listWritten o u packets_written)) in
      Ret (if u.(write_failed) then 1 else 0, w)
  end.

(** The exit code. *)
Definition cli (args : list bytes) (w : World) : outcome (Z * World) :=
  r ← parseArgs args;
  match r with
  | inl message => Ret (2, to_cerr (to_cerr w message) (chars "try '" ++ kProgram ++ chars " --help'" ++ [newline]))
  | inr o =>
      if o.(help) then Ret (0, to_cout w usage) else
      if o.(version) then Ret (0, to_cout w (kProgram ++ chars " " ++ kVersion ++ [newline])) else
      let dir := o.(out_dir) in
      if bool_decide (dir = []) then run o w else
      match create_directories dir with
      | Some message => Ret (2, say (ask w dir) (dir ++ chars ": " ++ message))
      | None => run o (ask w dir)
      end
  end.
End cli.

(** ** Lemmas: the streams *)

Section streams.
Context (open_file : bytes → bool) (close_file : bytes → bytes → bytes * bool).

(** What the program adds to [std::cerr] with an outcome. *)
Record spoke (w w' : World) (failed : bool) : Prop := {
  sp_cerr : ∃ m, w'.(cerr) = w.(cerr) ++ m ∧ (m = [] ↔ failed = false);
}.

Lemma say_spoke w w' b message : spoke w w' b → spoke w (say w' message) true.
Proof.
  intros [(m & Hm & _)]. split. unfold say. cbn. rewrite Hm, <- app_assoc.
  eexists. split; [done|]. split; [|done]. by intros [_ ?]%app_eq_nil.
Qed.
Lemma quiet_spoke w w' w2 b : spoke w w' b → w2.(cerr) = w'.(cerr) → spoke w w2 b.
Proof. intros [H] E. split. by rewrite E. Qed.
Lemma spoke_refl w : spoke w w false.
Proof. split. exists []. by rewrite app_nil_r. Qed.

Lemma emit_spoke o name content u u' w :
  emit open_file close_file o name content u = Ret u' →
  spoke w u.(world) u.(write_failed) → spoke w u'.(world) u'.(write_failed).
Proof.
  unfold emit. intros (s & _ & H)%bind_Ret_inv Hs. split_if_in H.
  { injection H as <-. by eapply quiet_spoke. }
  cbn zeta in H. split_if_in H; [injection H as <-; by eapply say_spoke|].
  destruct (close_file _ s) as [kept good]. split_if_in H; injection H as <-.
  - cbn. eapply say_spoke, quiet_spoke; [exact Hs|done].
  - by eapply quiet_spoke.
Qed.

Lemma emitAll_spoke o l u u' w :
  emitAll open_file close_file o l u = Ret u' →
  spoke w u.(world) u.(write_failed) → spoke w u'.(world) u'.(write_failed).
Proof.
  revert u. induction l as [|[[show name] content] l IH]; intros u; cbn [emitAll]; [by intros [= ->]|].
  intros (u1 & H1 & H)%bind_Ret_inv Hs. eapply IH; [exact H|].
  destruct show; [by eapply emit_spoke|by injection H1 as <-].
Qed.
End streams.

(** ** Lemmas: the files *)

Section files.
Context (open_file : bytes → bool) (close_file : bytes → bytes → bytes * bool).
(** A file written without an error holds what was written. *)
Context (Hclose : ∀ path content, (close_file path content).2 = true → (close_file path content).1 = content).

(** The sections asked for, with their texts. *)
Definition asked_for (l : list (bool * bytes * outcome bytes)) : list (bytes * bytes) :=
  omap (λ x, match x with (true, name, Ret s) => Some (name, s) | _ => None end) l.
Definition written_to (dir : bytes) (l : list (bytes * bytes)) (m : gmap bytes bytes) : gmap bytes bytes :=
  foldl (λ m x, <[slash dir x.1 := x.2]> m) m l.

Lemma emitAll_failed o l u u' :
  emitAll open_file close_file o l u = Ret u' → u.(write_failed) = true → u'.(write_failed) = true.
Proof.
  revert u. induction l as [|[[show name] content] l IH]; intros u; cbn [emitAll]; [by intros [= ->]|].
  intros (u1 & H1 & H)%bind_Ret_inv Hf. eapply IH; [exact H|]. destruct show; [|by injection H1 as <-].
  unfold emit in H1. apply bind_Ret_inv in H1 as (s & _ & H1). split_if_in H1; [by injection H1 as <-|].
  cbn zeta in H1. split_if_in H1; [by injection H1 as <-|]. destruct (close_file _ s) as [kept good].
  split_if_in H1; by injection H1 as <-.
Qed.

Lemma emitAll_files o l u u' :
  o.(out_dir) ≠ [] → emitAll open_file close_file o l u = Ret u' → u'.(write_failed) = false →
  u'.(world).(files) = written_to o.(out_dir) (asked_for l) u.(world).(files) ∧
  u'.(written) = u.(written) ++ (asked_for l).*1 ∧ u'.(world).(cout) = u.(world).(cout) ∧
  Forall (λ x, x.1.1 = true → ∃ s, x.2 = Ret s) l.
Proof using Hclose.
  intros Hd. revert u. induction l as [|[[show name] content] l IH]; intros u; cbn [emitAll].
  { intros [= ->] _. cbn. rewrite app_nil_r. by split_and!. }
  intros (u1 & H1 & H)%bind_Ret_inv Hok. destruct (IH u1 H Hok) as (Hf & Hw & Hc & Hall).
  destruct show; [|injection H1 as <-; split_and!; try done; by apply Forall_cons_2].
  unfold emit in H1. apply bind_Ret_inv in H1 as (s & -> & H1). rewrite bool_decide_eq_false_2 in H1 by done.
  cbn zeta in H1. assert (Hu1 : u1.(write_failed) = false).
  { destruct (write_failed u1) eqn:E; [|done]. by rewrite (emitAll_failed _ _ _ _ H E) in Hok. }
  split_if_in H1; [by injection H1 as <-|]. pose proof (Hclose (slash (out_dir o) name) s) as Hc1.
  destruct (close_file _ s) as [kept good]. split_if_in H1; [by injection H1 as <-|].
  apply negb_false_iff in Hc2 as ->. rewrite <- (Hc1 eq_refl).
  injection H1 as <-. cbn in *. split_and!; [done| |done|].
  - by rewrite Hw, <- app_assoc.
  - apply Forall_cons_2; [by eexists|done].
Qed.
End files.

(** ** Lemmas: the packets *)

Section packets.
Context (now : nat → Z).

(** A callback that answers as another one does, on an image of its state. *)
Lemma readAll_simulates {A B} (cb1 : Reader.Reader → Capture → A → outcome A)
    (cb2 : Reader.Reader → Capture → B → outcome B) (f : A → B) (P : A → Prop) r a r' a' :
  (∀ r c a a', cb1 r c a = Ret a' → P a' → P a ∧ cb2 r c (f a) = Ret (f a')) →
  P a' → Reader.readAllPackets now cb1 r a = Ret (r', a') →
  Reader.readAllPackets now cb2 r (f a) = Ret (r', f a').
Proof.
  intros Hcb HP. unfold Reader.readAllPackets. cbn zeta. intros ([r1 a1] & Hl & [= <- <-])%bind_Ret_inv.
  revert Hl. generalize (S (length (Reader.span_ (Reader.began now r Benchmark.Total)))) as fuel.
  generalize (Reader.began now r Benchmark.Total) as r0. intros r0 fuel Hl.
  assert (P a ∧ loop fuel (Reader.readAll_body now cb2) (r0, f a) = Ret (r1, f a1)) as [_ ->]; [|done].
  revert r0 a Hl. induction fuel as [|fuel IH]; intros r0 a; [done|]. cbn [loop].
  rewrite !Reader.readAll_body_eq. destruct (Reader.readPacket now r0) as [[err r2]| |]; [|done..].
  rewrite !bind_ret. destruct (failed err); [by intros [= <- <-]|].
  destruct (cb1 r2 (Reader.capture_ r2) a) as [a2| |] eqn:E; [|done..]. rewrite !bind_ret.
  intros Hl. destruct (IH r2 a2 Hl) as [HP2 Hl2]. destruct (Hcb _ _ _ _ E HP2) as [HPa E2].
  rewrite E2, bind_ret. done.
Qed.

(** The callback that keeps the text of every packet. *)
Definition gather (r : Reader.Reader) (c : Capture) (l : list bytes) : outcome (list bytes) :=
  s ← Reader.print r c;
  Ret (l ++ [s]).

(** What [on_packet] has written when the packets' texts are [l]. *)
Definition progress (o : Options) (l : list bytes) : bytes * Z :=
  let limit := o.(config).(Decoder.print_limit) in
  let shown := StatsEngine.upto limit l in
  (if o.(json)
   then chars "[" ++ [newline] ++ StatsEngine.separated (chars "," ++ [newline]) id shown
   else concat shown ++ when (negb (limit =? 0) && (limit <=? len l)) (chars "  ... limit reached" ++ [newline]),
   len shown).

Lemma separated_snoc {A} sep (f : A → bytes) l x :
  StatsEngine.separated sep f (l ++ [x]) =
  StatsEngine.separated sep f l ++ when (0 <? len l) sep ++ f x.
Proof.
  induction l as [|y l IH]; [done|]. cbn [app StatsEngine.separated]. rewrite IH.
  destruct l as [|z l]; cbn [app]; [done|].
  assert ((0 <? len (y :: z :: l)) = true) as -> by (apply Z.ltb_lt; zlen).
  assert ((0 <? len (z :: l)) = true) as -> by (apply Z.ltb_lt; zlen).
  cbn [when]. by rewrite <- !app_assoc.
Qed.

Lemma upto_small {A} limit (l : list A) : 0 ≤ limit → limit = 0 ∨ len l ≤ limit → StatsEngine.upto limit l = l.
Proof.
  intros H0 H. unfold StatsEngine.upto. destruct (Z.eqb_spec limit 0); [done|].
  unfold ztake. apply take_ge. unfold len in H. lia.
Qed.
Lemma upto_full {A} limit (l : list A) x :
  0 < limit ≤ len l → StatsEngine.upto limit (l ++ [x]) = StatsEngine.upto limit l ∧ len (StatsEngine.upto limit l) = limit.
Proof.
  intros H. unfold StatsEngine.upto. rewrite (proj2 (Z.eqb_neq limit 0)) by lia.
  split; [apply ztake_app_le; lia|apply len_ztake; lia].
Qed.

Lemma gather_progress o r c l l' :
  0 ≤ o.(config).(Decoder.print_limit) →
  gather r c l = Ret l' → len l' < 2 ^ 64 → len l < 2 ^ 64 ∧ on_packet o r c (progress o l) = Ret (progress o l').
Proof.
  intros Hlim. unfold gather. intros (s & Hs & [= <-])%bind_Ret_inv Hl.
  rewrite len_app in Hl. change (len [s]) with 1 in Hl. split; [lia|]. pose proof (len_nonneg l) as Hl0.
  unfold on_packet, progress. set (limit := o.(config).(Decoder.print_limit)) in *. cbn zeta.
  destruct (decide (limit = 0 ∨ len l < limit)) as [Hopen|Hclosed].
  - rewrite !upto_small by (rewrite ?len_app; change (len [s]) with 1; lia).
    assert (negb (limit =? 0) && (limit <=? len l) = false) as -> by lia.
    rewrite Hs, bind_ret, len_app. change (len [s]) with 1. rewrite u64_small by lia.
    destruct (json o); cbn [negb andb when].
    + rewrite separated_snoc, !app_nil_r, <- !app_assoc. done.
    + rewrite !app_nil_r, concat_app. cbn [concat]. rewrite app_nil_r. do 4 f_equal. lia.
  - destruct (upto_full limit l s ltac:(lia)) as [-> Hfull]. rewrite Hfull.
    assert (negb (limit =? 0) && (limit <=? limit) = true) as -> by lia.
    assert (negb (limit =? 0) && (limit <=? len l) = true) as -> by lia.
    rewrite len_app. change (len [s]) with 1.
    assert (negb (limit =? 0) && (limit <=? len l + 1) = true) as -> by lia. done.
Qed.
End packets.

(** ** Properties *)

(** C19: with a limit of [N] rows the packets' section is the first [N] packets'
    texts: as lines with a note behind the [N]-th (also when there is no
    other), or as a JSON list with a comma between two; without a limit it is
    all of them; and the reader reads the whole capture either way. *)
Theorem writePackets_limit (now : nat → Z) (o : Options) (r r' : Reader.Reader) (l : list bytes) :
  let limit := o.(config).(Decoder.print_limit) in
  let shown := StatsEngine.upto limit l in
  0 ≤ limit → len l < 2 ^ 64 → Reader.readAllPackets now gather r [] = Ret (r', l) →
  writePackets now o r =
  Ret (if o.(json)
       then chars "[" ++ [newline] ++ StatsEngine.separated (chars "," ++ [newline]) id shown ++ chars "]" ++ [newline]
       else concat shown ++ when (negb (limit =? 0) && (limit <=? len l)) (chars "  ... limit reached" ++ [newline]),
       r', len shown).
Proof.
  intros limit shown Hlim Hl Hr. unfold writePackets.
  pose proof (readAll_simulates now gather (on_packet o) (progress o) (λ l, len l < 2 ^ 64) r [] r' l
    ltac:(intros; by eapply gather_progress) Hl Hr) as E.
  assert (progress o [] = (when o.(json) (chars "[" ++ [newline]), 0)) as E0.
  { unfold progress. rewrite StatsEngine.upto_nil. fold limit.
    assert (negb (limit =? 0) && (limit <=? len (@nil bytes)) = false) as -> by (rewrite (@len_nil bytes); lia).
    by destruct (json o). }
  rewrite E0 in E. rewrite E, bind_ret. unfold progress. fold limit. fold shown. cbn zeta.
  destruct (json o); cbn [when]; [by rewrite <- !app_assoc|by rewrite app_nil_r].
Qed.

Section properties.
Context (kVersion : bytes).
Context (create_directories : bytes → option bytes) (open_file : bytes → bool).
Context (close_file : bytes → bytes → bytes * bool) (load : bytes → bytes + bytes).
Context (now : nat → Z).
Context (iterate : gmap FlowKey Flow → list (FlowKey * Flow)).
Context (iterate_protocols : gmap Z Z → list (Z * Z)).
Context (iterate_names : DnsTable.DnsTable → list (DnsTable.IpKey * list bytes)).
Context (sort : ∀ A, (A → A → bool) → list A → list A).

Definition cli_ := cli kVersion create_directories open_file close_file load now iterate iterate_protocols iterate_names sort.
Definition run_ := run open_file close_file load now iterate iterate_protocols iterate_names sort.

Lemma packetsSection_spoke o r w r' u n :
  packetsSection close_file now o r w = Ret (r', u, n) → spoke w u.(world) u.(write_failed).
Proof.
  unfold packetsSection. destruct (show_packets o).
  - intros ([[content r1] n1] & _ & H)%bind_Ret_inv. split_if_in H.
    { injection H as _ <- _. eapply quiet_spoke; [apply spoke_refl|done]. }
    cbn zeta in H. destruct (close_file _ content) as [kept good]. destruct good; injection H as _ <- _.
    + eapply quiet_spoke; [apply spoke_refl|done].
    + cbn. eapply say_spoke, quiet_spoke; [apply (spoke_refl w)|done].
  - intros (r1 & _ & [= _ <- _])%bind_Ret_inv. apply spoke_refl.
Qed.

(** What an outcome of the program may have done. *)
Record outcome_ok (w w' : World) (code : Z) : Prop := {
  ok_code : code = 0 ∨ code = 1 ∨ code = 2;
  ok_spoke : spoke w w' (negb (code =? 0));
  ok_usage : code = 2 → w'.(cout) = w.(cout) ∧ w'.(files) = w.(files);
}.

Lemma run_ok o w code w' : run_ o w = Ret (code, w') → outcome_ok w w' code.
Proof.
  unfold run_, run. destruct (load (path o)) as [what|data].
  { intros [= <- <-]. split; [auto|eapply say_spoke, spoke_refl|done]. }
  intros (r & _ & H)%bind_Ret_inv. cbn zeta in H. split_if_in H.
  { injection H as <- <-. split; [auto|eapply say_spoke, spoke_refl|done]. }
  apply bind_Ret_inv in H as ([[r1 u] n] & Hp & H). apply bind_Ret_inv in H as (u' & Hu & H).
  injection H as <- <-. apply packetsSection_spoke in Hp. eapply emitAll_spoke in Hu; [|exact Hp].
  split; [destruct (write_failed u'); auto| |by destruct (write_failed u')].
  eapply (quiet_spoke _ u'.(world)); [|done]. by destruct (write_failed u').
Qed.

(** C22: the exit code tells what happened: 0, 1 or 2; a message on the standard
    error exactly when it is not 0; and with 2 (a bad command line, or no place
    for the output) nothing was printed and no file was touched. *)
Theorem cli_exit_code (args : list bytes) (w w' : World) (code : Z) :
  cli_ args w = Ret (code, w') → outcome_ok w w' code.
Proof.
  unfold cli_, cli. intros ([m|o] & Hp & H)%bind_Ret_inv.
  - injection H as <- <-. split; [auto| |done]. split. cbn. rewrite <- app_assoc. eexists.
    split; [done|]. split; [|done]. by intros [_ ?]%app_eq_nil.
  - destruct (help o); [injection H as <- <-; split; [auto|eapply quiet_spoke; [apply spoke_refl|done]|done]|].
    destruct (version o); [injection H as <- <-; split; [auto|eapply quiet_spoke; [apply spoke_refl|done]|done]|].
    cbn zeta in H. split_if_in H; [by apply run_ok in H|].
    destruct (create_directories _) as [message|].
    + injection H as <- <-. split; [auto| |done]. eapply say_spoke, quiet_spoke; [apply (spoke_refl w)|done].
    + apply run_ok in H as [H1 H2 H3]. split; [done|by destruct H2|exact H3].
Qed.

(** The capture has been read by the reader [r]; [content] is the packets'
    section and [n] its packets, when asked for. *)
Definition has_read (o : Options) (r : Reader.Reader) (content : bytes) (n : Z) : Prop :=
  ∃ data r0, load o.(path) = inr data ∧ Reader.newReader now data o.(config) o.(show_bench) = Ret r0 ∧
    if o.(show_packets) then writePackets now o (Reader.setJson r0 o.(json)) = Ret (content, r, n)
    else readQuietly now (Reader.setJson r0 o.(json)) = Ret r ∧ n = 0.
Definition all_sections (o : Options) (r : Reader.Reader) (content : bytes) : list (bool * bytes * outcome bytes) :=
  (o.(show_packets), packets_name o, Ret content) ::
  sections iterate iterate_protocols iterate_names sort o r.

Lemma sections_names o r content : NoDup (all_sections o r content).*1.*2.
Proof. unfold all_sections, sections, packets_name. destruct (json o); apply (bool_decide_eq_true_1 (NoDup _)); vm_compute; reflexivity. Qed.

Record reported (o : Options) (w w' : World) (r : Reader.Reader) (content : bytes) (n : Z) : Prop := {
  re_file : ∀ name text, (true, name, text) ∈ all_sections o r content →
    ∃ s, text = Ret s ∧ w'.(files) !! slash o.(out_dir) name = Some s;
  re_other : ∀ path, (∀ name text, (true, name, text) ∈ all_sections o r content → path ≠ slash o.(out_dir) name) →
    w'.(files) !! path = w.(files) !! path;
  re_cout : w'.(cout) = w.(cout) ++
    let names := (asked_for (all_sections o r content)).*1 in
    when (negb (bool_decide (names = []))) (listWritten o (mkOutput w names false) n);
}.

Lemma asked_names (l : list (bool * bytes * outcome bytes)) : sublist (asked_for l).*1 l.*1.*2.
Proof.
  unfold asked_for. induction l as [|[[[] name] [s| |]] l IH]; cbn in *;
    solve [constructor | by apply sublist_skip | by apply sublist_cons].
Qed.

Lemma written_lookup dir l m :
  NoDup l.*1 →
  (∀ name s, (name, s) ∈ l → written_to dir l m !! slash dir name = Some s) ∧
  (∀ path, (∀ name s, (name, s) ∈ l → path ≠ slash dir name) → written_to dir l m !! path = m !! path).
Proof.
  unfold written_to. induction l as [|[name s] l IH] using rev_ind; intros Hn.
  { split; [by intros ?? ?%elem_of_nil|done]. }
  rewrite fmap_app in Hn. apply list.NoDup_app in Hn as (Hn & Hd & _). destruct (IH Hn) as [IH1 IH2].
  rewrite foldl_app. cbn [foldl fst snd]. split.
  - intros name' s' [Hin|Hin]%elem_of_app.
    + rewrite lookup_insert_ne; [by apply IH1|]. intros E%app_inv_head%app_inv_head. subst.
      apply (Hd name'); [|by left]. apply list_elem_of_fmap. by exists (name', s').
    + apply list_elem_of_singleton in Hin as [= -> ->]. by rewrite lookup_insert_eq.
  - intros path Hp. rewrite lookup_insert_ne; [apply IH2|].
    + intros name' s' Hin. apply (Hp name' s'). apply elem_of_app. by left.
    + intros E. apply (Hp name s); [apply elem_of_app; right; by left|done].
Qed.

Lemma asked_for_elem (l : list (bool * bytes * outcome bytes)) name s :
  (name, s) ∈ asked_for l ↔ (true, name, Ret s) ∈ l.
Proof.
  unfold asked_for. rewrite list_elem_of_omap. split.
  - intros ([[[] name'] [s'| |]] & Hin & E); try done. by injection E as -> ->.
  - intros Hin. by exists (true, name, Ret s).
Qed.

(** The files of a run that succeeded, as one map. *)
Lemma run_written o w w' :
  (∀ path content, (close_file path content).2 = true → (close_file path content).1 = content) →
  o.(out_dir) ≠ [] → run_ o w = Ret (0, w') →
  ∃ r content n, has_read o r content n ∧
    let l := asked_for (all_sections o r content) in
    w'.(files) = written_to o.(out_dir) l w.(files) ∧
    Forall (λ x, x.1.1 = true → ∃ s, x.2 = Ret s) (all_sections o r content) ∧
    w'.(cout) = w.(cout) ++ when (negb (bool_decide (l.*1 = []))) (listWritten o (mkOutput w l.*1 false) n).
Proof.
  intros Hclose Hd. unfold run_, run. destruct (load (path o)) as [what|data] eqn:El; [done|].
  intros (r0 & Hr0 & H)%bind_Ret_inv. cbn zeta in H. split_if_in H.
  apply bind_Ret_inv in H as ([[r u] n] & Hp & H). apply bind_Ret_inv in H as (u' & Hu & H).
  rewrite (bool_decide_eq_false_2 (out_dir o = [])) in H by done. cbn [negb andb] in H.
  destruct (write_failed u') eqn:Hf; [done|]. injection H as <-.
  destruct (emitAll_files open_file close_file Hclose o _ u u' Hd Hu Hf) as (Hfi & Hwr & Hco & Hall).
  unfold packetsSection in Hp. unfold listWritten. cbn [to_cout cout files written]. rewrite Hwr, Hco, Hfi. destruct (show_packets o) eqn:Esp.
  - apply bind_Ret_inv in Hp as ([[content r1] n1] & Hw & Hp). rewrite bool_decide_eq_false_2 in Hp by done.
    cbn zeta in Hp. pose proof (Hclose (slash (out_dir o) (packets_name o)) content) as Hc1.
    destruct (close_file _ content) as [kept good]. destruct good.
    2: { injection Hp as <- <- <-. by rewrite (emitAll_failed _ _ _ _ _ _ Hu eq_refl) in Hf. }
    cbn in Hc1. rewrite (Hc1 eq_refl) in Hp. injection Hp as <- <- <-. exists r1, content, n1. split.
    { exists data, r0. by rewrite Esp. }
    cbn zeta. unfold all_sections. rewrite Esp. split; [done|]. split; [|done]. apply Forall_cons_2; [by eexists|done].
  - apply bind_Ret_inv in Hp as (r1 & Hq & [= <- <- <-]). exists r1, [], 0. split.
    { exists data, r0. by rewrite Esp. }
    cbn zeta. unfold all_sections. rewrite Esp. split; [done|]. split; [|done]. by apply Forall_cons_2.
Qed.

(** C18: a run with an output directory that exits with 0 leaves there exactly the
    sections asked for, each under its name with its whole text, the packets'
    included; no other file changes, and the names are listed. *)
Theorem run_files (o : Options) (w w' : World) :
  (∀ path content, (close_file path content).2 = true → (close_file path content).1 = content) →
  o.(out_dir) ≠ [] → run_ o w = Ret (0, w') →
  ∃ r content n, has_read o r content n ∧ reported o w w' r content n.
Proof.
  intros Hclose Hd Hrun. destruct (run_written o w w' Hclose Hd Hrun) as (r & content & n & Hr & Hf & Hall & Hc).
  exists r, content, n. split; [done|].
  destruct (written_lookup o.(out_dir) (asked_for (all_sections o r content)) w.(files)) as [H1 H2].
  { eapply sublist_NoDup; [|apply asked_names]. apply sections_names. }
  split; [| |done].
  - intros name text Hin. destruct (proj1 (Forall_forall _ _) Hall _ Hin eq_refl) as [s Hs]. cbn in Hs. subst text.
    exists s. split; [done|]. rewrite Hf. by apply H1, asked_for_elem.
  - intros path Hp. rewrite Hf. apply H2. intros name s Hin. apply asked_for_elem in Hin. by apply (Hp name (Ret s)).
Qed.
End properties.

(** ** Witnesses *)

Definition sample_load (path : bytes) : bytes + bytes :=
  if bool_decide (path = chars "a.pcap")
  then inr (Pcap.encodeFileHeader Endian.Little false (Reader.sample_header 1) ++ Reader.sample_data)
  else inl (chars "Reader: failed to open file").
Definition no_world : World := mkWorld [] [] ∅ [].
Definition sample_close (path content : bytes) : bytes * bool := (content, true).
Definition sample_cli : list bytes → World → outcome (Z * World) :=
  cli_ (chars "1.0.0") (λ _, None) (λ _, true) sample_close sample_load Decoder.sample_now
       map_to_list map_to_list map_to_list StatsEngine.std_sort.
Definition sample_options : Options :=
  match parseArgs [chars "a.pcap"; chars "-o"; chars "out"; chars "-p"; chars "-s"; chars "-n"; chars "1"] with
  | Ret (inr o) => o
  | _ => defaultOptions
  end.
Abbreviation sample_run :=
  (run_ (λ _, true) sample_close sample_load Decoder.sample_now map_to_list map_to_list map_to_list
        StatsEngine.std_sort sample_options no_world).
Definition exits_with (code : Z) (r : outcome (Z * World)) : bool :=
  match r with Ret (c, _) => c =? code | _ => false end.
Definition world_of (r : outcome (Z * World)) : World := match r with Ret (_, w) => w | _ => no_world end.
Lemma exits_eq code r : exits_with code r = true → r = Ret (code, world_of r).
Proof. destruct r as [[c w]| |]; [|done..]. by intros ->%Z.eqb_eq. Qed.
Abbreviation sample_world := (world_of sample_run).

Example sample_world_cout :
  (cout sample_world, cerr sample_world, elements (dom (files sample_world))) =
  (chars "analyzer: wrote 2 files to out" ++ [newline] ++
   chars "  packets.txt  (1 packets)" ++ [newline] ++ chars "  summary.txt" ++ [newline], [],
   [chars "out/summary.txt"; chars "out/packets.txt"]).
Proof. vm_compute. reflexivity. Qed.
Lemma sample_run_files : sample_run = Ret (0, sample_world).
Proof. apply (exits_eq 0 sample_run). vm_compute. reflexivity. Qed.

Lemma run_files_witness :
  ∃ r content n,
    has_read sample_load Decoder.sample_now sample_options r content n ∧
    reported map_to_list map_to_list map_to_list StatsEngine.std_sort sample_options no_world sample_world r content n.
Proof.
  apply (run_files (λ _, true) sample_close); [done| |apply sample_run_files].
  intros H%(f_equal length). vm_compute in H. discriminate.
Defined.

Lemma sample_missing :
  sample_cli [chars "b.pcap"; chars "-f"] no_world =
  Ret (1, to_cerr no_world (chars "analyzer: b.pcap: Reader: failed to open file" ++ [newline])).
Proof. vm_compute. reflexivity. Qed.
Lemma cli_exit_code_witness :
  outcome_ok no_world (to_cerr no_world (chars "analyzer: b.pcap: Reader: failed to open file" ++ [newline])) 1.
Proof.
  apply (cli_exit_code (chars "1.0.0") (λ _, None) (λ _, true) sample_close sample_load Decoder.sample_now
    map_to_list map_to_list map_to_list StatsEngine.std_sort [chars "b.pcap"; chars "-f"]).
  apply sample_missing.
Defined.

Definition sample_texts : Reader.Reader * list bytes :=
  returned (Reader.sample_reader, []) (Reader.readAllPackets Decoder.sample_now gather Reader.sample_reader []).
Lemma sample_texts_eq :
  Reader.readAllPackets Decoder.sample_now gather Reader.sample_reader [] = Ret (sample_texts.1, sample_texts.2).
Proof.
  rewrite <- surjective_pairing. apply returns_eq. vm_compute. reflexivity.
Qed.

Lemma writePackets_limit_witness :
  len sample_texts.2 = 1 ∧
  writePackets Decoder.sample_now sample_options Reader.sample_reader =
  Ret (concat (StatsEngine.upto 1 sample_texts.2) ++ chars "  ... limit reached" ++ [newline], sample_texts.1,
       len (StatsEngine.upto 1 sample_texts.2)).
Proof.
  assert (len sample_texts.2 = 1) as H1 by (vm_compute; reflexivity). split; [exact H1|].
  pose proof (writePackets_limit Decoder.sample_now sample_options Reader.sample_reader sample_texts.1 sample_texts.2) as H.
  assert (config sample_options = set_limit Decoder.defaultConfig 1) as Hc by (vm_compute; reflexivity).
  assert (json sample_options = false) as Hj by (vm_compute; reflexivity).
  rewrite Hc, Hj, H1 in H. apply H; [done|done|apply sample_texts_eq].
Defined.
