(* ===== verification/Safety.v ===== *)
(** Safety of the whole program: a capture, whatever its bytes, is read to its
    end, and the program comes to an exit code.

    [DecoderSafety] shows it of one packet; here are the loops over the records,
    the callback that prints, the reports and [cli].  What is not shown of a
    capture is a hypothesis on its TCP segments and the decoders they come to
    ([quiet_through]), which holds when there is none, and which a filter for
    another protocol than TCP makes true. *)
From S2P Require Import Prelude ParseError Text Packet FlowKey FlowTable Decoder DecoderSafety Reader Args Cli.
From S2P Require Endian Pcap Ethernet Ipv4 Ipv6 Tcp Http PacketDecoder DnsTable AppDecoder Benchmark StatsEngine.
From stdpp Require Import gmap sorting.
#[local] Open Scope Z_scope.

(** ** Reading *)

Section reading.
Context (now : nat → Z).

(** The capture a record is decoded into. *)
Definition arriving (r : Reader) (h : Pcap.PacketHeader) (data : bytes) : Capture :=
  let c := (enter now r h data).(capture_) in
  mkCapture (timestamp r.(is_nsec_) c.(packetHeader)) c.(packetHeader)
    (setDatatypeFromLinktype c.(pkt) r.(file_header_).(Pcap.linktype)).

(** Every record is quiet when the decoder comes to it. *)
Fixpoint quiet_through (l : list (Pcap.PacketHeader * bytes)) (r : Reader) : Prop :=
  match l with
  | [] => True
  | (h, data) :: l => quiet r.(decoder_) data (arriving r h data) ∧
      ∀ err r', visit now (enter now r h data) data = Ret (err, r') → quiet_through l r'
  end.

Record reader_ok (r : Reader) : Prop := {
  rk_decoder : decoder_ok r.(decoder_);
  rk_payload : bytes_ok r.(capture_).(pkt).(payload);
}.

Definition record_bounded (p : Pcap.PacketHeader * bytes) : Prop := bytes_ok p.2 ∧ len p.2 < 2 ^ 32.

Lemma records_bounded fuel e span : bytes_ok span → Forall record_bounded (records fuel e span).
Proof.
  revert span. induction fuel as [|fuel IH]; intros span Hb; [by apply Forall_nil_2|]. cbn [records].
  destruct (parsePacketHeader_cases span Pcap.zeroPacketHeader e Hb) as (err & s & h & -> & Hno & _).
  destruct err; try by apply Forall_nil_2. destruct (Hno eq_refl) as (-> & Hl & Hi).
  split_if; [by apply Forall_nil_2|]. apply Forall_cons_2; [|apply IH; auto with pcap].
  split; cbn [snd]; [auto with pcap|]. rewrite len_ztake; lia.
Qed.

Lemma visit_config r data err r' :
  visit now r data = Ret (err, r') → r'.(decoder_).(Decoder.config) = r.(decoder_).(Decoder.config).
Proof.
  unfold visit. cbn zeta. intros ([e [d [s c]]] & [Hc _]%decode_cases & H)%bind_Ret_inv.
  destruct e; injection H as <- <-; exact Hc.
Qed.

(** A filter for another protocol than TCP. *)
Lemma excluded_quiet l r :
  excludes_tcp r.(decoder_).(Decoder.config).(Decoder.filter) = true → quiet_through l r.
Proof.
  revert r. induction l as [|[h data] l IH]; intros r Hf; [done|]. split; [by left|].
  intros err r' Hv. apply IH. by rewrite (visit_config _ _ _ _ Hv).
Qed.

(** A check of [quiet_through] that runs, on the safe side. *)
Fixpoint quiet_through_check (l : list (Pcap.PacketHeader * bytes)) (r : Reader) : bool :=
  match l with
  | [] => true
  | (h, data) :: l => quiet_check r.(decoder_) data (arriving r h data) &&
      match visit now (enter now r h data) data with Ret (_, r') => quiet_through_check l r' | _ => true end
  end.

Lemma quiet_through_checked l r : quiet_through_check l r = true → quiet_through l r.
Proof.
  revert r. induction l as [|[h data] l IH]; intros r; [done|]. cbn. intros [H1 H2]%andb_true_iff.
  split; [by apply quiet_checked|]. intros err r' Hv. rewrite Hv in H2. by apply IH.
Qed.

Lemma wp_visit r h data :
  reader_ok r → quiet r.(decoder_) data (arriving r h data) → record_bounded (h, data) →
  wp (visit now (enter now r h data) data) (λ '(err, r'), reader_ok r' ∧
    (err = NoError → printable r'.(capture_).(pkt))).
Proof.
  intros [Hd Hp] Hq [Hb Hl]. unfold visit. cbn zeta. apply wp_bind.
  set (d := decoder_ _) at 1. set (c := capture_ _).
  eapply wp_mono; [apply (wp_decode now d data c)|].
  - by apply (decoder_ok_same r.(decoder_)).
  - by apply (quiet_same r.(decoder_)).
  - done.
  - done.
  - unfold c, capture_ok, PacketDecoder.eth_whole. cbn. by destruct (_ =? _).
  - exact Hp.
  - intros [err [d' [s c']]] [H1 H2 H3 H4].
    assert (Hend : ∀ r1, r1.(decoder_) = stopped now d' Benchmark.Decode → r1.(capture_) = c' →
      reader_ok r1 ∧ (err = NoError → printable r1.(capture_).(pkt))).
    { intros r1 E1 E2. rewrite E2. split; [|done]. split; [|by rewrite E2]. rewrite E1. by apply (decoder_ok_same d'). }
    destruct err; apply wp_ret, Hend; done.
Qed.

(** The round that finds no record touches the clock and the header alone. *)
Lemma last_round r err r' :
  readPacket_body now r = Ret (Stop (err, r')) → err ≠ NoError → reader_ok r → reader_ok r'.
Proof.
  intros H Hne [Hd Hp]. unfold readPacket_body in H. split_if_in H; [by injection H as _ <-|].
  cbn zeta in H. apply bind_Ret_inv in H as ([e [s h]] & _ & H).
  assert (Hsame : ∀ r1, r1.(decoder_).(Decoder.flowTable) = r.(decoder_).(Decoder.flowTable) →
    r1.(decoder_).(Decoder.appDecoder) = r.(decoder_).(Decoder.appDecoder) → r1.(capture_).(pkt) = r.(capture_).(pkt) → reader_ok r1).
  { intros r1 E1 E2 E3. split; [by apply (decoder_ok_same r.(decoder_))|by rewrite E3]. }
  split_if_in H; [by injection H as _ <-; apply Hsame|].
  split_if_in H; [by injection H as _ <-; apply Hsame|].
  apply bind_Ret_inv in H as (d & _ & H). apply bind_Ret_inv in H as (rest & _ & H).
  apply bind_Ret_inv in H as ([e' r2] & _ & H). by destruct e'; [injection H as <- _|..].
Qed.

(** The records in turn, with a callback that returns on what can be printed. *)
Section callback.
Context {St : Type} (on_packet : Reader → Capture → St → outcome St).
Context (Hcb : ∀ r c s, printable c.(pkt) → wp (on_packet r c s) (λ _, True)).

Lemma wp_process l fuel r s :
  Reader.readable r → (length r.(span_) < fuel)%nat → l = records fuel r.(endian_) r.(span_) →
  reader_ok r → quiet_through l r →
  wp (process now on_packet l (r, s)) (λ '(r', _), reader_ok r' ∧ wp (readPacket now r') (λ '(_, r2), reader_ok r2)).
Proof.
  revert fuel r s. induction l as [|[h data] l IH]; intros fuel r s Hr Hf El Hok Hq;
    pose proof (round_records now r fuel (proj1 Hr) Hf) as Hround; rewrite <- El in Hround.
  - apply wp_ret. split; [done|]. rewrite readPacket_step by done.
    destruct Hround as (err & r' & E & Hne & _). rewrite E, bind_ret. apply wp_ret. by eapply last_round.
  - destruct Hround as (_ & Hb' & Hlt & El'). destruct Hq as [Hq Hqs].
    assert (Hrec : record_bounded (h, data)).
    { pose proof (records_bounded fuel r.(endian_) r.(span_) (proj1 Hr)) as Hall. rewrite <- El in Hall.
      by apply Forall_cons_1 in Hall as [? _]. }
    cbn [process fst snd]. apply wp_bind.
    destruct (wp_returns _ _ (wp_visit r h data Hok Hq Hrec)) as ([err r'] & Hv & Hok' & Hpr).
    rewrite Hv. apply wp_ret. destruct (enter_readable now r h data err r' Hr Hb' Hv) as (Hr' & Hsp & Hen).
    apply wp_bind. eapply (wp_mono _ (λ _, True)).
    { destruct (failed err) eqn:Hfe; [by apply wp_ret|]. apply failed_false in Hfe. by apply Hcb, Hpr. }
    intros s' _. apply (IH (pred fuel)); rewrite ?Hsp, ?Hen; [done|lia|done|done|by eapply Hqs].
Qed.

Lemma wp_readAll r s :
  Reader.readable r → reader_ok r →
  quiet_through (packets_of r.(endian_) r.(span_)) (began now r Benchmark.Total) →
  wp (readAllPackets now on_packet r s) (λ '(r', _), reader_ok r').
Proof.
  intros Hr [Hd Hp] Hq. rewrite readAll_process by done. apply wp_bind.
  eapply wp_mono; [apply (wp_process _ (S (length r.(span_)))); [done|cbn; lia|done| |exact Hq]|].
  { split; [by apply (decoder_ok_same r.(decoder_))|done]. }
  intros [r1 s1] [_ Hlast]. apply wp_bind. eapply wp_mono; [exact Hlast|]. intros [e r2] [H1 H2]. apply wp_ret.
  split; [by apply (decoder_ok_same r2.(decoder_))|done].
Qed.
End callback.
End reading.

(** ** Opening *)

Section opening.
Context (now : nat → Z).

Lemma wp_parseFileHeader span h e :
  bytes_ok span →
  wp (Pcap.parseFileHeader span h e) (λ '(err, (s, _, _)),
    bytes_ok s ∧ (err = NoError → 24 ≤ len span ∧ s = zdrop 24 span)).
Proof.
  intros Hb. unfold Pcap.parseFileHeader. change Pcap.FILE_HEADER_LEN with 24.
  split_if; [by apply wp_ret|]. unfold memcpy. wp_step. wp_step.
  destruct (Pcap.magicEndian _); [|by apply wp_ret]. cbn zeta. do 3 (split_if; [by apply wp_ret|]).
  wp_step. wp_step. apply wp_ret. split; [auto with pcap|]. intros _. split; [lia|done].
Qed.

(** A reader before the first record. *)
Record fresh_reader (config : Config) (r : Reader) : Prop := {
  fr_span : bytes_ok r.(span_);
  fr_ok : reader_ok r;
  fr_config : r.(decoder_).(Decoder.config) = config;
}.

Lemma wp_newReader data config detailed :
  bytes_ok data → wp (newReader now data config detailed) (fresh_reader config).
Proof.
  intros Hb. unfold newReader, init. cbn zeta. apply wp_bind. unfold readFileHeader.
  set (r := began _ _ _).
  assert (Hr : ∀ r1, r1.(decoder_) = r.(decoder_) → r1.(capture_) = r.(capture_) → bytes_ok r1.(span_) → ∀ err,
    fresh_reader config (ended now (set_header_err r1 err) Benchmark.FileHeader)).
  { intros r1 E1 E2 Hs err. split; [done| |cbn; by rewrite E1]. split; cbn.
    - eapply (decoder_ok_same (newDecoder Benchmark.zeroBenchmark config)); [cbn; by rewrite E1..|apply new_decoder_ok].
    - rewrite E2. apply Forall_nil_2. }
  split_if; [by apply wp_ret, wp_ret, Hr|]. apply wp_bind.
  eapply wp_mono; [by apply wp_parseFileHeader|]. intros [err [[s h] e]] [Hs _].
  split_if; by apply wp_ret, wp_ret, Hr.
Qed.

Lemma wp_readAll_fresh {St} (cb : Reader → Capture → St → outcome St) r s :
  (∀ r c s, printable c.(pkt) → wp (cb r c s) (λ _, True)) →
  bytes_ok r.(span_) → reader_ok r →
  quiet_through now (packets_of r.(endian_) r.(span_)) (began now r Benchmark.Total) →
  wp (readAllPackets now cb r s) (λ '(r', _), reader_ok r').
Proof.
  intros Hcb Hb Hok Hq. destruct (decide (r.(header_err_) = NoError)) as [He|He]; [by apply wp_readAll|].
  apply failed_true in He. unfold readAllPackets. cbn [loop]. rewrite readAll_body_eq. unfold readPacket.
  cbn [began set_decoder header_err_]. rewrite He, bind_ret. cbn iota. rewrite He, !bind_ret. apply wp_ret.
  destruct Hok. split; [by apply (decoder_ok_same r.(decoder_))|done].
Qed.
End opening.

(** ** Reports *)

Section reports.
Context (iterate : gmap FlowKey Flow → list (FlowKey * Flow)).
Context (iterate_protocols : gmap Z Z → list (Z * Z)).
Context (iterate_names : DnsTable.DnsTable → list (DnsTable.IpKey * list bytes)).
Context (sort : ∀ A, (A → A → bool) → list A → list A).
Context (Hit : iterates iterate) (Hin : ∀ m, iterate_names m ≡ₚ map_to_list m) (Hsort : StatsEngine.sorts_all sort).

Lemma keys_listed d :
  decoder_ok d → Forall (λ q, Key_ok q.1) (allFlows iterate (sort _) d.(Decoder.flowTable)).
Proof using Hit Hsort.
  intros [Hf Hc _]. assert (Forall (λ q, Key_ok q.1)
    (d.(Decoder.flowTable).(completed) ++ iterate d.(Decoder.flowTable).(flows))) as Hk.
  { apply Forall_app. split; [done|]. rewrite (Hit _). apply Forall_forall. intros [k f] Hkf.
    apply elem_of_map_to_list in Hkf. by destruct (Hf k f Hkf). }
  assert (listed : Forall listed_ok (d.(Decoder.flowTable).(completed) ++ iterate d.(Decoder.flowTable).(flows)))
    by (eapply Forall_impl; [exact Hk|]; intros q; apply key_bytes_len).
  destruct (sort_flows (sort _) _ (Hsort _) listed) as [Hperm _]. unfold allFlows. by rewrite Hperm.
Qed.

Lemma wp_printFlows e n l :
  Forall (λ q, Key_ok q.1) l → wp (StatsEngine.printFlows e n l) (λ _, True).
Proof.
  intros Hl. revert n. induction Hl as [|[k f] l Hk _ IH]; intros n; [done|]. cbn [StatsEngine.printFlows].
  split_if; [done|]. apply wp_bind. unfold StatsEngine.printFlow. cbn zeta. apply wp_bind.
  eapply wp_mono; [by apply wp_toString|]. intros t _. apply wp_ret, wp_bind.
  eapply wp_mono; [apply IH|]. done.
Qed.

Lemma wp_jsonFlows e n l :
  Forall (λ q, Key_ok q.1) l → wp (StatsEngine.jsonFlows e n l) (λ _, True).
Proof.
  intros Hl. revert n. induction Hl as [|[k f] l Hk _ IH]; intros n; [done|]. cbn [StatsEngine.jsonFlows].
  split_if; [done|]. apply wp_bind. unfold StatsEngine.jsonFlow. apply wp_bind.
  eapply wp_mono; [by apply wp_toString|]. intros t _. apply wp_ret, wp_bind.
  eapply wp_mono; [apply IH|]. by intros [u b] _.
Qed.

Lemma wp_resolveAll l resolved :
  Forall (λ q, len q.1.(DnsTable.ip) = 16) l → wp (StatsEngine.resolveAll l resolved) (λ _, True).
Proof.
  intros Hl. revert resolved. induction Hl as [|[k ns] l Hk _ IH]; intros resolved; [done|]. cbn [StatsEngine.resolveAll].
  apply wp_bind. eapply (wp_mono _ (λ _, True)); [|intros t _; apply IH]. unfold StatsEngine.ip_text. cbn in Hk.
  split_if; [apply Ipv4.wp_printIp_ipv4; lia|by apply Ipv6.wp_printIp_ipv6].
Qed.

(** Every report has a text, and so every section. *)
Record reports_print (e : StatsEngine.StatsEngine) : Prop := {
  rp_text : wp (StatsEngine.toString iterate iterate_protocols sort e) (λ _, True);
  rp_json : wp (StatsEngine.toJson iterate iterate_protocols sort e) (λ _, True);
  rp_http : wp (StatsEngine.printHttp iterate sort e) (λ _, True);
  rp_dns : wp (StatsEngine.printDns iterate_names sort e) (λ _, True);
}.

Lemma reader_reports r : reader_ok r → reports_print (statsEngine r).
Proof using Hin Hit Hsort.
  intros [Hd _]. pose proof (keys_listed _ Hd) as Hk. split.
  - apply wp_bind. by eapply wp_mono; [apply wp_printFlows|].
  - apply wp_bind. eapply wp_mono; [by apply wp_jsonFlows|]. by intros [t b] _.
  - unfold StatsEngine.printHttp. by rewrite StatsEngine.printHttpFlows_lines by done.
  - apply wp_bind. eapply wp_mono; [apply wp_resolveAll|done].
    rewrite (Hin _). apply Forall_forall. intros [k ns] Hkn%elem_of_map_to_list. destruct Hd as [_ _ Hn].
    apply Hn. by eexists.
Qed.

Lemma sections_print o r :
  reader_ok r → Forall (λ x, wp x.2 (λ _, True)) (sections iterate iterate_protocols iterate_names sort o r).
Proof using Hin Hit Hsort.
  intros [Ht Hj Hh Hd]%reader_reports. unfold sections, flowsSection.
  repeat apply Forall_cons_2; [done| |done|done|done|by apply Forall_nil_2]. cbn [snd].
  split_if; apply wp_bind; by eapply wp_mono; [eassumption|].
Qed.
End reports.

(** ** The program *)

Section program.
Context (kVersion : bytes).
Context (create_directories : bytes → option bytes) (open_file : bytes → bool).
Context (close_file : bytes → bytes → bytes * bool) (load : bytes → bytes + bytes).
Context (now : nat → Z).
Context (iterate : gmap FlowKey Flow → list (FlowKey * Flow)).
Context (iterate_protocols : gmap Z Z → list (Z * Z)).
Context (iterate_names : DnsTable.DnsTable → list (DnsTable.IpKey * list bytes)).
Context (sort : ∀ A, (A → A → bool) → list A → list A).

(** Reading the capture goes through quiet decoders only. *)
Definition quiet_reading (r : Reader) : Prop :=
  quiet_through now (packets_of r.(endian_) r.(span_)) (began now r Benchmark.Total).
Definition quiet_run (o : Options) : Prop :=
  ∀ data r, load o.(path) = inr data → newReader now data o.(Args.config) o.(show_bench) = Ret r →
    quiet_reading (setJson r o.(Args.json)).

Lemma wp_on_packet o r c st : printable c.(pkt) → wp (on_packet o r c st) (λ _, True).
Proof.
  intros Hp. destruct st as [os n]. unfold on_packet. cbn zeta. split_if; [by apply wp_ret|]. apply wp_bind.
  eapply (wp_mono _ (λ _, True)); [|intros; by apply wp_ret]. destruct (wp_print_packet _ Hp).
  unfold Reader.print. split_if; apply wp_bind; (eapply wp_mono; [eassumption|]); intros; by apply wp_ret.
Qed.

Lemma wp_packetsSection o r w :
  bytes_ok r.(span_) → reader_ok r → quiet_reading r →
  wp (packetsSection close_file now o r w) (λ '(r', _, _), reader_ok r').
Proof.
  intros Hb Hok Hq. unfold packetsSection. split_if; apply wp_bind.
  - unfold writePackets. apply wp_bind.
    eapply wp_mono; [apply wp_readAll_fresh; [intros; by apply wp_on_packet|done..]|].
    intros [r' [os n]] Hr. apply wp_ret. cbn iota. split_if; [by apply wp_ret|]. cbn zeta.
    destruct (close_file _ _) as [kept good]. split_if; by apply wp_ret.
  - unfold readQuietly. apply wp_bind. eapply wp_mono; [by apply wp_readAll_fresh; [intros; apply wp_ret|done..]|].
    intros [r' u] Hr. by apply wp_ret, wp_ret.
Qed.

Lemma wp_emitAll o l u :
  Forall (λ x, wp x.2 (λ _, True)) l → wp (emitAll open_file close_file o l u) (λ _, True).
Proof.
  intros Hl. revert u. induction Hl as [|[[show name] content] l Hc _ IH]; intros u; [done|]. cbn [emitAll].
  apply wp_bind. eapply (wp_mono _ (λ _, True)); [|intros u' _; apply IH]. destruct show; [|done].
  unfold emit. apply wp_bind. eapply wp_mono; [exact Hc|]. intros s _. split_if; [by apply wp_ret|]. cbn zeta.
  split_if; [by apply wp_ret|]. destruct (close_file _ s) as [kept good]. split_if; by apply wp_ret.
Qed.

Section environment.
(** What the standard promises of walking maps and of sorting, and a file of
    bytes. *)
Context (Hit : iterates iterate) (Hin : ∀ m, iterate_names m ≡ₚ map_to_list m) (Hsort : StatsEngine.sorts_all sort).
Context (Hload : ∀ path data, load path = inr data → bytes_ok data).

Lemma wp_run o w :
  quiet_run o → wp (run_ open_file close_file load now iterate iterate_protocols iterate_names sort o w) (λ _, True).
Proof using Hin Hit Hload Hsort.
  intros Hq. unfold run_, run. destruct (load (path o)) as [what|data] eqn:El; [done|].
  destruct (wp_returns _ _ (wp_newReader now data (Args.config o) o.(show_bench) (Hload _ _ El))) as (r & Er & [Hs Hok _]).
  rewrite Er, bind_ret. cbn zeta. split_if; [done|]. apply wp_bind.
  eapply wp_mono; [apply wp_packetsSection; [done|by destruct Hok|by eapply Hq]|].
  intros [[r' u] n] Hok'. apply wp_bind. eapply wp_mono; [by apply wp_emitAll, sections_print|]. done.
Qed.

Lemma wp_cli args w :
  (∀ o, parseArgs args = Ret (inr o) → quiet_run o) →
  wp (cli_ kVersion create_directories open_file close_file load now iterate iterate_protocols iterate_names sort
        args w) (λ _, True).
Proof using Hin Hit Hload Hsort.
  intros Hq. unfold cli_, cli.
  assert (Hp : wp (parseArgs args) (λ _, True)) by (eapply wp_mono; [apply wp_parseArgs_loop, default_ok|done]).
  destruct (wp_returns _ _ Hp) as ([m|o] & Ep & _); rewrite Ep, bind_ret; [done|].
  split_if; [done|]. split_if; [done|]. cbn zeta. split_if; [by apply wp_run, Hq|].
  destruct (create_directories _); [done|]. by apply wp_run, Hq.
Qed.
End environment.
End program.

(** ** Properties *)

(** C8: a capture is read to its end: for any reader in order ([reader_ok]; a new
    one is) and any callback that returns on a packet that can be printed,
    [readAllPackets] returns, and the decoder is in order behind it.  The bytes
    are arbitrary, except that every record is quiet when the decoder comes to it:
    unless the filter is for another protocol than TCP, no TCP segment may arrive
    while a HEAD request waits for its response or a closed direction has segments
    queued, or bring about a line of HTTP with a byte from 0x80 on in a status
    code or a Content-Length.  These are the captures the program does not
    survive ([AppDecoder.head_pipelining], [ReassemblerSafety.reopened_undefined],
    [Http.negative_digit]) and some it does. *)
Theorem readAll_safe (now : nat → Z) {St : Type} (on_packet : Reader → Capture → St → outcome St)
    (r : Reader) (s : St) :
  (∀ r c s, printable c.(pkt) → ∃ s', on_packet r c s = Ret s') →
  bytes_ok r.(span_) → reader_ok r → quiet_reading now r →
  ∃ r' s', readAllPackets now on_packet r s = Ret (r', s') ∧ reader_ok r'.
Proof.
  intros Hcb Hb Hok Hq.
  assert (Hwp : ∀ r c s, printable c.(pkt) → wp (on_packet r c s) (λ _, True))
    by (intros r0 c0 s0 Hp; by destruct (Hcb r0 c0 s0 Hp) as [? ->]).
  destruct (wp_returns _ _ (wp_readAll_fresh now on_packet r s Hwp Hb Hok Hq)) as ([r' s'] & E & H). by exists r', s'.
Qed.

(** C6: the program ends with an exit code, whatever its arguments: no undefined
    behaviour, no endless loop, from the arguments over the records to the last
    report.  The file may hold any bytes if the filter asked for is for another
    protocol than TCP; otherwise every TCP segment in it is to be quiet when the
    decoder comes to it, as in C8.  Records that do not decode to a TCP segment
    are quiet, so that a capture without TCP needs no condition. *)
Theorem cli_returns (kVersion : bytes) (create_directories : bytes → option bytes) (open_file : bytes → bool)
    (close_file : bytes → bytes → bytes * bool) (load : bytes → bytes + bytes) (now : nat → Z)
    (iterate : gmap FlowKey Flow → list (FlowKey * Flow)) (iterate_protocols : gmap Z Z → list (Z * Z))
    (iterate_names : DnsTable.DnsTable → list (DnsTable.IpKey * list bytes))
    (sort : ∀ A, (A → A → bool) → list A → list A) (args : list bytes) (w : World) :
  iterates iterate → (∀ m, iterate_names m ≡ₚ map_to_list m) → StatsEngine.sorts_all sort →
  (∀ path data, load path = inr data → bytes_ok data) →
  (∀ o, parseArgs args = Ret (inr o) →
     excludes_tcp o.(Args.config).(Decoder.filter) = true ∨ quiet_run load now o) →
  ∃ code w', cli_ kVersion create_directories open_file close_file load now iterate iterate_protocols iterate_names
    sort args w = Ret (code, w').
Proof.
  intros Hit Hin Hsort Hload Hq.
  assert (Hq' : ∀ o, parseArgs args = Ret (inr o) → quiet_run load now o).
  { intros o Ho. destruct (Hq o Ho) as [Hf|Hq']; [|exact Hq']. intros data r Hd Hr.
    unfold quiet_reading. apply excluded_quiet.
    pose proof (wp_newReader now data (Args.config o) (show_bench o) (Hload _ _ Hd)) as Hw. rewrite Hr in Hw.
    destruct Hw as [_ _ Hc].
    cbn [began setJson set_decoder decoder_ started set_benchmark Decoder.config]. by rewrite Hc. }
  destruct (wp_returns _ _ (wp_cli kVersion create_directories open_file close_file load now iterate iterate_protocols
    iterate_names sort Hit Hin Hsort Hload args w Hq')) as ([code w'] & E & _). by exists code, w'.
Qed.

(** ** Witnesses *)

(** A client opens a connection, sends a request in two segments that come in
    the wrong order, and closes. *)
Definition session_config : Config := mkConfig 0 false 0 DEFAULT_IDLE_TIMEOUT_US zeroKey.
Definition segment (from_client : bool) (seq ack flags : Z) (payload : bytes) : bytes :=
  let '(client, server) := (0xC0A80001, 0xC0A80002) in
  PacketDecoder.encode_layer2 (Ethernet.set_ethertype PacketDecoder.sample_eth Ethernet.ETHERTYPE_IPV4) [] ++
  Ipv4.encode (Ipv4.mkHeader 0x45 0 (40 + len payload) 1 0 64 6 0
    (if from_client then client else server) (if from_client then server else client)) [] ++
  Tcp.encode (Tcp.mkHeader (if from_client then 4000 else 80) (if from_client then 80 else 4000)
    seq ack 0x50 flags 4096 0 0) [] ++ payload.
Definition session : list bytes :=
  [segment true 100 0 0x02 []; segment false 500 101 0x12 []; segment true 101 501 0x10 [];
   segment true 105 501 0x18 (chars "/ HTTP/1.1" ++ AppDecoder.crlf ++ AppDecoder.crlf);
   segment true 101 501 0x18 (chars "GET "); segment true 119 501 0x11 []].
Definition session_capture : bytes :=
  Pcap.encodeFileHeader Endian.Little false (sample_header 1) ++
  (((λ d, (Pcap.mkPacketHeader 1 7 (len d) (len d), d)) <$> session) ≫= encodeRecord Endian.Little).
Lemma session_bytes : bytes_ok session_capture.
Proof. unfold bytes_ok. vm_compute. repeat (apply Forall_cons_2; [split; done|]). by apply Forall_nil_2. Qed.

Abbreviation session_open := (newReader sample_now session_capture session_config false).
Definition session_reader : Reader := returned sample_reader session_open.
Lemma session_opens : session_open = Ret session_reader.
Proof. apply returns_eq. vm_compute. reflexivity. Qed.
Lemma session_fresh : fresh_reader session_config session_reader.
Proof.
  pose proof (wp_newReader sample_now session_capture session_config false session_bytes) as H.
  by rewrite session_opens in H.
Qed.
Definition session_key : FlowKey :=
  mkFlowKey true (ip4_bytes 0xC0A80001 (replicate 16 0)) (ip4_bytes 0xC0A80002 (replicate 16 0)) 4000 80 6.
Definition session_targets (r : Reader) : list bytes :=
  match AppDecoder.getApplications r.(decoder_).(Decoder.appDecoder) session_key false with
  | Some a => map Http.target a.(AppDecoder.http_messages)
  | None => []
  end.
Example session_decoded :
  match readAllPackets sample_now collect session_reader [] with
  | Ret (r, l) => (len l, session_targets r) = (6, [chars "/"])
  | _ => False
  end.
Proof. vm_compute. reflexivity. Qed.

Lemma readAll_safe_witness :
  ∃ r' s', readAllPackets sample_now collect session_reader [] = Ret (r', s') ∧ reader_ok r'.
Proof.
  destruct session_fresh as [Hs Hok _].
  apply readAll_safe; [intros; by eexists|exact Hs|exact Hok|].
  unfold quiet_reading. apply quiet_through_checked. vm_compute. reflexivity.
Defined.

Definition spares_tcp (r : outcome (answer Options)) : bool :=
  match r with Ret (inr o) => excludes_tcp o.(Args.config).(Decoder.filter) | _ => true end.
Lemma spared r o : spares_tcp r = true → r = Ret (inr o) → excludes_tcp o.(Args.config).(Decoder.filter) = true.
Proof. by intros H ->. Qed.

Lemma cli_returns_witness :
  ∃ code w', sample_cli [chars "a.pcap"; chars "-a"; chars "--proto"; chars "udp"] no_world = Ret (code, w').
Proof.
  unfold sample_cli. eapply (cli_returns (chars "1.0.0") (λ _, None) (λ _, true) sample_close sample_load
    Decoder.sample_now map_to_list map_to_list map_to_list StatsEngine.std_sort _ no_world).
  - intros m. done.
  - intros m. done.
  - apply StatsEngine.std_sorts.
  - unfold sample_load. intros path data. case_bool_decide; [|done]. intros [= <-].
    unfold bytes_ok. vm_compute. repeat (apply Forall_cons_2; [split; done|]). by apply Forall_nil_2.
  - intros o Ho. left. eapply spared; [|exact Ho]. vm_compute. reflexivity.
Defined.
