(* ===== verification/Mapping.v ===== *)
(** Opening a capture file: the constructor of [src/net/capture/pcap_reader.cpp]
    that takes a path, in its POSIX and its Windows form, and the destructor.

    The system calls are a class for each system: their answers are arbitrary up
    to what their manuals say, which is the class of laws beside it.  [held] are
    the descriptors, handles and mapped views the process has.  What a mapping
    shows is taken when it is made. *)
From S2P Require Import Prelude Text Decoder Reader.
From S2P Require Pcap Endian Safety.
From stdpp Require Import gmap.
#[local] Open Scope Z_scope.

(** ** Resources of the system *)

Inductive Resource :=
| Descriptor (fd : Z)
| View (address : Z).
#[global] Instance Resource_eq_dec : EqDecision Resource.
Proof. solve_decision. Defined.
#[global] Instance Resource_countable : Countable Resource.
Proof.
  refine (inj_countable' (λ r, match r with Descriptor n => inl n | View a => inr a end)
                         (λ s, match s with inl n => Descriptor n | inr a => View a end) _). by intros [].
Defined.

(** What a system gave for a path: a message of the exception, or the bytes of
    the file and what the destructor has to give back. *)
Definition opened (Os M : Type) : Type := (bytes + bytes * M) * Os.

(** ** POSIX *)

Class Posix (Os : Type) := {
  open : bytes → Os → Z * Os;
  fstat : Z → Os → option Z * Os;
  mmap : Z → Z → Os → option Z * Os;
  madvise : Z → Z → Os → Os;
  munmap : Z → Z → Os → Os;
  close : Z → Os → Os;
  memory : Os → Z → Z → bytes;
  held : Os → gset Resource;
  file : Os → bytes → option bytes;
  described : Os → Z → bytes;
}.

Class PosixLaws (Os : Type) `{Posix Os} : Prop := {
  open_law p s : let '(fd, s') := open p s in
    fd = -1 ∧ held s' = held s ∨
    fd ≠ -1 ∧ (Descriptor fd ∉ held s) ∧ held s' = {[Descriptor fd]} ∪ held s ∧ file s p = Some (described s' fd) ∧
    bytes_ok (described s' fd) ∧ len (described s' fd) < 2 ^ 63;
  fstat_law fd s : let '(st_size, s') := fstat fd s in
    held s' = held s ∧ described s' fd = described s fd ∧ ∀ n, st_size = Some n → n = len (described s fd);
  mmap_law n fd s : let '(m, s') := mmap n fd s in
    match m with
    | None => held s' = held s
    | Some a => a ≠ 0 ∧ (View a ∉ held s) ∧ held s' = {[View a]} ∪ held s ∧
                (n = len (described s fd) → memory s' a n = described s fd)
    end;
  madvise_law a n s : held (madvise a n s) = held s ∧ memory (madvise a n s) a n = memory s a n;
  munmap_law a n s : held (munmap a n s) = held s ∖ {[View a]};
  close_law fd s : held (close fd s) = held s ∖ {[Descriptor fd]};
}.

(** The members of the reader that the destructor looks at. *)
Record Mapped := mkMapped { fd_ : Z; mapped_data_ : Z; mapped_size_ : Z }.
Definition unmapped : Mapped := mkMapped (-1) 0 0.

Section unix.
Context {Os : Type} `{Posix Os}.

Definition acquire (path : bytes) (s : Os) : opened Os Mapped :=
  let '(fd, s) := open path s in
  if fd =? -1 then (inl (chars "Reader: failed to open file"), s) else
  let '(st, s) := fstat fd s in
  let st_size := default 0 st in
  if bool_decide (st = None) || (st_size =? 0)
  then (inl (chars "Reader: failed to get file size"), close fd s) else
  let size := u64 st_size in
  let '(m, s) := mmap size fd s in
  match m with
  | None => (inl (chars "Reader: failed to mmap file"), close fd s)
  | Some m =>
      let s := madvise m size s in
      (inr (memory s m size, mkMapped fd m size), s)
  end.

Definition release (m : Mapped) (s : Os) : Os :=
  let s := if negb (m.(mapped_data_) =? 0) then munmap m.(mapped_data_) m.(mapped_size_) s else s in
  if negb (m.(fd_) =? -1) then close m.(fd_) s else s.
End unix.

(** ** Windows *)

(** A null handle or pointer is 0, [INVALID_HANDLE_VALUE] -1. *)
Class Windows (Os : Type) := {
  CreateFileW : bytes → Os → Z * Os;
  GetFileSizeEx : Z → Os → option Z * Os;
  CreateFileMappingW : Z → Os → Z * Os;
  MapViewOfFile : Z → Os → Z * Os;
  PrefetchVirtualMemory : Z → Z → Os → Os;
  UnmapViewOfFile : Z → Os → Os;
  CloseHandle : Z → Os → Os;
  view : Os → Z → Z → bytes;
  handles : Os → gset Resource;
  stored : Os → bytes → option bytes;
  behind : Os → Z → bytes;
}.
Definition INVALID_HANDLE_VALUE : Z := -1.

Class WindowsLaws (Os : Type) `{Windows Os} : Prop := {
  CreateFileW_law p s : let '(h, s') := CreateFileW p s in
    h = INVALID_HANDLE_VALUE ∧ handles s' = handles s ∨
    h ≠ INVALID_HANDLE_VALUE ∧ (Descriptor h ∉ handles s) ∧ handles s' = {[Descriptor h]} ∪ handles s ∧
    stored s p = Some (behind s' h) ∧ bytes_ok (behind s' h) ∧ len (behind s' h) < 2 ^ 63;
  GetFileSizeEx_law h s : let '(size, s') := GetFileSizeEx h s in
    handles s' = handles s ∧ behind s' h = behind s h ∧ ∀ n, size = Some n → n = len (behind s h);
  CreateFileMappingW_law h s : let '(m, s') := CreateFileMappingW h s in
    m = 0 ∧ handles s' = handles s ∨
    m ≠ 0 ∧ (Descriptor m ∉ handles s) ∧ handles s' = {[Descriptor m]} ∪ handles s ∧ behind s' m = behind s h;
  MapViewOfFile_law m s : let '(a, s') := MapViewOfFile m s in
    a = 0 ∧ handles s' = handles s ∨
    a ≠ 0 ∧ (View a ∉ handles s) ∧ handles s' = {[View a]} ∪ handles s ∧
    view s' a (len (behind s m)) = behind s m;
  PrefetchVirtualMemory_law a n s :
    handles (PrefetchVirtualMemory a n s) = handles s ∧ view (PrefetchVirtualMemory a n s) a n = view s a n;
  UnmapViewOfFile_law a s : handles (UnmapViewOfFile a s) = handles s ∖ {[View a]};
  CloseHandle_law h s : handles (CloseHandle h s) = handles s ∖ {[Descriptor h]};
}.

Record MappedW := mkMappedW { file_ : Z; mapping_ : Z; mapped_dataW : Z; mapped_sizeW : Z }.
Definition unmappedW : MappedW := mkMappedW INVALID_HANDLE_VALUE 0 0 0.

Section win32.
Context {Os : Type} `{Windows Os}.

Definition acquireW (path : bytes) (s : Os) : opened Os MappedW :=
  let '(h, s) := CreateFileW path s in
  if h =? INVALID_HANDLE_VALUE then (inl (chars "Reader: failed to open file"), s) else
  let '(size, s) := GetFileSizeEx h s in
  let quad_part := default 0 size in
  if bool_decide (size = None) || (quad_part =? 0)
  then (inl (chars "Reader: failed to get file size"), CloseHandle h s) else
  let '(mapping, s) := CreateFileMappingW h s in
  if mapping =? 0 then (inl (chars "Reader: failed to create file mapping"), CloseHandle h s) else
  let '(data, s) := MapViewOfFile mapping s in
  let size := u64 quad_part in
  let s := PrefetchVirtualMemory data size s in
  if data =? 0
  then (inl (chars "Reader: failed to map view"), CloseHandle h (CloseHandle mapping s))
  else (inr (view s data size, mkMappedW h mapping data size), s).

Definition releaseW (m : MappedW) (s : Os) : Os :=
  let s := if negb (m.(mapped_dataW) =? 0) then UnmapViewOfFile m.(mapped_dataW) s else s in
  let s := if negb (m.(mapping_) =? 0) then CloseHandle m.(mapping_) s else s in
  if negb (m.(file_) =? INVALID_HANDLE_VALUE) then CloseHandle m.(file_) s else s.
End win32.

(** ** The reader of a file

    What the constructor and the destructor need of either system, and what they
    promise for it. *)

Class Backend (Os M : Type) := {
  acquire_ : bytes → Os → opened Os M;
  release_ : M → Os → Os;
  resources : Os → gset Resource;
  content : Os → bytes → option bytes;
}.

(** A file that cannot be mapped leaves a message and nothing else behind; one that is gives its
    bytes, of which there is at least one, and releasing it gives back exactly
    what was acquired. *)
Class BackendLaws (Os M : Type) `{Backend Os M} : Prop :=
  acquire_law path s :
    match acquire_ path s with
    | (inl what, s') => resources s' = resources s ∧ what ≠ []
    | (inr (data, m), s') =>
        content s path = Some data ∧ bytes_ok data ∧ data ≠ [] ∧
        (∀ s'', resources s'' = resources s' → resources (release_ m s'') = resources s)
    end.

#[export] Instance unix_backend {Os} `{Posix Os} : Backend Os Mapped :=
  {| acquire_ := acquire; release_ := release; resources := held; content := file |}.
#[export] Instance win32_backend {Os} `{Windows Os} : Backend Os MappedW :=
  {| acquire_ := acquireW; release_ := releaseW; resources := handles; content := stored |}.

(** [cli]'s [try] statement: the constructor, [body] on the reader, and the
    destructor, which runs however [body] ends; the exception's text if there is
    no reader. *)
Section reader.
Context {Os M : Type} `{Backend Os M} (now : nat → Z).

Definition fileReader (path : bytes) (config : Config) (detailed_bench : bool) (s : Os)
    : outcome ((bytes + Reader * M) * Os) :=
  match acquire_ path s with
  | (inl what, s) => Ret (inl what, s)
  | (inr (data, m), s) =>
      r ← newReader now data config detailed_bench;
      Ret (inr (r, m), s)
  end.

Definition with_reader {A} (path : bytes) (config : Config) (detailed_bench : bool)
    (body : Reader → outcome A) (s : Os) : outcome ((bytes + A) * Os) :=
  '(r, s) ← fileReader path config detailed_bench s;
  match r with
  | inl what => Ret (inl what, s)
  | inr (r, m) => a ← body r; Ret (inr a, release_ m s)
  end.
End reader.

(** ** Lemmas: both systems keep the promise *)

Lemma len_nonempty (l : bytes) : len l ≠ 0 → l ≠ [].
Proof. by intros H ->. Qed.

#[export] Instance unix_laws {Os} `{PosixLaws Os} : BackendLaws Os Mapped.
Proof.
  intros path s. cbn [acquire_ unix_backend resources content]. unfold acquire.
  pose proof (open_law path s) as Ho. destruct (open path s) as [fd s1].
  destruct Ho as [[-> Ho]|(Hfd & Hnew & Ho & Hfile & Hb & Hlen)]; [done|].
  rewrite (proj2 (Z.eqb_neq _ _)) by done.
  pose proof (fstat_law fd s1) as Hst. destruct (fstat fd s1) as [st s2]. destruct Hst as (Hh2 & Hd2 & Hst).
  assert (Hclose : ∀ s', held s' = held s1 → held (close fd s') = held s)
    by (intros s' E; rewrite close_law, E, Ho; set_solver).
  destruct st as [n|]; cbn [default from_option id]; [|by split; [apply Hclose|]].
  rewrite bool_decide_eq_false_2 by done. cbn [orb]. specialize (Hst n eq_refl). split_if; [by split; [apply Hclose|]|].
  assert (Hn : u64 n = len (described s2 fd)) by (rewrite Hd2, Hst; apply u64_small; pose proof (len_nonneg (described s1 fd)); lia).
  pose proof (mmap_law (u64 n) fd s2) as Hm. destruct (mmap (u64 n) fd s2) as [m s3].
  destruct m as [a|]; [|split; [apply Hclose; congruence|done]]. destruct Hm as (Ha & Hv & Hh3 & Hmem).
  pose proof (madvise_law a (u64 n) s3) as [Hadv Hmem'].
  rewrite Hmem', Hmem, Hd2 by done. split_and!; [done|done|apply len_nonempty; lia|].
  intros s'' E. cbn [release_ unix_backend]. unfold release. cbn [mapped_data_ mapped_size_ fd_].
  rewrite !(proj2 (Z.eqb_neq _ _)) by done. cbn [negb]. rewrite close_law, munmap_law. cbn [resources] in E.
  rewrite E, Hadv, Hh3, Hh2, Ho. rewrite Hh2, Ho in Hv. set_solver.
Qed.

#[export] Instance win32_laws {Os} `{WindowsLaws Os} : BackendLaws Os MappedW.
Proof.
  intros path s. cbn [acquire_ win32_backend resources content]. unfold acquireW.
  pose proof (CreateFileW_law path s) as Ho. destruct (CreateFileW path s) as [h s1].
  destruct Ho as [[-> Ho]|(Hh & Hnew & Ho & Hfile & Hb & Hlen)]; [done|].
  rewrite (proj2 (Z.eqb_neq _ _)) by done.
  pose proof (GetFileSizeEx_law h s1) as Hst. destruct (GetFileSizeEx h s1) as [size s2]. destruct Hst as (Hh2 & Hd2 & Hst).
  assert (Hclose : ∀ s', handles s' = handles s1 → handles (CloseHandle h s') = handles s)
    by (intros s' E; rewrite CloseHandle_law, E, Ho; set_solver).
  destruct size as [n|]; cbn [default from_option id]; [|by split; [apply Hclose|]].
  rewrite bool_decide_eq_false_2 by done. cbn [orb]. specialize (Hst n eq_refl). split_if; [by split; [apply Hclose|]|].
  pose proof (CreateFileMappingW_law h s2) as Hm. destruct (CreateFileMappingW h s2) as [m s3].
  destruct Hm as [[-> Hm]|(Hm0 & Hmnew & Hh3 & Hd3)]; [split; [apply Hclose; congruence|done]|].
  rewrite (proj2 (Z.eqb_neq _ _)) by done.
  pose proof (MapViewOfFile_law m s3) as Hv. destruct (MapViewOfFile m s3) as [a s4].
  pose proof (PrefetchVirtualMemory_law a (u64 n) s4) as [Hp Hview].
  destruct Hv as [[-> Hv]|(Ha & Hanew & Hh4 & Hmem)].
  { cbn. split; [|done]. apply Hclose. rewrite CloseHandle_law, Hp, Hv, Hh3, Hh2. rewrite Hh2 in Hmnew. set_solver. }
  rewrite (proj2 (Z.eqb_neq a 0)) by done.
  assert (Hn : u64 n = len (behind s3 m))
    by (rewrite Hd3, Hd2, Hst; apply u64_small; pose proof (len_nonneg (behind s1 h)); lia).
  rewrite Hd3, Hd2 in Hn, Hmem. rewrite Hn in Hp, Hview |- *. rewrite Hview, Hmem. split_and!; [done|done|apply len_nonempty; lia|].
  intros s'' E. cbn [release_ win32_backend]. unfold releaseW.
  cbn [mapped_dataW mapped_sizeW mapping_ file_].
  rewrite !(proj2 (Z.eqb_neq _ _)) by done. cbn [negb]. rewrite !CloseHandle_law, UnmapViewOfFile_law. cbn [resources] in E.
  rewrite E, Hp, Hh4, Hh3, Hh2, Ho. rewrite Hh3, Hh2, Ho in Hanew. rewrite Hh2, Ho in Hmnew. set_solver.
Qed.

(** A reader over a buffer has nothing to give back. *)
Lemma release_unmapped {Os} `{Posix Os} s : release unmapped s = s.
Proof. done. Qed.
Lemma release_unmapped_win32 {Os} `{Windows Os} s : releaseW unmappedW s = s.
Proof. done. Qed.

(** ** Properties *)

(** What a block around the reader of a file comes to: it gives the system back
    what it took, and what it answers is what its body makes of the reader of the
    file's bytes. *)
Definition scoped {Os M A} `{Backend Os M} (now : nat → Z) (path : bytes) (config : Config) (detailed_bench : bool)
    (body : Reader → outcome A) (s : Os) : Prop :=
  ∃ answer s', with_reader now path config detailed_bench body s = Ret (answer, s') ∧ resources s' = resources s ∧
    match answer with
    | inl what => what ≠ []
    | inr a => ∃ data r, content s path = Some data ∧ data ≠ [] ∧
        newReader now data config detailed_bench = Ret r ∧ body r = Ret a
    end.

Lemma backend_scoped {Os M A} `{BackendLaws Os M} (now : nat → Z) path config detailed (body : Reader → outcome A) s :
  (∀ data r, bytes_ok data → newReader now data config detailed = Ret r → ∃ a, body r = Ret a) →
  scoped now path config detailed body s.
Proof.
  intros Hbody. unfold scoped, with_reader, fileReader. pose proof (acquire_law path s) as Hl.
  destruct (acquire_ path s) as [[what|[data m]] s1]; [destruct Hl; by exists (inl what), s1|].
  destruct Hl as (Hc & Hb & Hne & Hr).
  destruct (wp_returns _ _ (Safety.wp_newReader now data config detailed Hb)) as (r & Er & _).
  destruct (Hbody data r Hb Er) as [a Ea]. rewrite Er, bind_ret, bind_ret, Ea, bind_ret.
  exists (inr a), (release_ m s1). split_and!; [done|by apply Hr|by exists data, r].
Qed.

(** C14: no descriptor, handle or view leaks on either system: whether the file
    fails to open, to tell its size or to be mapped, or is read, the constructor
    and the destructor together leave the process with the resources it had, and
    a reader that is made is the reader of the file's bytes. *)
Theorem file_reader_releases {Os Os' A} `{PosixLaws Os} `{WindowsLaws Os'} (now : nat → Z) (path : bytes)
    (config : Config) (detailed_bench : bool) (body : Reader → outcome A) (s : Os) (s' : Os') :
  (∀ data r, bytes_ok data → newReader now data config detailed_bench = Ret r → ∃ a, body r = Ret a) →
  scoped (M := Mapped) now path config detailed_bench body s ∧
  scoped (M := MappedW) now path config detailed_bench body s'.
Proof.
  intros Hbody. split; by apply backend_scoped.
Qed.

(** ** Witnesses *)

(** A system with one file, which numbers what it hands out. *)
Definition sample_pcap : bytes := Pcap.encodeFileHeader Endian.Little false (Reader.sample_header 1) ++ Reader.sample_data.
Lemma sample_pcap_bytes : bytes_ok sample_pcap.
Proof.
  apply Forall_app. split; [|apply Reader.sample_data_bytes].
  unfold bytes_ok. vm_compute. repeat (apply Forall_cons_2; [split; done|]). by apply Forall_nil_2.
Qed.

Record Toy := mkToy { toy_held : gset Resource; toy_bytes : Z → bytes }.
Definition number (r : Resource) : Z := match r with Descriptor n => n | View n => n end.
Definition unused (s : Toy) : Z := fresh (-1 :: 0 :: (number <$> elements s.(toy_held))).
Definition hand_out (s : Toy) (r : Z → Resource) (b : bytes) : Z * Toy :=
  (unused s, mkToy ({[r (unused s)]} ∪ s.(toy_held)) (λ n, if n =? unused s then b else s.(toy_bytes) n)).
Definition give_back (r : Resource) (s : Toy) : Toy := mkToy (s.(toy_held) ∖ {[r]}) s.(toy_bytes).
Definition toy_file (path : bytes) : option bytes :=
  if bool_decide (path = chars "a.pcap") then Some sample_pcap else None.
Definition toy_open (path : bytes) (s : Toy) : Z * Toy :=
  match toy_file path with Some b => hand_out s Descriptor b | None => (-1, s) end.

Lemma unused_fresh s : unused s ≠ -1 ∧ unused s ≠ 0 ∧ ∀ r, number r = unused s → r ∉ s.(toy_held).
Proof.
  pose proof (infinite_is_fresh (-1 :: 0 :: (number <$> elements s.(toy_held)))) as Hf. fold (unused s) in Hf.
  rewrite !not_elem_of_cons in Hf. destruct Hf as (? & ? & Hf). split_and!; [done..|].
  intros r Hr Hin. apply Hf. rewrite <- Hr. apply list_elem_of_fmap. exists r. split; [done|]. by apply elem_of_elements.
Qed.
#[export] Instance toy_posix : Posix Toy := {|
  open := toy_open; fstat fd s := (Some (len (s.(toy_bytes) fd)), s);
  mmap n fd s := let '(a, s) := hand_out s View (s.(toy_bytes) fd) in (Some a, s);
  madvise _ _ s := s; munmap a _ := give_back (View a); close fd := give_back (Descriptor fd);
  memory s a _ := s.(toy_bytes) a; held := toy_held; file _ := toy_file; described := toy_bytes |}.
#[export] Instance toy_windows : Windows Toy := {|
  CreateFileW := toy_open; GetFileSizeEx h s := (Some (len (s.(toy_bytes) h)), s);
  CreateFileMappingW h s := hand_out s Descriptor (s.(toy_bytes) h);
  MapViewOfFile m s := hand_out s View (s.(toy_bytes) m);
  PrefetchVirtualMemory _ _ s := s; UnmapViewOfFile a := give_back (View a); CloseHandle h := give_back (Descriptor h);
  view s a _ := s.(toy_bytes) a; handles := toy_held; stored _ := toy_file; behind := toy_bytes |}.

Lemma toy_open_law p s : let '(fd, s') := toy_open p s in
  fd = -1 ∧ toy_held s' = toy_held s ∨
  fd ≠ -1 ∧ (Descriptor fd ∉ toy_held s) ∧ toy_held s' = {[Descriptor fd]} ∪ toy_held s ∧
  toy_file p = Some (toy_bytes s' fd) ∧ bytes_ok (toy_bytes s' fd) ∧ len (toy_bytes s' fd) < 2 ^ 63.
Proof.
  unfold toy_open, toy_file. case_bool_decide; [|by left]. right. destruct (unused_fresh s) as (? & ? & Hf).
  cbn. rewrite Z.eqb_refl. split_and!; [done|by apply Hf|done|done|apply sample_pcap_bytes|done].
Qed.
#[export] Instance toy_posix_laws : PosixLaws Toy.
Proof.
  split; [apply toy_open_law| |cbn|done..].
  - intros fd s. cbn. split_and!; [done..|]. by intros n [= <-].
  - intros n fd s. destruct (unused_fresh s) as (? & ? & Hf). rewrite Z.eqb_refl. split_and!; [done|by apply Hf|done|done].
Qed.
#[export] Instance toy_windows_laws : WindowsLaws Toy.
Proof.
  split; [apply toy_open_law| |cbn|cbn|done..].
  - intros fd s. cbn. split_and!; [done..|]. by intros n [= <-].
  - intros h s. destruct (unused_fresh s) as (? & ? & Hf). right. rewrite Z.eqb_refl. split_and!; [done|by apply Hf|done|done].
  - intros h s. destruct (unused_fresh s) as (? & ? & Hf). right. rewrite Z.eqb_refl. split_and!; [done|by apply Hf|done|done].
Qed.

Definition no_toy : Toy := mkToy ∅ (λ _, []).

Lemma file_reader_releases_witness :
  scoped (Os := Toy) (M := Mapped) sample_now (chars "a.pcap") defaultConfig false (λ r, Ret r.(header_err_)) no_toy ∧
  scoped (Os := Toy) (M := MappedW) sample_now (chars "b.pcap") defaultConfig false (λ r, Ret r.(header_err_)) no_toy.
Proof.
  split.
  - apply (file_reader_releases (Os := Toy) (Os' := Toy) sample_now (chars "a.pcap") defaultConfig false
      (λ r, Ret r.(header_err_)) no_toy no_toy). by eauto.
  - apply (file_reader_releases (Os := Toy) (Os' := Toy) sample_now (chars "b.pcap") defaultConfig false
      (λ r, Ret r.(header_err_)) no_toy no_toy). by eauto.
Defined.
