(* ===== verification/Fuzz.v ===== *)
(** The fuzz targets: [src/fuzz/fuzz_*.cpp].

    A target is one function of the bytes the fuzzer makes up.  What they print
    goes nowhere; what they can do wrong is to run into undefined behaviour, to
    run on without an end, or to abort where an address does not come back as it
    was printed.  [fuzz_targets_pass] shows of each target on what inputs none of it
    happens: four of them on all. *)
From S2P Require Import Prelude ParseError Text Packet FlowKey FlowTable Decoder DecoderSafety Reader Safety.
From S2P Require Endian Pcap Ipv4 Ipv6 Dns Http PacketDecoder DnsTable AppDecoder StatsEngine Cli.
From stdpp Require Import gmap.
#[local] Open Scope Z_scope.

(** The return value, or [std::abort] behind a message on [stderr]. *)
Inductive verdict :=
| Returned (code : Z)
| Aborted (message : bytes).

(** ** [fuzz_address.cpp] *)

(** [None]: the function returns. *)
Definition roundTripV4 (addr : bytes) : outcome (option bytes) :=
  oss ← Ipv4.printIp addr;
  match Ipv4.addressFromString oss with
  | Some parsed => if bool_decide (memcmp addr parsed = Eq) then Ret None
                   else Ret (Some (jstr "IPv4 round trip failed for `" ++ oss ++ jstr "`" ++ [newline]))
  | None => Ret (Some (jstr "IPv4 round trip failed for `" ++ oss ++ jstr "`" ++ [newline]))
  end.
Definition roundTripV6 (addr : bytes) : outcome (option bytes) :=
  oss ← Ipv6.printIp addr;
  parsed ← Ipv6.addressFromString oss;
  match parsed with
  | Some parsed => if bool_decide (memcmp addr parsed = Eq) then Ret None
                   else Ret (Some (jstr "IPv6 round trip failed for `" ++ oss ++ jstr "`" ++ [newline]))
  | None => Ret (Some (jstr "IPv6 round trip failed for `" ++ oss ++ jstr "`" ++ [newline]))
  end.

(** One check after the other, up to the first that aborts. *)
Fixpoint checks (l : list (outcome (option bytes))) : outcome verdict :=
  match l with
  | [] => Ret (Returned 0)
  | c :: l => r ← c; match r with Some message => Ret (Aborted message) | None => checks l end
  end.
Definition when_size (data : bytes) (n : Z) (check : bytes → outcome (option bytes)) : outcome (option bytes) :=
  if n <=? len data then a ← first n data; check a else Ret None.

Definition fuzz_address (data : bytes) : outcome verdict :=
  checks
    [when_size data 4 roundTripV4;
     when_size data 16 roundTripV6;
     match Ipv4.addressFromString data with Some v4 => roundTripV4 v4 | None => Ret None end;
     (v6 ← Ipv6.addressFromString data;
      match v6 with Some v6 => roundTripV6 v6 | None => Ret None end)].

(** ** [fuzz_packet.cpp], [fuzz_dns.cpp] *)

Definition fuzz_packet (data : bytes) : outcome verdict :=
  match data with
  | [] => Ret (Returned 0)
  | b :: span =>
      let verify_checksum := negb (Z.land b 1 =? 0) in
      let pkt := setDatatypeFromLinktype zeroPacket Pcap.LINKTYPE_ETHERNET in
      '(err, (_, pkt)) ← PacketDecoder.decodePacket span pkt verify_checksum;
      if failed err then Ret (Returned 0) else
      _ ← Packet.toString pkt;
      _ ← Packet.toJson pkt;
      Ret (Returned 0)
  end.

Definition fuzz_dns (data : bytes) : outcome verdict :=
  '(err, (_, header)) ← Dns.parse data Dns.zeroHeader Endian.Big;
  if failed err then Ret (Returned 0) else
  _ ← Dns.toString header;
  _ ← Dns.toJson header;
  Ret (Returned 0).

(** ** [fuzz_http.cpp] *)

(** The statement that reads the body: [false] is [break]. *)
Definition http_body (span : bytes) (header : Http.Header) : outcome (bool * bytes) :=
  if header.(Http.chunked) then
    '(err, (span, _, _)) ← Http.parseChunkedBody span [];
    Ret (negb (failed err), span)
  else if header.(Http.has_content_length) then
    if len span <? header.(Http.content_length) then Ret (false, span) else
    span ← subspan span header.(Http.content_length);
    Ret (true, span)
  else Ret (true, span).

Definition http_round (span : bytes) : outcome (control bytes ()) :=
  if len span =? 0 then Ret (Stop ()) else
  let before := len span in
  '(err, (span, header)) ← Http.parse span Http.zeroHeader;
  if failed err then Ret (Stop ()) else
  _ ← Ret (Http.toString header);
  _ ← Ret (Http.toJson header);
  '(go, span) ← http_body span header;
  if negb go then Ret (Stop ()) else
  if before <=? len span then Ret (Stop ()) else Ret (Next span).

Definition fuzz_http (data : bytes) : outcome verdict :=
  _ ← loop (S (length data)) http_round data;
  _ ← Http.parseChunkedBody data [];
  Ret (Returned 0).

(** ** [fuzz_pcap_header.cpp] *)

Definition header_round (endian : Endian.Endian) (st : bytes * Pcap.PacketHeader)
    : outcome (control (bytes * Pcap.PacketHeader) ()) :=
  let '(span, packet_header) := st in
  '(err, (span, packet_header)) ← Pcap.parsePacketHeader span packet_header endian;
  if failed err then Ret (Stop ()) else
  _ ← Ret (Pcap.PacketHeader_toString packet_header);
  _ ← Ret (Pcap.PacketHeader_toJson packet_header);
  if len span <? packet_header.(Pcap.incl_len) then Ret (Stop ()) else
  span ← subspan span packet_header.(Pcap.incl_len);
  Ret (Next (span, packet_header)).

Definition fuzz_pcap_header (data : bytes) : outcome verdict :=
  '(err, (span, file_header, endian)) ← Pcap.parseFileHeader data Pcap.zeroFileHeader Endian.Little;
  if failed err then Ret (Returned 0) else
  _ ← Ret (Pcap.FileHeader_toString file_header);
  _ ← Ret (Pcap.FileHeader_toJson file_header);
  _ ← loop (S (length span)) (header_round endian) (span, Pcap.zeroPacketHeader);
  Ret (Returned 0).

(** ** [fuzz_capture.cpp] *)

Definition fuzz_config : Config :=
  mkConfig defaultConfig.(print_limit) false defaultConfig.(flow_active_timeout_us)
           defaultConfig.(flow_idle_timeout_us) defaultConfig.(Decoder.filter).

Section capture.
Context (now : nat → Z).
Context (iterate : gmap FlowKey Flow → list (FlowKey * Flow)).
Context (iterate_protocols : gmap Z Z → list (Z * Z)).
Context (iterate_names : DnsTable.DnsTable → list (DnsTable.IpKey * list bytes)).
Context (sort : ∀ A, (A → A → bool) → list A → list A).

Definition print_null (r : Reader) (c : Capture) (u : ()) : outcome () := _ ← Reader.print r c; Ret u.

Definition fuzz_capture (data : bytes) : outcome verdict :=
  reader ← newReader now data fuzz_config false;
  '(reader, _) ← readAllPackets now print_null reader ();
  let stats := Cli.statsEngine reader in
  _ ← StatsEngine.toString iterate iterate_protocols sort stats;
  _ ← StatsEngine.toJson iterate iterate_protocols sort stats;
  _ ← StatsEngine.printDns iterate_names sort stats;
  _ ← StatsEngine.printHttp iterate sort stats;
  Ret (Returned 0).
End capture.

(** ** Lemmas *)

Lemma roundTripV4_passes addr : len addr = 4 → bytes_ok addr → roundTripV4 addr = Ret None.
Proof.
  intros Hl Hb. destruct addr as [|a [|b [|c [|d [|e addr]]]]]; try (unfold len in Hl; cbn in Hl; lia).
  unfold roundTripV4. change (Ipv4.printIp [a; b; c; d]) with (Ret (Ipv4.dotted a b c d)). rewrite bind_ret.
  apply Forall_cons_1 in Hb as [Ha Hb]. apply Forall_cons_1 in Hb as [Hb1 Hb].
  apply Forall_cons_1 in Hb as [Hc Hb]. apply Forall_cons_1 in Hb as [Hd _].
  by rewrite Ipv4.addressFromString_dotted, memcmp_refl, bool_decide_eq_true_2.
Qed.

Lemma roundTripV6_passes addr : len addr = 16 → bytes_ok addr → roundTripV6 addr = Ret None.
Proof.
  intros Hl Hb. destruct (Ipv6.printIp_parses addr Hl Hb) as (text & E1 & E2). unfold roundTripV6.
  by rewrite E1, bind_ret, E2, bind_ret, memcmp_refl, bool_decide_eq_true_2.
Qed.

Lemma when_size_passes data n check :
  0 ≤ n → bytes_ok data → (∀ a, len a = n → bytes_ok a → check a = Ret None) →
  when_size data n check = Ret None.
Proof.
  intros Hn Hb Hc. unfold when_size. split_if; [|done]. unfold first.
  rewrite !(proj2 (Z.leb_le _ _)) by lia. cbn [andb]. rewrite bind_ret. apply Hc; [apply len_ztake; lia|auto with pcap].
Qed.

Lemma fuzz_address_passes data : bytes_ok data → fuzz_address data = Ret (Returned 0).
Proof.
  intros Hb. unfold fuzz_address. rewrite (when_size_passes data 4), (when_size_passes data 16) by (try done; first [apply roundTripV4_passes|apply roundTripV6_passes]).
  cbn [checks]. rewrite !bind_ret.
  assert (match Ipv4.addressFromString data with Some v4 => roundTripV4 v4 | None => Ret None end = Ret None) as ->.
  { destruct (Ipv4.addressFromString data) as [v4|] eqn:E; [|done]. apply Ipv4.addressFromString_ok in E as [??].
    by apply roundTripV4_passes. }
  rewrite bind_ret. destruct (wp_returns _ _ (Ipv6.wp_addressFromString data)) as (v6 & -> & Hv). rewrite bind_ret.
  destruct v6 as [v6|]; [|by rewrite bind_ret]. destruct Hv. by rewrite roundTripV6_passes.
Qed.

Lemma wp_returned (m : outcome verdict) : wp m (λ v, v = Returned 0) → m = Ret (Returned 0).
Proof. intros (v & -> & ->)%wp_returns. done. Qed.

Lemma fuzz_packet_passes data : bytes_ok data → len data ≤ 2 ^ 32 → fuzz_packet data = Ret (Returned 0).
Proof.
  intros Hb Hl. apply wp_returned. destruct data as [|b span]; [done|]. unfold fuzz_packet. cbn zeta.
  apply Forall_cons in Hb as [_ Hb]. rewrite len_cons in Hl. apply wp_bind.
  eapply wp_mono; [apply (PacketDecoder.wp_decodePacket span); [exact Hb|lia|by split|by split]|].
  intros [err [s p]] (_ & _ & _ & _ & _ & Hd). split_if; [done|]. apply failed_false in Hc as ->.
  destruct (Hd eq_refl) as [Hpr _ _ _ _ _ _ _]. destruct (wp_print_packet p Hpr) as [Ht Hj].
  apply wp_bind. eapply wp_mono; [exact Ht|]. intros t _. apply wp_bind. by eapply wp_mono; [exact Hj|].
Qed.

Lemma fuzz_dns_passes data : bytes_ok data → fuzz_dns data = Ret (Returned 0).
Proof.
  intros Hb. apply wp_returned. unfold fuzz_dns. apply wp_bind.
  eapply wp_mono; [by apply Dns.wp_parse_dns|]. intros [err [s h]] [_ Hd]. split_if; [done|].
  apply failed_false in Hc as ->. destruct (Hd eq_refl) as [_ Hct].
  destruct (Dns.wp_print_dns data h Hb Hct) as [Ht Hj].
  apply wp_bind. eapply wp_mono; [exact Ht|]. intros t _. apply wp_bind. by eapply wp_mono; [exact Hj|].
Qed.

Lemma wp_http_body span h :
  Http.framed h → wp (http_body span h) (λ '(_, s), slice s span).
Proof.
  intros Hf. unfold http_body. split_if.
  { apply wp_bind. destruct (wp_returns _ _ (Http.wp_parseChunkedBody span [])) as ([err [[s o] p]] & E & _). rewrite E.
    by apply wp_ret, wp_ret, Http.parseChunkedBody_slice in E. }
  split_if; [|by apply wp_ret, slice_refl]. pose proof (Http.framed_length h Hf Hc0).
  split_if; [by apply wp_ret, slice_refl|]. wp_step. wp_step. apply wp_ret, slice_zdrop.
Qed.

Lemma fuzz_http_passes data : Http.plain data → fuzz_http data = Ret (Returned 0).
Proof.
  intros Hp. apply wp_returned. unfold fuzz_http. apply wp_bind.
  eapply (wp_mono _ (λ _, True)).
  - eapply (wp_loop (λ s, slice s data) _ (λ s, len s)); [|apply slice_refl|unfold len; lia].
    intros span Hsp. unfold http_round. cbn zeta.
    split_if; [by apply wp_ret|]. apply wp_bind.
    eapply wp_mono; [by eapply Http.wp_parse_http, Http.plain_slice|].
    intros [err [s h]] (Hs & Herr). split_if; [by apply wp_ret|]. apply failed_false in Hc0 as ->.
    destruct Herr as (Hsl & Hs4 & Hfr). specialize (Hfr eq_refl eq_refl). rewrite !bind_ret. apply wp_bind.
    eapply wp_mono; [by apply wp_http_body|]. intros [go s'] Hs'. split_if; [by apply wp_ret|].
    split_if; [by apply wp_ret|]. apply wp_ret. pose proof (len_nonneg s'). pose proof (slice_len _ _ Hs').
    split; [|lia]. eapply slice_trans; [exact Hs'|]. by eapply slice_trans.
  - intros _ _. apply wp_bind. by eapply wp_mono; [apply Http.wp_parseChunkedBody|].
Qed.

Lemma fuzz_pcap_header_passes data : bytes_ok data → fuzz_pcap_header data = Ret (Returned 0).
Proof.
  intros Hb. apply wp_returned. unfold fuzz_pcap_header. apply wp_bind.
  eapply wp_mono; [by apply wp_parseFileHeader|]. intros [err [[s h] e]] [Hs _]. split_if; [done|].
  rewrite !bind_ret. apply wp_bind. eapply (wp_mono _ (λ _, True)); [|done].
  eapply (wp_loop (λ st, bytes_ok st.1) _ (λ st, len st.1)); [|done|cbn; unfold len; lia].
  intros [span ph] Hsp. cbn [fst] in *. unfold header_round.
  destruct (parsePacketHeader_cases span ph e Hsp) as (err' & s' & h' & -> & Hno & _). rewrite bind_ret. cbn iota.
  split_if; [by apply wp_ret|]. apply failed_false in Hc0 as ->. destruct (Hno eq_refl) as (-> & Hl & Hi).
  rewrite !bind_ret. split_if; [by apply wp_ret|]. wp_step. wp_step. apply wp_ret. cbn [fst].
  pose proof (len_zdrop 16 span ltac:(lia)). split; [auto with pcap|]. rewrite len_zdrop; lia.
Qed.

Lemma wp_print_null r c u : printable c.(pkt) → wp (print_null r c u) (λ _, True).
Proof.
  intros Hp. unfold print_null, Reader.print. destruct (wp_print_packet _ Hp). apply wp_bind.
  eapply (wp_mono _ (λ _, True)); [|by intros]. split_if; apply wp_bind; by (eapply wp_mono; [eassumption|]).
Qed.

Lemma fuzz_capture_passes (now : nat → Z) (iterate : gmap FlowKey Flow → list (FlowKey * Flow))
    (iterate_protocols : gmap Z Z → list (Z * Z)) (iterate_names : DnsTable.DnsTable → list (DnsTable.IpKey * list bytes))
    (sort : ∀ A, (A → A → bool) → list A → list A) (data : bytes) :
  iterates iterate → (∀ m, iterate_names m ≡ₚ map_to_list m) → StatsEngine.sorts_all sort → bytes_ok data →
  (∀ r, newReader now data fuzz_config false = Ret r → quiet_reading now r) →
  fuzz_capture now iterate iterate_protocols iterate_names sort data = Ret (Returned 0).
Proof.
  intros Hit Hin Hsort Hb Hq. apply wp_returned. unfold fuzz_capture.
  destruct (wp_returns _ _ (wp_newReader now data fuzz_config false Hb)) as (r & Er & [Hs Hok _]).
  rewrite Er, bind_ret. apply wp_bind.
  eapply wp_mono; [apply wp_readAll_fresh; [intros; by apply wp_print_null|done|done|by apply Hq]|].
  intros [r' u] Hok'. destruct (reader_reports iterate iterate_protocols iterate_names sort Hit Hin Hsort r' Hok').
  repeat (apply wp_bind; eapply wp_mono; [eassumption|]; intros ? _). done.
Qed.

(** ** Properties *)

(** C16: the fuzz targets return 0: those for addresses, packets, DNS messages
    and capture headers on every input, every address coming back from its
    printed form; that for HTTP messages on every input without a byte from 0x80
    on in a status code or a Content-Length (which [std::isdigit] is undefined
    for); that for captures on every capture each record of which is quiet when
    the decoder comes to it. *)
Theorem fuzz_targets_pass (now : nat → Z) (iterate : gmap FlowKey Flow → list (FlowKey * Flow))
    (iterate_protocols : gmap Z Z → list (Z * Z)) (iterate_names : DnsTable.DnsTable → list (DnsTable.IpKey * list bytes))
    (sort : ∀ A, (A → A → bool) → list A → list A) (data : bytes) :
  iterates iterate → (∀ m, iterate_names m ≡ₚ map_to_list m) → StatsEngine.sorts_all sort →
  bytes_ok data → len data ≤ 2 ^ 32 →
  Forall (λ target, target data = Ret (Returned 0)) [fuzz_address; fuzz_packet; fuzz_dns; fuzz_pcap_header] ∧
  (Http.plain data → fuzz_http data = Ret (Returned 0)) ∧
  ((∀ r, newReader now data fuzz_config false = Ret r → quiet_reading now r) →
   fuzz_capture now iterate iterate_protocols iterate_names sort data = Ret (Returned 0)).
Proof.
  intros Hit Hin Hsort Hb Hl. split; [|split; [by apply fuzz_http_passes|by apply fuzz_capture_passes]].
  repeat apply Forall_cons_2; [| | | |by apply Forall_nil_2].
  - by apply fuzz_address_passes.
  - by apply fuzz_packet_passes.
  - by apply fuzz_dns_passes.
  - by apply fuzz_pcap_header_passes.
Qed.

(** ** Witnesses *)

Lemma fuzz_targets_pass_witness :
  Forall (λ target, target session_capture = Ret (Returned 0)) [fuzz_address; fuzz_packet; fuzz_dns; fuzz_pcap_header] ∧
  fuzz_http session_capture = Ret (Returned 0) ∧
  fuzz_capture sample_now map_to_list map_to_list map_to_list StatsEngine.std_sort session_capture = Ret (Returned 0).
Proof.
  destruct (fuzz_targets_pass sample_now map_to_list map_to_list map_to_list StatsEngine.std_sort session_capture)
    as (H1 & H2 & H3); [by intros m|by intros m|apply StatsEngine.std_sorts|apply session_bytes|vm_compute; discriminate|].
  split; [exact H1|]. split; [apply H2, Http.plain_checked; vm_compute; reflexivity|]. apply H3.
  intros r. change fuzz_config with session_config. rewrite session_opens. intros [= <-].
  unfold quiet_reading. apply quiet_through_checked. vm_compute. reflexivity.
Defined.
