(* ===== verification/Seeds.v ===== *)
(** The seed corpus of the fuzz targets: [src/fuzz/fuzz_seeds.cpp], up to
    [syntheticFrames]; the program around it is [SeedTool].

    A seeds file has a line for every seed: its target, its name and its bytes in
    Base64. *)
From S2P Require Import Prelude ParseError Text Packet.
From S2P Require Endian Pcap Ethernet Ip Ipv4 Ipv6 Tcp Udp Icmpv6 Dns Http PacketDecoder StatsEngine.
From stdpp Require Import sorting.
#[local] Open Scope Z_scope.

Definition BASE64_ALPHABET : bytes :=
  chars "ABCDEFGHIJKLMNOPQRSTUVWXYZabcdefghijklmnopqrstuvwxyz0123456789+/".

Definition CHECKSUMS_ON : Z := 0x01.
Definition CHECKSUMS_OFF : Z := 0x00.
Definition MAX_PACKET_SEED_LEN : Z := 1600.
Definition MAX_HTTP_SEED_LEN : Z := 2048.
Definition MAX_FLOW_PACKETS : Z := 40.
Definition MAX_FLOW_SEED_LEN : Z := 64 * 1024.
Definition CAPTURE_HEAD_PACKETS : Z := 32.
Definition PCAP_HEADER_SEED_PACKETS : Z := 4.
Definition MAX_PER_OPTION : Z := 1000.

Record Seed := mkSeed { target : bytes; name : bytes; blob : bytes }.

(** [operator<]: the three fields compared in turn. *)
Definition seed_before (a b : Seed) : bool :=
  if negb (bool_decide (a.(target) = b.(target))) then StatsEngine.string_lt a.(target) b.(target)
  else if negb (bool_decide (a.(name) = b.(name))) then StatsEngine.string_lt a.(name) b.(name)
  else StatsEngine.string_lt a.(blob) b.(blob).

(** ** Base64 *)

(** [BASE64_ALPHABET[k & 0x3F]]. *)
Definition symbol (k : Z) : Z := nth (Z.to_nat (Z.land k 0x3F)) BASE64_ALPHABET 0.

(** A round of the loop, on the bytes that are left of [bytes] (at most three). *)
Definition encode_group (group : bytes) : bytes :=
  let n := len group in
  let byte i := nth i group 0 in
  let bits := Z.shiftl (byte 0%nat) 16 in
  let bits := if 1 <? n then Z.lor bits (Z.shiftl (byte 1%nat) 8) else bits in
  let bits := if 2 <? n then Z.lor bits (byte 2%nat) else bits in
  [symbol (Z.shiftr bits 18); symbol (Z.shiftr bits 12);
   if 1 <? n then symbol (Z.shiftr bits 6) else 61;
   if 2 <? n then symbol bits else 61].
Fixpoint encodeBase64 (b : bytes) : bytes :=
  match b with
  | x :: y :: z :: rest => encode_group [x; y; z] ++ encodeBase64 rest
  | [] => []
  | group => encode_group group
  end.

(** [table]: the place of a character in the alphabet, or -1. *)
Definition table (c : Z) : Z :=
  match index_of c BASE64_ALPHABET with Some i => i | None => -1 end.

(** The inner loop, from character [j] on; [last] is [i + 4 == text.size()]. *)
Fixpoint decode_chars (last : bool) (j : Z) (text : bytes) (bits padding : Z) : option (Z * Z) :=
  match text with
  | [] => Some (bits, padding)
  | c :: text =>
      if (c =? 61) && last && (2 <=? j)
      then decode_chars last (j + 1) text (u32 (Z.shiftl bits 6)) (padding + 1)
      else
        let v := table c in
        if (v <? 0) || negb (padding =? 0) then None
        else decode_chars last (j + 1) text (Z.lor (u32 (Z.shiftl bits 6)) v) padding
  end.
Fixpoint decode_groups (text : bytes) : option bytes :=
  match text with
  | a :: b :: c :: d :: rest =>
      '(bits, padding) ← decode_chars (bool_decide (rest = [])) 0 [a; b; c; d] 0 0;
      more ← decode_groups rest;
      Some ([u8 (Z.shiftr bits 16)] ++ when (padding <? 2) [u8 (Z.shiftr bits 8)] ++
            when (padding <? 1) [u8 bits] ++ more)
  | _ => Some []
  end.
Definition decodeBase64 (text : bytes) : option bytes :=
  if negb (len text mod 4 =? 0) then None else decode_groups text.

(** ** The lines of a seeds file *)

(** The lines [std::getline] reads: a last one without a newline counts when it
    is not empty. *)
Fixpoint lines_from (line : bytes) (text : bytes) : list bytes :=
  match text with
  | [] => if bool_decide (line = []) then [] else [line]
  | c :: text => if c =? newline then line :: lines_from [] text else lines_from (line ++ [c]) text
  end.
Definition lines (text : bytes) : list bytes := lines_from [] text.

(** What [>>] reads into strings one after the other. *)
Definition isspace (c : Z) : bool := (c =? 32) || (9 <=? c) && (c <=? 13).
Fixpoint words_from (word : bytes) (text : bytes) : list bytes :=
  match text with
  | [] => if bool_decide (word = []) then [] else [word]
  | c :: text =>
      if isspace c then (if bool_decide (word = []) then [] else [word]) ++ words_from [] text
      else words_from (word ++ [c]) text
  end.
Definition words (text : bytes) : list bytes := words_from [] text.

Definition strip_cr (line : bytes) : bytes :=
  if bool_decide (last line = Some 13) then removelast line else line.

(** The loop of [forEachSeed] from line [lineno] on: the error, empty for none,
    and what the callback made of its state. *)
Section forEachSeed.
Context {St : Type} (on_seed : Seed → St → St).
Fixpoint eachLine (path : bytes) (lineno : Z) (l : list bytes) (s : St) : bytes * St :=
  match l with
  | [] => ([], s)
  | line :: l =>
      let line := strip_cr line in
      match line with
      | [] => eachLine path (lineno + 1) l s
      | c :: _ =>
          if c =? 35 then eachLine path (lineno + 1) l s else
          let where_ := path ++ chars ":" ++ dec lineno ++ chars ": " in
          match words line with
          | [target; name; encoded] =>
              match decodeBase64 encoded with
              | None => (where_ ++ chars "invalid base64 for seed '" ++ name ++ chars "'", s)
              | Some bytes => eachLine path (lineno + 1) l (on_seed (mkSeed target name bytes) s)
              end
          | _ => (where_ ++ chars "expected '<target> <name> <base64>'", s)
          end
      end
  end.
(** [content] is the file, when it opens. *)
Definition forEachSeed (path : bytes) (content : option bytes) (s : St) : bytes * St :=
  match content with
  | None => (path ++ chars ": cannot open seeds file", s)
  | Some text => eachLine path 1 (lines text) s
  end.
End forEachSeed.

(** A line of the file that [generate] writes. *)
Definition seed_line (s : Seed) : bytes :=
  s.(target) ++ chars " " ++ s.(name) ++ chars " " ++ encodeBase64 s.(blob) ++ [newline].

(** ** Building bytes *)

Definition put16 (v : Z) : bytes := [u8 (Z.shiftr v 8); u8 v].
Definition put32 (v : Z) : bytes := put16 (u16 (Z.shiftr v 16)) ++ put16 (u16 v).
Definition lowercase (s : bytes) : bytes := map tolower s.

(** The prefix and a hash of the bytes. *)
Definition seed_hash (b : bytes) : Z :=
  foldl (λ h c, u32 (Z.lxor h c * 16777619)) 2166136261 b.
Definition seedName (prefix b : bytes) : bytes := prefix ++ chars "-" ++ setw 8 (hex (seed_hash b)).

(** ** A capture in records *)

Record CaptureRecord := mkRecord { header : bytes; frame : bytes }.
Record CaptureFile := mkCaptureFile {
  file_header : bytes;
  parsed : Pcap.FileHeader;
  records : list CaptureRecord;
}.

Definition readRecords_body (endian : Endian.Endian) (st : bytes * list CaptureRecord)
    : outcome (control (bytes * list CaptureRecord) (list CaptureRecord)) :=
  let '(span, l) := st in
  if negb (Pcap.PACKET_HEADER_LEN <=? len span) then Ret (Stop l) else
  raw_header ← first Pcap.PACKET_HEADER_LEN span;
  '(err, (span, h)) ← Pcap.parsePacketHeader span Pcap.zeroPacketHeader endian;
  if failed err || (len span <? h.(Pcap.incl_len)) then Ret (Stop l) else
  body ← first h.(Pcap.incl_len) span;
  span ← subspan span h.(Pcap.incl_len);
  Ret (Next (span, l ++ [mkRecord raw_header body])).

(** [data] is the file, when it opens; the error's message on the left. *)
Definition readCapture (path : bytes) (data : option bytes) : outcome (bytes + CaptureFile) :=
  match data with
  | None => Ret (inl (path ++ chars ": cannot open capture"))
  | Some data =>
      '(err, (span, parsed, endian)) ← Pcap.parseFileHeader data Pcap.zeroFileHeader Endian.Little;
      if failed err then
        Ret (inl (path ++ chars ": not a supported classic pcap (" ++ chars (ParseError.toString err) ++ chars ")"))
      else
        file_header ← first Pcap.FILE_HEADER_LEN data;
        l ← loop (S (length span)) (readRecords_body endian) (span, []);
        Ret (inr (mkCaptureFile file_header parsed l))
  end.

Definition packetKind (pkt : Packet) : bytes :=
  let kind := concat (map (λ _, chars "vlan-") pkt.(vlan_tags)) in
  if isArp pkt then kind ++ chars "arp" else
  let kind := kind ++ chars (if is_Some_b (ipv4 pkt) then "ipv4" else "ipv6") in
  if isTcp pkt then kind ++ chars "-tcp" else
  if isUdp pkt then kind ++ chars "-udp" else
  if is_Some_b (icmp pkt) then kind ++ chars "-icmp" else
  kind ++ chars "-icmpv6".

(** ** [syntheticFrames] *)

Definition mac : bytes := [0x02; 0; 0; 0; 0; 0x01; 0x02; 0; 0; 0; 0; 0x02].
Definition src_ip4 : bytes := [10; 0; 0; 1].
Definition dst_ip4 : bytes := [10; 0; 0; 2].
Definition src_ip6 : bytes := [0x20; 0x01; 0x0d; 0xb8; 0; 0; 0; 0; 0; 0; 0; 0; 0; 0; 0; 0x01].
Definition dst_ip6 : bytes := [0x20; 0x01; 0x0d; 0xb8; 0; 0; 0; 0; 0; 0; 0; 0; 0; 0; 0; 0x02].
Definition crlf : bytes := [13; 10].

Definition tcp_segment : bytes :=
  put16 49152 ++ put16 Http.PORT ++ put32 1 ++ put32 0 ++ [u8 (Z.shiftl Tcp.MIN_DATA_OFFSET 4)] ++ [0x18] ++
  put16 65535 ++ put16 0 ++ put16 0 ++ chars "GET / HTTP/1.1" ++ crlf ++ chars "Host: a" ++ crlf ++ crlf.
Definition dns_query : bytes :=
  put16 0x1234 ++ put16 0x0100 ++ put16 1 ++ put16 0 ++ put16 0 ++ put16 0 ++
  [0x01; 97; 0x03; 110; 101; 116; 0x00] ++ put16 Dns.TYPE_A ++ put16 1.
Definition udp_datagram : bytes :=
  put16 53000 ++ put16 Dns.PORT ++ put16 (u16 (Udp.HEADER_LEN + len dns_query)) ++ put16 0 ++ dns_query.
Definition icmp6_echo : bytes :=
  [Icmpv6.TYPE_ECHO_REQUEST; 0] ++ put16 0 ++ put16 1 ++ put16 1 ++ chars "ping".

Definition ipv4_packet (protocol : Z) (l4 : bytes) : bytes :=
  [u8 (Z.lor (Z.shiftl Ipv4.SUPPORTED_VERSION 4) Ipv4.MIN_IHL); 0] ++
  put16 (u16 (Ipv4.MIN_HEADER_LEN + len l4)) ++ put16 1 ++ put16 0x4000 ++ [64] ++ [protocol] ++ put16 0 ++
  src_ip4 ++ dst_ip4 ++ l4.
Definition ipv6_packet (next_header : Z) (l4 : bytes) : bytes :=
  put32 (u32 (Z.shiftl Ipv6.SUPPORTED_VERSION 28)) ++ put16 (u16 (len l4)) ++ [next_header] ++ [64] ++
  src_ip6 ++ dst_ip6 ++ l4.
Definition vlanTag (tpid vid : Z) (inner : bytes) : bytes := put16 tpid ++ put16 vid ++ inner.
Definition hop_by_hop : bytes := [Ip.PROTOCOL_TCP; 0; 1; 4; 0; 0; 0; 0].
Definition routing : bytes := [Ip.PROTOCOL_UDP; 2; 0; 1; 0; 0; 0; 0] ++ dst_ip6.
Definition fragment : bytes := [Ip.PROTOCOL_TCP; 0; 0; 1; 0; 0; 0; 42].
Definition type_ip4 : bytes := put16 Ethernet.ETHERTYPE_IPV4.
Definition type_ip6 : bytes := put16 Ethernet.ETHERTYPE_IPV6.

Definition syntheticFrames : list (bytes * bytes) :=
  [(chars "vlan-ipv4-tcp", mac ++ vlanTag Ethernet.ETHERTYPE_VLAN 100 type_ip4 ++ ipv4_packet Ip.PROTOCOL_TCP tcp_segment);
   (chars "qinq-ipv4-udp",
    mac ++ vlanTag Ethernet.ETHERTYPE_VLAN_QQ 200 (vlanTag Ethernet.ETHERTYPE_VLAN 100 type_ip4) ++
    ipv4_packet Ip.PROTOCOL_UDP udp_datagram);
   (chars "ipv6-tcp", mac ++ type_ip6 ++ ipv6_packet Ip.PROTOCOL_TCP tcp_segment);
   (chars "ipv6-udp", mac ++ type_ip6 ++ ipv6_packet Ip.PROTOCOL_UDP udp_datagram);
   (chars "ipv6-icmpv6", mac ++ type_ip6 ++ ipv6_packet Ip.PROTOCOL_ICMPV6 icmp6_echo);
   (chars "ipv6-hopbyhop-tcp", mac ++ type_ip6 ++ ipv6_packet Ip.PROTOCOL_HOPOPT (hop_by_hop ++ tcp_segment));
   (chars "ipv6-routing-udp", mac ++ type_ip6 ++ ipv6_packet Ip.PROTOCOL_IPV6_ROUTE (routing ++ udp_datagram));
   (chars "ipv6-fragment-tcp", mac ++ type_ip6 ++ ipv6_packet Ip.PROTOCOL_IPV6_FRAG (fragment ++ tcp_segment))].

(** A synthetic frame as the generator decodes it. *)
Definition decode_synthetic (frame : bytes) : outcome (ParseError * (bytes * Packet)) :=
  PacketDecoder.decodePacket frame (setDatatypeFromLinktype zeroPacket Pcap.LINKTYPE_ETHERNET) false.
Definition synthetic_accepted (err : ParseError) : bool :=
  bool_decide (err = NoError) || bool_decide (err = UnsupportedTransportType).

Example synthetic_kinds :
  map (λ f, match decode_synthetic f.2 with Ret (NoError, (_, p)) => packetKind p | _ => chars "?" end) syntheticFrames =
  [chars "vlan-ipv4-tcp"; chars "vlan-vlan-ipv4-udp"; chars "ipv6-tcp"; chars "ipv6-udp"; chars "ipv6-icmpv6";
   chars "ipv6-tcp"; chars "ipv6-udp"; chars "?"].
Proof. vm_compute. reflexivity. Qed.
(** The first lines of the file in the repository. *)
Example seed_line_text :
  seed_line (mkSeed (chars "fuzz_address") (chars "v6-text") (chars "2001:db8::1")) =
  chars "fuzz_address v6-text MjAwMTpkYjg6OjE=" ++ [newline].
Proof. vm_compute. reflexivity. Qed.
Example seed_line_frame :
  seed_line (mkSeed (chars "fuzz_packet") (chars "ipv6-icmpv6")
    (CHECKSUMS_OFF :: default [] (syntheticFrames !! 4%nat ≫= λ f, Some f.2))) =
  chars "fuzz_packet ipv6-icmpv6 AAIAAAAAAQIAAAAAAobdYAAAAAAMOkAgAQ24AAAAAAAAAAAAAAABIAENuAAAAAAAAAAAAAAAAoAAAAAAAQABcGluZw==" ++
  [newline].
Proof. vm_compute. reflexivity. Qed.

(** ** Lemmas: Base64 *)

(** The symbols of the alphabet and their places. *)
Definition sextets : list Z := seqZ 0 64.
Lemma symbol_table k : 0 ≤ k → table (symbol k) = k mod 64 ∧ symbol k ≠ 61 ∧ isspace (symbol k) = false.
Proof.
  intros Hk. unfold symbol. change 0x3F with (Z.ones 6). rewrite Z.land_ones by done. change (2 ^ 6) with 64.
  assert (H : forallb (λ k, (table (nth (Z.to_nat k) BASE64_ALPHABET 0) =? k) &&
    negb (nth (Z.to_nat k) BASE64_ALPHABET 0 =? 61) && negb (isspace (nth (Z.to_nat k) BASE64_ALPHABET 0))) sextets = true)
    by (vm_compute; reflexivity).
  rewrite forallb_forall in H. specialize (H (k mod 64)). pose proof (Z.mod_pos_bound k 64 ltac:(lia)).
  destruct (andb_prop _ _ (H ltac:(apply list_elem_of_In, elem_of_seqZ; lia))) as [H1 H2].
  apply andb_true_iff in H1 as [H1%Z.eqb_eq H3%negb_true_iff%Z.eqb_neq]. apply negb_true_iff in H2. done.
Qed.

(** One more symbol is six more bits. *)
Lemma decode_symbol last j k text bits :
  0 ≤ k → 0 ≤ bits → bits < 2 ^ 26 →
  decode_chars last j (symbol k :: text) bits 0 = decode_chars last (j + 1) text (bits * 64 + k mod 64) 0.
Proof.
  intros Hk H0 H1. destruct (symbol_table k Hk) as (Ht & Hne & _). cbn [decode_chars].
  rewrite (proj2 (Z.eqb_neq _ _) Hne), Ht. cbn [andb]. pose proof (Z.mod_pos_bound k 64 ltac:(lia)) as Hm.
  rewrite (proj2 (Z.ltb_ge _ _)) by lia. cbn [orb negb Z.eqb]. f_equal. rewrite Z.shiftl_mul_pow2 by done.
  rewrite u32_small by lia. rewrite <- (Z.shiftl_mul_pow2 bits 6), Z.lor_comm, lor_disjoint by lia. lia.
Qed.
Lemma decode_padding j text bits padding :
  2 ≤ j → 0 ≤ bits < 2 ^ 26 →
  decode_chars true j (61 :: text) bits padding = decode_chars true (j + 1) text (bits * 64) (padding + 1).
Proof.
  intros Hj Hb. cbn [decode_chars]. rewrite (proj2 (Z.leb_le _ _)) by done. cbn [andb Z.eqb Pos.eqb].
  rewrite Z.shiftl_mul_pow2 by done. by rewrite u32_small by lia.
Qed.

(** The 24 bits of three bytes. *)
Definition bits_of (x y z : Z) : Z := x * 65536 + y * 256 + z.

Lemma group_bits x y z :
  is_byte x → is_byte y → is_byte z → Z.lor (Z.lor (Z.shiftl x 16) (Z.shiftl y 8)) z = bits_of x y z.
Proof.
  unfold is_byte, bits_of. intros Hx Hy Hz. rewrite Z.lor_comm, (Z.lor_comm (Z.shiftl x 16)).
  rewrite Z.shiftl_mul_pow2 by done. rewrite (lor_disjoint (y * 2 ^ 8) x 16) by lia.
  replace (y * 2 ^ 8 + x * 2 ^ 16) with ((y + x * 256) * 2 ^ 8) by lia.
  rewrite <- Z.shiftl_mul_pow2, lor_disjoint by lia. lia.
Qed.

(** Four symbols of 24 bits, and what is decoded from them. *)
Lemma sextets_bits bits :
  0 ≤ bits < 2 ^ 24 →
  (((Z.shiftr bits 18 mod 64) * 64 + Z.shiftr bits 12 mod 64) * 64 + Z.shiftr bits 6 mod 64) * 64 + bits mod 64 = bits.
Proof. intros Hb. rewrite !Z.shiftr_div_pow2 by lia. Z.div_mod_to_equations. lia. Qed.

Lemma bytes_of_bits x y z :
  is_byte x → is_byte y → is_byte z →
  u8 (Z.shiftr (bits_of x y z) 16) = x ∧ u8 (Z.shiftr (bits_of x y z) 8) = y ∧ u8 (bits_of x y z) = z.
Proof.
  unfold is_byte, bits_of, u8. intros Hx Hy Hz. rewrite !Z.shiftr_div_pow2 by lia.
  Z.div_mod_to_equations. lia.
Qed.

Lemma decode_full last x y z :
  is_byte x → is_byte y → is_byte z →
  decode_chars last 0 (encode_group [x; y; z]) 0 0 = Some (bits_of x y z, 0).
Proof.
  intros Hx Hy Hz. unfold encode_group. cbn [len length nth Z.of_nat Pos.of_succ_nat Pos.succ Z.ltb Z.compare Pos.compare Pos.compare_cont].
  change (1 <? len [x; y; z]) with true. change (2 <? len [x; y; z]) with true. cbn iota zeta.
  rewrite group_bits by done. pose proof (sextets_bits (bits_of x y z)) as Hs.
  assert (0 ≤ bits_of x y z < 2 ^ 24) as Hb by (unfold is_byte, bits_of in *; lia).
  specialize (Hs Hb). set (b := bits_of x y z) in *.
  assert (Hm : ∀ k, 0 ≤ k mod 64 < 64) by (intros; apply Z.mod_pos_bound; lia).
  pose proof (Hm (Z.shiftr b 18)). pose proof (Hm (Z.shiftr b 12)). pose proof (Hm (Z.shiftr b 6)).
  rewrite !decode_symbol by (try apply Z.shiftr_nonneg; lia). cbn [decode_chars]. do 2 f_equal. lia.
Qed.

Lemma decode_two x y :
  is_byte x → is_byte y → decode_chars true 0 (encode_group [x; y]) 0 0 = Some (bits_of x y 0, 1).
Proof.
  intros Hx Hy. unfold encode_group. change (1 <? len [x; y]) with true. change (2 <? len [x; y]) with false.
  cbn iota zeta. cbn [nth].
  replace (Z.lor (Z.shiftl x 16) (Z.shiftl y 8)) with (bits_of x y 0)
    by (rewrite <- (group_bits x y 0), Z.lor_0_r by (done || (unfold is_byte; lia)); done).
  assert (0 ≤ bits_of x y 0 < 2 ^ 24) as Hb by (unfold is_byte, bits_of in *; lia).
  pose proof (sextets_bits _ Hb) as Hs. assert (bits_of x y 0 mod 64 = 0) as H0
    by (unfold bits_of; Z.div_mod_to_equations; lia).
  set (b := bits_of x y 0) in *. assert (Hm : ∀ k, 0 ≤ k mod 64 < 64) by (intros; apply Z.mod_pos_bound; lia).
  pose proof (Hm (Z.shiftr b 18)). pose proof (Hm (Z.shiftr b 12)). pose proof (Hm (Z.shiftr b 6)).
  rewrite !decode_symbol by (try apply Z.shiftr_nonneg; lia). rewrite decode_padding by lia.
  cbn [decode_chars]. do 2 f_equal. lia.
Qed.

Lemma decode_one x :
  is_byte x → decode_chars true 0 (encode_group [x]) 0 0 = Some (bits_of x 0 0, 2).
Proof.
  intros Hx. unfold encode_group. change (1 <? len [x]) with false. change (2 <? len [x]) with false.
  cbn iota zeta. cbn [nth]. replace (Z.shiftl x 16) with (bits_of x 0 0)
    by (unfold bits_of; rewrite Z.shiftl_mul_pow2 by done; lia).
  assert (0 ≤ bits_of x 0 0 < 2 ^ 24) as Hb by (unfold is_byte, bits_of in *; lia).
  pose proof (sextets_bits _ Hb) as Hs.
  assert (bits_of x 0 0 mod 64 = 0 ∧ Z.shiftr (bits_of x 0 0) 6 mod 64 = 0) as [H0 H1]
    by (rewrite Z.shiftr_div_pow2 by done; unfold bits_of; Z.div_mod_to_equations; lia).
  set (b := bits_of x 0 0) in *. assert (Hm : ∀ k, 0 ≤ k mod 64 < 64) by (intros; apply Z.mod_pos_bound; lia).
  pose proof (Hm (Z.shiftr b 18)). pose proof (Hm (Z.shiftr b 12)).
  rewrite !decode_symbol by (try apply Z.shiftr_nonneg; lia). rewrite !decode_padding by lia.
  cbn [decode_chars]. do 2 f_equal. lia.
Qed.

Lemma decode_groups_group g rest :
  decode_groups (encode_group g ++ rest) =
  ('(bits, padding) ← decode_chars (bool_decide (rest = [])) 0 (encode_group g) 0 0;
   more ← decode_groups rest;
   Some ([u8 (Z.shiftr bits 16)] ++ when (padding <? 2) [u8 (Z.shiftr bits 8)] ++
         when (padding <? 1) [u8 bits] ++ more)).
Proof. done. Qed.

Lemma decode_groups_encode b : bytes_ok b → decode_groups (encodeBase64 b) = Some b ∧ len (encodeBase64 b) mod 4 = 0.
Proof.
  assert (Hz : is_byte 0) by (split; lia).
  remember (length b) as n eqn:Hn. revert b Hn. induction (lt_wf n) as [n _ IH]. intros b -> Hb.
  destruct b as [|x [|y [|z b]]]; [done|..]; apply Forall_cons_1 in Hb as [Hx Hb].
  - split; [|done]. change (encodeBase64 [x]) with (encode_group [x] ++ []).
    rewrite decode_groups_group, bool_decide_eq_true_2, decode_one by done. cbn.
    by destruct (bytes_of_bits x 0 0 Hx Hz Hz) as (-> & _).
  - apply Forall_cons_1 in Hb as [Hy _]. split; [|done]. change (encodeBase64 [x; y]) with (encode_group [x; y] ++ []).
    rewrite decode_groups_group, bool_decide_eq_true_2, decode_two by done. cbn.
    by destruct (bytes_of_bits x y 0 Hx Hy Hz) as (-> & -> & _).
  - apply Forall_cons_1 in Hb as [Hy Hb]. apply Forall_cons_1 in Hb as [Hz' Hb].
    destruct (IH (length b) ltac:(cbn; lia) b eq_refl Hb) as [E El].
    change (encodeBase64 (x :: y :: z :: b)) with (encode_group [x; y; z] ++ encodeBase64 b). split.
    + rewrite decode_groups_group, decode_full, E by done. cbn.
      by destruct (bytes_of_bits x y z Hx Hy Hz') as (-> & -> & ->).
    + rewrite len_app. change (len (encode_group [x; y; z])) with 4. by rewrite Z.add_comm, Z.add_mod, El by done.
Qed.

Lemma base64_encoded b : bytes_ok b → decodeBase64 (encodeBase64 b) = Some b.
Proof. intros Hb. destruct (decode_groups_encode b Hb) as [E El]. unfold decodeBase64. by rewrite El. Qed.

(** What is encoded is one word. *)
Lemma encode_word b :
  bytes_ok b → b ≠ [] → encodeBase64 b ≠ [] ∧ Forall (λ c, isspace c = false) (encodeBase64 b).
Proof.
  assert (Hg : ∀ g, bytes_ok g → Forall (λ c, isspace c = false) (encode_group g)).
  { intros g Hg. unfold encode_group. assert (Hn : ∀ i, 0 ≤ nth i g 0).
    { intros i. destruct (nth_in_or_default i g 0) as [Hin| ->]; [|done].
      apply list_elem_of_In, (proj1 (Forall_forall _ _) Hg) in Hin. by destruct Hin. }
    assert (Hsh : ∀ a n, 0 ≤ a → 0 ≤ Z.shiftl a n) by (intros; by apply Z.shiftl_nonneg).
    set (bits := if 2 <? len g then _ else _).
    assert (0 ≤ bits) by (subst bits; repeat split_if; rewrite ?Z.lor_nonneg; auto).
    assert (Hs : ∀ k, 0 ≤ k → isspace (symbol k) = false) by (intros k Hk; by apply symbol_table).
    repeat apply Forall_cons_2; [..|by apply Forall_nil_2]; repeat split_if; try done;
      apply Hs; try apply Z.shiftr_nonneg; done. }
  remember (length b) as n eqn:Hn. revert b Hn. induction (lt_wf n) as [n _ IH]. intros b -> Hb Hne.
  destruct b as [|x [|y [|z b]]]; [done|split; [done|by apply Hg]..|].
  change (encodeBase64 (x :: y :: z :: b)) with (encode_group [x; y; z] ++ encodeBase64 b). split; [done|].
  change (x :: y :: z :: b) with ([x; y; z] ++ b) in Hb. apply bytes_ok_app in Hb as [Hb1 Hb2].
  apply Forall_app. split; [by apply Hg|]. destruct b as [|c b]; [done|].
  apply (IH (length (c :: b))); [cbn; lia|done|done|done].
Qed.

(** ** Lemmas: the lines of a seeds file *)

Definition is_word (w : bytes) : Prop := w ≠ [] ∧ Forall (λ c, isspace c = false) w.
Definition word_check (w : bytes) : bool := negb (bool_decide (w = [])) && forallb (λ c, negb (isspace c)) w.
Lemma word_checked w : word_check w = true → is_word w.
Proof.
  intros [H1%negb_true_iff%bool_decide_eq_false_1 H2]%andb_true_iff. split; [done|]. apply List.Forall_forall.
  rewrite forallb_forall in H2. intros c Hc. by apply negb_true_iff, H2.
Qed.

Record seed_ok (s : Seed) : Prop := {
  sk_target : is_word s.(target) ∧ head s.(target) ≠ Some 35;
  sk_name : is_word s.(name);
  sk_blob : bytes_ok s.(blob) ∧ s.(blob) ≠ [];
}.

Lemma words_word acc w rest :
  Forall (λ c, isspace c = false) w → words_from acc (w ++ rest) = words_from (acc ++ w) rest.
Proof.
  intros Hw. revert acc. induction Hw as [|c w Hc _ IH]; intros acc; [by rewrite app_nil_r|].
  cbn [app words_from]. by rewrite Hc, IH, <- app_assoc.
Qed.
Lemma words_three a b c : is_word a → is_word b → is_word c → words (a ++ [32] ++ b ++ [32] ++ c) = [a; b; c].
Proof.
  intros [Ha Ha'] [Hb Hb'] [Hc Hc']. unfold words. rewrite words_word by done. cbn [app words_from isspace].
  change (isspace 32) with true. cbn iota. rewrite bool_decide_eq_false_2 by done.
  rewrite words_word by done. cbn [app words_from]. change (isspace 32) with true. cbn iota.
  rewrite bool_decide_eq_false_2 by done. rewrite <- (app_nil_r c) at 1. rewrite words_word by done.
  cbn [app words_from]. by rewrite bool_decide_eq_false_2.
Qed.

Lemma lines_line acc line rest :
  Forall (λ c, c ≠ newline) line → lines_from acc (line ++ newline :: rest) = (acc ++ line) :: lines_from [] rest.
Proof.
  intros Hl. revert acc. induction Hl as [|c l Hc _ IH]; intros acc; [by rewrite app_nil_r|].
  cbn [app lines_from]. rewrite (proj2 (Z.eqb_neq _ _)) by done. by rewrite IH, <- app_assoc.
Qed.

Lemma isspace_newline c : isspace c = false → c ≠ newline ∧ c ≠ 13.
Proof. unfold isspace, newline. lia. Qed.

(** The text of a seed's line. *)
Definition seed_text (s : Seed) : bytes := s.(target) ++ [32] ++ s.(name) ++ [32] ++ encodeBase64 s.(blob).

Lemma seed_text_line s : seed_line s = seed_text s ++ [newline].
Proof. unfold seed_line, seed_text. by rewrite <- !app_assoc. Qed.

Lemma seed_text_ok s :
  seed_ok s → Forall (λ c, c ≠ newline) (seed_text s) ∧ strip_cr (seed_text s) = seed_text s ∧
  words (seed_text s) = [s.(target); s.(name); encodeBase64 s.(blob)].
Proof.
  intros [[Ht _] Hn [Hb Hne]]. pose proof (encode_word _ Hb Hne) as He. split; [|split].
  - assert (Hall : ∀ w, is_word w → Forall (λ c, c ≠ newline) w)
      by (intros w [_ Hw]; eapply Forall_impl; [exact Hw|]; intros c Hc; by apply isspace_newline).
    repeat (apply Forall_app; split); auto; by repeat constructor.
  - unfold strip_cr. rewrite bool_decide_eq_false_2; [done|]. unfold seed_text. rewrite !app_assoc.
    destruct He as [He1 He2]. destruct (encodeBase64 (blob s)) as [|c l] using rev_ind; [done|].
    rewrite app_assoc, last_snoc. intros [= ->]. apply Forall_app in He2 as [_ He2].
    by apply Forall_cons_1 in He2 as [[_ ?]%isspace_newline _].
  - by apply words_three.
Qed.

Lemma eachLine_seeds {St} (on_seed : Seed → St → St) path n l s :
  Forall seed_ok l →
  eachLine on_seed path n (map seed_text l) s = ([], foldl (λ s x, on_seed x s) s l).
Proof.
  intros Hl. revert n s. induction Hl as [|x l Hx _ IH]; intros n s; [done|]. cbn [map eachLine foldl].
  destruct (seed_text_ok x Hx) as (_ & -> & Hw). pose proof Hx as [[[Hne _] Hh] _ [Hb _]].
  rewrite Hw, base64_encoded by done.
  assert (mkSeed (target x) (name x) (blob x) = x) as -> by (by destruct x).
  unfold seed_text. destruct (target x) as [|c t] eqn:Et; [done|]. cbn [app].
  rewrite (proj2 (Z.eqb_neq c 35)) by (intros ->; done). apply IH.
Qed.

Lemma lines_seeds l : Forall seed_ok l → lines (concat (map seed_line l)) = map seed_text l.
Proof.
  unfold lines. induction 1 as [|x l Hx _ IH]; [done|]. cbn [map concat].
  rewrite seed_text_line, <- app_assoc. cbn [app]. rewrite lines_line by (by apply seed_text_ok). by rewrite IH.
Qed.

(** ** Properties *)

(** Base64 is undone: every text that [encodeBase64] writes is decoded to the
    bytes it was written for, with one, two or no characters of padding. *)
Theorem base64_roundtrip (b : bytes) : bytes_ok b → decodeBase64 (encodeBase64 b) = Some b.
Proof. apply base64_encoded. Qed.

(** A seeds file is read back as the seeds it was written for, each once, in
    the order of the file and without an error. *)
Theorem seeds_roundtrip {St : Type} (on_seed : Seed → St → St) (path : bytes) (l : list Seed) (s : St) :
  Forall seed_ok l →
  forEachSeed on_seed path (Some (concat (map seed_line l))) s = ([], foldl (λ s x, on_seed x s) s l).
Proof. intros Hl. cbn [forEachSeed]. by rewrite lines_seeds, eachLine_seeds. Qed.

(** ** Witnesses *)

Definition sample_seed : Seed := mkSeed (chars "fuzz_address") (chars "v6-text") (chars "2001:db8::1").

Lemma seeds_roundtrip_witness :
  let text := seed_line sample_seed ++ seed_line sample_seed in
  text = chars "fuzz_address v6-text MjAwMTpkYjg6OjE=" ++ [newline] ++
         chars "fuzz_address v6-text MjAwMTpkYjg6OjE=" ++ [newline] ∧
  forEachSeed cons (chars "seeds.txt") (Some text) [] = ([], [sample_seed; sample_seed]).
Proof.
  split; [reflexivity|].
  apply (seeds_roundtrip cons (chars "seeds.txt") [sample_seed; sample_seed] []).
  assert (seed_ok sample_seed) as Hok; [|by repeat constructor].
  split; [split; [by apply word_checked|done]|by apply word_checked|split; [|done]].
  unfold bytes_ok. vm_compute. repeat (apply Forall_cons_2; [split; done|]). by apply Forall_nil_2.
Defined.
