(* ===== verification/SeedTool.v ===== *)
(** The program that makes and unpacks the seed corpus: [generate], [unpack] and
    [main] of [src/fuzz/fuzz_seeds.cpp].

    As in [Cli], the answers of the file system and [std::sort] are parameters,
    and the state is what was printed and the files that were left. *)
From S2P Require Import Prelude ParseError Text Packet FlowKey FlowTable Seeds Cli.
From S2P Require Endian Pcap Ip Dns Http PacketDecoder Reader StatsEngine Safety Mapping Vlan.
From stdpp Require Import gmap sorting.
#[local] Open Scope Z_scope.

Definition hasPort (key : FlowKey) (port : Z) : bool := (key.(src_port) =? port) || (key.(dst_port) =? port).

(** ** Collecting seeds *)

(** The local state of [generate]'s first loop. *)
Record Collection := mkCollection {
  seeds : list Seed;
  kind_counts : gmap bytes Z;
  dns_payloads : list bytes;
  http_payloads : list bytes;
  flow_records : gmap FlowKey (list CaptureRecord);
  flow_order : list FlowKey;
}.
Definition nothing : Collection := mkCollection [] ∅ [] [] ∅ [].

Definition push_seed (c : Collection) (s : Seed) : Collection :=
  mkCollection (c.(seeds) ++ [s]) c.(kind_counts) c.(dns_payloads) c.(http_payloads) c.(flow_records) c.(flow_order).
Definition count_kind (c : Collection) (kind : bytes) (n : Z) : Collection :=
  mkCollection c.(seeds) (<[kind := n]> c.(kind_counts)) c.(dns_payloads) c.(http_payloads) c.(flow_records)
               c.(flow_order).
Definition push_dns (c : Collection) (payload : bytes) : Collection :=
  mkCollection c.(seeds) c.(kind_counts) (c.(dns_payloads) ++ [payload]) c.(http_payloads) c.(flow_records)
               c.(flow_order).
Definition push_http (c : Collection) (head : bytes) : Collection :=
  mkCollection c.(seeds) c.(kind_counts) c.(dns_payloads) (c.(http_payloads) ++ [head]) c.(flow_records)
               c.(flow_order).
Definition push_record (c : Collection) (key : FlowKey) (record : CaptureRecord) : Collection :=
  mkCollection c.(seeds) c.(kind_counts) c.(dns_payloads) c.(http_payloads)
    (<[key := default [] (c.(flow_records) !! key) ++ [record]]> c.(flow_records))
    (if bool_decide (c.(flow_records) !! key = None) then c.(flow_order) ++ [key] else c.(flow_order)).

(** The four [if] statements of the loop over the records. *)
Definition collectPacket (per_kind : Z) (record : CaptureRecord) (pkt : Packet) (c : Collection) : Collection :=
  let kind := packetKind pkt in
  let count := default 0 (c.(kind_counts) !! kind) in
  if (len record.(frame) <=? MAX_PACKET_SEED_LEN) && (count <? per_kind) then
    push_seed (count_kind c kind (count + 1))
      (mkSeed (chars "fuzz_packet") (seedName kind record.(frame)) ([CHECKSUMS_ON] ++ record.(frame)))
  else c.

Definition collectDns (per_payload : Z) (pkt : Packet) (key : FlowKey) (c : Collection) : outcome Collection :=
  let payload := pkt.(payload) in
  if isUdp pkt && hasPort key Dns.PORT && (len c.(dns_payloads) <? per_payload) &&
     bool_decide (payload ∉ c.(dns_payloads)) then
    '(err, (_, header)) ← Dns.parse payload Dns.zeroHeader Endian.Big;
    Ret (if failed err then c
         else push_seed (push_dns c payload)
                (mkSeed (chars "fuzz_dns")
                        (seedName (chars (if Dns.isResponse header then "response" else "query")) payload) payload))
  else Ret c.

Definition collectHttp (per_payload : Z) (pkt : Packet) (key : FlowKey) (c : Collection) : outcome Collection :=
  let payload := pkt.(payload) in
  if isTcp pkt && hasPort key Http.PORT && (len c.(http_payloads) <? per_payload) then
    '(err, (_, header)) ← Http.parse payload Http.zeroHeader;
    let head := ztake (Z.min (len payload) MAX_HTTP_SEED_LEN) payload in
    Ret (if negb (failed err) && bool_decide (head ∉ c.(http_payloads)) then
           let label := if Http.isResponse header then chars "response" else lowercase header.(Http.method) in
           push_http (push_seed c (mkSeed (chars "fuzz_http") (seedName label head) head)) head
         else c)
  else Ret c.

Definition collectFlow (pkt : Packet) (key : FlowKey) (record : CaptureRecord) (c : Collection) : Collection :=
  if (isTcp pkt || isUdp pkt) && (hasPort key Dns.PORT || hasPort key Http.PORT)
  then push_record c (normalize key).2 record else c.

Definition collectRecord (linktype per_payload per_kind : Z) (record : CaptureRecord) (c : Collection)
    : outcome Collection :=
  let pkt := setDatatypeFromLinktype zeroPacket linktype in
  '(err, (_, pkt)) ← PacketDecoder.decodePacket record.(frame) pkt false;
  if failed err then Ret c else
  let c := collectPacket per_kind record pkt c in
  let '(err, key) := keyFromPacket pkt zeroKey in
  if failed err then Ret c else
  c ← collectDns per_payload pkt key c;
  c ← collectHttp per_payload pkt key c;
  Ret (collectFlow pkt key record c).

Fixpoint collectRecords (linktype per_payload per_kind : Z) (l : list CaptureRecord) (c : Collection)
    : outcome Collection :=
  match l with
  | [] => Ret c
  | record :: l => c ← collectRecord linktype per_payload per_kind record c;
                   collectRecords linktype per_payload per_kind l c
  end.

(** The loop over [syntheticFrames()]: on the left the message of a frame that
    does not decode. *)
Fixpoint collectSynthetic (l : list (bytes * bytes)) (acc : list Seed) : outcome (bytes + list Seed) :=
  match l with
  | [] => Ret (inr acc)
  | (name, frame) :: l =>
      '(err, _) ← decode_synthetic frame;
      if negb (synthetic_accepted err) then
        Ret (inl (chars "synthetic frame '" ++ name ++ chars "' does not decode (" ++ chars (ParseError.toString err) ++
                  chars "); fix syntheticFrames()" ++ [newline]))
      else collectSynthetic l (acc ++ [mkSeed (chars "fuzz_packet") name ([CHECKSUMS_OFF] ++ frame)])
  end.

(** ** Captures made of some records *)

Definition pcapBlob (f : CaptureFile) (l : list CaptureRecord) : bytes :=
  f.(file_header) ++ concat (map (λ r, r.(header) ++ r.(frame)) l).
Definition firstRecords (f : CaptureFile) (count : Z) : list CaptureRecord := ztake (Z.min count (len f.(records))) f.(records).

(** The loop over [flow_order]: the seeds, [have_http_flow], [have_dns_flow]. *)
Fixpoint flowSeeds (f : CaptureFile) (flows : gmap FlowKey (list CaptureRecord)) (l : list FlowKey)
    (have_http_flow have_dns_flow : bool) : list Seed :=
  match l with
  | [] => []
  | key :: l =>
      let recs := default [] (flows !! key) in
      let http_flow := (key.(protocol) =? Ip.PROTOCOL_TCP) && hasPort key Http.PORT in
      let dns_flow := (key.(protocol) =? Ip.PROTOCOL_UDP) && hasPort key Dns.PORT in
      if negb (http_flow && negb have_http_flow) && negb (dns_flow && negb have_dns_flow)
      then flowSeeds f flows l have_http_flow have_dns_flow
      else if MAX_FLOW_PACKETS <? len recs then flowSeeds f flows l have_http_flow have_dns_flow
      else
        let b := pcapBlob f recs in
        if MAX_FLOW_SEED_LEN <? len b then flowSeeds f flows l have_http_flow have_dns_flow
        else mkSeed (chars "fuzz_capture") (chars (if http_flow then "http-flow" else "dns-flow")) b ::
             flowSeeds f flows l (if http_flow then true else have_http_flow) (if http_flow then have_dns_flow else true)
  end.

(** All seeds in the order in which they are pushed, or the message. *)
Definition collectSeeds (per_payload per_kind : Z) (f : CaptureFile) : outcome (bytes + list Seed) :=
  c ← collectRecords f.(parsed).(Pcap.linktype) per_payload per_kind f.(records) nothing;
  r ← collectSynthetic syntheticFrames c.(seeds);
  match r with
  | inl message => Ret (inl message)
  | inr l =>
      let head n := chars "head-" ++ dec n ++ chars "-packets" in
      Ret (inr (l ++
        [mkSeed (chars "fuzz_capture") (head CAPTURE_HEAD_PACKETS) (pcapBlob f (firstRecords f CAPTURE_HEAD_PACKETS))] ++
        flowSeeds f c.(flow_records) c.(flow_order) false false ++
        [mkSeed (chars "fuzz_pcap_header") (head PCAP_HEADER_SEED_PACKETS)
                (pcapBlob f (firstRecords f PCAP_HEADER_SEED_PACKETS));
         mkSeed (chars "fuzz_address") (chars "v4-text") (chars "10.0.0.1");
         mkSeed (chars "fuzz_address") (chars "v6-text") (chars "2001:db8::1")]))
  end.

(** [counts]: by target, the number of seeds and of their bytes. *)
Fixpoint count_seed (s : Seed) (l : list (bytes * (Z * Z))) : list (bytes * (Z * Z)) :=
  match l with
  | [] => [(s.(target), (1, len s.(blob)))]
  | (t, (n, m)) :: rest =>
      if bool_decide (t = s.(target)) then (t, (n + 1, m + len s.(blob))) :: rest
      else if StatsEngine.string_lt s.(target) t then (s.(target), (1, len s.(blob))) :: l
      else (t, (n, m)) :: count_seed s rest
  end.

(** ** The program *)

(** [dir / name]. *)
Definition path_append (dir name : bytes) : bytes :=
  if bool_decide (head name = Some 47) then name else slash dir name.

Definition usage : bytes :=
  chars "usage: fuzz_seeds [generate] [capture.pcap] [--out FILE] [--per-payload N] [--per-kind N]" ++ [newline] ++
  chars "       fuzz_seeds unpack DIR [--target NAME] [--seeds FILE]" ++ [newline].

Section tool.
(** [load] the content of a file that opens; [open_file] and [close_file] as in
    [Cli]; [create_directories] answers an error's message; [store path content]
    what the file holds in the end, [None] if it does not open, and whether
    [write] succeeded. *)
Context (SOURCE_DIR : bytes).
Context (load : bytes → option bytes).
Context (open_file : bytes → bool) (close_file : bytes → bytes → bytes * bool).
Context (create_directories : bytes → option bytes) (store : bytes → bytes → option bytes * bool).
Context (sort : ∀ A, (A → A → bool) → list A → list A).

Definition cannot_write (path : bytes) : bytes := path ++ chars ": cannot write" ++ [newline].

Definition generate (pcap_path out_path : bytes) (per_payload per_kind : Z) (w : World) : outcome (Z * World) :=
  capture ← readCapture pcap_path (load pcap_path);
  match capture with
  | inl error => Ret (1, to_cerr w (error ++ [newline]))
  | inr f =>
      r ← collectSeeds per_payload per_kind f;
      match r with
      | inl message => Ret (1, to_cerr w message)
      | inr l =>
          let l := sort _ seed_before l in
          let text := concat (map seed_line l) in
          let counts := foldl (λ c s, count_seed s c) [] l in
          if negb (open_file out_path) then Ret (1, to_cerr w (cannot_write out_path)) else
          let '(kept, good) := close_file out_path text in
          let w := to_file w out_path kept in
          if negb good then Ret (1, to_cerr w (cannot_write out_path)) else
          Ret (0, to_cout w
            (concat (map (λ c, c.1 ++ chars ": " ++ dec c.2.1 ++ chars " seeds, " ++ dec c.2.2 ++ chars " bytes" ++ [newline])
                         counts) ++
             chars "wrote " ++ out_path ++ chars " (" ++ dec (len kept) ++ chars " bytes)" ++ [newline]))
      end
  end.

(** [written], [write_error] and the world. *)
Record Unpacking := mkUnpacking { count_written : Z; write_error : bytes; unpacked : World }.

(** The callback of [unpack]. *)
Definition unpackSeed (out_dir only_target : bytes) (s : Seed) (u : Unpacking) : Unpacking :=
  if negb (bool_decide (u.(write_error) = [])) ||
     (negb (bool_decide (only_target = [])) && negb (bool_decide (s.(target) = only_target)))
  then u else
  let dir := path_append out_dir s.(target) in
  let w := ask u.(unpacked) dir in
  match create_directories dir with
  | Some message => mkUnpacking u.(count_written) (dir ++ chars ": " ++ message) w
  | None =>
      let file := path_append dir s.(name) in
      let '(kept, good) := store file s.(blob) in
      let w := match kept with Some content => to_file w file content | None => w end in
      if good then mkUnpacking (u.(count_written) + 1) u.(write_error) w
      else mkUnpacking u.(count_written) (file ++ chars ": cannot write") w
  end.

Definition unpack (seeds_path out_dir only_target : bytes) (w : World) : Z * World :=
  let '(error, u) := forEachSeed (unpackSeed out_dir only_target) seeds_path (load seeds_path) (mkUnpacking 0 [] w) in
  let error := if bool_decide (error = []) then u.(write_error) else error in
  if negb (bool_decide (error = [])) then (1, to_cerr u.(unpacked) (error ++ [newline])) else
  if u.(count_written) =? 0 then
    (1, to_cerr u.(unpacked) (seeds_path ++ chars ": no seeds for " ++
          (if bool_decide (only_target = []) then chars "any target" else only_target) ++ [newline]))
  else (0, to_cout u.(unpacked)
             (chars "unpacked " ++ dec u.(count_written) ++ chars " seeds into " ++ out_dir ++ [newline])).

(** The loop over the arguments: [positional] and [options], or the message. *)
Fixpoint readArgs (known : list bytes) (args : list bytes) (positional : list bytes) (options : gmap bytes bytes)
    : bytes + list bytes * gmap bytes bytes :=
  match args with
  | [] => inr (positional, options)
  | arg :: args =>
      if negb (bool_decide (ztake (Z.min 2 (len arg)) arg = chars "--"))
      then readArgs known args (positional ++ [arg]) options
      else if bool_decide (arg ∉ known) then inl (chars "fuzz_seeds: unknown option " ++ arg ++ [newline] ++ usage)
      else
        match args with
        | [] => inl (chars "fuzz_seeds: " ++ arg ++ chars " requires a value" ++ [newline])
        | value :: args => readArgs known args positional (<[arg := value]> options)
        end
  end.

(** A number of the last two options, [None] for one that is refused. *)
Definition number_option (options : gmap bytes bytes) (name : bytes) (value : Z) : option Z :=
  match options !! name with
  | None => Some value
  | Some text => parseUint text MAX_PER_OPTION
  end.
Definition refuse (name : bytes) : bytes :=
  chars "fuzz_seeds: " ++ name ++ chars " takes a number from 0 to " ++ dec MAX_PER_OPTION ++ [newline].

Definition main (args : list bytes) (w : World) : outcome (Z * World) :=
  let first_is s := bool_decide (head args = Some (chars s)) in
  if first_is "-h" || first_is "--help" then Ret (0, to_cout w usage) else
  let unpacking := first_is "unpack" in
  let args := if first_is "unpack" || first_is "generate" then tail args else args in
  let known := if unpacking then [chars "--target"; chars "--seeds"]
               else [chars "--out"; chars "--per-payload"; chars "--per-kind"] in
  match readArgs known args [] ∅ with
  | inl message => Ret (2, to_cerr w message)
  | inr (positional, options) =>
      let option_ name fallback := default fallback (options !! chars name) in
      let default_seeds := path_append (path_append SOURCE_DIR (chars "fuzz")) (chars "seeds.txt") in
      if unpacking then
        match positional with
        | [dir] => Ret (unpack (option_ "--seeds" default_seeds) dir (option_ "--target" []) w)
        | _ => Ret (2, to_cerr w usage)
        end
      else
        if 1 <? len positional then Ret (2, to_cerr w usage) else
        match number_option options (chars "--per-payload") 4 with
        | None => Ret (2, to_cerr w (refuse (chars "--per-payload")))
        | Some per_payload =>
            match number_option options (chars "--per-kind") 1 with
            | None => Ret (2, to_cerr w (refuse (chars "--per-kind")))
            | Some per_kind =>
                let capture := match positional with
                  | path :: _ => path
                  | [] => path_append (path_append SOURCE_DIR (chars "samples")) (chars "smallFlows.pcap")
                  end in
                generate capture (option_ "--out" default_seeds) per_payload per_kind w
            end
        end
  end.
End tool.

(** ** Lemmas: names that are one word *)

Definition no_space (w : bytes) : Prop := Forall (λ c, isspace c = false) w.

Lemma word_app a b : is_word a → no_space b → is_word (a ++ b).
Proof. intros [Hne Ha] Hb. split; [by destruct a|]. by apply Forall_app. Qed.

Lemma no_space_above l : (∀ c, c < 48 → c ∉ l) → no_space l.
Proof.
  intros H. apply Forall_forall. intros c Hc. destruct (Z.ltb_spec c 48) as [Hlt|]; [by apply H in Hlt|].
  unfold isspace. lia.
Qed.

Lemma seedName_word prefix b : is_word prefix → is_word (seedName prefix b).
Proof.
  intros Hp. unfold seedName. apply word_app; [done|]. apply Forall_app. split; [by repeat constructor|].
  unfold setw. apply Forall_app. split; [by apply Forall_replicate|]. apply no_space_above. intros c Hc.
  apply Http.hex_chars; [|by left]. unfold seed_hash. destruct b using rev_ind; [done|].
  rewrite foldl_app. apply u32_range.
Qed.

Lemma concat_tags (tags : list Vlan.Header) : no_space (concat (map (λ _, chars "vlan-") tags)).
Proof. induction tags as [|t l IH]; [by apply Forall_nil_2|]. cbn [map concat]. apply Forall_app. split; [by repeat constructor|done]. Qed.

Lemma packetKind_word p : is_word (packetKind p).
Proof.
  unfold packetKind. cbn zeta. pose proof (concat_tags p.(vlan_tags)) as Ht.
  assert (Hend : ∀ a b, no_space a → is_word b → is_word (a ++ b)).
  { intros a b Ha [Hne Hb]. split; [by destruct a|]. by apply Forall_app. }
  split_if; [by apply Hend; [|apply word_checked]|]. rewrite <- !app_assoc.
  repeat split_if; (apply Hend; [done|by apply word_checked]).
Qed.

Lemma token_char_visible c : Http.isTokenChar c = true → 33 ≤ c.
Proof.
  unfold Http.isTokenChar. intros [H|H%bool_decide_eq_true_1]%orb_true_iff; [lia|].
  assert (Hall : forallb (λ c, 33 <=? c) (chars "!#$%&'*+-.^_`|~") = true) by (vm_compute; reflexivity).
  rewrite forallb_forall in Hall. apply list_elem_of_In, Hall in H. lia.
Qed.

Lemma lowercase_word s : Http.isToken s = true → is_word (lowercase s).
Proof.
  unfold Http.isToken, lowercase. destruct s as [|c s]; [done|]. rewrite forallb_forall. intros H. split; [done|].
  apply List.Forall_map, List.Forall_forall. intros x Hx. apply H, token_char_visible in Hx.
  unfold isspace, tolower. split_if; lia.
Qed.

(** ** Lemmas: what is collected *)

Definition record_ok (r : CaptureRecord) : Prop :=
  bytes_ok r.(header) ∧ bytes_ok r.(frame) ∧ len r.(frame) < 2 ^ 32 ∧ Http.plain r.(frame).

Record collection_ok (c : Collection) : Prop := {
  co_seeds : Forall seed_ok c.(seeds);
  co_flows : ∀ k l, c.(flow_records) !! k = Some l → Forall record_ok l;
}.

Lemma seed_target t n b :
  t = chars "fuzz_packet" ∨ t = chars "fuzz_dns" ∨ t = chars "fuzz_http" ∨ t = chars "fuzz_capture" ∨
  t = chars "fuzz_pcap_header" ∨ t = chars "fuzz_address" →
  is_word n → bytes_ok b → b ≠ [] → seed_ok (mkSeed t n b).
Proof.
  intros Ht Hn Hb Hne. split; cbn; [|done|done].
  repeat (destruct Ht as [->|Ht]; [by split; [apply word_checked|]|]).
  subst t. by split; [apply word_checked|].
Qed.

Lemma push_seed_ok c s : collection_ok c → seed_ok s → collection_ok (push_seed c s).
Proof. intros [H1 H2] Hs. split; [|done]. apply Forall_app. split; [done|by apply Forall_singleton]. Qed.

Lemma collectPacket_ok n r p c : record_ok r → collection_ok c → collection_ok (collectPacket n r p c).
Proof.
  intros (_ & Hb & _) Hc. unfold collectPacket. cbn zeta. split_if; [|done]. apply push_seed_ok; [by destruct Hc|].
  apply seed_target; [auto|by apply seedName_word, packetKind_word| |done].
  apply Forall_cons_2; [split; unfold CHECKSUMS_ON; lia|done].
Qed.

Lemma wp_collectDns n p k c :
  bytes_ok p.(payload) → collection_ok c → wp (collectDns n p k c) collection_ok.
Proof.
  intros Hb Hc. unfold collectDns. cbn zeta. split_if; [|done]. apply wp_bind.
  destruct (wp_returns _ _ (Dns.wp_parse_dns p.(payload) Dns.zeroHeader Endian.Big Hb)) as ([err [s h]] & E & _).
  rewrite E. apply wp_ret, wp_ret. split_if; [done|]. apply failed_false in Hc1 as ->.
  apply push_seed_ok; [by destruct Hc|]. apply seed_target; [auto| |done|by intros H; rewrite H in E].
  apply seedName_word. by split_if; apply word_checked.
Qed.

Lemma wp_collectHttp n p k c :
  bytes_ok p.(payload) → Http.plain p.(payload) → collection_ok c → wp (collectHttp n p k c) collection_ok.
Proof.
  intros Hb Hpl Hc. unfold collectHttp. cbn zeta. split_if; [|done]. apply wp_bind.
  destruct (wp_returns _ _ (Http.wp_parse_http p.(payload) Hpl)) as ([err [s h]] & E & Hle & Herr).
  rewrite E. apply wp_ret, wp_ret. split_if; [|done]. apply andb_true_iff in Hc1 as [Hf%negb_true_iff%failed_false _].
  subst err. destruct Herr as (_ & H4 & _). pose proof (len_nonneg s).
  assert (Hs : seed_ok (mkSeed (chars "fuzz_http")
    (seedName (if Http.isResponse h then chars "response" else lowercase (Http.method h))
       (ztake (Z.min (len p.(payload)) MAX_HTTP_SEED_LEN) p.(payload)))
    (ztake (Z.min (len p.(payload)) MAX_HTTP_SEED_LEN) p.(payload)))).
  { apply seed_target; [auto| |auto with pcap|].
    - apply seedName_word. destruct (Http.isResponse h) eqn:Er; [by apply word_checked|].
      apply lowercase_word. by eapply Http.parse_method.
    - intros He%(f_equal len). rewrite len_ztake in He by (unfold MAX_HTTP_SEED_LEN; lia).
      unfold MAX_HTTP_SEED_LEN in He. change (len (@nil Z)) with 0 in He. lia. }
  by destruct (push_seed_ok c _ Hc Hs).
Qed.

Lemma collectFlow_ok p k r c : record_ok r → collection_ok c → collection_ok (collectFlow p k r c).
Proof.
  intros Hr [H1 H2]. unfold collectFlow. split_if; [|done]. split; [done|]. intros j l. cbn.
  rewrite lookup_insert_Some. intros [[<- <-]|[_ Hj]]; [|by eapply H2]. apply Forall_app.
  split; [|by apply Forall_singleton]. destruct (flow_records c !! _) as [l|] eqn:E; [by eapply H2|by apply Forall_nil_2].
Qed.

Lemma wp_collectRecord lt n m r c :
  record_ok r → collection_ok c → wp (collectRecord lt n m r c) collection_ok.
Proof.
  intros Hr Hc. pose proof Hr as (_ & Hb & Hl & Hpl). unfold collectRecord. cbn zeta. apply wp_bind.
  eapply wp_mono; [apply (PacketDecoder.wp_decodePacket r.(frame) (setDatatypeFromLinktype zeroPacket lt) false);
    [done|done|by split|]|].
  { unfold PacketDecoder.eth_whole. cbn. by destruct (_ =? _). }
  intros [err [s p]] (_ & _ & _ & _ & Hp & _). split_if; [done|].
  assert (Hpb : bytes_ok p.(payload)) by (destruct Hp as [->|Hp]; [by apply Forall_nil_2|by eapply slice_bytes_ok]).
  assert (Hpp : Http.plain p.(payload)).
  { destruct Hp as [->|Hp]; [by apply Http.plain_checked|by eapply Http.plain_slice]. }
  destruct (keyFromPacket p zeroKey) as [e k]. pose proof (collectPacket_ok m r p c Hr Hc) as Hok1. split_if; [done|].
  apply wp_bind. eapply wp_mono; [by apply wp_collectDns|]. intros c2 Hok2.
  apply wp_bind. eapply wp_mono; [by apply wp_collectHttp|]. intros c3 Hok3. by apply wp_ret, collectFlow_ok.
Qed.

Lemma wp_collectRecords lt n m l c :
  Forall record_ok l → collection_ok c → wp (collectRecords lt n m l c) collection_ok.
Proof.
  intros Hl. revert c. induction Hl as [|r l Hr _ IH]; intros c Hc; [done|]. cbn [collectRecords].
  apply wp_bind. eapply wp_mono; [by apply wp_collectRecord|]. exact IH.
Qed.

Record file_ok (f : CaptureFile) : Prop := {
  fi_header : bytes_ok f.(file_header) ∧ len f.(file_header) = 24;
  fi_records : Forall record_ok f.(records);
}.

Lemma wp_readRecords e span acc :
  bytes_ok span → Http.plain span → Forall record_ok acc →
  wp (loop (S (length span)) (readRecords_body e) (span, acc)) (Forall record_ok).
Proof.
  intros Hb Hpl Ha. eapply (wp_loop (λ st, bytes_ok st.1 ∧ Http.plain st.1 ∧ Forall record_ok st.2) _ (λ st, len st.1));
    [|done|cbn; unfold len; lia].
  clear span acc Hb Hpl Ha. intros [span acc] (Hb & Hpl & Ha). cbn [fst snd] in *. unfold readRecords_body.
  change Pcap.PACKET_HEADER_LEN with 16. split_if; [by apply wp_ret|]. wp_step. wp_step. apply wp_bind.
  destruct (Reader.parsePacketHeader_cases span Pcap.zeroPacketHeader e Hb) as (err & s & h & -> & Hno & _).
  apply wp_ret. split_if; [by apply wp_ret|]. apply orb_false_iff in Hc0 as [->%failed_false Hc0].
  destruct (Hno eq_refl) as (-> & H16 & Hi). pose proof (len_zdrop 16 span ltac:(lia)).
  do 5 wp_step. cbn [fst snd]. split; [split; [|split]|].
  - auto with pcap.
  - eapply Http.plain_slice; [apply slice_zdrop|]. by eapply Http.plain_slice; [apply slice_zdrop|].
  - apply Forall_app. split; [done|]. apply Forall_singleton. split; [|split; [|split]]; cbn; [auto with pcap..| |].
    + rewrite len_ztake; lia.
    + eapply Http.plain_slice; [apply slice_ztake|]. by eapply Http.plain_slice; [apply slice_zdrop|].
  - rewrite len_zdrop; lia.
Qed.

Lemma wp_readCapture path data :
  bytes_ok data → Http.plain data → wp (readCapture path (Some data)) (λ r, match r with inr f => file_ok f | inl _ => True end).
Proof.
  intros Hb Hpl. unfold readCapture. apply wp_bind.
  eapply wp_mono; [by apply Safety.wp_parseFileHeader|]. intros [err [[s h] e]] [Hs Hno].
  split_if; [by apply wp_ret|]. apply failed_false in Hc as ->. destruct (Hno eq_refl) as [Hl ->].
  change Pcap.FILE_HEADER_LEN with 24. wp_step. wp_step. wp_step.
  eapply wp_mono; [apply wp_readRecords; [done|eapply Http.plain_slice; [apply slice_zdrop|done]|by apply Forall_nil_2]|]. intros l Hl'. apply wp_ret.
  split; [split|done]; cbn [file_header]; [auto with pcap|]. rewrite len_ztake; lia.
Qed.

Lemma pcapBlob_ok f l : file_ok f → Forall record_ok l → bytes_ok (pcapBlob f l) ∧ pcapBlob f l ≠ [].
Proof.
  intros [[Hb Hl] _] Hr. unfold pcapBlob. split.
  - apply bytes_ok_app. split; [done|]. induction Hr as [|r l (H1 & H2 & _) _ IH]; [by apply Forall_nil_2|].
    cbn [map concat]. apply bytes_ok_app. split; [by apply bytes_ok_app|done].
  - intros [E _]%app_eq_nil. by rewrite E in Hl.
Qed.

Lemma flowSeeds_ok f flows l b1 b2 :
  file_ok f → (∀ k l, flows !! k = Some l → Forall record_ok l) → Forall seed_ok (flowSeeds f flows l b1 b2).
Proof.
  intros Hf Hfl. revert b1 b2. induction l as [|k l IH]; intros b1 b2; [by apply Forall_nil_2|].
  cbn [flowSeeds]. cbn zeta. repeat (split_if; [apply IH|]). apply Forall_cons_2; [|apply IH].
  destruct (pcapBlob_ok f (default [] (flows !! k)) Hf) as [H1 H2].
  { destruct (flows !! k) eqn:E; [by eapply Hfl|by apply Forall_nil_2]. }
  apply seed_target; [auto 6|split_if; by apply word_checked|done|done].
Qed.

(** No synthetic frame stops the generator. *)
Lemma synthetic_frames_accepted :
  Forall (λ f, ∃ err s, decode_synthetic f.2 = Ret (err, s) ∧ synthetic_accepted err = true ∧
               is_word f.1 ∧ bytes_ok f.2) syntheticFrames.
Proof.
  assert (H : forallb (λ f, match decode_synthetic f.2 with Ret (err, _) => synthetic_accepted err | _ => false end &&
    word_check f.1 && forallb (λ b, (0 <=? b) && (b <? 256)) f.2) syntheticFrames = true) by (vm_compute; reflexivity).
  apply List.Forall_forall. rewrite forallb_forall in H. intros f Hf. apply H in Hf.
  apply andb_true_iff in Hf as [[Hd Hw]%andb_true_iff Hb].
  destruct (decode_synthetic f.2) as [[err s]| |]; [|done..]. exists err, s. split_and!; [done|done|by apply word_checked|].
  apply List.Forall_forall. rewrite forallb_forall in Hb. intros b Hin. apply Hb in Hin. unfold is_byte. lia.
Qed.

Lemma collectSynthetic_ok l acc :
  Forall (λ f, ∃ err s, decode_synthetic f.2 = Ret (err, s) ∧ synthetic_accepted err = true ∧
               is_word f.1 ∧ bytes_ok f.2) l →
  Forall seed_ok acc →
  ∃ l', collectSynthetic l acc = Ret (inr l') ∧ Forall seed_ok l' ∧
    l' = acc ++ map (λ f, mkSeed (chars "fuzz_packet") f.1 ([CHECKSUMS_OFF] ++ f.2)) l.
Proof.
  intros Hl. revert acc. induction Hl as [|[n fr] l (err & s & E & Ha & Hw & Hb) _ IH]; intros acc Hacc.
  { exists acc. by rewrite app_nil_r. }
  cbn [collectSynthetic fst snd] in *. rewrite E, bind_ret. cbn iota beta. rewrite Ha. cbn [negb].
  destruct (IH (acc ++ [mkSeed (chars "fuzz_packet") n ([CHECKSUMS_OFF] ++ fr)])) as (l' & -> & Hok & ->).
  { apply Forall_app. split; [done|]. apply Forall_singleton, seed_target; [auto|done| |done].
    apply Forall_cons_2; [split; unfold CHECKSUMS_OFF; lia|done]. }
  eexists. split; [done|]. split; [done|]. cbn [map fst snd]. by rewrite <- app_assoc.
Qed.

Lemma wp_collectSeeds n m f :
  file_ok f → wp (collectSeeds n m f) (λ r, ∃ l, r = inr l ∧ Forall seed_ok l).
Proof.
  intros Hf. pose proof Hf as [_ Hr]. unfold collectSeeds. apply wp_bind.
  eapply wp_mono; [apply wp_collectRecords; [exact Hr|by split; [apply Forall_nil_2|]]|].
  intros c [Hs Hfl].
  destruct (collectSynthetic_ok _ c.(seeds) synthetic_frames_accepted Hs) as (l & -> & Hl & _). rewrite bind_ret.
  apply wp_ret. eexists. split; [done|].
  assert (Hfirst : ∀ n, Forall record_ok (firstRecords f n)) by (intros k; by apply Forall_take).
  apply Forall_app. split; [done|]. apply Forall_app. split.
  { apply Forall_singleton. destruct (pcapBlob_ok f _ Hf (Hfirst CAPTURE_HEAD_PACKETS)).
    apply seed_target; [auto 6|by apply word_checked|done|done]. }
  apply Forall_app. split; [by apply flowSeeds_ok|].
  destruct (pcapBlob_ok f _ Hf (Hfirst PCAP_HEADER_SEED_PACKETS)).
  repeat apply Forall_cons_2; [| | |by apply Forall_nil_2];
    (apply seed_target; [auto 8|by apply word_checked| |done]); [done|..];
    (unfold bytes_ok; vm_compute; repeat (apply Forall_cons_2; [split; done|]); by apply Forall_nil_2).
Qed.

(** ** Lemmas: the order of the seeds *)

Lemma string_lt_irrefl a : StatsEngine.string_lt a a = false.
Proof. induction a as [|x a IH]; [done|]. cbn. by rewrite Z.eqb_refl. Qed.
Lemma string_lt_trans a b c :
  StatsEngine.string_lt a b = true → StatsEngine.string_lt b c = true → StatsEngine.string_lt a c = true.
Proof.
  revert b c. induction a as [|x a IH]; intros [|y b] [|z c]; cbn; try done.
  destruct (Z.eqb_spec x y) as [->|Hxy], (Z.eqb_spec y z) as [->|Hyz]; try done.
  - apply IH.
  - by rewrite (proj2 (Z.eqb_neq _ _)).
  - intros ?%Z.ltb_lt ?%Z.ltb_lt. rewrite (proj2 (Z.eqb_neq x z)) by lia. apply Z.ltb_lt. lia.
Qed.
Lemma string_lt_total a b :
  StatsEngine.string_lt a b = false → StatsEngine.string_lt b a = false → a = b.
Proof.
  revert b. induction a as [|x a IH]; intros [|y b]; cbn; try done.
  rewrite (Z.eqb_sym y x). destruct (Z.eqb_spec x y) as [->|Hne]; [intros; f_equal; by apply IH|lia].
Qed.

(** [seed_before] is a strict order in which any two seeds are comparable. *)
Lemma seed_before_irrefl a : seed_before a a = false.
Proof. unfold seed_before. rewrite !bool_decide_eq_true_2 by done. apply string_lt_irrefl. Qed.
Lemma seed_before_total a b : seed_before a b = false → seed_before b a = false → a = b.
Proof.
  destruct a as [t n x], b as [t' n' x']. unfold seed_before. cbn.
  repeat case_bool_decide; cbn; subst; try done; intros Hab Hba; pose proof (string_lt_total _ _ Hab Hba); by subst.
Qed.
Lemma seed_before_trans a b c : seed_before a b = true → seed_before b c = true → seed_before a c = true.
Proof.
  destruct a as [t n x], b as [t' n' x'], c as [t'' n'' x'']. unfold seed_before. cbn.
  repeat case_bool_decide; cbn; subst; try done; try apply string_lt_trans.
  all: intros Hab Hbc; pose proof (string_lt_trans _ _ _ Hab Hbc) as Hac; by rewrite string_lt_irrefl in Hac.
Qed.

Lemma sort_seeds (sort : ∀ A, (A → A → bool) → list A → list A) l :
  StatsEngine.sorts_all sort →
  sort _ seed_before l ≡ₚ l ∧ StronglySorted (λ a b, seed_before b a = false) (sort _ seed_before l).
Proof.
  intros Hs. apply Hs.
  - intros; apply seed_before_irrefl.
  - intros a b c ???. apply seed_before_trans.
  - intros a b c ??? H1 H2. destruct (seed_before a c) eqn:E; [|done].
    destruct (seed_before c b) eqn:E1; [by rewrite (seed_before_trans _ _ _ E E1) in H1|].
    by rewrite <- (seed_before_total b c) in E by done; rewrite E in H1.
Qed.

(** ** Lemmas: unpacking *)

(** The file [unpack] writes a seed to. *)
Definition seed_file (out_dir : bytes) (s : Seed) : bytes := path_append (path_append out_dir s.(target)) s.(name).

Definition wanted (only_target : bytes) (s : Seed) : bool :=
  bool_decide (only_target = []) || bool_decide (s.(target) = only_target).

(** The file system makes the seed's directory and takes its bytes. *)
Definition storable (create_directories : bytes → option bytes) (store : bytes → bytes → option bytes * bool)
    (out_dir : bytes) (s : Seed) : bool :=
  bool_decide (create_directories (path_append out_dir s.(target)) = None) && (store (seed_file out_dir s) s.(blob)).2.

(** What trying to write a seed leaves: nothing where its directory cannot be made
    or its file not opened, and otherwise what the file was left with. *)
Definition leave_seed (create_directories : bytes → option bytes) (store : bytes → bytes → option bytes * bool)
    (out_dir : bytes) (m : gmap bytes bytes) (s : Seed) : gmap bytes bytes :=
  match create_directories (path_append out_dir s.(target)), (store (seed_file out_dir s) s.(blob)).1 with
  | None, Some content => <[seed_file out_dir s := content]> m
  | _, _ => m
  end.

Section unpacking.
Context (create_directories : bytes → option bytes) (store : bytes → bytes → option bytes * bool).
Context (out_dir only_target : bytes).
Notation step := (λ u s, unpackSeed create_directories store out_dir only_target s u).
Notation storable := (storable create_directories store out_dir).
Notation leave_seed := (leave_seed create_directories store out_dir).

Lemma unpackSeed_unwanted s u : wanted only_target s = false → step u s = u.
Proof. unfold wanted, unpackSeed. intros [-> ->]%orb_false_iff. by rewrite orb_true_r. Qed.

Lemma unpackSeed_stuck l u : u.(write_error) ≠ [] → foldl step u l = u.
Proof.
  intros Hu. induction l as [|s l IH]; [done|]. cbn [foldl]. unfold unpackSeed at 2.
  by rewrite (bool_decide_eq_false_2 _ Hu).
Qed.

(** The callback on a seed that is wanted, before anything failed. *)
Lemma unpackSeed_wanted s u :
  wanted only_target s = true → u.(write_error) = [] →
  let u' := step u s in
  u'.(unpacked).(cout) = u.(unpacked).(cout) ∧ u'.(unpacked).(cerr) = u.(unpacked).(cerr) ∧
  u'.(unpacked).(files) = leave_seed u.(unpacked).(files) s ∧
  if storable s then u'.(count_written) = u.(count_written) + 1 ∧ u'.(write_error) = [] else u'.(write_error) ≠ [].
Proof.
  unfold wanted. intros Hw Hu. cbn zeta. unfold unpackSeed. rewrite Hu, (bool_decide_eq_true_2 _ eq_refl).
  assert (negb (bool_decide (only_target = [])) && negb (bool_decide (target s = only_target)) = false) as ->
    by (apply orb_true_iff in Hw as [-> | ->]; by rewrite ?andb_false_r).
  unfold SeedTool.storable, SeedTool.leave_seed.
  fold (seed_file out_dir s). destruct (create_directories _) as [message|]; cbn -[path_append].
  - split_and!; try done. by intros [_ ?]%app_eq_nil.
  - destruct (store _ _) as [[kept|] [|]]; cbn -[path_append]; split_and!; try done;
      by intros [_ ?]%app_eq_nil.
Qed.

(** As long as every wanted seed can be stored, all of them are. *)
Lemma unpackSeed_writes l u :
  Forall (λ s, storable s = true) (List.filter (wanted only_target) l) → u.(write_error) = [] →
  let u' := foldl step u l in
  let written := List.filter (wanted only_target) l in
  u'.(count_written) = u.(count_written) + len written ∧ u'.(write_error) = [] ∧
  u'.(unpacked).(cout) = u.(unpacked).(cout) ∧ u'.(unpacked).(cerr) = u.(unpacked).(cerr) ∧
  u'.(unpacked).(files) = foldl leave_seed u.(unpacked).(files) written.
Proof.
  revert u. induction l as [|s l IH]; intros u Hl Hu; cbn [foldl List.filter] in *.
  { change (len (@nil Seed)) with 0. by rewrite Z.add_0_r. }
  destruct (wanted only_target s) eqn:Hw; [|by rewrite unpackSeed_unwanted by done; apply IH].
  apply Forall_cons in Hl as [Hst Hl]. destruct (unpackSeed_wanted s u Hw Hu) as (Hco & Hce & Hf & H).
  rewrite Hst in H. destruct H as (Hn & He). cbn zeta in *.
  destruct (IH _ Hl He) as (-> & -> & -> & -> & ->). rewrite Hn, Hco, Hce, Hf, len_cons. split_and!; [lia|done..].
Qed.

(** The first one that cannot be is the last that is tried. *)
Lemma unpackSeed_fails l u done s rest :
  List.filter (wanted only_target) l = done ++ s :: rest → Forall (λ s, storable s = true) done → storable s = false →
  u.(write_error) = [] →
  let u' := foldl step u l in
  u'.(write_error) ≠ [] ∧ u'.(unpacked).(cout) = u.(unpacked).(cout) ∧ u'.(unpacked).(cerr) = u.(unpacked).(cerr) ∧
  u'.(unpacked).(files) = leave_seed (foldl leave_seed u.(unpacked).(files) done) s.
Proof.
  cbn zeta. revert u done. induction l as [|x l IH]; intros u done El Hd Hf Hu; [by destruct done|].
  cbn [foldl List.filter] in *. destruct (wanted only_target x) eqn:Hw; [|by rewrite unpackSeed_unwanted by done; apply IH].
  destruct (unpackSeed_wanted x u Hw Hu) as (Hco & Hce & Hfi & H). cbn zeta in *. destruct done as [|y done]; injection El as -> El.
  - rewrite Hf in H. by rewrite unpackSeed_stuck, Hfi.
  - apply Forall_cons in Hd as [Hy Hd]. rewrite Hy in H. destruct H as (Hn & He).
    destruct (IH _ _ El Hd Hf He) as (H & -> & -> & ->). by rewrite Hco, Hce, Hfi.
Qed.

Lemma leave_seeds l m :
  Forall (λ s, storable s = true) l → (∀ s, s ∈ l → (store (seed_file out_dir s) s.(blob)).1 = Some s.(blob)) →
  foldl leave_seed m l = foldl (λ m s, <[seed_file out_dir s := s.(blob)]> m) m l.
Proof.
  intros Hl. revert m. induction Hl as [|s l Hst _ IH]; intros m Hk; [done|]. cbn [foldl].
  rewrite IH by (intros; apply Hk; by right). f_equal. unfold SeedTool.leave_seed.
  apply andb_true_iff in Hst as [->%bool_decide_eq_true _]. by rewrite Hk by left.
Qed.
End unpacking.

Lemma first_unstored (stored : Seed → bool) l :
  ¬ Forall (λ s, stored s = true) l →
  ∃ before s rest, l = before ++ s :: rest ∧ Forall (λ s, stored s = true) before ∧ stored s = false.
Proof.
  induction l as [|x l IH]; intros Hl; [by destruct Hl|]. destruct (stored x) eqn:Ex; [|by exists [], x, l].
  destruct IH as (b & y & r & -> & Hb & Hy); [by intros H; apply Hl; constructor|].
  exists (x :: b), y, r. by split_and!; [|constructor|].
Qed.
Lemma unstored_unique (stored : Seed → bool) b1 b2 s1 s2 r1 r2 :
  b1 ++ s1 :: r1 = b2 ++ s2 :: r2 → Forall (λ s, stored s = true) b1 → Forall (λ s, stored s = true) b2 →
  stored s1 = false → stored s2 = false → b1 = b2 ∧ s1 = s2.
Proof.
  intros E H1 H2 Hs1 Hs2. revert b2 E H2. induction H1 as [|x b Hx _ IH]; intros [|x2 b2] [= -> E] H2; [done|..].
  - apply Forall_cons in H2 as [? _]. congruence.
  - congruence.
  - apply Forall_cons in H2 as [_ H2]. by destruct (IH b2 E H2) as [-> ->].
Qed.

(** ** Properties *)

(** C15: the generator always comes to an end, and what it writes can be read: for
    any capture, one that does not open or parse included, that has no line
    like the one of [Http.negative_digit], on which [std::isdigit] is undefined
    ([Http.plain]), [generate] answers
    with an exit code; when that is 0 the file holds, in their order, all seeds
    that were collected, and [forEachSeed], which [unpack] reads it with, visits
    exactly these. *)
Theorem generate_corpus (load : bytes → option bytes) (open_file : bytes → bool)
    (close_file : bytes → bytes → bytes * bool) (sort : ∀ A, (A → A → bool) → list A → list A)
    (pcap_path out_path : bytes) (per_payload per_kind : Z) (w : World) :
  StatsEngine.sorts_all sort → (∀ data, load pcap_path = Some data → bytes_ok data ∧ Http.plain data) →
  (∀ path content, (close_file path content).2 = true → (close_file path content).1 = content) →
  ∃ code w', generate load open_file close_file sort pcap_path out_path per_payload per_kind w = Ret (code, w') ∧
    (code = 0 →
     ∃ f l text, readCapture pcap_path (load pcap_path) = Ret (inr f) ∧
       collectSeeds per_payload per_kind f = Ret (inr l) ∧
       w'.(files) = <[out_path := text]> w.(files) ∧
       let sorted := sort _ seed_before l in
       sorted ≡ₚ l ∧ StronglySorted (λ a b, seed_before b a = false) sorted ∧
       ∀ St (on_seed : Seed → St → St) path s,
         forEachSeed on_seed path (Some text) s = ([], foldl (λ s x, on_seed x s) s sorted)).
Proof.
  intros Hsort Hload Hclose. unfold generate. destruct (load pcap_path) as [data|] eqn:El.
  2: { cbn. eexists _, _. split; [done|]. done. }
  destruct (wp_returns _ _ (wp_readCapture pcap_path data (proj1 (Hload _ eq_refl)) (proj2 (Hload _ eq_refl)))) as (r & Er & Hr). rewrite Er, bind_ret.
  destruct r as [error|f]; [by eexists _, _|].
  destruct (wp_returns _ _ (wp_collectSeeds per_payload per_kind f Hr)) as (r & Ec & l & -> & Hl). rewrite Ec, bind_ret.
  cbn zeta. destruct (sort_seeds sort l Hsort) as [Hp Hs]. assert (Hok : Forall seed_ok (sort _ seed_before l)) by (by rewrite Hp).
  split_if; [by eexists _, _|]. set (text := concat (map seed_line _)). pose proof (Hclose out_path text) as Hkept.
  destruct (close_file out_path text) as [kept good]. split_if; [by eexists _, _|]. apply negb_false_iff in Hc0 as ->.
  specialize (Hkept eq_refl). cbn in Hkept. subst kept. eexists _, _. split; [done|]. intros _.
  exists f, l, text. split_and!; [done|done|done|done|done|]. intros St on_seed path s. cbn [forEachSeed]. unfold text.
  by rewrite lines_seeds, eachLine_seeds.
Qed.

(** C17: unpacking restores the seeds, whatever the file system answers.  From the
    file of a list of seeds, those for the target asked for (all without
    [--target]) are tried in the order of the file, each at the path
    [DIR / target / name], the name itself where that is an absolute path.  If
    every one of them can be written and there is one, [unpack] answers 0; then
    each of these files holds what the file system kept of its seed's bytes, all
    of them if nothing is lost once [write] has succeeded, and all other files
    are as they were.  If one cannot be written it answers 1 with a message, and
    none after it is tried.  If there is none it answers 1 with a message and
    touches no file. *)
Theorem unpack_corpus (load : bytes → option bytes) (create_directories : bytes → option bytes)
    (store : bytes → bytes → option bytes * bool) (seeds_path out_dir only_target : bytes) (l : list Seed) (w : World) :
  Forall seed_ok l → load seeds_path = Some (concat (map seed_line l)) →
  let asked := List.filter (wanted only_target) l in
  let stored := storable create_directories store out_dir in
  let leave := leave_seed create_directories store out_dir in
  ∃ code w', unpack load create_directories store seeds_path out_dir only_target w = (code, w') ∧
    (code = 0 ∧ w'.(cerr) = w.(cerr) ∨ code = 1 ∧ ∃ message, message ≠ [] ∧ w'.(cerr) = w.(cerr) ++ message) ∧
    (code = 0 ↔ asked ≠ [] ∧ Forall (λ s, stored s = true) asked) ∧
    (Forall (λ s, stored s = true) asked →
       w'.(files) = foldl leave w.(files) asked ∧
       ((∀ s, s ∈ asked → (store (seed_file out_dir s) s.(blob)).1 = Some s.(blob)) →
        w'.(files) = foldl (λ m s, <[seed_file out_dir s := s.(blob)]> m) w.(files) asked)) ∧
    (∀ before s rest, asked = before ++ s :: rest → Forall (λ s, stored s = true) before → stored s = false →
       w'.(files) = foldl leave w.(files) (before ++ [s])).
Proof.
  intros Hl Hload. cbn zeta. unfold unpack. rewrite Hload. cbn [forEachSeed]. rewrite lines_seeds, eachLine_seeds by done.
  set (asked := List.filter _ _). set (stored := storable _ _ _). set (u' := foldl _ _ _).
  destruct (decide (Forall (λ s, stored s = true) asked)) as [Hall|Hsome].
  - destruct (unpackSeed_writes create_directories store out_dir only_target l (mkUnpacking 0 [] w) Hall eq_refl)
      as (Hn & He & Hco & Hce & Hf).
    cbn zeta in *. fold u' asked in Hn, He, Hco, Hce, Hf. rewrite He. cbn -[foldl unpackSeed] in *.
    assert (Hno : ∀ before s rest, asked = before ++ s :: rest → stored s = false → False).
    { intros before s rest E E0. rewrite E in Hall. apply Forall_app in Hall as [_ [? _]%Forall_cons]. congruence. }
    rewrite Hn. destruct (Z.eqb_spec (0 + len asked) 0) as [E0|E0]; eexists _, _; (split; [done|]); cbn -[foldl]; rewrite Hce, Hf.
    + assert (asked = []) as -> by (destruct asked as [|x r]; [done|]; rewrite len_cons in E0; pose proof (len_nonneg r); lia).
      split; [|by split; [split; [done|intros [? _]]|split; [|by intros [|] ??]]].
      right. split; [done|]. eexists. split; [|done]. by intros [_ ?]%app_eq_nil.
    + split; [by left|]. split; [split; [|done]; intros _; split; [|done]; intros E; by rewrite E in E0|].
      split; [|intros; exfalso; eauto]. intros _. split; [done|]. by apply leave_seeds.
  - destruct (first_unstored stored asked Hsome) as (before & s & rest & E & Hb & Hst).
    destruct (unpackSeed_fails create_directories store out_dir only_target l (mkUnpacking 0 [] w) before s rest E Hb Hst eq_refl)
      as (He & Hco & Hce & Hf).
    cbn zeta in *. fold u' in He, Hco, Hce, Hf. rewrite (bool_decide_eq_true_2 _ eq_refl), (bool_decide_eq_false_2 _ He).
    cbn -[foldl unpackSeed] in *. eexists _, _. split; [done|]. cbn -[foldl]. rewrite Hce, Hf.
    split; [|split; [by split; [|intros [_ ?]]|split; [done|]]].
    + right. split; [done|]. eexists. split; [|done]. by intros [_ ?]%app_eq_nil.
    + intros b2 s2 r2 E2 Hb2 Hs2. rewrite E in E2. destruct (unstored_unique stored _ _ _ _ _ _ E2 Hb Hb2 Hst Hs2) as [-> ->].
      by rewrite foldl_app.
Qed.

(** ** Witnesses *)

Definition sample_generate : outcome (Z * World) :=
  generate (λ _, Some Mapping.sample_pcap) (λ _, true) (λ _ content, (content, true)) StatsEngine.std_sort
    (chars "a.pcap") (chars "seeds.txt") 4 1 no_world.

Lemma foldl_cons_rev {A} (l acc : list A) : foldl (λ s x, x :: s) acc l = rev l ++ acc.
Proof. revert acc. induction l as [|x l IH]; intros acc; [done|]. cbn. by rewrite IH, <- app_assoc. Qed.

Definition sample_collected : list Seed :=
  returned [] (r ← readCapture (chars "a.pcap") (Some Mapping.sample_pcap);
               match r with
               | inl _ => Ret []
               | inr f => r ← collectSeeds 4 1 f; Ret (match r with inl _ => [] | inr l => l end)
               end).

Lemma sample_generate_exits : sample_generate = Ret (0, world_of sample_generate).
Proof. apply (exits_eq 0). vm_compute. reflexivity. Qed.
Lemma sample_collected_len : len sample_collected = 14.
Proof. apply Z.eqb_eq. vm_compute. reflexivity. Qed.

(** The capture of two datagrams gives fourteen seeds, which are read back. *)
Lemma generate_corpus_witness :
  ∃ w' text l, sample_generate = Ret (0, w') ∧ w'.(files) = {[chars "seeds.txt" := text]} ∧ len l = 14 ∧
    ∀ path, forEachSeed cons path (Some text) [] = ([], rev l).
Proof.
  destruct (generate_corpus (λ _, Some Mapping.sample_pcap) (λ _, true) (λ _ content, (content, true))
    StatsEngine.std_sort (chars "a.pcap") (chars "seeds.txt") 4 1 no_world StatsEngine.std_sorts) as (code & w' & Eg & Hg).
  { intros data [= <-]. split; [apply Mapping.sample_pcap_bytes|]. apply Http.plain_checked. vm_compute. reflexivity. }
  { done. }
  fold sample_generate in Eg. pose proof sample_generate_exits as E0. rewrite Eg in E0. injection E0 as ->.
  destruct (Hg eq_refl) as (f & l & text & Ef & El & Hfiles & Hp & _ & Hread).
  exists w', text, (StatsEngine.std_sort _ seed_before l). split_and!; [exact Eg|by rewrite Hfiles| |].
  - unfold len. rewrite Hp. pose proof sample_collected_len as Hlen. unfold sample_collected in Hlen. by rewrite Ef, bind_ret, El in Hlen.
  - intros path. rewrite Hread. by rewrite foldl_cons_rev, app_nil_r.
Defined.

Definition sample_seeds : list Seed :=
  [Seeds.sample_seed; mkSeed (chars "fuzz_dns") (chars "query-00000000") [0; 1];
   mkSeed (chars "fuzz_address") (chars "v4-text") (chars "10.0.0.1")].

Lemma sample_seeds_ok : Forall seed_ok sample_seeds.
Proof.
  repeat apply Forall_cons_2; [| | |by apply Forall_nil_2];
    (split; [split; [by apply word_checked|done]|by apply word_checked|split; [|done]]);
    (unfold bytes_ok; vm_compute; repeat (apply Forall_cons_2; [split; done|]); by apply Forall_nil_2).
Qed.

(** A file system in which only the file [v6-text] can be written; unpacking the
    seeds for addresses stops at the second. *)
Lemma unpack_corpus_witness :
  let store := λ path content : bytes, if bool_decide (path = chars "out/fuzz_address/v6-text") then (Some content, true)
                                      else (None, false) in
  ∃ w', unpack (λ _, Some (concat (map seed_line sample_seeds))) (λ _, None) store
          (chars "seeds.txt") (chars "out") (chars "fuzz_address") no_world = (1, w') ∧
    w'.(files) = {[chars "out/fuzz_address/v6-text" := chars "2001:db8::1"]}.
Proof.
  set (store := λ path content : bytes, _). cbn zeta.
  destruct (unpack_corpus (λ _, Some (concat (map seed_line sample_seeds))) (λ _, None) store
    (chars "seeds.txt") (chars "out") (chars "fuzz_address") sample_seeds no_world sample_seeds_ok eq_refl)
    as (code & w' & E & Hcode & H0 & _ & Hf).
  exists w'. rewrite E. specialize (Hf [Seeds.sample_seed] (mkSeed (chars "fuzz_address") (chars "v4-text") (chars "10.0.0.1")) []
    eq_refl ltac:(by apply Forall_singleton) eq_refl). split; [|exact Hf].
  destruct Hcode as [[-> _]|[-> _]]; [|done]. destruct (proj1 H0 eq_refl) as [_ H].
  apply Forall_cons in H as [_ [H _]%Forall_cons]. by vm_compute in H.
Defined.
